(** * sch_fq with co-flow promotion: a shallow embedding of [src/sch_fq.c]

    The scheduler is embedded as pure functions over an explicit state.
    Kernel pointers become names: a socket is named by its address, a flow
    by the key it is stored under ([f->sk]), a packet by its address.
    The two red-black trees of a flow scheduler (the per-flow tree of
    out-of-order packets, and the tree of throttled flows) are represented
    by their in-order sequences, which is all [rb_first], [rb_erase] and an
    ordered descent can observe; the rebalancing of lib/rbtree.c preserves
    that sequence. *)

From stdpp Require Import base numbers option list sorting gmap.

Open Scope Z_scope.

(** ** Machine integers *)

Module Int.

Definition wrap (w x : Z) : Z := x mod 2 ^ w.

(** Unsigned casts: the value is reduced modulo 2^w. *)
Definition u8 (x : Z) : Z := wrap 8 x.
Definition u32 (x : Z) : Z := wrap 32 x.
Definition u64 (x : Z) : Z := wrap 64 x.

(** Signed casts: two's complement reading of the low w bits. *)
Definition signed (w x : Z) : Z :=
  let y := wrap w x in
  if y <? 2 ^ (w - 1) then y else y - 2 ^ w.
Definition s32 (x : Z) : Z := signed 32 x.
Definition s64 (x : Z) : Z := signed 64 x.

(** [~0ULL] and [~0U]. *)
Definition U64_MAX : Z := 2 ^ 64 - 1.
Definition U32_MAX : Z := 2 ^ 32 - 1.

Definition is_u64 (x : Z) : Prop := 0 <= x <= U64_MAX.
Definition is_u32 (x : Z) : Prop := 0 <= x <= U32_MAX.

End Int.
Export Int.

(** Constants of the kernel headers the file includes. *)
Definition NSEC_PER_SEC : Z := 1000000000.
Definition NSEC_PER_USEC : Z := 1000.
Definition TC_PRIO_MAX : Z := 15.
Definition TC_PRIO_CONTROL : Z := 7.
Definition TCP_CLOSE : Z := 7.
Definition TCP_LISTEN : Z := 10.
Definition TCP_NEW_SYN_RECV : Z := 12.
Definition EINVAL : Z := 22.
Definition ENOMEM : Z := 12.

Definition USEC_PER_SEC : Z := 1000000.
Definition MSEC_PER_SEC : Z := 1000.

(** [MAX_JIFFY_OFFSET] of linux/jiffies.h, [(LONG_MAX >> 1) - 1], for a
    64-bit [long]. *)
Definition MAX_JIFFY_OFFSET : Z := Z.shiftr (2 ^ 63 - 1) 1 - 1.

(** [time_after(a, b)] of linux/jiffies.h: [(long)(b - a) < 0]. *)
Definition time_after (a b : Z) : bool := s64 (b - a) <? 0.

(** ** Sockets and packets *)

Record sock := Sock {
  sk_addr : Z;          (* the pointer value; word aligned *)
  sk_state : Z;
  sk_hash : Z;
  sk_num : Z;           (* source port *)
  sk_dport : Z;
  sk_pacing_rate : Z
}.

(** [sk_listener]: the socket is a listener or a request socket. *)
Definition sk_listener (s : sock) : bool :=
  (sk_state s =? TCP_LISTEN) || (sk_state s =? TCP_NEW_SYN_RECV).

Record sk_buff := Skb {
  skb_addr : Z;         (* the pointer value; at least 2-aligned *)
  tstamp : Z;           (* skb->tstamp *)
  priority : Z;         (* skb->priority *)
  sk : option sock;     (* skb->sk *)
  skb_hash : Z;         (* the value skb_get_hash(skb) yields *)
  pkt_len : Z;          (* qdisc_pkt_len(skb) *)
  time_to_send : Z      (* fq_skb_cb(skb)->time_to_send *)
}.

Definition set_tstamp (v : Z) (b : sk_buff) : sk_buff :=
  Skb (skb_addr b) v (priority b) (sk b) (skb_hash b) (pkt_len b)
      (time_to_send b).
Definition set_time_to_send (v : Z) (b : sk_buff) : sk_buff :=
  Skb (skb_addr b) (tstamp b) (priority b) (sk b) (skb_hash b) (pkt_len b) v.
Definition set_sk (v : option sock) (b : sk_buff) : sk_buff :=
  Skb (skb_addr b) (tstamp b) (priority b) v (skb_hash b) (pkt_len b)
      (time_to_send b).

(** The address held in [skb->sk], 0 for NULL. *)
Definition skb_sk_addr (b : sk_buff) : Z :=
  match sk b with Some s => sk_addr s | None => 0 end.

(** ** Ordered trees as in-order sequences

    Both descents of the source go right on [>=] and left otherwise, so a
    new node lands after every node whose key is not larger. *)

Fixpoint rb_insert {A} (key : A → Z) (x : A) (l : list A) : list A :=
  match l with
  | [] => [x]
  | y :: l' => if key x >=? key y then y :: rb_insert key x l' else x :: l
  end.

(** [sorted_by key l]: the keys do not decrease along [l]. *)
Definition sorted_by {A} (key : A → Z) (l : list A) : Prop :=
  StronglySorted Z.le (key <$> l).

(** ** Flows *)

Record fq_flow := Flow {
  t_root : list sk_buff;     (* rb-tree of out-of-order packets, in order *)
  head : list sk_buff;       (* the chain head -> ... -> tail *)
  age : Z;                   (* the word shared by f->tail and f->age *)
  flow_sk : Z;               (* f->sk, the key of the flow *)
  socket_hash : Z;
  qlen : Z;
  credit : Z;
  next_is_throttled : bool;  (* f->next == &throttled *)
  time_next_packet : Z
}.

(** A flow as [kmem_cache_zalloc] (or the zeroed private area) yields it. *)
Definition zero_flow : fq_flow := Flow [] [] 0 0 0 0 0 false 0.

Definition set_t_root v f :=
  Flow v (head f) (age f) (flow_sk f) (socket_hash f) (qlen f) (credit f)
       (next_is_throttled f) (time_next_packet f).
Definition set_head v f :=
  Flow (t_root f) v (age f) (flow_sk f) (socket_hash f) (qlen f) (credit f)
       (next_is_throttled f) (time_next_packet f).
Definition set_age v f :=
  Flow (t_root f) (head f) v (flow_sk f) (socket_hash f) (qlen f) (credit f)
       (next_is_throttled f) (time_next_packet f).
Definition set_flow_sk v f :=
  Flow (t_root f) (head f) (age f) v (socket_hash f) (qlen f) (credit f)
       (next_is_throttled f) (time_next_packet f).
Definition set_socket_hash v f :=
  Flow (t_root f) (head f) (age f) (flow_sk f) v (qlen f) (credit f)
       (next_is_throttled f) (time_next_packet f).
Definition set_qlen v f :=
  Flow (t_root f) (head f) (age f) (flow_sk f) (socket_hash f) v (credit f)
       (next_is_throttled f) (time_next_packet f).
Definition set_credit v f :=
  Flow (t_root f) (head f) (age f) (flow_sk f) (socket_hash f) (qlen f) v
       (next_is_throttled f) (time_next_packet f).
Definition set_next_is_throttled v f :=
  Flow (t_root f) (head f) (age f) (flow_sk f) (socket_hash f) (qlen f)
       (credit f) v (time_next_packet f).
Definition set_time_next_packet v f :=
  Flow (t_root f) (head f) (age f) (flow_sk f) (socket_hash f) (qlen f)
       (credit f) (next_is_throttled f) v.

(** [f->age = jiffies | 1UL]. *)
Definition fq_flow_set_detached (jiffies : Z) (f : fq_flow) : fq_flow :=
  set_age (Z.lor (u64 jiffies) 1) f.

(** [!!(f->age & 1UL)]. *)
Definition fq_flow_is_detached (f : fq_flow) : bool :=
  negb (Z.land (age f) 1 =? 0).

Definition fq_flow_is_throttled (f : fq_flow) : bool := next_is_throttled f.

(** [fq_peek]: the first packet of the tree, the head of the chain, or the
    earlier of the two; on a tie the head wins. *)
Definition fq_peek (flow : fq_flow) : option sk_buff :=
  match t_root flow, head flow with
  | [], [] => None
  | [], h :: _ => Some h
  | skb :: _, [] => Some skb
  | skb :: _, h :: _ =>
      if time_to_send skb <? time_to_send h then Some skb else Some h
  end.

(** [rb_erase] of the node of a packet, found by its address. *)
Fixpoint rb_erase_skb (skb : sk_buff) (l : list sk_buff) : list sk_buff :=
  match l with
  | [] => []
  | x :: l' =>
      if skb_addr x =? skb_addr skb then l' else x :: rb_erase_skb skb l'
  end.

(** [fq_erase_head]: [skb == flow->head] compares pointers. *)
Definition fq_erase_head (flow : fq_flow) (skb : sk_buff) : fq_flow :=
  match head flow with
  | h :: rest =>
      if skb_addr skb =? skb_addr h then set_head rest flow
      else set_t_root (rb_erase_skb skb (t_root flow)) flow
  | [] => set_t_root (rb_erase_skb skb (t_root flow)) flow
  end.

(** [flow_queue_add]: append to the chain when it is empty or the packet is
    not earlier than the tail; otherwise insert into the tree.  Appending
    stores the packet's address in the word shared with [age]. *)
Definition flow_queue_add (flow : fq_flow) (skb : sk_buff) : fq_flow :=
  match last (head flow) with
  | None => set_age (skb_addr skb) (set_head [skb] flow)
  | Some tl =>
      if time_to_send skb >=? time_to_send tl
      then set_age (skb_addr skb) (set_head (head flow ++ [skb]) flow)
      else set_t_root (rb_insert time_to_send skb (t_root flow)) flow
  end.

(** ** Scheduler state

    [struct fq_sched_data], the two fields of [struct Qdisc] the scheduler
    uses, and the file-scope variables of the co-flow policy.  The knobs,
    the counters and the co-flow variables are grouped in records of their
    own.  Widths follow the upstream layout: [u32] for the flow counts and
    the limits, [u64] for times and statistics, [int] for [credit] and
    [qlen]. *)

Record fq_params := Params {
  limit : Z;  (* sch->limit *)
  flow_plimit : Z;
  quantum : Z;
  initial_quantum : Z;
  flow_refill_delay : Z;  (* in jiffies *)
  flow_max_rate : Z;  (* unsigned long *)
  low_rate_threshold : Z;
  rate_enable : Z;
  orphan_mask : Z;
  ce_threshold : Z;
  timer_slack : Z;
  horizon : Z;
  horizon_drop : Z;
  f1_sourceport : Z;
  f2_sourceport : Z;
  f1_destport : Z;
  f2_destport : Z
}.

Record fq_stats := Stats {
  stat_gc_flows : Z;
  stat_internal_packets : Z;
  stat_throttled : Z;
  stat_ce_mark : Z;
  stat_horizon_drops : Z;
  stat_horizon_caps : Z;
  stat_flows_plimit : Z;
  stat_pkts_too_long : Z;
  stat_allocation_errors : Z;
  unthrottle_latency_ns : Z
}.

Definition set_stat_gc_flows (v : Z) (r : fq_stats) : fq_stats :=
  Stats v (stat_internal_packets r) (stat_throttled r) (stat_ce_mark r)
    (stat_horizon_drops r) (stat_horizon_caps r) (stat_flows_plimit r)
    (stat_pkts_too_long r) (stat_allocation_errors r)
    (unthrottle_latency_ns r).
Definition set_stat_internal_packets (v : Z) (r : fq_stats) : fq_stats :=
  Stats (stat_gc_flows r) v (stat_throttled r) (stat_ce_mark r)
    (stat_horizon_drops r) (stat_horizon_caps r) (stat_flows_plimit r)
    (stat_pkts_too_long r) (stat_allocation_errors r)
    (unthrottle_latency_ns r).
Definition set_stat_throttled (v : Z) (r : fq_stats) : fq_stats :=
  Stats (stat_gc_flows r) (stat_internal_packets r) v (stat_ce_mark r)
    (stat_horizon_drops r) (stat_horizon_caps r) (stat_flows_plimit r)
    (stat_pkts_too_long r) (stat_allocation_errors r)
    (unthrottle_latency_ns r).
Definition set_stat_ce_mark (v : Z) (r : fq_stats) : fq_stats :=
  Stats (stat_gc_flows r) (stat_internal_packets r) (stat_throttled r) v
    (stat_horizon_drops r) (stat_horizon_caps r) (stat_flows_plimit r)
    (stat_pkts_too_long r) (stat_allocation_errors r)
    (unthrottle_latency_ns r).
Definition set_stat_horizon_drops (v : Z) (r : fq_stats) : fq_stats :=
  Stats (stat_gc_flows r) (stat_internal_packets r) (stat_throttled r)
    (stat_ce_mark r) v (stat_horizon_caps r) (stat_flows_plimit r)
    (stat_pkts_too_long r) (stat_allocation_errors r)
    (unthrottle_latency_ns r).
Definition set_stat_horizon_caps (v : Z) (r : fq_stats) : fq_stats :=
  Stats (stat_gc_flows r) (stat_internal_packets r) (stat_throttled r)
    (stat_ce_mark r) (stat_horizon_drops r) v (stat_flows_plimit r)
    (stat_pkts_too_long r) (stat_allocation_errors r)
    (unthrottle_latency_ns r).
Definition set_stat_flows_plimit (v : Z) (r : fq_stats) : fq_stats :=
  Stats (stat_gc_flows r) (stat_internal_packets r) (stat_throttled r)
    (stat_ce_mark r) (stat_horizon_drops r) (stat_horizon_caps r) v
    (stat_pkts_too_long r) (stat_allocation_errors r)
    (unthrottle_latency_ns r).
Definition set_stat_pkts_too_long (v : Z) (r : fq_stats) : fq_stats :=
  Stats (stat_gc_flows r) (stat_internal_packets r) (stat_throttled r)
    (stat_ce_mark r) (stat_horizon_drops r) (stat_horizon_caps r)
    (stat_flows_plimit r) v (stat_allocation_errors r)
    (unthrottle_latency_ns r).
Definition set_stat_allocation_errors (v : Z) (r : fq_stats) : fq_stats :=
  Stats (stat_gc_flows r) (stat_internal_packets r) (stat_throttled r)
    (stat_ce_mark r) (stat_horizon_drops r) (stat_horizon_caps r)
    (stat_flows_plimit r) (stat_pkts_too_long r) v
    (unthrottle_latency_ns r).
Definition set_unthrottle_latency_ns (v : Z) (r : fq_stats) : fq_stats :=
  Stats (stat_gc_flows r) (stat_internal_packets r) (stat_throttled r)
    (stat_ce_mark r) (stat_horizon_drops r) (stat_horizon_caps r)
    (stat_flows_plimit r) (stat_pkts_too_long r)
    (stat_allocation_errors r) v.

Record coflow_globals := Globals {
  pFlowid0 : Z;  (* pFlowid[0] *)
  pFlowid1 : Z;  (* pFlowid[1] *)
  ucounter : Z;
  flipflag : Z;
  sport : Z;
  dport : Z
}.

Definition set_pFlowid0 (v : Z) (r : coflow_globals) : coflow_globals :=
  Globals v (pFlowid1 r) (ucounter r) (flipflag r) (sport r) (dport r).
Definition set_pFlowid1 (v : Z) (r : coflow_globals) : coflow_globals :=
  Globals (pFlowid0 r) v (ucounter r) (flipflag r) (sport r) (dport r).
Definition set_ucounter (v : Z) (r : coflow_globals) : coflow_globals :=
  Globals (pFlowid0 r) (pFlowid1 r) v (flipflag r) (sport r) (dport r).
Definition set_flipflag (v : Z) (r : coflow_globals) : coflow_globals :=
  Globals (pFlowid0 r) (pFlowid1 r) (ucounter r) v (sport r) (dport r).
Definition set_sport (v : Z) (r : coflow_globals) : coflow_globals :=
  Globals (pFlowid0 r) (pFlowid1 r) (ucounter r) (flipflag r) v (dport r).
Definition set_dport (v : Z) (r : coflow_globals) : coflow_globals :=
  Globals (pFlowid0 r) (pFlowid1 r) (ucounter r) (flipflag r) (sport r) v.

(** A flow is referred to either as [&q->internal] or by its key in the
    table of dynamically allocated flows. *)
Inductive flow_ref := Internal | Dyn (k : Z).

#[global] Instance flow_ref_eq_dec : EqDecision flow_ref.
Proof. solve_decision. Defined.

Record fq_sched_data := Sched {
  cfg : fq_params;  (* the configured knobs *)
  st : fq_stats;  (* the counters *)
  co : coflow_globals;  (* the file-scope co-flow variables *)
  sch_qlen : Z;  (* sch->q.qlen *)
  new_flows : list flow_ref;
  old_flows : list flow_ref;
  co_flows : list flow_ref;
  delayed : list flow_ref;  (* rb-tree of throttled flows, in order *)
  time_next_delayed_flow : Z;
  ktime_cache : Z;
  internal : fq_flow;  (* the high-priority flow *)
  fq_root : gmap Z fq_flow;  (* the flows of all buckets, by key *)
  fq_root_null : bool;  (* q->fq_root == NULL *)
  fq_trees_log : Z;
  flows : Z;
  inactive_flows : Z;
  throttled_flows : Z;
  watchdog : option (Z * Z)  (* pending wakeup: expiry and slack *)
}.

Definition set_cfg (v : fq_params) (r : fq_sched_data) : fq_sched_data :=
  Sched v (st r) (co r) (sch_qlen r) (new_flows r) (old_flows r)
    (co_flows r) (delayed r) (time_next_delayed_flow r) (ktime_cache r)
    (internal r) (fq_root r) (fq_root_null r) (fq_trees_log r) (flows r)
    (inactive_flows r) (throttled_flows r) (watchdog r).
Definition set_st (v : fq_stats) (r : fq_sched_data) : fq_sched_data :=
  Sched (cfg r) v (co r) (sch_qlen r) (new_flows r) (old_flows r)
    (co_flows r) (delayed r) (time_next_delayed_flow r) (ktime_cache r)
    (internal r) (fq_root r) (fq_root_null r) (fq_trees_log r) (flows r)
    (inactive_flows r) (throttled_flows r) (watchdog r).
Definition set_co (v : coflow_globals) (r : fq_sched_data) : fq_sched_data :=
  Sched (cfg r) (st r) v (sch_qlen r) (new_flows r) (old_flows r)
    (co_flows r) (delayed r) (time_next_delayed_flow r) (ktime_cache r)
    (internal r) (fq_root r) (fq_root_null r) (fq_trees_log r) (flows r)
    (inactive_flows r) (throttled_flows r) (watchdog r).
Definition set_sch_qlen (v : Z) (r : fq_sched_data) : fq_sched_data :=
  Sched (cfg r) (st r) (co r) v (new_flows r) (old_flows r) (co_flows r)
    (delayed r) (time_next_delayed_flow r) (ktime_cache r) (internal r)
    (fq_root r) (fq_root_null r) (fq_trees_log r) (flows r)
    (inactive_flows r) (throttled_flows r) (watchdog r).
Definition set_new_flows (v : list flow_ref) (r : fq_sched_data)
  : fq_sched_data :=
  Sched (cfg r) (st r) (co r) (sch_qlen r) v (old_flows r) (co_flows r)
    (delayed r) (time_next_delayed_flow r) (ktime_cache r) (internal r)
    (fq_root r) (fq_root_null r) (fq_trees_log r) (flows r)
    (inactive_flows r) (throttled_flows r) (watchdog r).
Definition set_old_flows (v : list flow_ref) (r : fq_sched_data)
  : fq_sched_data :=
  Sched (cfg r) (st r) (co r) (sch_qlen r) (new_flows r) v (co_flows r)
    (delayed r) (time_next_delayed_flow r) (ktime_cache r) (internal r)
    (fq_root r) (fq_root_null r) (fq_trees_log r) (flows r)
    (inactive_flows r) (throttled_flows r) (watchdog r).
Definition set_co_flows (v : list flow_ref) (r : fq_sched_data)
  : fq_sched_data :=
  Sched (cfg r) (st r) (co r) (sch_qlen r) (new_flows r) (old_flows r) v
    (delayed r) (time_next_delayed_flow r) (ktime_cache r) (internal r)
    (fq_root r) (fq_root_null r) (fq_trees_log r) (flows r)
    (inactive_flows r) (throttled_flows r) (watchdog r).
Definition set_delayed (v : list flow_ref) (r : fq_sched_data)
  : fq_sched_data :=
  Sched (cfg r) (st r) (co r) (sch_qlen r) (new_flows r) (old_flows r)
    (co_flows r) v (time_next_delayed_flow r) (ktime_cache r) (internal r)
    (fq_root r) (fq_root_null r) (fq_trees_log r) (flows r)
    (inactive_flows r) (throttled_flows r) (watchdog r).
Definition set_time_next_delayed_flow (v : Z) (r : fq_sched_data)
  : fq_sched_data :=
  Sched (cfg r) (st r) (co r) (sch_qlen r) (new_flows r) (old_flows r)
    (co_flows r) (delayed r) v (ktime_cache r) (internal r) (fq_root r)
    (fq_root_null r) (fq_trees_log r) (flows r) (inactive_flows r)
    (throttled_flows r) (watchdog r).
Definition set_ktime_cache (v : Z) (r : fq_sched_data) : fq_sched_data :=
  Sched (cfg r) (st r) (co r) (sch_qlen r) (new_flows r) (old_flows r)
    (co_flows r) (delayed r) (time_next_delayed_flow r) v (internal r)
    (fq_root r) (fq_root_null r) (fq_trees_log r) (flows r)
    (inactive_flows r) (throttled_flows r) (watchdog r).
Definition set_internal (v : fq_flow) (r : fq_sched_data) : fq_sched_data :=
  Sched (cfg r) (st r) (co r) (sch_qlen r) (new_flows r) (old_flows r)
    (co_flows r) (delayed r) (time_next_delayed_flow r) (ktime_cache r) v
    (fq_root r) (fq_root_null r) (fq_trees_log r) (flows r)
    (inactive_flows r) (throttled_flows r) (watchdog r).
Definition set_fq_root (v : gmap Z fq_flow) (r : fq_sched_data)
  : fq_sched_data :=
  Sched (cfg r) (st r) (co r) (sch_qlen r) (new_flows r) (old_flows r)
    (co_flows r) (delayed r) (time_next_delayed_flow r) (ktime_cache r)
    (internal r) v (fq_root_null r) (fq_trees_log r) (flows r)
    (inactive_flows r) (throttled_flows r) (watchdog r).
Definition set_fq_root_null (v : bool) (r : fq_sched_data) : fq_sched_data :=
  Sched (cfg r) (st r) (co r) (sch_qlen r) (new_flows r) (old_flows r)
    (co_flows r) (delayed r) (time_next_delayed_flow r) (ktime_cache r)
    (internal r) (fq_root r) v (fq_trees_log r) (flows r)
    (inactive_flows r) (throttled_flows r) (watchdog r).
Definition set_fq_trees_log (v : Z) (r : fq_sched_data) : fq_sched_data :=
  Sched (cfg r) (st r) (co r) (sch_qlen r) (new_flows r) (old_flows r)
    (co_flows r) (delayed r) (time_next_delayed_flow r) (ktime_cache r)
    (internal r) (fq_root r) (fq_root_null r) v (flows r)
    (inactive_flows r) (throttled_flows r) (watchdog r).
Definition set_flows (v : Z) (r : fq_sched_data) : fq_sched_data :=
  Sched (cfg r) (st r) (co r) (sch_qlen r) (new_flows r) (old_flows r)
    (co_flows r) (delayed r) (time_next_delayed_flow r) (ktime_cache r)
    (internal r) (fq_root r) (fq_root_null r) (fq_trees_log r) v
    (inactive_flows r) (throttled_flows r) (watchdog r).
Definition set_inactive_flows (v : Z) (r : fq_sched_data) : fq_sched_data :=
  Sched (cfg r) (st r) (co r) (sch_qlen r) (new_flows r) (old_flows r)
    (co_flows r) (delayed r) (time_next_delayed_flow r) (ktime_cache r)
    (internal r) (fq_root r) (fq_root_null r) (fq_trees_log r) (flows r) v
    (throttled_flows r) (watchdog r).
Definition set_throttled_flows (v : Z) (r : fq_sched_data) : fq_sched_data :=
  Sched (cfg r) (st r) (co r) (sch_qlen r) (new_flows r) (old_flows r)
    (co_flows r) (delayed r) (time_next_delayed_flow r) (ktime_cache r)
    (internal r) (fq_root r) (fq_root_null r) (fq_trees_log r) (flows r)
    (inactive_flows r) v (watchdog r).
Definition set_watchdog (v : option (Z * Z)) (r : fq_sched_data)
  : fq_sched_data :=
  Sched (cfg r) (st r) (co r) (sch_qlen r) (new_flows r) (old_flows r)
    (co_flows r) (delayed r) (time_next_delayed_flow r) (ktime_cache r)
    (internal r) (fq_root r) (fq_root_null r) (fq_trees_log r) (flows r)
    (inactive_flows r) (throttled_flows r) v.

(** What the host supplies to one call: the clock readings, the outcome of
    the allocations, the device MTU, the keys a descent for garbage
    collection passes on its way down the bucket's tree (the shape of that
    tree is the business of lib/rbtree.c), and the tick rate [HZ] the
    kernel is built with, which the repository does not fix. *)
Record host := Host {
  ktime_get_ns : Z;
  jiffies : Z;
  kmem_cache_zalloc_ok : bool;
  kvmalloc_ok : bool;
  psched_mtu : Z;
  rb_path : list Z;
  HZ : Z
}.

(** The conversions of linux/jiffies.h and kernel/time/time.c, as they are
    compiled for a tick rate that divides a thousand (100, 250, 1000) and
    a 64-bit [long]; for other rates the kernel multiplies and shifts by
    constants generated at build time.

    [jiffies_to_usecs]: the product in [unsigned long], returned as an
    [unsigned int]. *)
Definition jiffies_to_usecs (h : host) (j : Z) : Z :=
  u32 (USEC_PER_SEC / HZ h * j).

(** [usecs_to_jiffies]: values beyond what [MAX_JIFFY_OFFSET] converts to
    give [MAX_JIFFY_OFFSET]; the others are rounded up to whole jiffies. *)
Definition usecs_to_jiffies (h : host) (u : Z) : Z :=
  if u >? jiffies_to_usecs h MAX_JIFFY_OFFSET then MAX_JIFFY_OFFSET
  else (u + USEC_PER_SEC / HZ h - 1) / (USEC_PER_SEC / HZ h).

(** [msecs_to_jiffies]: a value that is negative as an [int] gives
    [MAX_JIFFY_OFFSET]; the others are rounded up to whole jiffies. *)
Definition msecs_to_jiffies (h : host) (m : Z) : Z :=
  if s32 m <? 0 then MAX_JIFFY_OFFSET
  else (m + MSEC_PER_SEC / HZ h - 1) / (MSEC_PER_SEC / HZ h).

(** ** Flow access *)

Definition get_flow (q : fq_sched_data) (r : flow_ref) : fq_flow :=
  match r with
  | Internal => internal q
  | Dyn k => default zero_flow (fq_root q !! k)
  end.

Definition put_flow (r : flow_ref) (f : fq_flow) (q : fq_sched_data)
  : fq_sched_data :=
  match r with
  | Internal => set_internal f q
  | Dyn k => set_fq_root (<[k := f]> (fq_root q)) q
  end.

Definition upd_flow (r : flow_ref) (g : fq_flow → fq_flow)
    (q : fq_sched_data) : fq_sched_data :=
  put_flow r (g (get_flow q r)) q.

Definition is_internal (r : flow_ref) : bool :=
  match r with Internal => true | Dyn _ => false end.

(** ** The round-robin lists *)

Inductive fq_flow_head := NEW_FLOWS | OLD_FLOWS | CO_FLOWS.

#[global] Instance fq_flow_head_eq_dec : EqDecision fq_flow_head.
Proof. solve_decision. Defined.

Definition head_list (h : fq_flow_head) (q : fq_sched_data) : list flow_ref :=
  match h with
  | NEW_FLOWS => new_flows q
  | OLD_FLOWS => old_flows q
  | CO_FLOWS => co_flows q
  end.

Definition set_head_list (h : fq_flow_head) (v : list flow_ref)
    (q : fq_sched_data) : fq_sched_data :=
  match h with
  | NEW_FLOWS => set_new_flows v q
  | OLD_FLOWS => set_old_flows v q
  | CO_FLOWS => set_co_flows v q
  end.

Definition is_co (h : fq_flow_head) : bool :=
  match h with CO_FLOWS => true | _ => false end.

(** Modelled from the spec: [fq_flow_add_tail] is declared in fqtest.h,
    which is not among the sources.  Section 4.2: push_tail appends the
    flow, and its list linkage is set to null on push. *)
Definition fq_flow_add_tail (h : fq_flow_head) (f : flow_ref)
    (q : fq_sched_data) : fq_sched_data :=
  set_head_list h (head_list h q ++ [f])
    (upd_flow f (set_next_is_throttled false) q).

(** [head->first = f->next] for the flow at the front of the list. *)
Definition pop_head (h : fq_flow_head) (q : fq_sched_data) : fq_sched_data :=
  set_head_list h (tail (head_list h q)) q.

(** ** The tree of throttled flows *)

Fixpoint rb_erase (f : flow_ref) (l : list flow_ref) : list flow_ref :=
  match l with
  | [] => []
  | x :: l' => if decide (x = f) then l' else x :: rb_erase f l'
  end.

Definition flow_tnp (q : fq_sched_data) (r : flow_ref) : Z :=
  time_next_packet (get_flow q r).

Definition fq_flow_unset_throttled (q : fq_sched_data) (f : flow_ref)
  : fq_sched_data :=
  let q1 := set_delayed (rb_erase f (delayed q)) q in
  let q2 := set_throttled_flows (u32 (throttled_flows q1 - 1)) q1 in
  fq_flow_add_tail OLD_FLOWS f q2.

Definition fq_flow_set_throttled (q : fq_sched_data) (f : flow_ref)
  : fq_sched_data :=
  let q1 := set_delayed (rb_insert (flow_tnp q) f (delayed q)) q in
  let q2 := set_throttled_flows (u32 (throttled_flows q1 + 1)) q1 in
  let q3 :=
    set_st (set_stat_throttled (u64 (stat_throttled (st q2) + 1)) (st q2)) q2
  in
  let q4 := upd_flow f (set_next_is_throttled true) q3 in
  if time_next_delayed_flow q4 >? flow_tnp q4 f
  then set_time_next_delayed_flow (flow_tnp q4 f) q4
  else q4.

(** The loop of [fq_check_throttled]; each round erases the first node, so
    the size of the tree bounds the number of rounds. *)
Fixpoint fq_check_throttled_loop (n : nat) (now : Z) (q : fq_sched_data)
  : fq_sched_data :=
  match n with
  | O => q
  | S n' =>
      match delayed q with
      | [] => q
      | f :: _ =>
          if flow_tnp q f >? now
          then set_time_next_delayed_flow (flow_tnp q f) q
          else fq_check_throttled_loop n' now (fq_flow_unset_throttled q f)
      end
  end.

Definition fq_check_throttled (q : fq_sched_data) (now : Z) : fq_sched_data :=
  if time_next_delayed_flow q >? now then q
  else
    let sample := u64 (now - time_next_delayed_flow q) in
    let lat := unthrottle_latency_ns (st q) in
    let lat1 := u64 (lat - Z.shiftr lat 3) in
    let lat2 := u64 (lat1 + Z.shiftr sample 3) in
    let q1 := set_st (set_unthrottle_latency_ns lat2 (st q)) q in
    let q2 := set_time_next_delayed_flow U64_MAX q1 in
    fq_check_throttled_loop (length (delayed q2)) now q2.

(** ** Classification *)

Definition FQ_GC_MAX : Z := 8.
Definition FQ_GC_AGE (h : host) : Z := 3 * HZ h.

Definition fq_gc_candidate (h : host) (f : fq_flow) : bool :=
  fq_flow_is_detached f && time_after (jiffies h) (u64 (age f + FQ_GC_AGE h)).

(** The descent of [fq_gc]: it stops at the probed key, and when
    [FQ_GC_MAX] candidates are collected. *)
Fixpoint fq_gc_scan (h : host) (tab : gmap Z fq_flow) (key : Z)
    (path : list Z) (tofree : list Z) : list Z :=
  match path with
  | [] => tofree
  | k :: path' =>
      match tab !! k with
      | None => fq_gc_scan h tab key path' tofree
      | Some f =>
          if k =? key then tofree
          else if fq_gc_candidate h f then
            let tofree' := tofree ++ [k] in
            if Z.of_nat (length tofree') =? FQ_GC_MAX then tofree'
            else fq_gc_scan h tab key path' tofree'
          else fq_gc_scan h tab key path' tofree
      end
  end.

Definition fq_gc (h : host) (q : fq_sched_data) (key : Z) : fq_sched_data :=
  let tofree := fq_gc_scan h (fq_root q) key (rb_path h) [] in
  let fcnt := Z.of_nat (length tofree) in
  if fcnt =? 0 then q
  else
    let q1 := set_fq_root (foldr delete (fq_root q) tofree) q in
    let q2 := set_flows (u32 (flows q1 - fcnt)) q1 in
    let q3 := set_inactive_flows (u32 (inactive_flows q2 - fcnt)) q2 in
    set_st (set_stat_gc_flows (u64 (stat_gc_flows (st q3) + fcnt)) (st q3)) q3.

(** The key a packet is filed under, and the packet after [skb_orphan]:
    packets without a socket or of a listener are orphaned and get a
    synthetic odd key; packets of a closed socket get the synthetic key
    but keep their socket. *)
Definition fq_classify_key (skb : sk_buff) (q : fq_sched_data)
  : Z * sk_buff :=
  let synthetic :=
    Z.lor (u64 (Z.shiftl (Z.land (skb_hash skb) (orphan_mask (cfg q))) 1)) 1
  in
  match sk skb with
  | None => (synthetic, set_sk None skb)
  | Some s =>
      if sk_listener s then (synthetic, set_sk None skb)
      else if sk_state s =? TCP_CLOSE then (synthetic, skb)
      else (sk_addr s, skb)
  end.

(** The hash of the socket [skb->sk] when it is the one the flow is keyed
    by ([skb->sk == sk]). *)
Definition keyed_sock (skb : sk_buff) (key : Z) : option sock :=
  match sk skb with
  | Some s => if sk_addr s =? key then Some s else None
  | None => None
  end.

Definition fq_classify (h : host) (skb : sk_buff) (q : fq_sched_data)
  : flow_ref * sk_buff * fq_sched_data :=
  if Z.land (priority skb) TC_PRIO_MAX =? TC_PRIO_CONTROL
  then (Internal, skb, q)
  else
    let '(key, skb1) := fq_classify_key skb q in
    let q1 :=
      if (flows q >=? u32 (Z.shiftl 2 (fq_trees_log q)))
         && (inactive_flows q >? flows q / 2)
      then fq_gc h q key else q in
    match fq_root q1 !! key with
    | Some f =>
        match keyed_sock skb1 key with
        | Some s =>
            if negb (socket_hash f =? sk_hash s) then
              let q2 :=
                upd_flow (Dyn key)
                  (λ f, set_socket_hash (sk_hash s)
                          (set_credit (s32 (initial_quantum (cfg q1))) f))
                  q1 in
              let q3 :=
                if fq_flow_is_throttled (get_flow q2 (Dyn key))
                then fq_flow_unset_throttled q2 (Dyn key) else q2 in
              (Dyn key, skb1, upd_flow (Dyn key) (set_time_next_packet 0) q3)
            else (Dyn key, skb1, q1)
        | None => (Dyn key, skb1, q1)
        end
    | None =>
        if negb (kmem_cache_zalloc_ok h) then
          (Internal, skb1,
           set_st (set_stat_allocation_errors
                     (u64 (stat_allocation_errors (st q1) + 1)) (st q1)) q1)
        else
          let f0 := set_flow_sk key (fq_flow_set_detached (jiffies h) zero_flow) in
          let f1 :=
            match keyed_sock skb1 key with
            | Some s => set_socket_hash (sk_hash s) f0
            | None => f0
            end in
          let f2 := set_credit (s32 (initial_quantum (cfg q1))) f1 in
          let q2 := set_fq_root (<[key := f2]> (fq_root q1)) q1 in
          let q3 := set_flows (u32 (flows q2 + 1)) q2 in
          (Dyn key, skb1, set_inactive_flows (u32 (inactive_flows q3 + 1)) q3)
    end.

(** ** Enqueue *)

(** [(s64)skb->tstamp > (s64)(q->ktime_cache + q->horizon)]. *)
Definition fq_packet_beyond_horizon (skb : sk_buff) (q : fq_sched_data)
  : bool :=
  s64 (tstamp skb) >? s64 (ktime_cache q + horizon (cfg q)).

(** The [return qdisc_drop(...)] statement that was taken; the value
    returned to the host is [NET_XMIT_DROP] at each of them. *)
Inductive drop_site := TailLimit | Horizon | FlowLimit.

(** [OOPS] stands for the dereference of a null [skb->sk]. *)
Inductive xmit := NET_XMIT_SUCCESS | NET_XMIT_DROP (why : drop_site) | OOPS.

(** The timestamp policing at the head of [fq_enqueue]: [None] when the
    packet is dropped beyond the horizon. *)
Definition fq_enqueue_horizon (h : host) (skb : sk_buff) (q : fq_sched_data)
  : option sk_buff * fq_sched_data :=
  if tstamp skb =? 0 then
    let now := ktime_get_ns h in
    (Some (set_time_to_send now skb), set_ktime_cache now q)
  else if fq_packet_beyond_horizon skb q then
    let q1 := set_ktime_cache (ktime_get_ns h) q in
    if fq_packet_beyond_horizon skb q1 then
      if negb (horizon_drop (cfg q1) =? 0) then
        (None,
         set_st (set_stat_horizon_drops
                   (u64 (stat_horizon_drops (st q1) + 1)) (st q1)) q1)
      else
        let q2 :=
          set_st (set_stat_horizon_caps
                    (u64 (stat_horizon_caps (st q1) + 1)) (st q1)) q1 in
        let skb1 := set_tstamp (s64 (ktime_cache q2 + horizon (cfg q2))) skb in
        (Some (set_time_to_send (u64 (tstamp skb1)) skb1), q2)
    else (Some (set_time_to_send (u64 (tstamp skb)) skb), q1)
  else (Some (set_time_to_send (u64 (tstamp skb)) skb), q).

(** The block run when the flow is detached: the flow joins [new_flows],
    the ports of the packet's socket are copied to the file-scope [sport]
    and [dport], and the credit of a flow idle for long is refilled. *)
Definition fq_enqueue_detached (h : host) (skb : sk_buff) (f : flow_ref)
    (q : fq_sched_data) : option fq_sched_data :=
  let q1 := fq_flow_add_tail NEW_FLOWS f q in
  match sk skb with
  | None => None
  | Some s =>
      let q2 := set_co (set_dport (sk_dport s) (set_sport (sk_num s) (co q1))) q1 in
      let q3 :=
        if time_after (jiffies h)
             (u64 (age (get_flow q2 f) + flow_refill_delay (cfg q2)))
        then upd_flow f
               (λ fl, set_credit
                        (s32 (Z.max (u32 (credit fl)) (u32 (quantum (cfg q2)))))
                        fl) q2
        else q2 in
      Some (set_inactive_flows (u32 (inactive_flows q3 - 1)) q3)
  end.

(** The tail of [fq_enqueue], shared by attached and detached flows: the
    flow hash is overwritten, the co-flow identifiers are learned from the
    file-scope [sport], and the packet is queued. *)
Definition fq_enqueue_tail (skb : sk_buff) (f : flow_ref) (q : fq_sched_data)
  : fq_sched_data :=
  let pHash := Z.land (skb_hash skb) (orphan_mask (cfg q)) in
  let q1 := upd_flow f (set_socket_hash (u32 pHash)) q in
  let q2 :=
    if sport (co q1) =? 46730
    then set_co (set_pFlowid0 (socket_hash (get_flow q1 f)) (co q1)) q1
    else q1 in
  let q3 :=
    if sport (co q2) =? 46731
    then set_co (set_pFlowid1 (socket_hash (get_flow q2 f)) (co q2)) q2
    else q2 in
  let q4 := upd_flow f (λ fl, flow_queue_add fl skb) q3 in
  let q5 :=
    if is_internal f
    then set_st (set_stat_internal_packets
                   (u64 (stat_internal_packets (st q4) + 1)) (st q4)) q4
    else q4 in
  set_sch_qlen (u32 (sch_qlen q5 + 1)) q5.

Definition fq_enqueue (h : host) (skb : sk_buff) (q : fq_sched_data)
  : xmit * fq_sched_data :=
  if sch_qlen q >=? limit (cfg q) then (NET_XMIT_DROP TailLimit, q)
  else
    match fq_enqueue_horizon h skb q with
    | (None, q1) => (NET_XMIT_DROP Horizon, q1)
    | (Some skb1, q1) =>
        let '(f, skb2, q2) := fq_classify h skb1 q1 in
        if (u32 (qlen (get_flow q2 f)) >=? flow_plimit (cfg q2))
           && negb (is_internal f)
        then
          (NET_XMIT_DROP FlowLimit,
           set_st (set_stat_flows_plimit
                     (u64 (stat_flows_plimit (st q2) + 1)) (st q2)) q2)
        else
          let q3 := upd_flow f (λ fl, set_qlen (s32 (qlen fl + 1)) fl) q2 in
          let q4 :=
            if fq_flow_is_detached (get_flow q3 f)
            then fq_enqueue_detached h skb2 f q3
            else Some q3 in
          match q4 with
          | None => (OOPS, q3)
          | Some q5 => (NET_XMIT_SUCCESS, fq_enqueue_tail skb2 f q5)
          end
    end.

(** ** Dequeue *)

(** [fq_dequeue_skb]: unlink the packet and account for it. *)
Definition fq_dequeue_skb (q : fq_sched_data) (f : flow_ref) (skb : sk_buff)
  : fq_sched_data :=
  let q1 :=
    upd_flow f (λ fl, set_qlen (s32 (qlen fl - 1)) (fq_erase_head fl skb)) q in
  set_sch_qlen (u32 (sch_qlen q1 - 1)) q1.

(** Modelled from the spec: [valuePresentInArray] is declared in fqtest.h,
    which is not among the sources.  Section 4.6, step 6: the flow hash "is
    one of the configured co-flow ids"; the caller tests the result against
    -1, so the position of the first match is returned, and -1 for none. *)
Fixpoint valuePresentInArray_from (i : Z) (v : Z) (arr : list Z) (n : nat)
  : Z :=
  match n, arr with
  | S n', x :: arr' =>
      if x =? v then i else valuePresentInArray_from (i + 1) v arr' n'
  | _, _ => -1
  end.

Definition valuePresentInArray (v : Z) (arr : list Z) (len : Z) : Z :=
  valuePresentInArray_from 0 v arr (Z.to_nat len).

Definition pFlowid (q : fq_sched_data) : list Z :=
  [pFlowid0 (co q); pFlowid1 (co q)].

(** Modelled from the spec: [Promotecoflows] is declared in fqtest.h, which
    is not among the sources.  Section 4.6, step 6: "move f from its
    current list to co_flows"; [f] is the first flow of that list. *)
Definition Promotecoflows (head : fq_flow_head) (f : flow_ref)
    (q : fq_sched_data) : fq_sched_data :=
  fq_flow_add_tail CO_FLOWS f (pop_head head q).

(** The list the round starts from: [co_flows] under [flipflag], else
    [new_flows]; an empty choice falls through to [new_flows], then
    [old_flows]. *)
Definition fq_select_head (q : fq_sched_data) : option fq_flow_head :=
  let head := if flipflag (co q) =? 0 then NEW_FLOWS else CO_FLOWS in
  match head_list head q with
  | _ :: _ => Some head
  | [] =>
      match new_flows q with
      | _ :: _ => Some NEW_FLOWS
      | [] =>
          match old_flows q with
          | _ :: _ => Some OLD_FLOWS
          | [] => None
          end
      end
  end.

(** The pacing code between [fq_dequeue_skb] and the label [out]. *)
Definition fq_dequeue_pace (now : Z) (q : fq_sched_data) (f : flow_ref)
    (skb : sk_buff) : fq_sched_data :=
  let plen := u32 (pkt_len skb) in
  let q1 := upd_flow f (λ fl, set_credit (s32 (credit fl - plen)) fl) q in
  if rate_enable (cfg q1) =? 0 then q1
  else
    let rate0 := flow_max_rate (cfg q1) in
    (* the block under [if (!skb->tstamp)]: [None] stands for [goto out] *)
    let step :=
      if tstamp skb =? 0 then
        let rate :=
          match sk skb with
          | Some s => Z.min (sk_pacing_rate s) rate0
          | None => rate0
          end in
        if rate <=? low_rate_threshold (cfg q1) then
          Some (rate, plen, upd_flow f (set_credit 0) q1)
        else
          if credit (get_flow q1 f) >? 0 then None
          else Some (rate, Z.max plen (quantum (cfg q1)), q1)
      else Some (rate0, plen, q1) in
    match step with
    | None => q1
    | Some (rate, plen1, q2) =>
        if rate =? U64_MAX then q2
        else
          let len0 := u64 (plen1 * NSEC_PER_SEC) in
          let len1 := if rate =? 0 then len0 else len0 / rate in
          let '(len2, q3) :=
            if len1 >? NSEC_PER_SEC then
              (NSEC_PER_SEC,
               set_st (set_stat_pkts_too_long
                         (u64 (stat_pkts_too_long (st q2) + 1)) (st q2)) q2)
            else (len1, q2) in
          let tnp := time_next_packet (get_flow q3 f) in
          let len3 :=
            if tnp =? 0 then len2
            else u64 (len2 - Z.min (len2 / 2) (u64 (now - tnp))) in
          upd_flow f (set_time_next_packet (u64 (now + len3))) q3
    end.

(** One pass from the label [begin]: either the call returns, or control
    goes back to [begin]. *)
Inductive pass := Done (skb : option sk_buff) (q : fq_sched_data)
                | Again (q : fq_sched_data).

Definition fq_dequeue_pass (h : host) (now : Z) (q : fq_sched_data) : pass :=
  match fq_select_head q with
  | None =>
      Done None
        (if negb (time_next_delayed_flow q =? U64_MAX)
         then set_watchdog
                (Some (time_next_delayed_flow q, timer_slack (cfg q))) q
         else q)
  | Some head =>
      match head_list head q with
      | [] => Again q
      | f :: _ =>
          let rValue :=
            valuePresentInArray (socket_hash (get_flow q f)) (pFlowid q) 2 in
          if negb (rValue =? -1) && negb (is_co head) then
            let q1 := Promotecoflows head f q in
            Again (set_co (set_ucounter (ucounter (co q1) + 1) (co q1)) q1)
          else if (ucounter (co q) =? 2) && negb (is_co head) then
            Again (set_co (set_flipflag 1 (co q)) q)
          else if (ucounter (co q) =? 0) && is_co head then
            Again (set_co (set_flipflag 0 (co q)) q)
          else
            let q1 :=
              if negb (flipflag (co q) =? 0) && is_co head
              then set_co (set_ucounter (ucounter (co q) - 1) (co q)) q
              else q in
            if credit (get_flow q1 f) <=? 0 then
              let q2 :=
                upd_flow f
                  (λ fl, set_credit (s32 (credit fl + quantum (cfg q1))) fl)
                  q1 in
              Again (fq_flow_add_tail OLD_FLOWS f (pop_head head q2))
            else
              match fq_peek (get_flow q1 f) with
              | Some skb =>
                  let time_next_packet :=
                    Z.max (time_to_send skb)
                      (time_next_packet (get_flow q1 f)) in
                  if now <? time_next_packet then
                    let q2 := pop_head head q1 in
                    let q3 :=
                      upd_flow f (set_time_next_packet time_next_packet) q2 in
                    Again (fq_flow_set_throttled q3 f)
                  else
                    let q2 :=
                      if s64 (now - time_next_packet - ce_threshold (cfg q1))
                         >? 0
                      then set_st (set_stat_ce_mark
                                     (u64 (stat_ce_mark (st q1) + 1)) (st q1))
                             q1
                      else q1 in
                    let q3 := fq_dequeue_skb q2 f skb in
                    Done (Some skb) (fq_dequeue_pace now q3 f skb)
              | None =>
                  let q2 := pop_head head q1 in
                  if (bool_decide (head = NEW_FLOWS) || is_co head)
                     && negb (bool_decide (old_flows q2 = []))
                  then Again (fq_flow_add_tail OLD_FLOWS f q2)
                  else
                    let q3 :=
                      upd_flow f (fq_flow_set_detached (jiffies h)) q2 in
                    Again (set_inactive_flows (u32 (inactive_flows q3 + 1)) q3)
              end
      end
  end.

(** The loop around [begin]; [None] when the fuel runs out before the call
    returns. *)
Fixpoint fq_dequeue_loop (fuel : nat) (h : host) (now : Z)
    (q : fq_sched_data) : option (option sk_buff * fq_sched_data) :=
  match fuel with
  | O => None
  | S fuel' =>
      match fq_dequeue_pass h now q with
      | Done skb q' => Some (skb, q')
      | Again q' => fq_dequeue_loop fuel' h now q'
      end
  end.

Definition fq_dequeue (fuel : nat) (h : host) (q : fq_sched_data)
  : option (option sk_buff * fq_sched_data) :=
  if sch_qlen q =? 0 then Some (None, q)
  else
    match fq_peek (internal q) with
    | Some skb => Some (Some skb, fq_dequeue_skb q Internal skb)
    | None =>
        let now := ktime_get_ns h in
        let q1 := set_ktime_cache now q in
        fq_dequeue_loop fuel h now (fq_check_throttled q1 now)
    end.

(** ** Reset, resize and configuration *)

(** [fq_flow_purge]: the packets go back to the host; the word shared by
    [tail] and [age] is left as it is. *)
Definition fq_flow_purge (flow : fq_flow) : fq_flow :=
  set_qlen 0 (set_head [] (set_t_root [] flow)).

Definition fq_reset (q : fq_sched_data) : fq_sched_data :=
  let q1 := set_sch_qlen 0 q in
  let q2 := set_internal (fq_flow_purge (internal q1)) q1 in
  if fq_root_null q2 then q2
  else
    let q3 := set_fq_root ∅ q2 in
    let q4 := set_co_flows [] (set_old_flows [] (set_new_flows [] q3)) in
    let q5 := set_delayed [] q4 in
    set_throttled_flows 0 (set_inactive_flows 0 (set_flows 0 q5)).

(** [fq_rehash]: the flows move to the new array, except the candidates
    for garbage collection, which are freed. *)
Definition fq_rehash (h : host) (q : fq_sched_data) : fq_sched_data :=
  let dead := filter (λ kf, fq_gc_candidate h kf.2 = true) (fq_root q) in
  let fcnt := Z.of_nat (size dead) in
  let q1 :=
    set_fq_root (filter (λ kf, fq_gc_candidate h kf.2 = false) (fq_root q)) q in
  let q2 := set_flows (u32 (flows q1 - fcnt)) q1 in
  let q3 := set_inactive_flows (u32 (inactive_flows q2 - fcnt)) q2 in
  set_st (set_stat_gc_flows (u64 (stat_gc_flows (st q3) + fcnt)) (st q3)) q3.

(** [fq_resize] returns 0 or [-ENOMEM]. *)
Definition fq_resize (h : host) (q : fq_sched_data) (log : Z)
  : Z * fq_sched_data :=
  if negb (fq_root_null q) && (log =? fq_trees_log q) then (0, q)
  else if negb (kvmalloc_ok h) then (- ENOMEM, q)
  else
    let q1 := if fq_root_null q then q else fq_rehash h q in
    (0, set_fq_trees_log log (set_fq_root_null false q1)).

(** The attribute table [tb] that parsing the netlink blob yields; an
    absent attribute is a null entry.  [nla_err] is the value of
    [nla_parse_nested_deprecated]. *)
Record nlattr := Nlattr {
  nla_err : Z;
  TCA_FQ_PLIMIT : option Z;
  TCA_FQ_FLOW_PLIMIT : option Z;
  TCA_FQ_QUANTUM : option Z;
  TCA_FQ_INITIAL_QUANTUM : option Z;
  TCA_FQ_RATE_ENABLE : option Z;
  TCA_FQ_FLOW_DEFAULT_RATE : option Z;
  TCA_FQ_FLOW_MAX_RATE : option Z;
  TCA_FQ_BUCKETS_LOG : option Z;
  TCA_FQ_FLOW_REFILL_DELAY : option Z;
  TCA_FQ_LOW_RATE_THRESHOLD : option Z;
  TCA_FQ_CE_THRESHOLD : option Z;
  TCA_FQ_ORPHAN_MASK : option Z;
  TCA_FQ_TIMER_SLACK : option Z;
  TCA_FQ_HORIZON : option Z;
  TCA_FQ_HORIZON_DROP : option Z;
  TCA_FQ_F1_SOURCEPORT : option Z;
  TCA_FQ_F2_SOURCEPORT : option Z;
  TCA_FQ_F1_DESTPORT : option Z;
  TCA_FQ_F2_DESTPORT : option Z
}.

(** [ilog2(256 * 1024)] and [ilog2(1024)]. *)
Definition ilog2_256K : Z := 18.
Definition ilog2_1024 : Z := 10.

(** The knobs after the attribute-by-attribute part of [fq_change]; the
    attributes [quantum] and [rate_enable] are stored only when in range. *)
Definition fq_change_params (h : host) (tb : nlattr) (p : fq_params)
  : fq_params :=
  Params
    (default (limit p) (TCA_FQ_PLIMIT tb))
    (default (flow_plimit p) (TCA_FQ_FLOW_PLIMIT tb))
    (match TCA_FQ_QUANTUM tb with
     | Some quantum' =>
         if (quantum' >? 0) && (quantum' <=? Z.shiftl 1 20) then quantum'
         else quantum p
     | None => quantum p
     end)
    (default (initial_quantum p) (TCA_FQ_INITIAL_QUANTUM tb))
    (match TCA_FQ_FLOW_REFILL_DELAY tb with
     | Some usecs_delay => usecs_to_jiffies h usecs_delay
     | None => flow_refill_delay p
     end)
    (match TCA_FQ_FLOW_MAX_RATE tb with
     | Some rate => if rate =? U32_MAX then U64_MAX else rate
     | None => flow_max_rate p
     end)
    (default (low_rate_threshold p) (TCA_FQ_LOW_RATE_THRESHOLD tb))
    (match TCA_FQ_RATE_ENABLE tb with
     | Some enable => if enable <=? 1 then enable else rate_enable p
     | None => rate_enable p
     end)
    (default (orphan_mask p) (TCA_FQ_ORPHAN_MASK tb))
    (match TCA_FQ_CE_THRESHOLD tb with
     | Some v => NSEC_PER_USEC * v
     | None => ce_threshold p
     end)
    (default (timer_slack p) (TCA_FQ_TIMER_SLACK tb))
    (match TCA_FQ_HORIZON tb with
     | Some v => NSEC_PER_USEC * v
     | None => horizon p
     end)
    (default (horizon_drop p) (TCA_FQ_HORIZON_DROP tb))
    (default (f1_sourceport p) (TCA_FQ_F1_SOURCEPORT tb))
    (default (f2_sourceport p) (TCA_FQ_F2_SOURCEPORT tb))
    (default (f1_destport p) (TCA_FQ_F1_DESTPORT tb))
    (default (f2_destport p) (TCA_FQ_F2_DESTPORT tb)).

(** The value of [err] after the attribute-by-attribute part: 0 or
    [-EINVAL]. *)
Definition fq_change_err (tb : nlattr) : Z :=
  let bad_log :=
    match TCA_FQ_BUCKETS_LOG tb with
    | Some nval => negb ((nval >=? 1) && (nval <=? ilog2_256K))
    | None => false
    end in
  let bad_quantum :=
    match TCA_FQ_QUANTUM tb with
    | Some quantum' => negb ((quantum' >? 0) && (quantum' <=? Z.shiftl 1 20))
    | None => false
    end in
  let bad_enable :=
    match TCA_FQ_RATE_ENABLE tb with
    | Some enable => negb (enable <=? 1)
    | None => false
    end in
  if bad_log || bad_quantum || bad_enable then - EINVAL else nla_err tb.

(** The local [fq_log]: the requested size when in range. *)
Definition fq_change_log (tb : nlattr) (q : fq_sched_data) : Z :=
  match TCA_FQ_BUCKETS_LOG tb with
  | Some nval =>
      if (nval >=? 1) && (nval <=? ilog2_256K) then nval else fq_trees_log q
  | None => fq_trees_log q
  end.

(** The loop at the end of [fq_change] that drops packets above the new
    limit; [hs i] is what the host supplies to the call of [fq_dequeue]
    when [i] rounds are still allowed. *)
Fixpoint fq_change_trim (n fuel : nat) (hs : nat → host)
    (q : fq_sched_data) : option fq_sched_data :=
  if sch_qlen q >? limit (cfg q) then
    match n with
    | O => None
    | S n' =>
        match fq_dequeue fuel (hs n') q with
        | None => None
        | Some (None, q') => Some q'
        | Some (Some _, q') => fq_change_trim n' fuel hs q'
        end
    end
  else Some q.

(** [fq_change]: the error code and the state; [None] when the fuel runs
    out in the trimming loop. *)
Definition fq_change (n fuel : nat) (h : host) (hs : nat → host)
    (opt : option nlattr) (q : fq_sched_data)
  : option (Z * fq_sched_data) :=
  match opt with
  | None => Some (- EINVAL, q)
  | Some tb =>
      if nla_err tb <? 0 then Some (nla_err tb, q)
      else
        let fq_log := fq_change_log tb q in
        let err := fq_change_err tb in
        let q1 := set_cfg (fq_change_params h tb (cfg q)) q in
        let '(err1, q2) :=
          if err =? 0 then fq_resize h q1 fq_log else (err, q1) in
        match fq_change_trim n fuel hs q2 with
        | None => None
        | Some q3 => Some (err1, q3)
        end
  end.

(** The private area as the host hands it to [fq_init]: zeroed, next to
    the file-scope co-flow variables [g], which [fq_init] does not touch. *)
Definition qdisc_alloc (g : coflow_globals) : fq_sched_data :=
  Sched (Params 0 0 0 0 0 0 0 0 0 0 0 0 0 0 0 0 0)
        (Stats 0 0 0 0 0 0 0 0 0 0) g 0 [] [] [] [] 0 0 zero_flow ∅ true 0
        0 0 0 None.

(** The defaults [fq_init] stores before it applies the options. *)
Definition fq_init_defaults (h : host) (q : fq_sched_data) : fq_sched_data :=
  let p :=
    Params 10000 100 (u32 (2 * psched_mtu h)) (u32 (10 * psched_mtu h))
      (msecs_to_jiffies h 40) U64_MAX (550000 / 8) 1 (1024 - 1)
      (NSEC_PER_USEC * U32_MAX) (10 * NSEC_PER_USEC) (10 * NSEC_PER_SEC) 1
      0 0 0 0 in
  let q1 := set_cfg p q in
  let q2 := set_time_next_delayed_flow U64_MAX q1 in
  let q3 := set_co_flows [] (set_old_flows [] (set_new_flows [] q2)) in
  let q4 := set_delayed [] q3 in
  let q5 := set_fq_root_null true (set_fq_root ∅ q4) in
  set_watchdog None (set_fq_trees_log ilog2_1024 q5).

Definition fq_init (n fuel : nat) (h : host) (hs : nat → host)
    (opt : option nlattr) (q : fq_sched_data)
  : option (Z * fq_sched_data) :=
  let q1 := fq_init_defaults h q in
  match opt with
  | Some _ => fq_change n fuel h hs opt q1
  | None => Some (fq_resize h q1 (fq_trees_log q1))
  end.

(** The ports the co-flow identifiers are learned from. *)
Definition CO_SPORT_0 : Z := 46730.
Definition CO_SPORT_1 : Z := 46731.

(** ** Per-flow queue discipline: operations on one flow

    A peek followed by the removal of the peeked packet, and the queue
    operations a caller can interleave on one flow. *)

Inductive flow_op := Enq (skb : sk_buff) | Deq.

Definition flow_step (op : flow_op) (f : fq_flow) : fq_flow :=
  match op with
  | Enq skb => flow_queue_add f skb
  | Deq => match fq_peek f with
           | Some skb => fq_erase_head f skb
           | None => f
           end
  end.

Definition peek_time (f : fq_flow) : list Z :=
  match fq_peek f with Some skb => [time_to_send skb] | None => [] end.

(** The [time_to_send] values successive peeks return, one peek before each
    operation and one at the end. *)
Fixpoint peeks (f : fq_flow) (ops : list flow_op) : list Z :=
  match ops with
  | [] => peek_time f
  | op :: ops' => peek_time f ++ peeks (flow_step op f) ops'
  end.

(** No packet is enqueued with a [time_to_send] below the value the last
    peek returned ([last] is that value, if there was one). *)
Fixpoint enq_not_earlier (last : option Z) (f : fq_flow)
    (ops : list flow_op) : Prop :=
  let last' := match fq_peek f with
               | Some skb => Some (time_to_send skb)
               | None => last
               end in
  match ops with
  | [] => True
  | op :: ops' =>
      match op with
      | Enq skb => ∀ v, last' = Some v → v <= time_to_send skb
      | Deq => True
      end ∧ enq_not_earlier last' (flow_step op f) ops'
  end.

(** The chain and the tree of a flow are each in [time_to_send] order. *)
Definition flow_ordered (f : fq_flow) : Prop :=
  sorted_by time_to_send (head f) ∧ sorted_by time_to_send (t_root f).

(** The packets a flow holds. *)
Definition flow_packets (f : fq_flow) : list sk_buff := head f ++ t_root f.

(** The invariant carried along a run of queue operations: the flow holds
    no packet below the value last peeked. *)
Definition above (last : option Z) (f : fq_flow) : Prop :=
  ∀ v x, last = Some v → x ∈ flow_packets f → v <= time_to_send x.

(** The flow a run of queue operations leaves. *)
Definition flow_run (ops : list flow_op) (f : fq_flow) : fq_flow :=
  foldl (λ f op, flow_step op f) f ops.

(** ** Observations on a call of [fq_enqueue] *)

(** The flow the packet is classified into, the record of that flow right
    after classification, and the packet as classification leaves it;
    [None] when the packet is dropped before it is classified. *)
Definition fq_enqueue_flow (h : host) (skb : sk_buff) (q : fq_sched_data)
  : option (flow_ref * fq_flow * sk_buff) :=
  if sch_qlen q >=? limit (cfg q) then None
  else
    match fq_enqueue_horizon h skb q with
    | (None, _) => None
    | (Some skb1, q1) =>
        let '(f, skb2, q2) := fq_classify h skb1 q1 in
        Some (f, get_flow q2 f, skb2)
    end.

(** ** Fixtures

    A host with an MTU of 1500 and 1000 ticks a second whose allocations
    succeed, read at time [now]; the scheduler as [fq_init] leaves it
    without options, next to zeroed co-flow variables; sockets and
    packets. *)
Definition host_at (now : Z) : host := Host now 0 true true 1500 [] 1000.

Definition sched0 : fq_sched_data :=
  match fq_init 0 0 (host_at 0) (λ _, host_at 0) None
          (qdisc_alloc (Globals 0 0 0 0 0 0)) with
  | Some (_, q) => q
  | None => qdisc_alloc (Globals 0 0 0 0 0 0)
  end.

(** An established socket at address [a] with hash [hsh] and source port
    [port], not paced. *)
Definition sock_at (a hsh port : Z) : sock := Sock a 1 hsh port 80 U64_MAX.

(** A packet of 1500 bytes at address [a] with timestamp [ts] and flow hash
    [hsh], owned by socket [s]. *)
Definition pkt (a ts hsh : Z) (s : sock) : sk_buff :=
  Skb a ts 0 (Some s) hsh 1500 0.

(** Running a call and keeping the state. *)
Definition enq (h : host) (skb : sk_buff) (q : fq_sched_data)
  : fq_sched_data := (fq_enqueue h skb q).2.

Definition deq (fuel : nat) (h : host) (q : fq_sched_data) : fq_sched_data :=
  match fq_dequeue fuel h q with
  | Some (_, q') => q'
  | None => q
  end.

Definition deq_skb (fuel : nat) (h : host) (q : fq_sched_data)
  : option (option Z) :=
  match fq_dequeue fuel h q with
  | Some (r, _) => Some (skb_addr <$> r)
  | None => None
  end.

(** An attribute table with no attribute. *)
Definition nlattr_none : nlattr :=
  Nlattr 0 None None None None None None None None None None None None None
         None None None None None None.

(** The attribute table that configures the four co-flow ports. *)
Definition nlattr_ports (s1 s2 d1 d2 : Z) : nlattr :=
  Nlattr 0 None None None None None None None None None None None None None
         None None (Some s1) (Some s2) (Some d1) (Some d2).

(** [sched0] after [fq_change] has set the co-flow source ports to 5000
    and 5001. *)
Definition sched_ports : fq_sched_data :=
  match fq_change 0 0 (host_at 0) (λ _, host_at 0)
          (Some (nlattr_ports 5000 5001 80 80)) sched0 with
  | Some (_, q) => q
  | None => sched0
  end.

(** Two flows whose packets hash to the same masked value 11: a socket on
    the first co-flow port 46730, and a socket on port 5000. *)
Definition sock_A : sock := sock_at 1000 111 46730.
Definition sock_B : sock := sock_at 2000 222 46731.
Definition sock_X : sock := sock_at 3000 11 5000.
Definition sock_Y : sock := sock_at 4000 33 5001.

(** The flow of [sock_X] is served and detached, the first co-flow
    identifier is learned from a packet of [sock_A], hash 11. *)
Definition sched_X_detached : fq_sched_data :=
  let h := host_at 0 in
  let q1 := enq h (pkt 300 0 1035 sock_X) sched0 in
  let q2 := enq h (pkt 400 0 33 sock_Y) q1 in
  let q3 := deq 10 h q2 in
  let q4 := deq 10 h q3 in
  enq h (pkt 100 0 11 sock_A) q4.

(** A flow that is throttled: at time 0 a packet of [sock_X] stamped 100
    is queued, and the dequeue that follows parks the flow in the tree
    until 100.  The flow hash is the masked packet hash 33, the hash of
    the socket is 11. *)
Definition sched_throttled : fq_sched_data :=
  deq 10 (host_at 0) (enq (host_at 0) (pkt 300 100 33 sock_X) sched0).


(** ** Observations on a call of [fq_dequeue] *)

(** The state a pass leaves. *)
Definition pass_state (p : pass) : fq_sched_data :=
  match p with Done _ q => q | Again q => q end.

(** [n] passes from the label [begin], stopping early when the call
    returns. *)
Fixpoint fq_dequeue_passes (n : nat) (h : host) (now : Z)
    (q : fq_sched_data) : pass :=
  match n with
  | O => Again q
  | S n' =>
      match fq_dequeue_pass h now q with
      | Again q' => fq_dequeue_passes n' h now q'
      | Done skb q' => Done skb q'
      end
  end.

(** The flow at the front of the list the round starts from is taken for
    a co-flow. *)
Definition head_is_coflow (q : fq_sched_data) (f : flow_ref) : bool :=
  negb (valuePresentInArray (socket_hash (get_flow q f)) (pFlowid q) 2 =? -1).

(** ** Fixtures for dequeue *)

(** Two co-flows are queued and promoted by a dequeue that returns no
    packet; the scheduler is reset; a packet of an ordinary flow arrives.
    The reset leaves [ucounter] at 2 and empties [co_flows]. *)
Definition sched_after_reset : fq_sched_data :=
  let h := host_at 0 in
  let q1 := enq h (pkt 100 0 11 sock_A) sched0 in
  let q2 := enq h (pkt 200 0 22 sock_B) q1 in
  let q3 := deq 10 h q2 in
  let q4 := fq_reset q3 in
  enq h (pkt 400 0 33 sock_Y) q4.

(** No reset.  An ordinary flow W is throttled at time 0; ordinary flows X
    and Y, whose packets hash to 11 and 22 under the mask, are queued; at
    time 200 three dequeues serve X, Y and W, which leaves the three of
    them empty on [old_flows]; then packets of the sockets on the ports
    46730 and 46731, with hashes 11 and 22 and stamped 5 s ahead, are
    queued, which makes 11 and 22 the co-flow identifiers. *)
Definition sock_W : sock := sock_at 5000 55 6000.
Definition sock_Z : sock := sock_at 4000 22 5001.

Definition sched_livelock : fq_sched_data :=
  let q1 := enq (host_at 0) (pkt 500 100 55 sock_W) sched0 in
  let q2 := deq 10 (host_at 0) q1 in
  let q3 := enq (host_at 0) (pkt 300 0 1035 sock_X) q2 in
  let q4 := enq (host_at 0) (pkt 400 0 1046 sock_Z) q3 in
  let q5 := deq 10 (host_at 200) q4 in
  let q6 := deq 10 (host_at 200) q5 in
  let q7 := deq 10 (host_at 200) q6 in
  let q8 := enq (host_at 200) (pkt 100 5000000000 11 sock_A) q7 in
  enq (host_at 200) (pkt 200 5000000000 22 sock_B) q8.

(** Two co-flows whose packets are stamped 100, and an ordinary flow with
    a packet to send at once, all queued at time 0. *)
Definition sched_co_future : fq_sched_data :=
  let h := host_at 0 in
  let q1 := enq h (pkt 100 100 11 sock_A) sched0 in
  let q2 := enq h (pkt 200 100 22 sock_B) q1 in
  enq h (pkt 400 0 33 sock_Y) q2.

(** A packet of the control priority stamped 100, queued at time 0. *)
Definition sched_prio : fq_sched_data :=
  enq (host_at 0) (Skb 600 100 TC_PRIO_CONTROL (Some sock_X) 33 1500 0) sched0.

(** Three flows taken for co-flows at the front of [new_flows]: the two
    sockets on the co-flow ports and a flow whose packets hash to 11 as
    well. *)
Definition sched_three_co : fq_sched_data :=
  let h := host_at 0 in
  let q1 := enq h (pkt 100 0 11 sock_A) sched0 in
  let q2 := enq h (pkt 200 0 22 sock_B) q1 in
  enq h (pkt 300 0 1035 sock_X) q2.

(** ** Observations on the configuration *)

(** What [fq_change] decides and the data path only reads: the knobs, the
    size of the table, and whether the table is allocated. *)
Definition fq_conf (q : fq_sched_data) : fq_params * Z * bool :=
  (cfg q, fq_trees_log q, fq_root_null q).




(** ** The tree of throttled flows and its summary *)

(** The least [time_next_packet] over the tree, all-ones for an empty
    tree. *)
Definition throttle_min (q : fq_sched_data) : Z :=
  match delayed q with
  | [] => U64_MAX
  | f :: l => foldr (λ r m, Z.min (flow_tnp q r) m) (flow_tnp q f) l
  end.

Definition tndf_is_min (q : fq_sched_data) : Prop :=
  time_next_delayed_flow q = throttle_min q.

(** [time_next_delayed_flow] is not above the [time_next_packet] of any
    throttled flow. *)
Definition tndf_lower_bound (q : fq_sched_data) : Prop :=
  ∀ r, r ∈ delayed q → time_next_delayed_flow q <= flow_tnp q r.

(** The flows on the three round-robin lists, and those together with the
    throttled ones. *)
Definition rr_refs (q : fq_sched_data) : list flow_ref :=
  new_flows q ++ old_flows q ++ co_flows q.

Definition queued_refs (q : fq_sched_data) : list flow_ref :=
  rr_refs q ++ delayed q.

(** The linkage the scheduler relies on: a flow is on at most one list or
    in the tree, and then it is allocated and not detached; the mark of a
    throttled flow is set exactly on the flows in the tree; a detached flow
    has an empty chain; the internal flow is never detached; the tree is
    in [time_next_packet] order. *)
Record sched_wf (q : fq_sched_data) : Prop := SchedWf {
  wf_nodup : NoDup (queued_refs q);
  wf_attached :
    ∀ r, r ∈ queued_refs q → fq_flow_is_detached (get_flow q r) = false;
  wf_live :
    ∀ r, r ∈ queued_refs q → ∃ k, r = Dyn k ∧ is_Some (fq_root q !! k);
  wf_throttled :
    ∀ r, r ∈ delayed q ↔ fq_flow_is_throttled (get_flow q r) = true;
  wf_detached_empty :
    ∀ r, fq_flow_is_detached (get_flow q r) = true → head (get_flow q r) = [];
  wf_internal : fq_flow_is_detached (internal q) = false;
  wf_sorted : sorted_by (flow_tnp q) (delayed q)
}.

(** Packets are at least 2-aligned. *)
Definition skb_aligned (skb : sk_buff) : Prop := Z.land (skb_addr skb) 1 = 0.

(** The linkage together with the bound on [time_next_delayed_flow]. *)
Definition throttle_inv (q : fq_sched_data) : Prop :=
  sched_wf q ∧ tndf_lower_bound q.

(** ** [ipow]

    Exponentiation by squaring on [int].  The kernel is built with
    [-fno-strict-overflow], so [int] arithmetic wraps, and [>>] on a
    negative [int] is an arithmetic shift.  [None] when the fuel runs out
    before the loop is left. *)
Fixpoint ipow_loop (fuel : nat) (result base exp : Z) : option Z :=
  match fuel with
  | O => None
  | S fuel' =>
      let result1 :=
        if negb (Z.land exp 1 =? 0) then s32 (result * base) else result in
      let exp1 := Z.shiftr exp 1 in
      if exp1 =? 0 then Some result1
      else ipow_loop fuel' result1 (s32 (base * base)) exp1
  end.

Definition ipow (fuel : nat) (base exp : Z) : option Z :=
  ipow_loop fuel 1 base exp.

(** ** Runs of the scheduler

    The entry points a host calls on an initialised scheduler.  A run
    stops, with [None], at an enqueue that dereferences a null [skb->sk]
    and at a call that does not return. *)
Inductive fq_op :=
  | OpEnqueue (h : host) (skb : sk_buff)
  | OpDequeue (fuel : nat) (h : host)
  | OpReset
  | OpChange (n fuel : nat) (h : host) (hs : nat → host) (opt : option nlattr).

Definition fq_op_step (op : fq_op) (q : fq_sched_data) : option fq_sched_data :=
  match op with
  | OpEnqueue h skb =>
      match fq_enqueue h skb q with
      | (OOPS, _) => None
      | (_, q') => Some q'
      end
  | OpDequeue fuel h => snd <$> fq_dequeue fuel h q
  | OpReset => Some (fq_reset q)
  | OpChange n fuel h hs opt => snd <$> fq_change n fuel h hs opt q
  end.

Fixpoint fq_run (ops : list fq_op) (q : fq_sched_data) : option fq_sched_data :=
  match ops with
  | [] => Some q
  | op :: ops' =>
      match fq_op_step op q with
      | Some q' => fq_run ops' q'
      | None => None
      end
  end.

(** The packets handed to [fq_enqueue] are at even addresses. *)
Definition op_aligned (op : fq_op) : Prop :=
  match op with
  | OpEnqueue _ skb => skb_aligned skb
  | _ => True
  end.

(** The tick rates the conversions are written for. *)
Definition tick_rate_divides (h : host) : Prop :=
  0 < HZ h ∧ MSEC_PER_SEC mod HZ h = 0.

(** ** [fq_dump] *)

(** The attributes [fq_dump] puts into the message, each converted to the
    width of its [nla_put]; [None] stands for [nla_put_failure], when the
    message has no [room].  [TCA_FQ_FLOW_DEFAULT_RATE] is not reported. *)
Definition fq_dump (h : host) (room : bool) (q : fq_sched_data)
  : option nlattr :=
  if negb room then None
  else
    let p := cfg q in
    Some (Nlattr 0
            (Some (u32 (limit p)))
            (Some (u32 (flow_plimit p)))
            (Some (u32 (quantum p)))
            (Some (u32 (initial_quantum p)))
            (Some (u32 (rate_enable p)))
            None
            (Some (u32 (Z.min (flow_max_rate p) U32_MAX)))
            (Some (u32 (fq_trees_log q)))
            (Some (jiffies_to_usecs h (flow_refill_delay p)))
            (Some (u32 (low_rate_threshold p)))
            (Some (u32 (ce_threshold p / NSEC_PER_USEC)))
            (Some (u32 (orphan_mask p)))
            (Some (u32 (timer_slack p)))
            (Some (u32 (horizon p / NSEC_PER_USEC)))
            (Some (u8 (horizon_drop p)))
            (Some (u32 (f1_sourceport p)))
            (Some (u32 (f2_sourceport p)))
            (Some (u32 (f1_destport p)))
            (Some (u32 (f2_destport p)))).

(** An attribute, when present, is within [0, m]. *)
Definition attr_within (m : Z) (a : option Z) : Prop :=
  match a with Some v => 0 <= v <= m | None => True end.

(** The attributes of a table have the widths of [fq_policy]. *)
Definition nlattr_widths (tb : nlattr) : Prop :=
  Forall (attr_within U32_MAX)
    [TCA_FQ_PLIMIT tb; TCA_FQ_FLOW_PLIMIT tb; TCA_FQ_QUANTUM tb;
     TCA_FQ_INITIAL_QUANTUM tb; TCA_FQ_RATE_ENABLE tb;
     TCA_FQ_FLOW_MAX_RATE tb; TCA_FQ_BUCKETS_LOG tb;
     TCA_FQ_FLOW_REFILL_DELAY tb; TCA_FQ_LOW_RATE_THRESHOLD tb;
     TCA_FQ_CE_THRESHOLD tb; TCA_FQ_ORPHAN_MASK tb; TCA_FQ_TIMER_SLACK tb;
     TCA_FQ_HORIZON tb; TCA_FQ_F1_SOURCEPORT tb; TCA_FQ_F2_SOURCEPORT tb;
     TCA_FQ_F1_DESTPORT tb; TCA_FQ_F2_DESTPORT tb]
  ∧ attr_within 255 (TCA_FQ_HORIZON_DROP tb).

(** What was asked for is what is reported. *)
Definition reported (asked got : option Z) : Prop :=
  ∀ v, asked = Some v → got = Some v.

(** ** Properties of every flow *)

(** [P] holds of the internal flow and of every flow of the table. *)
Definition all_flows (P : fq_flow → Prop) (q : fq_sched_data) : Prop :=
  ∀ r, P (get_flow q r).

(** [P] looks at the packets of a flow only, holds of a flow without
    packets, and is kept by the two operations that change the packets. *)
Record packet_property (P : fq_flow → Prop) : Prop := PacketProperty {
  pp_packets : ∀ fl fl',
    head fl' = head fl → t_root fl' = t_root fl → P fl → P fl';
  pp_zero : P zero_flow;
  pp_add : ∀ fl skb, P fl → P (flow_queue_add fl skb);
  pp_erase : ∀ fl skb, P fl → P (fq_erase_head fl skb)
}.

(** The flows of [q'] hold the packets they hold in [q]. *)
Definition same_packets (q q' : fq_sched_data) : Prop :=
  ∀ r, head (get_flow q' r) = head (get_flow q r)
       ∧ t_root (get_flow q' r) = t_root (get_flow q r).

(** The packets after one pass: a pass that serves takes the packet
    [fq_peek] yields for one flow, and no pass touches another packet. *)
Definition pass_takes (q : fq_sched_data) (p : pass) : Prop :=
  match p with
  | Done (Some skb) q' =>
      ∃ f, fq_peek (get_flow q f) = Some skb
           ∧ (∀ r, r ≠ f → head (get_flow q' r) = head (get_flow q r)
                           ∧ t_root (get_flow q' r) = t_root (get_flow q r))
           ∧ head (get_flow q' f) = head (fq_erase_head (get_flow q f) skb)
           ∧ t_root (get_flow q' f) = t_root (fq_erase_head (get_flow q f) skb)
  | Done None q' | Again q' => same_packets q q'
  end.


(** ** The count of throttled flows *)

(** The tree of throttled flows and the counter kept next to it. *)
Definition throttle_count (q : fq_sched_data) : list flow_ref * Z :=
  (delayed q, throttled_flows q).

(** [throttled_flows] is the size of the tree, as a 32-bit value. *)
Definition throttled_counted (q : fq_sched_data) : Prop :=
  throttled_flows q = u32 (Z.of_nat (length (delayed q))).

(** ** Fixtures for the horizon *)

(** The attribute table that clears [horizon_drop] and sets the per-flow
    limit to 1. *)
Definition nlattr_cap : nlattr :=
  Nlattr 0 None (Some 1) None None None None None None None None None None
         None None (Some 0) None None None None.

(** [sched0] after [fq_change] with that table: far timestamps are capped,
    and a flow holds one packet at most. *)
Definition sched_cap : fq_sched_data :=
  match fq_change 0 0 (host_at 0) (λ _, host_at 0) (Some nlattr_cap) sched0
  with
  | Some (_, q) => q
  | None => sched0
  end.

(** A packet of [sock_X] is queued: its flow is at the per-flow limit. *)
Definition sched_cap_full : fq_sched_data :=
  enq (host_at 5) (pkt 300 0 33 sock_X) sched_cap.

(** ** The account of the co-class

    What one pass from the label [begin] means for the co-class: the pass
    promotes a co-flow; it starts from [co_flows] and returns a packet, a
    co-class serving; it starts from [co_flows], takes a unit of
    [ucounter] and returns no packet; or none of these. *)
Inductive co_event := CoPromote | CoServe | CoSpend | CoOther.

Definition pass_event (h : host) (now : Z) (q : fq_sched_data) : co_event :=
  match fq_select_head q with
  | None => CoOther
  | Some head =>
      match head_list head q with
      | [] => CoOther
      | f :: _ =>
          if is_co head then
            match fq_dequeue_pass h now q with
            | Done (Some _) _ => CoServe
            | _ => if ucounter (co q) =? 0 then CoOther else CoSpend
            end
          else if head_is_coflow q f then CoPromote else CoOther
      end
  end.

(** The events of the passes of one call of [fq_dequeue], in order. *)
Fixpoint fq_dequeue_loop_events (fuel : nat) (h : host) (now : Z)
    (q : fq_sched_data) : list co_event :=
  match fuel with
  | O => []
  | S fuel' =>
      pass_event h now q ::
      match fq_dequeue_pass h now q with
      | Done _ _ => []
      | Again q' => fq_dequeue_loop_events fuel' h now q'
      end
  end.

Definition fq_dequeue_events (fuel : nat) (h : host) (q : fq_sched_data)
  : list co_event :=
  if sch_qlen q =? 0 then []
  else
    match fq_peek (internal q) with
    | Some _ => []
    | None =>
        let now := ktime_get_ns h in
        fq_dequeue_loop_events fuel h now
          (fq_check_throttled (set_ktime_cache now q) now)
    end.

(** The events of the calls of [fq_dequeue] in the trimming loop of
    [fq_change]. *)
Fixpoint fq_change_trim_events (n fuel : nat) (hs : nat → host)
    (q : fq_sched_data) : list co_event :=
  if sch_qlen q >? limit (cfg q) then
    match n with
    | O => []
    | S n' =>
        fq_dequeue_events fuel (hs n') q ++
        match fq_dequeue fuel (hs n') q with
        | Some (Some _, q') => fq_change_trim_events n' fuel hs q'
        | _ => []
        end
    end
  else [].

Definition fq_change_events (n fuel : nat) (h : host) (hs : nat → host)
    (opt : option nlattr) (q : fq_sched_data) : list co_event :=
  match opt with
  | None => []
  | Some tb =>
      if nla_err tb <? 0 then []
      else
        let q1 := set_cfg (fq_change_params h tb (cfg q)) q in
        let q2 :=
          if fq_change_err tb =? 0
          then (fq_resize h q1 (fq_change_log tb q)).2 else q1 in
        fq_change_trim_events n fuel hs q2
  end.

Definition fq_op_events (op : fq_op) (q : fq_sched_data) : list co_event :=
  match op with
  | OpDequeue fuel h => fq_dequeue_events fuel h q
  | OpChange n fuel h hs opt => fq_change_events n fuel h hs opt q
  | OpEnqueue _ _ | OpReset => []
  end.

(** The events of a run of operations. *)
Fixpoint fq_run_events (ops : list fq_op) (q : fq_sched_data)
  : list co_event :=
  match ops with
  | [] => []
  | op :: ops' =>
      fq_op_events op q ++
      match fq_op_step op q with
      | Some q' => fq_run_events ops' q'
      | None => []
      end
  end.

Definition co_event_eqb (a b : co_event) : bool :=
  match a, b with
  | CoPromote, CoPromote | CoServe, CoServe
  | CoSpend, CoSpend | CoOther, CoOther => true
  | _, _ => false
  end.

(** How often the event [e] occurs in [l]. *)
Fixpoint tally (e : co_event) (l : list co_event) : Z :=
  match l with
  | [] => 0
  | x :: l' => (if co_event_eqb x e then 1 else 0) + tally e l'
  end.

(** Promotions less the visits of [co_flows] that took a unit. *)
Definition co_balance (l : list co_event) : Z :=
  tally CoPromote l - tally CoServe l - tally CoSpend l.

(** Three flows are queued at time 0: that of [sock_A] with two packets,
    that of [sock_B], both co-flows, and the ordinary flow of [sock_Y]. *)
Definition sched_two_coflows : fq_sched_data :=
  let h := host_at 0 in
  let q1 := enq h (pkt 100 0 11 sock_A) sched0 in
  let q2 := enq h (pkt 102 0 11 sock_A) q1 in
  let q3 := enq h (pkt 200 0 22 sock_B) q2 in
  enq h (pkt 400 0 33 sock_Y) q3.

(** * Properties *)

(** ** The queue of one flow *)

Section FlowQueue.

Implicit Types (f : fq_flow) (skb : sk_buff).

Lemma sorted_by_cons {A} (key : A → Z) x l :
  sorted_by key (x :: l) ↔ Forall (λ y, key x <= key y) l ∧ sorted_by key l.
Proof.
  unfold sorted_by. rewrite fmap_cons. split.
  - intros H. apply StronglySorted_inv in H as [H1 H2]. split; [|done].
    by rewrite Forall_fmap in H2.
  - intros [H1 H2]. constructor; [done|]. by rewrite Forall_fmap.
Qed.

Lemma sorted_by_nil {A} (key : A → Z) : sorted_by key [].
Proof. constructor. Qed.

Lemma sorted_by_snoc {A} (key : A → Z) l x :
  sorted_by key l → Forall (λ y, key y <= key x) l → sorted_by key (l ++ [x]).
Proof.
  induction l as [|y l IH]; intros Hs Hall.
  - apply sorted_by_cons. split; [constructor | apply sorted_by_nil].
  - apply sorted_by_cons in Hs as [Hy Hs].
    apply Forall_cons in Hall as [Hyx Hall].
    simpl. apply sorted_by_cons. split.
    + apply Forall_app. split; [done|]. by constructor.
    + by apply IH.
Qed.

Lemma sorted_by_last_max {A} (key : A → Z) l tl :
  sorted_by key l → last l = Some tl → Forall (λ y, key y <= key tl) l.
Proof.
  induction l as [|y l IH]; intros Hs Hl; [constructor|].
  apply sorted_by_cons in Hs as [Hy Hs].
  destruct l as [|z l].
  - simpl in Hl. injection Hl as ->. constructor; [lia | constructor].
  - assert (Hl' : last (z :: l) = Some tl) by done.
    constructor; [| by apply IH].
    rewrite Forall_forall in Hy. apply Hy.
    apply last_Some in Hl' as [l' ->].
    rewrite elem_of_app, list_elem_of_singleton. by right.
 Qed.

Lemma rb_insert_elem_of {A} (key : A → Z) x l y :
  y ∈ rb_insert key x l ↔ y = x ∨ y ∈ l.
Proof.
  induction l as [|z l IH]; simpl.
  - rewrite list_elem_of_singleton, elem_of_nil. tauto.
  - destruct (key x >=? key z); rewrite !elem_of_cons, ?IH; tauto.
Qed.

Lemma rb_insert_sorted {A} (key : A → Z) x l :
  sorted_by key l → sorted_by key (rb_insert key x l).
Proof.
  induction l as [|z l IH]; intros Hs; simpl.
  - apply sorted_by_cons. split; [constructor | apply sorted_by_nil].
  - destruct (Z.geb_spec (key x) (key z)) as [Hge|Hlt].
    + apply sorted_by_cons in Hs as [Hz Hs]. apply sorted_by_cons. split.
      * rewrite Forall_forall. intros y Hy. apply rb_insert_elem_of in Hy as [->|Hy].
        -- lia.
        -- rewrite Forall_forall in Hz. by apply Hz.
      * by apply IH.
    + apply sorted_by_cons. split; [|done].
      pose proof Hs as Hs'. apply sorted_by_cons in Hs' as [Hz _].
      constructor; [lia|]. eapply Forall_impl; [exact Hz|]. simpl. intros; lia.
Qed.

Lemma rb_erase_skb_elem_of skb l y : y ∈ rb_erase_skb skb l → y ∈ l.
Proof.
  induction l as [|x l IH]; simpl; [done|].
  destruct (skb_addr x =? skb_addr skb); rewrite !elem_of_cons; intuition.
Qed.

Lemma rb_erase_skb_sorted skb l :
  sorted_by time_to_send l → sorted_by time_to_send (rb_erase_skb skb l).
Proof.
  induction l as [|x l IH]; simpl; [done|]. intros Hs.
  apply sorted_by_cons in Hs as [Hx Hs].
  destruct (skb_addr x =? skb_addr skb); [done|].
  apply sorted_by_cons. split; [|auto].
  rewrite Forall_forall in Hx |- *. intros y Hy. apply Hx.
  by eapply rb_erase_skb_elem_of.
Qed.

(** What [fq_peek] returns: nothing exactly when the flow holds no packet,
    else the first packet of the chain or of the tree, and one that is not
    later than either. *)
Lemma fq_peek_None f : fq_peek f = None ↔ head f = [] ∧ t_root f = [].
Proof.
  unfold fq_peek. destruct (t_root f) as [|t ?], (head f) as [|h ?];
    try destruct (time_to_send t <? time_to_send h);
    split; try done; intros [? ?]; done.
Qed.

Lemma fq_peek_Some f skb :
  fq_peek f = Some skb →
  (list.head (head f) = Some skb ∨ list.head (t_root f) = Some skb)
  ∧ (∀ h, list.head (head f) = Some h → time_to_send skb <= time_to_send h)
  ∧ (∀ t, list.head (t_root f) = Some t → time_to_send skb <= time_to_send t).
Proof.
  unfold fq_peek. destruct (t_root f) as [|t ?], (head f) as [|h ?]; simpl.
  - done.
  - intros [= ->]. split; [by left|]. split; [intros ? [= ->]; lia | done].
  - intros [= ->]. split; [by right|]. split; [done | intros ? [= ->]; lia].
  - destruct (Z.ltb_spec (time_to_send t) (time_to_send h)); intros [= ->].
    + split; [by right|]. split; intros ? [= ->]; lia.
    + split; [by left|]. split; intros ? [= ->]; lia.
Qed.

(** On a tie the chain wins. *)
Lemma fq_peek_tie f h t l1 l2 :
  head f = h :: l1 → t_root f = t :: l2 → time_to_send t = time_to_send h →
  fq_peek f = Some h.
Proof.
  intros Hh Ht Heq. unfold fq_peek. rewrite Hh, Ht.
  destruct (Z.ltb_spec (time_to_send t) (time_to_send h)); [lia | done].
Qed.

Lemma fq_peek_earliest f skb x :
  flow_ordered f → fq_peek f = Some skb → x ∈ flow_packets f →
  time_to_send skb <= time_to_send x.
Proof.
  intros [Hh Ht] Hp Hx. apply fq_peek_Some in Hp as (_ & Hph & Hpt).
  unfold flow_packets in Hx. apply elem_of_app in Hx as [Hx|Hx].
  - destruct (head f) as [|h l]; [by apply elem_of_nil in Hx|].
    specialize (Hph h eq_refl). apply sorted_by_cons in Hh as [Hall _].
    apply elem_of_cons in Hx as [->|Hx]; [done|].
    rewrite Forall_forall in Hall. specialize (Hall x Hx). lia.
  - destruct (t_root f) as [|t l]; [by apply elem_of_nil in Hx|].
    specialize (Hpt t eq_refl). apply sorted_by_cons in Ht as [Hall _].
    apply elem_of_cons in Hx as [->|Hx]; [done|].
    rewrite Forall_forall in Hall. specialize (Hall x Hx). lia.
Qed.

Lemma fq_peek_elem_of f skb : fq_peek f = Some skb → skb ∈ flow_packets f.
Proof.
  intros Hp. apply fq_peek_Some in Hp as ([Hp|Hp] & _); unfold flow_packets;
    apply elem_of_app; [left|right].
  - destruct (head f); simplify_eq/=. by left.
  - destruct (t_root f); simplify_eq/=. by left.
Qed.

(** Where [flow_queue_add] puts the packet. *)
Lemma flow_queue_add_tail f skb :
  (head f = [] ∨ ∃ tl, last (head f) = Some tl
                       ∧ time_to_send tl <= time_to_send skb) →
  head (flow_queue_add f skb) = head f ++ [skb]
  ∧ t_root (flow_queue_add f skb) = t_root f.
Proof.
  unfold flow_queue_add. intros [Hnil|(tl & Htl & Hle)].
  - rewrite Hnil. done.
  - rewrite Htl. destruct (Z.geb_spec (time_to_send skb) (time_to_send tl));
      [done | lia].
Qed.

Lemma flow_queue_add_tree f skb tl :
  last (head f) = Some tl → time_to_send skb < time_to_send tl →
  head (flow_queue_add f skb) = head f
  ∧ t_root (flow_queue_add f skb) = rb_insert time_to_send skb (t_root f).
Proof.
  unfold flow_queue_add. intros -> Hlt.
  destruct (Z.geb_spec (time_to_send skb) (time_to_send tl)); [lia | done].
Qed.

Lemma flow_queue_add_cases f skb :
  (head (flow_queue_add f skb) = head f ++ [skb]
   ∧ t_root (flow_queue_add f skb) = t_root f
   ∧ (head f = [] ∨ ∃ tl, last (head f) = Some tl
                          ∧ time_to_send tl <= time_to_send skb))
  ∨ (head (flow_queue_add f skb) = head f
     ∧ t_root (flow_queue_add f skb) = rb_insert time_to_send skb (t_root f)
     ∧ ∃ tl, last (head f) = Some tl ∧ time_to_send skb < time_to_send tl).
Proof.
  destruct (last (head f)) as [tl|] eqn:Hl.
  - destruct (Z.le_gt_cases (time_to_send tl) (time_to_send skb)).
    + left. destruct (flow_queue_add_tail f skb) as [? ?]; eauto 6.
    + right. destruct (flow_queue_add_tree f skb tl) as [? ?]; eauto 6.
  - apply last_None in Hl. left.
    destruct (flow_queue_add_tail f skb) as [? ?]; eauto.
Qed.

Lemma flow_queue_add_ordered f skb :
  flow_ordered f → flow_ordered (flow_queue_add f skb).
Proof.
  intros [Hh Ht].
  destruct (flow_queue_add_cases f skb) as [(E1 & E2 & Hc)|(E1 & E2 & _)];
    unfold flow_ordered; rewrite E1, E2; split; try done.
  - destruct Hc as [->|(tl & Htl & Hle)].
    + apply sorted_by_cons. split; [constructor | apply sorted_by_nil].
    + apply sorted_by_snoc; [done|].
      eapply Forall_impl; [by eapply sorted_by_last_max|]. simpl. intros; lia.
  - by apply rb_insert_sorted.
Qed.

Lemma flow_queue_add_packets f skb x :
  x ∈ flow_packets (flow_queue_add f skb) ↔ x = skb ∨ x ∈ flow_packets f.
Proof.
  unfold flow_packets.
  destruct (flow_queue_add_cases f skb) as [(E1 & E2 & _)|(E1 & E2 & _)];
    rewrite E1, E2, !elem_of_app, ?rb_insert_elem_of, ?list_elem_of_singleton;
    tauto.
Qed.

Lemma fq_erase_head_ordered f skb :
  flow_ordered f → flow_ordered (fq_erase_head f skb).
Proof.
  intros [Hh Ht]. unfold fq_erase_head, flow_ordered.
  destruct (head f) as [|h rest] eqn:E; simpl.
  - rewrite E. split; [done | by apply rb_erase_skb_sorted].
  - destruct (skb_addr skb =? skb_addr h); simpl.
    + split; [|done]. by apply sorted_by_cons in Hh as [_ ?].
    + rewrite E. split; [done | by apply rb_erase_skb_sorted].
Qed.

Lemma fq_erase_head_packets f skb x :
  x ∈ flow_packets (fq_erase_head f skb) → x ∈ flow_packets f.
Proof.
  unfold fq_erase_head, flow_packets.
  destruct (head f) as [|h rest] eqn:E; simpl.
  - rewrite E. simpl. apply rb_erase_skb_elem_of.
  - destruct (skb_addr skb =? skb_addr h); simpl.
    + rewrite elem_of_cons. tauto.
    + rewrite E. simpl. rewrite !elem_of_cons, !elem_of_app.
      intros [?|[?|?]]; auto.
      right. right. by eapply rb_erase_skb_elem_of.
Qed.

Lemma peeks_sorted_above ops : ∀ f last,
  flow_ordered f → above last f → enq_not_earlier last f ops →
  StronglySorted Z.le (peeks f ops)
  ∧ ∀ v, last = Some v → Forall (Z.le v) (peeks f ops).
Proof.
  induction ops as [|op ops IH]; intros f last Hord Hab Hok.
  - simpl. unfold peek_time. destruct (fq_peek f) as [skb|] eqn:Hp.
    + split; [repeat constructor|]. intros v ->. repeat constructor.
      eapply Hab; [done | by apply fq_peek_elem_of].
    + split; [constructor | intros; constructor].
  - simpl in Hok |- *. destruct Hok as [Hop Hok].
    set (last' := match fq_peek f with
                  | Some skb => Some (time_to_send skb)
                  | None => last
                  end) in *.
    assert (Hab' : above last' f).
    { unfold last'. destruct (fq_peek f) as [skb|] eqn:Hp; [|done].
      intros v x [= <-] Hx. by eapply fq_peek_earliest. }
    assert (Hnext : flow_ordered (flow_step op f) ∧ above last' (flow_step op f)).
    { destruct op as [skb|]; simpl.
      - split; [by apply flow_queue_add_ordered|].
        intros v x Hv Hx. apply flow_queue_add_packets in Hx as [->|Hx]; eauto.
      - destruct (fq_peek f) as [skb|]; [|done].
        split; [by apply fq_erase_head_ordered|].
        intros v x Hv Hx. apply fq_erase_head_packets in Hx. eauto. }
    destruct Hnext as [Hord' Hab''].
    destruct (IH _ _ Hord' Hab'' Hok) as [Hs Hge].
    unfold peek_time, last' in *. destruct (fq_peek f) as [skb|] eqn:Hp; simpl.
    + split.
      * constructor; [done | by apply Hge].
      * intros v ->. assert (v <= time_to_send skb).
        { eapply Hab; [done | by apply fq_peek_elem_of]. }
        constructor; [done|]. eapply Forall_impl; [by apply Hge|].
        simpl. intros; lia.
    + split; [done|]. intros v ->. by apply Hge.
Qed.

End FlowQueue.

Lemma flow_run_ordered ops : ∀ f, flow_ordered f → flow_ordered (flow_run ops f).
Proof.
  induction ops as [|op ops IH]; intros f Hord; [done|].
  simpl. apply IH. destruct op as [skb|]; simpl.
  - by apply flow_queue_add_ordered.
  - destruct (fq_peek f); [by apply fq_erase_head_ordered | done].
Qed.

Lemma zero_flow_ordered : flow_ordered zero_flow.
Proof. split; apply sorted_by_nil. Qed.

(** C9 (as amended).  Take any flow reached from an empty flow by queue
    operations.  The values returned by successive peeks do not decrease
    as long as the operations in between are removals of the peeked packet
    and insertions of packets that are not earlier than the value last
    peeked.  A peek returns the first packet of the chain or of the tree,
    never one later than either: none when both are empty, the first of
    the one that is not empty when the other is, and otherwise the first
    of the tree when it is strictly earlier than the first of the chain
    and the first of the chain when it is not, so that on a tie the chain
    wins.  An insertion appends to the chain exactly when the chain is
    empty or the packet is not earlier than the tail, and otherwise
    inserts into the tree in [time_to_send] order. *)
Theorem C9_peeks_nondecreasing (pre ops : list flow_op) :
  let f := flow_run pre zero_flow in
  enq_not_earlier None f ops →
  StronglySorted Z.le (peeks f ops)
  ∧ (∀ skb, fq_peek f = Some skb →
       (list.head (head f) = Some skb ∨ list.head (t_root f) = Some skb)
       ∧ (∀ h, list.head (head f) = Some h →
            time_to_send skb <= time_to_send h)
       ∧ (∀ t, list.head (t_root f) = Some t →
            time_to_send skb <= time_to_send t))
  ∧ fq_peek f
    = match list.head (t_root f), list.head (head f) with
      | None, first => first
      | Some t, None => Some t
      | Some t, Some h =>
          if time_to_send t <? time_to_send h then Some t else Some h
      end
  ∧ (∀ h t, list.head (head f) = Some h → list.head (t_root f) = Some t →
       time_to_send t = time_to_send h → fq_peek f = Some h)
  ∧ (∀ skb,
       (head f = [] ∨ ∃ tl, last (head f) = Some tl
                            ∧ time_to_send tl <= time_to_send skb)
       ↔ head (flow_queue_add f skb) = head f ++ [skb])
  ∧ (∀ skb,
       head (flow_queue_add f skb) ≠ head f ++ [skb] →
       head (flow_queue_add f skb) = head f
       ∧ t_root (flow_queue_add f skb)
         = rb_insert time_to_send skb (t_root f)
       ∧ sorted_by time_to_send (t_root (flow_queue_add f skb))).
Proof.
  intros f Hok.
  assert (Hord : flow_ordered f).
  { apply flow_run_ordered, zero_flow_ordered. }
  split; [|split; [|split; [|split; [|split]]]].
  - eapply peeks_sorted_above; [done| |done]. by intros v x.
  - intros skb. apply fq_peek_Some.
  - unfold fq_peek. by destruct (t_root f), (head f).
  - intros h t Hh Ht Heq.
    destruct (head f) as [|h' l1] eqn:Eh; [done|].
    destruct (t_root f) as [|t' l2] eqn:Et; [done|].
    simpl in Hh, Ht. injection Hh as ->. injection Ht as ->.
    by apply (fq_peek_tie f h t l1 l2).
  - intros skb. split.
    + intros Hc. by apply flow_queue_add_tail.
    + intros Heq.
      destruct (flow_queue_add_cases f skb) as [(_ & _ & Hc)|(E1 & _ & _)];
        [done|].
      rewrite E1 in Heq. apply (f_equal length) in Heq.
      rewrite length_app in Heq. simpl in Heq. lia.
  - intros skb Hne.
    destruct (flow_queue_add_cases f skb) as [(E1 & _ & _)|(E1 & E2 & _)];
      [done|].
    split; [done|]. split; [done|].
    by apply flow_queue_add_ordered.
Qed.

(** A run the theorem applies to: three insertions, the third of which
    goes to the tree, and two removals.  And a tie: after packets due at
    10 and 20 are chained, a second packet due at 10 goes to the tree, and
    the peek returns the one at the head of the chain. *)
Lemma C9_peeks_nondecreasing_witness :
  let ops := [Enq (Skb 2 5 0 None 0 100 5); Enq (Skb 4 10 0 None 0 100 10);
              Enq (Skb 6 7 0 None 0 100 7); Deq; Deq] in
  let pre := [Enq (Skb 2 10 0 None 0 100 10); Enq (Skb 4 20 0 None 0 100 20);
              Enq (Skb 6 10 0 None 0 100 10)] in
  (enq_not_earlier None (flow_run [] zero_flow) ops
   ∧ StronglySorted Z.le (peeks (flow_run [] zero_flow) ops))
  ∧ (enq_not_earlier None (flow_run pre zero_flow) []
     ∧ list.head (t_root (flow_run pre zero_flow))
       = Some (Skb 6 10 0 None 0 100 10)
     ∧ fq_peek (flow_run pre zero_flow) = Some (Skb 2 10 0 None 0 100 10)).
Proof.
  intros ops pre.
  assert (H : enq_not_earlier None (flow_run [] zero_flow) ops).
  { simpl. repeat split; intros v Hv; simplify_eq; lia. }
  assert (H' : enq_not_earlier None (flow_run pre zero_flow) []) by exact I.
  split.
  - split; [exact H|].
    exact (proj1 (C9_peeks_nondecreasing [] _ H)).
  - split; [exact H'|]. split; [reflexivity|].
    destruct (C9_peeks_nondecreasing pre [] H') as (_ & _ & _ & Htie & _).
    exact (Htie (Skb 2 10 0 None 0 100 10) (Skb 6 10 0 None 0 100 10)
             eq_refl eq_refl eq_refl).
Defined.

(** C9, as stated, fails: with arbitrary insertions in between, a later
    peek can return an earlier packet.  After a packet due at 10 is queued
    and peeked, a packet due at 5 goes to the tree, and the next peek
    returns it. *)
Lemma C9_counterexample :
  peeks zero_flow [Enq (Skb 2 10 0 None 0 100 10); Enq (Skb 4 5 0 None 0 100 5)]
    = [10; 5]
  ∧ ¬ StronglySorted Z.le
        (peeks zero_flow
           [Enq (Skb 2 10 0 None 0 100 10); Enq (Skb 4 5 0 None 0 100 5)]).
Proof.
  split; [reflexivity|].
  intros H. change (StronglySorted Z.le [10; 5]) in H.
  apply StronglySorted_inv in H as [_ H]. apply Forall_cons in H as [H _]. lia.
Qed.

(** ** Machine integers, flow access *)

Lemma s64_small x : - 2 ^ 63 <= x < 2 ^ 63 → s64 x = x.
Proof.
  intros H. unfold s64, signed, wrap.
  change (2 ^ (64 - 1)) with (2 ^ 63).
  destruct (Z.ltb_spec (x mod 2 ^ 64) (2 ^ 63)) as [Hlt|Hge].
  - destruct (Z.lt_ge_cases x 0) as [Hneg|Hpos].
    + assert (x mod 2 ^ 64 = x + 2 ^ 64).
      { symmetry. apply (Z.mod_unique_pos _ _ (-1)); lia. }
      lia.
    + apply Z.mod_small. lia.
  - destruct (Z.lt_ge_cases x 0) as [Hneg|Hpos].
    + assert (x mod 2 ^ 64 = x + 2 ^ 64).
      { symmetry. apply (Z.mod_unique_pos _ _ (-1)); lia. }
      lia.
    + rewrite Z.mod_small in Hge by lia. lia.
Qed.

Lemma u64_small x : 0 <= x < 2 ^ 64 → u64 x = x.
Proof. intros H. unfold u64, wrap. apply Z.mod_small. lia. Qed.

Lemma u32_small x : 0 <= x < 2 ^ 32 → u32 x = x.
Proof. intros H. unfold u32, wrap. apply Z.mod_small. lia. Qed.


Lemma get_put_flow r f q : get_flow (put_flow r f q) r = f.
Proof. destruct r; simpl; [done|]. by rewrite lookup_insert_eq. Qed.

Lemma get_upd_flow r g q : get_flow (upd_flow r g q) r = g (get_flow q r).
Proof. apply get_put_flow. Qed.

Lemma get_flow_set_st v q r : get_flow (set_st v q) r = get_flow q r.
Proof. by destruct r. Qed.
Lemma get_flow_set_co v q r : get_flow (set_co v q) r = get_flow q r.
Proof. by destruct r. Qed.
Lemma get_flow_set_sch_qlen v q r : get_flow (set_sch_qlen v q) r = get_flow q r.
Proof. by destruct r. Qed.

Lemma st_put_flow r f q : st (put_flow r f q) = st q.
Proof. by destruct r. Qed.
Lemma st_upd_flow r g q : st (upd_flow r g q) = st q.
Proof. by destruct r. Qed.
Lemma co_upd_flow r g q : co (upd_flow r g q) = co q.
Proof. by destruct r. Qed.
Lemma cfg_upd_flow r g q : cfg (upd_flow r g q) = cfg q.
Proof. by destruct r. Qed.

(** The enqueue tail queues the packet in its flow. *)
Lemma fq_enqueue_tail_flow skb f q :
  get_flow (fq_enqueue_tail skb f q) f
  = flow_queue_add (set_socket_hash (u32 (Z.land (skb_hash skb) (orphan_mask (cfg q))))
                      (get_flow q f)) skb.
Proof.
  unfold fq_enqueue_tail.
  rewrite get_flow_set_sch_qlen.
  set (q1 := upd_flow f _ q).
  assert (H1 : get_flow q1 f = set_socket_hash (u32 (Z.land (skb_hash skb) (orphan_mask (cfg q)))) (get_flow q f)) by apply get_upd_flow.
  match goal with |- context [upd_flow f ?g ?q3] => set (q3' := q3); set (gg := g) end.
  assert (H3 : get_flow q3' f = get_flow q1 f).
  { unfold q3'. repeat case_match; rewrite ?get_flow_set_co; done. }
  case_match; rewrite ?get_flow_set_st, get_upd_flow, H3, H1; done.
Qed.

Lemma flow_queue_add_elem f skb : skb ∈ flow_packets (flow_queue_add f skb).
Proof. apply flow_queue_add_packets. by left. Qed.

(** Fields that classification leaves alone. *)
Lemma fq_gc_frame h q key :
  cfg (fq_gc h q key) = cfg q ∧ co (fq_gc h q key) = co q
  ∧ sch_qlen (fq_gc h q key) = sch_qlen q
  ∧ new_flows (fq_gc h q key) = new_flows q
  ∧ old_flows (fq_gc h q key) = old_flows q
  ∧ co_flows (fq_gc h q key) = co_flows q
  ∧ delayed (fq_gc h q key) = delayed q
  ∧ time_next_delayed_flow (fq_gc h q key) = time_next_delayed_flow q
  ∧ ktime_cache (fq_gc h q key) = ktime_cache q
  ∧ internal (fq_gc h q key) = internal q
  ∧ stat_horizon_caps (st (fq_gc h q key)) = stat_horizon_caps (st q)
  ∧ stat_horizon_drops (st (fq_gc h q key)) = stat_horizon_drops (st q).
Proof. unfold fq_gc. case_match; done. Qed.

Lemma fq_classify_frame h skb q f skb2 q2 :
  fq_classify h skb q = (f, skb2, q2) →
  cfg q2 = cfg q ∧ co q2 = co q ∧ sch_qlen q2 = sch_qlen q
  ∧ new_flows q2 = new_flows q ∧ co_flows q2 = co_flows q
  ∧ time_next_delayed_flow q2 = time_next_delayed_flow q
  ∧ ktime_cache q2 = ktime_cache q
  ∧ stat_horizon_caps (st q2) = stat_horizon_caps (st q)
  ∧ stat_horizon_drops (st q2) = stat_horizon_drops (st q)
  ∧ skb_addr skb2 = skb_addr skb ∧ tstamp skb2 = tstamp skb
  ∧ time_to_send skb2 = time_to_send skb ∧ skb_hash skb2 = skb_hash skb
  ∧ pkt_len skb2 = pkt_len skb ∧ priority skb2 = priority skb.
Proof.
  unfold fq_classify. case_match; [by intros [= <- <- <-]|].
  destruct (fq_classify_key skb q) as [key skb1] eqn:Hk.
  assert (Hskb : skb_addr skb1 = skb_addr skb ∧ tstamp skb1 = tstamp skb
    ∧ time_to_send skb1 = time_to_send skb ∧ skb_hash skb1 = skb_hash skb
    ∧ pkt_len skb1 = pkt_len skb ∧ priority skb1 = priority skb).
  { unfold fq_classify_key in Hk. repeat case_match; simplify_eq; done. }
  match goal with
  | |- context [if ?c then fq_gc h q key else q] =>
      set (q1 := if c then fq_gc h q key else q)
  end.
  assert (Hq1 : cfg q1 = cfg q ∧ co q1 = co q ∧ sch_qlen q1 = sch_qlen q
    ∧ new_flows q1 = new_flows q ∧ co_flows q1 = co_flows q
    ∧ time_next_delayed_flow q1 = time_next_delayed_flow q
    ∧ ktime_cache q1 = ktime_cache q
    ∧ stat_horizon_caps (st q1) = stat_horizon_caps (st q)
    ∧ stat_horizon_drops (st q1) = stat_horizon_drops (st q)).
  { unfold q1. case_match; [|done].
    pose proof (fq_gc_frame h q key). tauto. }
  clearbody q1. destruct Hq1 as (<- & <- & <- & <- & <- & <- & <- & <- & <-).
  destruct Hskb as (<- & <- & <- & <- & <- & <-).
  destruct (fq_root q1 !! key) as [f0|].
  - destruct (keyed_sock skb1 key) as [s|]; [|by intros [= <- <- <-]].
    destruct (negb _); [|by intros [= <- <- <-]].
    intros [= <- <- <-].
    destruct (fq_flow_is_throttled _); done.
  - destruct (negb _); intros [= <- <- <-]; done.
Qed.

(** What a successful enqueue went through. *)
Lemma fq_enqueue_success h skb q q' :
  fq_enqueue h skb q = (NET_XMIT_SUCCESS, q') →
  ∃ skb1 q1 f skb2 q2 q5,
    fq_enqueue_horizon h skb q = (Some skb1, q1)
    ∧ fq_classify h skb1 q1 = (f, skb2, q2)
    ∧ (let q3 := upd_flow f (λ fl, set_qlen (s32 (qlen fl + 1)) fl) q2 in
       if fq_flow_is_detached (get_flow q3 f)
       then fq_enqueue_detached h skb2 f q3 = Some q5
       else q5 = q3)
    ∧ q' = fq_enqueue_tail skb2 f q5.
Proof.
  unfold fq_enqueue. case_match; [done|].
  destruct (fq_enqueue_horizon h skb q) as [[skb1|] q1] eqn:Hh; [|done].
  destruct (fq_classify h skb1 q1) as [[f skb2] q2] eqn:Hc.
  case_match; [done|].
  destruct (fq_flow_is_detached (get_flow (upd_flow f _ q2) f)) eqn:Hd.
  - destruct (fq_enqueue_detached h skb2 f _) as [q5|] eqn:He; [|done].
    intros [= <-]. exists skb1, q1, f, skb2, q2, q5.
    cbv zeta. rewrite Hd. done.
  - intros [= <-]. eexists skb1, q1, f, skb2, q2, _.
    cbv zeta. rewrite Hd. done.
Qed.

Lemma fq_enqueue_detached_frame h skb f q q' :
  fq_enqueue_detached h skb f q = Some q' →
  cfg q' = cfg q ∧ st q' = st q ∧ sch_qlen q' = sch_qlen q
  ∧ new_flows q' = new_flows q ++ [f] ∧ co_flows q' = co_flows q
  ∧ pFlowid0 (co q') = pFlowid0 (co q) ∧ pFlowid1 (co q') = pFlowid1 (co q)
  ∧ ucounter (co q') = ucounter (co q) ∧ flipflag (co q') = flipflag (co q)
  ∧ ∃ s, sk skb = Some s ∧ sport (co q') = sk_num s ∧ dport (co q') = sk_dport s.
Proof.
  unfold fq_enqueue_detached, fq_flow_add_tail, upd_flow.
  destruct (sk skb) as [s|]; [|done].
  destruct f; repeat case_match; intros [= <-]; simpl; eauto 20.
Qed.

Lemma fq_enqueue_tail_frame skb f q :
  cfg (fq_enqueue_tail skb f q) = cfg q
  ∧ new_flows (fq_enqueue_tail skb f q) = new_flows q
  ∧ old_flows (fq_enqueue_tail skb f q) = old_flows q
  ∧ co_flows (fq_enqueue_tail skb f q) = co_flows q
  ∧ delayed (fq_enqueue_tail skb f q) = delayed q
  ∧ time_next_delayed_flow (fq_enqueue_tail skb f q) = time_next_delayed_flow q
  ∧ stat_horizon_caps (st (fq_enqueue_tail skb f q)) = stat_horizon_caps (st q)
  ∧ stat_horizon_drops (st (fq_enqueue_tail skb f q)) = stat_horizon_drops (st q).
Proof.
  unfold fq_enqueue_tail, upd_flow. destruct f; repeat case_match; done.
Qed.

Lemma fq_enqueue_horizon_far h skb q :
  let now := ktime_get_ns h in
  tstamp skb ≠ 0 →
  0 <= ktime_cache q <= now →
  0 <= horizon (cfg q) →
  now + horizon (cfg q) < tstamp skb < 2 ^ 63 →
  fq_enqueue_horizon h skb q
  = if horizon_drop (cfg q) =? 0 then
      (Some (set_time_to_send (now + horizon (cfg q))
               (set_tstamp (now + horizon (cfg q)) skb)),
       set_st (set_stat_horizon_caps (u64 (stat_horizon_caps (st q) + 1)) (st q))
         (set_ktime_cache now q))
    else
      (None,
       set_st (set_stat_horizon_drops (u64 (stat_horizon_drops (st q) + 1)) (st q))
         (set_ktime_cache now q)).
Proof.
  intros now Hts Hc Hh Hfar. subst now.
  unfold fq_enqueue_horizon, fq_packet_beyond_horizon.
  destruct (Z.eqb_spec (tstamp skb) 0) as [|_]; [done|].
  simpl.
  rewrite !s64_small by lia.
  destruct (Z.gtb_spec (tstamp skb) (ktime_cache q + horizon (cfg q))); [|lia].
  destruct (Z.gtb_spec (tstamp skb) (ktime_get_ns h + horizon (cfg q))); [|lia].
  destruct (horizon_drop (cfg q) =? 0); simpl; [|done].
  rewrite u64_small by lia. done.
Qed.

Lemma fq_enqueue_horizon_frame h skb q skb1 q1 :
  fq_enqueue_horizon h skb q = (Some skb1, q1) →
  cfg q1 = cfg q ∧ co q1 = co q ∧ sch_qlen q1 = sch_qlen q
  ∧ new_flows q1 = new_flows q ∧ old_flows q1 = old_flows q
  ∧ co_flows q1 = co_flows q ∧ delayed q1 = delayed q
  ∧ time_next_delayed_flow q1 = time_next_delayed_flow q
  ∧ fq_root q1 = fq_root q ∧ internal q1 = internal q
  ∧ skb_addr skb1 = skb_addr skb ∧ sk skb1 = sk skb
  ∧ skb_hash skb1 = skb_hash skb ∧ priority skb1 = priority skb
  ∧ pkt_len skb1 = pkt_len skb.
Proof.
  unfold fq_enqueue_horizon. repeat case_match; intros [= <- <-]; done.
Qed.

Lemma socket_hash_flow_queue_add f skb :
  socket_hash (flow_queue_add f skb) = socket_hash f.
Proof. unfold flow_queue_add. repeat case_match; done. Qed.

Lemma fq_classify_sk h skb q f skb2 q2 s :
  fq_classify h skb q = (f, skb2, q2) → sk skb2 = Some s → sk skb = Some s.
Proof.
  unfold fq_classify. case_match; [by intros [= <- <- <-]|].
  destruct (fq_classify_key skb q) as [key skb1] eqn:Hk.
  intros Hc Hs. assert (skb2 = skb1) as ->.
  { revert Hc. clear. 
    match goal with
    | |- context [if ?c then fq_gc h q key else q] =>
      generalize (if c then fq_gc h q key else q)
    end. intros q1.
    destruct (fq_root q1 !! key); [destruct (keyed_sock skb1 key)|].
    - destruct (negb _); by intros [= <- <- <-].
    - by intros [= <- <- <-].
    - destruct (negb _); by intros [= <- <- <-]. }
  unfold fq_classify_key in Hk. clear Hc.
  destruct (sk skb) as [s0|] eqn:E; [|simplify_eq; done].
  destruct (sk_listener s0); [simplify_eq; done|].
  destruct (sk_state s0 =? TCP_CLOSE); simplify_eq; congruence.
Qed.

(** The test of [fq_dequeue] for a co-flow. *)
Lemma valuePresentInArray_pFlowid v q :
  valuePresentInArray v (pFlowid q) 2 ≠ -1
  ↔ v = pFlowid0 (co q) ∨ v = pFlowid1 (co q).
Proof.
  unfold valuePresentInArray, pFlowid. simpl.
  destruct (Z.eqb_spec (pFlowid0 (co q)) v), (Z.eqb_spec (pFlowid1 (co q)) v);
    split; intros H; try done; try (by left); try (by right);
    destruct H; congruence.
Qed.

(** The co-flow identifiers after the tail of [fq_enqueue]. *)
Lemma fq_enqueue_tail_co skb f q :
  let q' := fq_enqueue_tail skb f q in
  let hsh := u32 (Z.land (skb_hash skb) (orphan_mask (cfg q))) in
  socket_hash (get_flow q' f) = hsh
  ∧ pFlowid0 (co q') = (if sport (co q) =? 46730 then hsh else pFlowid0 (co q))
  ∧ pFlowid1 (co q') = (if sport (co q) =? 46731 then hsh else pFlowid1 (co q))
  ∧ ucounter (co q') = ucounter (co q) ∧ flipflag (co q') = flipflag (co q)
  ∧ sport (co q') = sport (co q).
Proof.
  intros q' hsh. split.
  { unfold q'. rewrite fq_enqueue_tail_flow, socket_hash_flow_queue_add. done. }
  unfold q', fq_enqueue_tail.
  set (q1 := upd_flow f _ q).
  assert (H1 : get_flow q1 f = set_socket_hash hsh (get_flow q f))
    by apply get_upd_flow.
  assert (Hco : co q1 = co q) by apply co_upd_flow.
  cbn [co set_sch_qlen].
  destruct (sport (co q1) =? 46730) eqn:E0; rewrite Hco in E0; rewrite E0;
    cbn [co set_co sport set_sport set_pFlowid0];
    destruct (sport (co q1) =? 46731) eqn:E1; rewrite Hco in E1; rewrite E1;
    destruct f; simpl; rewrite ?Hco; try done;
    rewrite ?get_flow_set_co; simpl in H1; rewrite ?H1; try done.
Qed.

Lemma fq_enqueue_flow_spec h skb q f fl skb2 :
  fq_enqueue_flow h skb q = Some (f, fl, skb2) →
  ∃ skb1 q1 q2,
    fq_enqueue_horizon h skb q = (Some skb1, q1)
    ∧ fq_classify h skb1 q1 = (f, skb2, q2) ∧ fl = get_flow q2 f.
Proof.
  unfold fq_enqueue_flow. case_match; [done|].
  destruct (fq_enqueue_horizon h skb q) as [[skb1|] q1]; [|done].
  destruct (fq_classify h skb1 q1) as [[f' skb2'] q2] eqn:Hc.
  intros [= <- <- <-]. by exists skb1, q1, q2.
Qed.

Lemma fq_flow_is_detached_set_qlen v fl :
  fq_flow_is_detached (set_qlen v fl) = fq_flow_is_detached fl.
Proof. done. Qed.

(** What a successful enqueue into a detached flow went through. *)
Lemma fq_enqueue_success_detached h skb q q' f fl skb2 :
  fq_enqueue h skb q = (NET_XMIT_SUCCESS, q') →
  fq_enqueue_flow h skb q = Some (f, fl, skb2) →
  fq_flow_is_detached fl = true →
  ∃ skb1 q1 q2 q5,
    fq_enqueue_horizon h skb q = (Some skb1, q1)
    ∧ fq_classify h skb1 q1 = (f, skb2, q2)
    ∧ fq_enqueue_detached h skb2 f
        (upd_flow f (λ fl, set_qlen (s32 (qlen fl + 1)) fl) q2) = Some q5
    ∧ q' = fq_enqueue_tail skb2 f q5.
Proof.
  intros He Hf Hd.
  apply fq_enqueue_success in He
    as (skb1 & q1 & f' & skb2' & q2 & q5 & Hh & Hc & H5 & ->).
  apply fq_enqueue_flow_spec in Hf as (skb1' & q1' & q2' & Hh' & Hc' & ->).
  rewrite Hh in Hh'. simplify_eq. rewrite Hc in Hc'. simplify_eq.
  cbv zeta in H5. rewrite get_upd_flow, fq_flow_is_detached_set_qlen, Hd in H5.
  eauto 10.
Qed.

(** C1 (as amended).  On every successful enqueue into a flow that was
    detached, the flow hash becomes the packet hash masked by
    [orphan_mask]; [pFlowid[0]] becomes that hash exactly when the source
    port of the packet's socket is 46730 and [pFlowid[1]] exactly when it
    is 46731, and they keep their value otherwise; the ports configured
    through [fq_change] play no part.  Dequeue then takes a flow for a
    co-flow exactly when its hash is one of the two identifiers. *)
Theorem C1_ids_learned_from_fixed_ports
    (h : host) (skb : sk_buff) (q q' : fq_sched_data)
    (f : flow_ref) (fl : fq_flow) (skb2 : sk_buff) :
  fq_enqueue h skb q = (NET_XMIT_SUCCESS, q') →
  fq_enqueue_flow h skb q = Some (f, fl, skb2) →
  fq_flow_is_detached fl = true →
  ∃ s, sk skb = Some s
    ∧ socket_hash (get_flow q' f)
      = u32 (Z.land (skb_hash skb) (orphan_mask (cfg q)))
    ∧ pFlowid0 (co q')
      = (if sk_num s =? CO_SPORT_0 then socket_hash (get_flow q' f)
         else pFlowid0 (co q))
    ∧ pFlowid1 (co q')
      = (if sk_num s =? CO_SPORT_1 then socket_hash (get_flow q' f)
         else pFlowid1 (co q))
    ∧ ∀ v, valuePresentInArray v (pFlowid q') 2 ≠ -1
           ↔ v = pFlowid0 (co q') ∨ v = pFlowid1 (co q').
Proof.
  intros He Hf Hd.
  destruct (fq_enqueue_success_detached _ _ _ _ _ _ _ He Hf Hd)
    as (skb1 & q1 & q2 & q5 & Hh & Hc & H5 & ->).
  apply fq_enqueue_detached_frame in H5
    as (Hcfg5 & _ & _ & _ & _ & Hp0 & Hp1 & _ & _ & s & Hs & Hsport & _).
  rewrite cfg_upd_flow in Hcfg5. rewrite !co_upd_flow in *.
  pose proof (fq_classify_sk _ _ _ _ _ _ _ Hc Hs) as Hs1.
  pose proof Hc as Hc'.
  apply fq_classify_frame in Hc'
    as (Hcfg2 & Hco2 & _ & _ & _ & _ & _ & _ & _ & _ & _ & _ & Hhash & _).
  apply fq_enqueue_horizon_frame in Hh
    as (Hcfg1 & Hco1 & _ & _ & _ & _ & _ & _ & _ & _ & _ & Hsk & Hhash1 & _).
  exists s. split; [congruence|].
  destruct (fq_enqueue_tail_co skb2 f q5) as (E1 & E2 & E3 & _).
  split; [|split; [|split]]; [| | |intros v; apply valuePresentInArray_pFlowid].
  all: rewrite ?E1, ?E2, ?E3, ?Hsport, ?Hp0, ?Hp1, ?Hcfg5, ?Hcfg2, ?Hcfg1,
    ?Hco2, ?Hco1, ?Hhash, ?Hhash1; done.
Qed.

(** C5 (as amended).  On every successful enqueue into a flow that was
    detached, the flow is appended to [new_flows] and [co_flows] is left
    as it is, whatever the flow hash and the co-flow identifiers are. *)
Theorem C5_detached_flow_joins_new_flows
    (h : host) (skb : sk_buff) (q q' : fq_sched_data)
    (f : flow_ref) (fl : fq_flow) (skb2 : sk_buff) :
  fq_enqueue h skb q = (NET_XMIT_SUCCESS, q') →
  fq_enqueue_flow h skb q = Some (f, fl, skb2) →
  fq_flow_is_detached fl = true →
  new_flows q' = new_flows q ++ [f] ∧ co_flows q' = co_flows q.
Proof.
  intros He Hf Hd.
  destruct (fq_enqueue_success_detached _ _ _ _ _ _ _ He Hf Hd)
    as (skb1 & q1 & q2 & q5 & Hh & Hc & H5 & ->).
  apply fq_enqueue_detached_frame in H5 as (_ & _ & _ & Hn & Hco & _).
  destruct (fq_enqueue_tail_frame skb2 f q5) as (_ & -> & _ & -> & _).
  rewrite Hn, Hco.
  apply fq_classify_frame in Hc as (_ & _ & _ & Hn2 & Hc2 & _).
  apply fq_enqueue_horizon_frame in Hh as (_ & _ & _ & Hn1 & _ & Hc1 & _).
  assert (new_flows (upd_flow f (λ fl, set_qlen (s32 (qlen fl + 1)) fl) q2)
          = new_flows q2) as -> by (by destruct f).
  assert (co_flows (upd_flow f (λ fl, set_qlen (s32 (qlen fl + 1)) fl) q2)
          = co_flows q2) as -> by (by destruct f).
  rewrite Hn2, Hn1, Hc2, Hc1. done.
Qed.

(** A first packet from the port 46730: its flow is new, hence detached,
    and the first identifier becomes the flow hash 11. *)
Lemma C1_ids_learned_from_fixed_ports_witness :
  let h := host_at 0 in
  let skb := pkt 100 0 11 sock_A in
  fq_enqueue h skb sched0 = (NET_XMIT_SUCCESS, enq h skb sched0)
  ∧ fq_enqueue_flow h skb sched0
    = Some (Dyn 1000, Flow [] [] 1 1000 111 0 15000 false 0, skb)
  ∧ pFlowid0 (co (enq h skb sched0)) = 11
  ∧ pFlowid1 (co (enq h skb sched0)) = 0.
Proof.
  intros h skb.
  assert (H1 : fq_enqueue h skb sched0 = (NET_XMIT_SUCCESS, enq h skb sched0))
    by (vm_compute; reflexivity).
  assert (H2 : fq_enqueue_flow h skb sched0
               = Some (Dyn 1000, Flow [] [] 1 1000 111 0 15000 false 0, skb))
    by (vm_compute; reflexivity).
  split; [exact H1|]. split; [exact H2|].
  destruct (C1_ids_learned_from_fixed_ports h skb sched0 _ _ _ _ H1 H2 eq_refl)
    as (s & Hs & Hh & H0 & H1' & _).
  injection Hs as <-. rewrite H0, H1', Hh. split; reflexivity.
Defined.

(** C1, as stated, fails: the ports configured by [fq_change] play no part.
    With [f1_sourceport = 5000], a first packet from source port 5000 is
    queued into its detached flow and [pFlowid[0]] is not set to the flow
    hash 33; and a first packet from port 46730, which is not a configured
    port, sets [pFlowid[0]] to its flow hash 11. *)
Lemma C1_counterexample :
  let h := host_at 0 in
  let skb := pkt 300 0 33 (sock_at 3000 333 5000) in
  let skb' := pkt 100 0 11 sock_A in
  f1_sourceport (cfg sched_ports) = 5000
  ∧ f2_sourceport (cfg sched_ports) = 5001
  ∧ (fq_enqueue h skb sched_ports).1 = NET_XMIT_SUCCESS
  ∧ fq_enqueue_flow h skb sched_ports
    = Some (Dyn 3000, Flow [] [] 1 3000 333 0 15000 false 0, skb)
  ∧ socket_hash (get_flow (enq h skb sched_ports) (Dyn 3000)) = 33
  ∧ pFlowid0 (co (enq h skb sched_ports)) = 0
  ∧ (fq_enqueue h skb' sched_ports).1 = NET_XMIT_SUCCESS
  ∧ socket_hash (get_flow (enq h skb' sched_ports) (Dyn 1000)) = 11
  ∧ pFlowid0 (co (enq h skb' sched_ports)) = 11.
Proof. vm_compute. repeat split; reflexivity. Qed.

(** A first packet of a flow: the flow joins [new_flows]. *)
Lemma C5_detached_flow_joins_new_flows_witness :
  let h := host_at 0 in
  let skb := pkt 100 0 11 sock_A in
  fq_enqueue h skb sched0 = (NET_XMIT_SUCCESS, enq h skb sched0)
  ∧ fq_enqueue_flow h skb sched0
    = Some (Dyn 1000, Flow [] [] 1 1000 111 0 15000 false 0, skb)
  ∧ new_flows (enq h skb sched0) = [Dyn 1000]
  ∧ co_flows (enq h skb sched0) = [].
Proof.
  intros h skb.
  assert (H1 : fq_enqueue h skb sched0 = (NET_XMIT_SUCCESS, enq h skb sched0))
    by (vm_compute; reflexivity).
  assert (H2 : fq_enqueue_flow h skb sched0
               = Some (Dyn 1000, Flow [] [] 1 1000 111 0 15000 false 0, skb))
    by (vm_compute; reflexivity).
  split; [exact H1|]. split; [exact H2|].
  destruct (C5_detached_flow_joins_new_flows h skb sched0 _ _ _ _ H1 H2 eq_refl)
    as [Hn Hc].
  rewrite Hn, Hc. split; reflexivity.
Defined.

(** C5, as stated, fails: a detached flow whose hash is a learned co-flow
    identifier joins [new_flows], not [co_flows].  In [sched_X_detached]
    the identifier [pFlowid[0]] is 11 and the detached flow of [sock_X] has
    hash 11, before and after the call. *)
Lemma C5_counterexample :
  let h := host_at 0 in
  let skb := pkt 302 0 1035 sock_X in
  pFlowid0 (co sched_X_detached) = 11
  ∧ fq_enqueue_flow h skb sched_X_detached
    = Some (Dyn 3000, Flow [] [] 1 3000 11 0 13500 false 0, skb)
  ∧ (fq_enqueue h skb sched_X_detached).1 = NET_XMIT_SUCCESS
  ∧ socket_hash (get_flow (enq h skb sched_X_detached) (Dyn 3000)) = 11
  ∧ pFlowid0 (co (enq h skb sched_X_detached)) = 11
  ∧ new_flows (enq h skb sched_X_detached)
    = new_flows sched_X_detached ++ [Dyn 3000]
  ∧ co_flows (enq h skb sched_X_detached) = [].
Proof. vm_compute. repeat split; reflexivity. Qed.

(** Garbage collection never frees the flow that is looked up. *)
Lemma fq_gc_scan_not_key h tab key path : ∀ tofree,
  key ∉ tofree → key ∉ fq_gc_scan h tab key path tofree.
Proof.
  induction path as [|k path IH]; intros tofree Hn; simpl; [done|].
  destruct (tab !! k) as [f|]; [|by apply IH].
  destruct (Z.eqb_spec k key) as [->|Hne]; [done|].
  destruct (fq_gc_candidate h f); [|by apply IH].
  assert (key ∉ tofree ++ [k]).
  { rewrite elem_of_app, list_elem_of_singleton. intros [?|?]; congruence. }
  case_match; [done | by apply IH].
Qed.

Lemma lookup_foldr_delete {A} (m : gmap Z A) l key :
  key ∉ l → foldr delete m l !! key = m !! key.
Proof.
  induction l as [|k l IH]; intros Hn; simpl; [done|].
  apply not_elem_of_cons in Hn as [Hne Hn].
  rewrite lookup_delete_ne by done. by apply IH.
Qed.





(** ** The dequeue loop *)

Lemma fq_dequeue_loop_passes n : ∀ m h now q,
  fq_dequeue_loop (n + m) h now q
  = match fq_dequeue_passes n h now q with
    | Again q' => fq_dequeue_loop m h now q'
    | Done skb q' => Some (skb, q')
    end.
Proof.
  induction n as [|n IH]; intros m h now q; simpl; [done|].
  destruct (fq_dequeue_pass h now q); [done | apply IH].
Qed.

Lemma fq_dequeue_passes_Again_prefix n : ∀ h now q q',
  fq_dequeue_passes n h now q = Again q' →
  ∀ j, (j <= n)%nat → fq_dequeue_loop j h now q = None.
Proof.
  induction n as [|n IH]; intros h now q q' Hp j Hj.
  - by assert (j = O) as -> by lia.
  - destruct j as [|j]; [done|]. simpl in Hp |- *.
    destruct (fq_dequeue_pass h now q) as [|q1]; [done|].
    eapply IH; [done | lia].
Qed.

(** A state that comes back after [S k] passes is never left. *)
Lemma fq_dequeue_loop_cycle k h now q :
  fq_dequeue_passes (S k) h now q = Again q →
  ∀ fuel, fq_dequeue_loop fuel h now q = None.
Proof.
  intros Hc fuel. induction (lt_wf fuel) as [fuel _ IH].
  destruct (le_lt_dec fuel (S k)) as [Hle|Hgt].
  - by eapply fq_dequeue_passes_Again_prefix.
  - replace fuel with (S k + (fuel - S k))%nat by lia.
    rewrite fq_dequeue_loop_passes, Hc. apply IH. lia.
Qed.

(** A served packet is due. *)
Lemma fq_dequeue_pass_due h now q skb q' :
  fq_dequeue_pass h now q = Done (Some skb) q' → time_to_send skb <= now.
Proof.
  unfold fq_dequeue_pass.
  destruct (fq_select_head q) as [hd|]; [|done].
  destruct (head_list hd q) as [|f rest]; [done|].
  destruct (_ && _); [done|].
  destruct (_ && _); [done|].
  destruct (_ && _); [done|].
  match goal with |- context [credit (get_flow ?q1 f) <=? 0] => set (q1' := q1) end.
  destruct (credit (get_flow q1' f) <=? 0); [done|].
  destruct (fq_peek (get_flow q1' f)) as [skb0|]; [|cbv zeta; case_match; done].
  destruct (Z.ltb_spec now (Z.max (time_to_send skb0)
                              (time_next_packet (get_flow q1' f)))); [done|].
  intros [= <- <-]. lia.
Qed.

Lemma fq_dequeue_loop_due fuel : ∀ h now q skb q',
  fq_dequeue_loop fuel h now q = Some (Some skb, q') → time_to_send skb <= now.
Proof.
  induction fuel as [|fuel IH]; intros h now q skb q'; simpl; [done|].
  destruct (fq_dequeue_pass h now q) as [r q1|q1] eqn:Hp.
  - intros [= -> ->]. by eapply fq_dequeue_pass_due.
  - apply IH.
Qed.

(** C6 (as amended).  A packet that [fq_dequeue] returns from the
    round-robin lists, that is whenever the internal high-priority flow
    holds no packet, is not returned before its [time_to_send]: the clock
    read by the call is not below it.  Packets of the internal flow are
    returned without any test of the time. *)
Theorem C6_no_early_delivery_from_lists
    (fuel : nat) (h : host) (q q' : fq_sched_data) (skb : sk_buff) :
  fq_dequeue fuel h q = Some (Some skb, q') →
  fq_peek (internal q) = None →
  time_to_send skb <= ktime_get_ns h.
Proof.
  unfold fq_dequeue. intros Hd Hi. rewrite Hi in Hd.
  destruct (sch_qlen q =? 0); [done|]. by eapply fq_dequeue_loop_due.
Qed.

(** A packet due at 0 is returned at time 0. *)
Lemma C6_no_early_delivery_from_lists_witness :
  let h := host_at 0 in
  let q := enq h (pkt 400 0 33 sock_Y) sched0 in
  let skb := pkt 400 0 33 sock_Y in
  fq_dequeue 10 h q = Some (Some skb, deq 10 h q)
  ∧ fq_peek (internal q) = None
  ∧ time_to_send skb <= ktime_get_ns h.
Proof.
  intros h q skb.
  assert (H1 : fq_dequeue 10 h q = Some (Some skb, deq 10 h q))
    by (vm_compute; reflexivity).
  assert (H2 : fq_peek (internal q) = None) by (vm_compute; reflexivity).
  split; [exact H1|]. split; [exact H2|].
  exact (C6_no_early_delivery_from_lists 10 h q _ skb H1 H2).
Defined.

(** C6, as stated, fails for the internal flow: a packet of the control
    priority stamped 100 is returned by a dequeue at time 0. *)
Lemma C6_counterexample :
  let h := host_at 0 in
  let skb := Skb 600 100 TC_PRIO_CONTROL (Some sock_X) 33 1500 100 in
  fq_dequeue 10 h sched_prio = Some (Some skb, deq 10 h sched_prio)
  ∧ time_to_send skb = 100
  ∧ ktime_get_ns h = 0
  ∧ ¬ (time_to_send skb <= ktime_get_ns h).
Proof.
  split; [vm_compute; reflexivity|].
  repeat split; try reflexivity. vm_compute. intros H. by apply H.
Qed.

(** A call that reaches a state of the loop that comes back to itself
    never returns. *)
Lemma fq_dequeue_spins n k h q qc :
  (sch_qlen q =? 0) = false →
  fq_peek (internal q) = None →
  fq_dequeue_passes n h (ktime_get_ns h)
    (fq_check_throttled (set_ktime_cache (ktime_get_ns h) q) (ktime_get_ns h))
  = Again qc →
  fq_dequeue_passes (S k) h (ktime_get_ns h) qc = Again qc →
  ∀ fuel, fq_dequeue fuel h q = None.
Proof.
  intros Hq Hi Hn Hc fuel. unfold fq_dequeue. rewrite Hq, Hi.
  destruct (le_lt_dec fuel n) as [Hle|Hgt].
  - by eapply fq_dequeue_passes_Again_prefix.
  - replace fuel with (n + (fuel - n))%nat by lia.
    rewrite fq_dequeue_loop_passes, Hn. by eapply fq_dequeue_loop_cycle.
Qed.

(** C2: the code does not keep it.  After two co-flows were promoted and
    the scheduler was reset, [ucounter] is still 2 and [co_flows] is
    empty; the dequeue that follows the arrival of a packet of an ordinary
    flow sets [flipflag], finds [co_flows] empty, falls back to
    [new_flows], takes the breach branch again, and so on: with no amount
    of fuel does the call return. *)
Theorem C2_dequeue_spins_after_reset :
  ∀ fuel, fq_dequeue fuel (host_at 0) sched_after_reset = None.
Proof.
  apply (fq_dequeue_spins 1 0 _ _
           (pass_state (fq_dequeue_passes 1 (host_at 0) 0
              (fq_check_throttled (set_ktime_cache 0 sched_after_reset) 0))));
    vm_compute; reflexivity.
Qed.

(** The same without a reset: with two emptied flows on [old_flows] whose
    hashes have become co-flow identifiers, the loop promotes one, finds it
    empty, puts it back behind the other, and repeats with the other. *)
Lemma dequeue_spins_without_reset :
  ∀ fuel, fq_dequeue fuel (host_at 200) sched_livelock = None.
Proof.
  apply (fq_dequeue_spins 7 3 _ _
           (pass_state (fq_dequeue_passes 7 (host_at 200) 200
              (fq_check_throttled (set_ktime_cache 200 sched_livelock) 200))));
    vm_compute; reflexivity.
Qed.

Lemma co_put_flow r f q : co (put_flow r f q) = co q.
Proof. by destruct r. Qed.
Lemma co_set_head_list hd v q : co (set_head_list hd v q) = co q.
Proof. by destruct hd. Qed.
Lemma co_pop_head hd q : co (pop_head hd q) = co q.
Proof. apply co_set_head_list. Qed.
Lemma co_fq_flow_add_tail hd f q : co (fq_flow_add_tail hd f q) = co q.
Proof. unfold fq_flow_add_tail. by rewrite co_set_head_list, co_upd_flow. Qed.
Lemma co_Promotecoflows hd f q : co (Promotecoflows hd f q) = co q.
Proof. unfold Promotecoflows. by rewrite co_fq_flow_add_tail, co_pop_head. Qed.
Lemma co_fq_flow_set_throttled q f : co (fq_flow_set_throttled q f) = co q.
Proof.
  unfold fq_flow_set_throttled. cbv zeta.
  case_match; simpl; rewrite ?co_upd_flow; done.
Qed.
Lemma co_fq_dequeue_skb q f skb : co (fq_dequeue_skb q f skb) = co q.
Proof. unfold fq_dequeue_skb. simpl. by rewrite co_upd_flow. Qed.
Lemma co_fq_dequeue_pace now q f skb : co (fq_dequeue_pace now q f skb) = co q.
Proof.
  unfold fq_dequeue_pace. cbv zeta.
  repeat case_match; simplify_eq; simpl; rewrite ?co_upd_flow; simpl;
    rewrite ?co_upd_flow; done.
Qed.

(** [co_flows] is chosen only under [flipflag]. *)
Lemma fq_select_head_co q :
  fq_select_head q = Some CO_FLOWS → flipflag (co q) ≠ 0 ∧ co_flows q ≠ [].
Proof.
  unfold fq_select_head.
  destruct (Z.eqb_spec (flipflag (co q)) 0) as [E|E]; simpl.
  - destruct (new_flows q); [|done]. destruct (old_flows q); done.
  - destruct (co_flows q) eqn:Hc; [|done].
    destruct (new_flows q); [|done]. destruct (old_flows q); done.
Qed.

(** C3, as stated, fails.  In [sched_co_future] the first three passes
    promote the two co-flows and set [flipflag] with [ucounter] at 2; the
    next two passes visit [co_flows], find each co-flow not yet due,
    throttle it and decrement [ucounter] to 0; the call then returns the
    packet of the ordinary flow.  Two promotions were followed by no
    co-class serving.  In [sched_three_co] a third co-flow is at the front
    of [new_flows] when [ucounter] is 2: it is promoted, [ucounter] becomes
    3 and [flipflag] stays 0, and the call returns no packet although
    three are queued. *)
Lemma C3_counterexample :
  let h := host_at 0 in
  let entry q := fq_check_throttled (set_ktime_cache 0 q) 0 in
  let q3 := pass_state (fq_dequeue_passes 3 h 0 (entry sched_co_future)) in
  let q' := deq 10 h sched_co_future in
  let r2 := pass_state (fq_dequeue_passes 2 h 0 (entry sched_three_co)) in
  let r3 := pass_state (fq_dequeue_passes 3 h 0 (entry sched_three_co)) in
  (fq_dequeue_passes 3 h 0 (entry sched_co_future) = Again q3
   ∧ ucounter (co q3) = 2 ∧ flipflag (co q3) = 1
   ∧ co_flows q3 = [Dyn 1000; Dyn 2000])
  ∧ (deq_skb 10 h sched_co_future = Some (Some 400)
     ∧ ucounter (co q') = 0 ∧ flipflag (co q') = 1
     ∧ co_flows q' = [] ∧ delayed q' = [Dyn 1000; Dyn 2000]
     ∧ qlen (get_flow q' (Dyn 1000)) = 1
     ∧ qlen (get_flow q' (Dyn 2000)) = 1)
  ∧ (fq_dequeue_passes 2 h 0 (entry sched_three_co) = Again r2
     ∧ ucounter (co r2) = 2 ∧ fq_select_head r2 = Some NEW_FLOWS
     ∧ fq_dequeue_pass h 0 r2 = Again r3
     ∧ ucounter (co r3) = 3 ∧ flipflag (co r3) = 0
     ∧ fq_dequeue 10 h sched_three_co = Some (None, r3)
     ∧ sch_qlen r3 = 3).
Proof. vm_compute. repeat split; reflexivity. Qed.

(** ** The data path leaves the configuration alone *)

Lemma fq_conf_upd_flow r g q : fq_conf (upd_flow r g q) = fq_conf q.
Proof. by destruct r. Qed.
Lemma fq_conf_set_head_list hd v q : fq_conf (set_head_list hd v q) = fq_conf q.
Proof. by destruct hd. Qed.
Lemma fq_conf_pop_head hd q : fq_conf (pop_head hd q) = fq_conf q.
Proof. apply fq_conf_set_head_list. Qed.
Lemma fq_conf_fq_flow_add_tail hd f q :
  fq_conf (fq_flow_add_tail hd f q) = fq_conf q.
Proof.
  unfold fq_flow_add_tail. by rewrite fq_conf_set_head_list, fq_conf_upd_flow.
Qed.
Lemma fq_conf_Promotecoflows hd f q : fq_conf (Promotecoflows hd f q) = fq_conf q.
Proof.
  unfold Promotecoflows. by rewrite fq_conf_fq_flow_add_tail, fq_conf_pop_head.
Qed.
Lemma fq_conf_fq_flow_unset_throttled q f :
  fq_conf (fq_flow_unset_throttled q f) = fq_conf q.
Proof. unfold fq_flow_unset_throttled. by rewrite fq_conf_fq_flow_add_tail. Qed.
Lemma fq_conf_fq_flow_set_throttled q f :
  fq_conf (fq_flow_set_throttled q f) = fq_conf q.
Proof.
  unfold fq_flow_set_throttled. cbv zeta.
  match goal with
  | |- fq_conf (if _ then set_time_next_delayed_flow _ ?q4 else ?q4) = _ =>
      assert (fq_conf q4 = fq_conf q) as <- by (by rewrite fq_conf_upd_flow)
  end.
  by case_match.
Qed.
Lemma fq_conf_fq_dequeue_skb q f skb : fq_conf (fq_dequeue_skb q f skb) = fq_conf q.
Proof.
  unfold fq_dequeue_skb. cbv zeta.
  match goal with
  | |- fq_conf (set_sch_qlen _ ?q1) = _ =>
      change (fq_conf q1 = fq_conf q)
  end.
  apply fq_conf_upd_flow.
Qed.
Lemma fq_conf_set_st v q : fq_conf (set_st v q) = fq_conf q.
Proof. done. Qed.
Lemma fq_conf_fq_dequeue_pace now q f skb :
  fq_conf (fq_dequeue_pace now q f skb) = fq_conf q.
Proof.
  unfold fq_dequeue_pace. cbv zeta.
  repeat case_match; simplify_eq;
    rewrite ?fq_conf_upd_flow, ?fq_conf_set_st, ?fq_conf_upd_flow; done.
Qed.

Lemma fq_conf_fq_check_throttled_loop n now : ∀ q,
  fq_conf (fq_check_throttled_loop n now q) = fq_conf q.
Proof.
  induction n as [|n IH]; intros q; simpl; [done|].
  destruct (delayed q) as [|f l]; [done|].
  case_match; [done|]. by rewrite IH, fq_conf_fq_flow_unset_throttled.
Qed.

Lemma fq_conf_fq_check_throttled q now :
  fq_conf (fq_check_throttled q now) = fq_conf q.
Proof.
  unfold fq_check_throttled. case_match; [done|]. cbv zeta.
  by rewrite fq_conf_fq_check_throttled_loop.
Qed.

Lemma fq_conf_fq_dequeue_pass h now q :
  fq_conf (pass_state (fq_dequeue_pass h now q)) = fq_conf q.
Proof.
  unfold fq_dequeue_pass.
  destruct (fq_select_head q) as [hd|]; [|by case_match].
  destruct (head_list hd q) as [|f rest]; [done|].
  destruct (_ && _).
  { cbv zeta. cbn [pass_state]. 
    change (fq_conf (Promotecoflows hd f q) = fq_conf q).
    apply fq_conf_Promotecoflows. }
  destruct (_ && _); [done|].
  destruct (_ && _); [done|].
  match goal with |- context [credit (get_flow ?q1 f) <=? 0] => set (q1' := q1) end.
  assert (Hq1 : fq_conf q1' = fq_conf q) by (unfold q1'; by case_match).
  clearbody q1'. rewrite <- Hq1. clear Hq1.
  destruct (credit (get_flow q1' f) <=? 0).
  { cbn [pass_state].
    by rewrite fq_conf_fq_flow_add_tail, fq_conf_pop_head, fq_conf_upd_flow. }
  destruct (fq_peek (get_flow q1' f)) as [skb|]; cbv zeta.
  - destruct (now <? _); cbn [pass_state].
    + by rewrite fq_conf_fq_flow_set_throttled, fq_conf_upd_flow,
        fq_conf_pop_head.
    + rewrite fq_conf_fq_dequeue_pace, fq_conf_fq_dequeue_skb. by case_match.
  - case_match; cbn [pass_state].
    + by rewrite fq_conf_fq_flow_add_tail, fq_conf_pop_head.
    + match goal with
      | |- fq_conf (set_inactive_flows _ ?q3) = _ =>
          change (fq_conf q3 = fq_conf q1')
      end.
      by rewrite fq_conf_upd_flow, fq_conf_pop_head.
Qed.

Lemma fq_conf_fq_dequeue_loop fuel : ∀ h now q r q',
  fq_dequeue_loop fuel h now q = Some (r, q') → fq_conf q' = fq_conf q.
Proof.
  induction fuel as [|fuel IH]; intros h now q r q'; simpl; [done|].
  pose proof (fq_conf_fq_dequeue_pass h now q) as Hp.
  destruct (fq_dequeue_pass h now q) as [r1 q1|q1]; simpl in Hp.
  - by intros [= <- <-].
  - intros Hl. rewrite <- Hp. by eapply IH.
Qed.

Lemma fq_conf_fq_dequeue fuel h q r q' :
  fq_dequeue fuel h q = Some (r, q') → fq_conf q' = fq_conf q.
Proof.
  unfold fq_dequeue. case_match; [by intros [= <- <-]|].
  destruct (fq_peek (internal q)) as [skb|].
  - intros [= <- <-]. apply fq_conf_fq_dequeue_skb.
  - intros Hl. apply fq_conf_fq_dequeue_loop in Hl. rewrite Hl.
    by rewrite fq_conf_fq_check_throttled.
Qed.

Lemma fq_conf_fq_change_trim n : ∀ fuel hs q q',
  fq_change_trim n fuel hs q = Some q' → fq_conf q' = fq_conf q.
Proof.
  induction n as [|n IH]; intros fuel hs q q'; simpl.
  - case_match; [done | by intros [= <-]].
  - case_match; [|by intros [= <-]].
    destruct (fq_dequeue fuel (hs n) q) as [[[skb|] q1]|] eqn:Hd; [| |done].
    + intros Ht. apply IH in Ht. apply fq_conf_fq_dequeue in Hd. congruence.
    + intros [= <-]. by apply fq_conf_fq_dequeue in Hd.
Qed.






(** ** Linkage of flows, lists and the tree of throttled flows *)

Lemma get_upd_flow_ne r r' g q :
  r ≠ r' → get_flow (upd_flow r g q) r' = get_flow q r'.
Proof.
  intros Hne. destruct r as [|k], r' as [|k']; simpl; try done.
  rewrite lookup_insert_ne; [done | congruence].
Qed.

Lemma fq_root_upd_flow_mono r g q k :
  is_Some (fq_root q !! k) → is_Some (fq_root (upd_flow r g q) !! k).
Proof.
  destruct r as [|k']; simpl; [done|]. intros H.
  destruct (decide (k' = k)) as [->|Hne].
  - rewrite lookup_insert_eq. eauto.
  - by rewrite lookup_insert_ne.
Qed.

Lemma get_flow_ext q q' r :
  fq_root q' = fq_root q → internal q' = internal q →
  get_flow q' r = get_flow q r.
Proof. intros H1 H2. destruct r; simpl; congruence. Qed.

Lemma sorted_by_ext {A} (k1 k2 : A → Z) l :
  (∀ x, x ∈ l → k1 x = k2 x) → sorted_by k1 l → sorted_by k2 l.
Proof.
  unfold sorted_by. intros H.
  assert (k2 <$> l = k1 <$> l) as ->; [|done].
  apply list_fmap_ext. intros i x Hx. symmetry. apply H.
  by eapply list_elem_of_lookup_2.
Qed.

Lemma rb_erase_elem_of f l r : r ∈ rb_erase f l → r ∈ l.
Proof.
  induction l as [|x l IH]; simpl; [done|].
  destruct (decide (x = f)); rewrite !elem_of_cons; intuition.
Qed.

Lemma rb_erase_perm f l : f ∈ l → l ≡ₚ f :: rb_erase f l.
Proof.
  induction l as [|x l IH]; simpl; [by intros ?%elem_of_nil|].
  destruct (decide (x = f)) as [->|Hne]; [done|].
  intros [?|Hin]%elem_of_cons; [congruence|].
  rewrite (IH Hin) at 1. apply Permutation_swap.
Qed.

Lemma rb_erase_sorted (key : flow_ref → Z) f l :
  sorted_by key l → sorted_by key (rb_erase f l).
Proof.
  induction l as [|x l IH]; simpl; [done|]. intros Hs.
  apply sorted_by_cons in Hs as [Hx Hs].
  destruct (decide (x = f)); [done|].
  apply sorted_by_cons. split; [|auto].
  rewrite Forall_forall in Hx |- *. intros y Hy. apply Hx.
  by eapply rb_erase_elem_of.
Qed.

Lemma rb_insert_perm {A} (key : A → Z) x l : rb_insert key x l ≡ₚ x :: l.
Proof.
  induction l as [|y l IH]; simpl; [done|].
  destruct (key x >=? key y); [|done].
  rewrite IH. apply Permutation_swap.
Qed.

(** Everything the linkage says is about the lists, the tree and the
    flows. *)
Section Transfer.

Context (q q' : fq_sched_data).

(** Nothing changes but the flow [f], which keeps what the linkage looks
    at. *)
Lemma sched_wf_touch f :
  new_flows q' = new_flows q → old_flows q' = old_flows q →
  co_flows q' = co_flows q → delayed q' = delayed q →
  (∀ r, r ≠ f → get_flow q' r = get_flow q r) →
  (∀ k, is_Some (fq_root q !! k) → is_Some (fq_root q' !! k)) →
  fq_flow_is_detached (get_flow q' f) = fq_flow_is_detached (get_flow q f) →
  fq_flow_is_throttled (get_flow q' f) = fq_flow_is_throttled (get_flow q f) →
  (f ∈ delayed q →
   time_next_packet (get_flow q' f) = time_next_packet (get_flow q f)) →
  (fq_flow_is_detached (get_flow q f) = true → head (get_flow q' f) = []) →
  sched_wf q → sched_wf q'.
Proof.
  intros Hn Ho Hc Hd Hoth Hdom Hdet Hthr Htnp Hhead [W1 W2 W3 W4 W5 W6 W7].
  assert (Hq : queued_refs q' = queued_refs q).
  { unfold queued_refs, rr_refs. by rewrite Hn, Ho, Hc, Hd. }
  assert (Hdet' : ∀ r, fq_flow_is_detached (get_flow q' r)
                       = fq_flow_is_detached (get_flow q r)).
  { intros r. destruct (decide (r = f)) as [->|Hne]; [done|]. by rewrite Hoth. }
  assert (Hthr' : ∀ r, fq_flow_is_throttled (get_flow q' r)
                       = fq_flow_is_throttled (get_flow q r)).
  { intros r. destruct (decide (r = f)) as [->|Hne]; [done|]. by rewrite Hoth. }
  split.
  - by rewrite Hq.
  - intros r. rewrite Hq, Hdet'. apply W2.
  - intros r. rewrite Hq. intros H. destruct (W3 r H) as (k & -> & Hk). eauto.
  - intros r. rewrite Hd, Hthr'. apply W4.
  - intros r. rewrite Hdet'. intros H.
    destruct (decide (r = f)) as [->|Hne]; [by apply Hhead|].
    rewrite Hoth by done. by apply W5.
  - change (fq_flow_is_detached (get_flow q' Internal) = false).
    rewrite Hdet'. exact W6.
  - rewrite Hd. eapply sorted_by_ext; [|exact W7].
    intros r Hr. unfold flow_tnp.
    destruct (decide (r = f)) as [->|Hne]; [by rewrite Htnp | by rewrite Hoth].
Qed.

Lemma tndf_lower_bound_touch f :
  delayed q' = delayed q →
  time_next_delayed_flow q' = time_next_delayed_flow q →
  (∀ r, r ≠ f → get_flow q' r = get_flow q r) →
  (f ∈ delayed q →
   time_next_packet (get_flow q' f) = time_next_packet (get_flow q f)) →
  tndf_lower_bound q → tndf_lower_bound q'.
Proof.
  intros Hd Ht Hoth Htnp Hlb r. rewrite Hd, Ht. intros Hr.
  unfold flow_tnp. destruct (decide (r = f)) as [->|Hne].
  - rewrite Htnp by done. by apply Hlb.
  - rewrite Hoth by done. by apply Hlb.
Qed.

(** The flow [f] is on a round-robin list and stays on one, attached and
    not marked; the round-robin lists are permuted. *)
Lemma sched_wf_move f :
  rr_refs q' ≡ₚ rr_refs q → delayed q' = delayed q →
  f ∈ rr_refs q →
  (∀ r, r ≠ f → get_flow q' r = get_flow q r) →
  (∀ k, is_Some (fq_root q !! k) → is_Some (fq_root q' !! k)) →
  fq_flow_is_detached (get_flow q' f) = false →
  fq_flow_is_throttled (get_flow q' f) = false →
  sched_wf q → sched_wf q'.
Proof.
  intros Hrr Hd Hf Hoth Hdom Hdet Hthr [W1 W2 W3 W4 W5 W6 W7].
  assert (Hq : queued_refs q' ≡ₚ queued_refs q).
  { unfold queued_refs. by rewrite Hrr, Hd. }
  assert (Hfd : f ∉ delayed q).
  { unfold queued_refs in W1. apply NoDup_app in W1 as (_ & Hdisj & _).
    by apply Hdisj. }
  split.
  - by rewrite Hq.
  - intros r. rewrite Hq. intros Hr.
    destruct (decide (r = f)) as [->|Hne]; [done|].
    rewrite Hoth by done. by apply W2.
  - intros r. rewrite Hq. intros H. destruct (W3 r H) as (k & -> & Hk). eauto.
  - intros r. rewrite Hd. destruct (decide (r = f)) as [->|Hne].
    + rewrite Hthr. split; [done|]. done.
    + rewrite Hoth by done. apply W4.
  - intros r. destruct (decide (r = f)) as [->|Hne]; [by rewrite Hdet|].
    rewrite Hoth by done. apply W5.
  - change (fq_flow_is_detached (get_flow q' Internal) = false).
    destruct (decide (Internal = f)) as [<-|Hne]; [done|].
    by rewrite Hoth.
  - rewrite Hd. eapply sorted_by_ext; [|exact W7].
    intros r Hr. unfold flow_tnp. rewrite Hoth; [done|]. congruence.
Qed.

Lemma tndf_lower_bound_move f :
  delayed q' = delayed q →
  time_next_delayed_flow q' = time_next_delayed_flow q →
  f ∉ delayed q →
  (∀ r, r ≠ f → get_flow q' r = get_flow q r) →
  tndf_lower_bound q → tndf_lower_bound q'.
Proof.
  intros Hd Ht Hf Hoth Hlb.
  eapply (tndf_lower_bound_touch f); try done.
Qed.

End Transfer.

Section Transfer2.

Context (q q' : fq_sched_data).

(** A flow leaves the round-robin lists. *)
Lemma sched_wf_delist f :
  rr_refs q ≡ₚ f :: rr_refs q' → delayed q' = delayed q →
  (∀ r, get_flow q' r = get_flow q r) →
  (∀ k, is_Some (fq_root q !! k) → is_Some (fq_root q' !! k)) →
  sched_wf q → sched_wf q' ∧ f ∉ queued_refs q'.
Proof.
  intros Hrr Hd Hsame Hdom [W1 W2 W3 W4 W5 W6 W7].
  assert (Hq : queued_refs q ≡ₚ f :: queued_refs q').
  { unfold queued_refs. by rewrite Hrr, Hd. }
  assert (Hsub : ∀ r, r ∈ queued_refs q' → r ∈ queued_refs q).
  { intros r Hr. rewrite Hq. by right. }
  rewrite Hq in W1. apply NoDup_cons in W1 as [Hnf W1].
  split; [|done]. split.
  - done.
  - intros r Hr. rewrite Hsame. by apply W2, Hsub.
  - intros r Hr. destruct (W3 r (Hsub r Hr)) as (k & -> & Hk). eauto.
  - intros r. rewrite Hd, Hsame. apply W4.
  - intros r. rewrite Hsame. apply W5.
  - change (fq_flow_is_detached (get_flow q' Internal) = false).
    by rewrite Hsame.
  - rewrite Hd. eapply sorted_by_ext; [|exact W7].
    intros r Hr. unfold flow_tnp. by rewrite Hsame.
Qed.

(** A flow that is on no list and not in the tree changes. *)
Lemma sched_wf_offlist f :
  f ∉ queued_refs q →
  new_flows q' = new_flows q → old_flows q' = old_flows q →
  co_flows q' = co_flows q → delayed q' = delayed q →
  (∀ r, r ≠ f → get_flow q' r = get_flow q r) →
  (∀ k, is_Some (fq_root q !! k) → is_Some (fq_root q' !! k)) →
  fq_flow_is_throttled (get_flow q' f) = false →
  (fq_flow_is_detached (get_flow q' f) = true → head (get_flow q' f) = []) →
  (f = Internal → fq_flow_is_detached (get_flow q' f) = false) →
  sched_wf q → sched_wf q'.
Proof.
  intros Hnf Hn Ho Hc Hd Hoth Hdom Hthr Hhead Hint [W1 W2 W3 W4 W5 W6 W7].
  assert (Hq : queued_refs q' = queued_refs q).
  { unfold queued_refs, rr_refs. by rewrite Hn, Ho, Hc, Hd. }
  assert (Hfd : f ∉ delayed q).
  { intros H. apply Hnf. unfold queued_refs. apply elem_of_app. by right. }
  split.
  - by rewrite Hq.
  - intros r. rewrite Hq. intros Hr.
    rewrite Hoth; [by apply W2 | congruence].
  - intros r. rewrite Hq. intros H. destruct (W3 r H) as (k & -> & Hk). eauto.
  - intros r. rewrite Hd. destruct (decide (r = f)) as [->|Hne].
    + rewrite Hthr. split; done.
    + rewrite Hoth by done. apply W4.
  - intros r. destruct (decide (r = f)) as [->|Hne]; [done|].
    rewrite Hoth by done. apply W5.
  - change (fq_flow_is_detached (get_flow q' Internal) = false).
    destruct (decide (Internal = f)) as [<-|Hne]; [by apply Hint|].
    by rewrite Hoth.
  - rewrite Hd. eapply sorted_by_ext; [|exact W7].
    intros r Hr. unfold flow_tnp. rewrite Hoth; [done|]. congruence.
Qed.

(** A flow that is on no list joins a round-robin list, attached. *)
Lemma sched_wf_enlist f :
  f ∉ queued_refs q →
  rr_refs q' ≡ₚ f :: rr_refs q → delayed q' = delayed q →
  (∀ r, r ≠ f → get_flow q' r = get_flow q r) →
  (∀ k, is_Some (fq_root q !! k) → is_Some (fq_root q' !! k)) →
  fq_flow_is_detached (get_flow q' f) = false →
  fq_flow_is_throttled (get_flow q' f) = false →
  (∃ k, f = Dyn k ∧ is_Some (fq_root q' !! k)) →
  sched_wf q → sched_wf q'.
Proof.
  intros Hnf Hrr Hd Hoth Hdom Hdet Hthr Hlive [W1 W2 W3 W4 W5 W6 W7].
  assert (Hq : queued_refs q' ≡ₚ f :: queued_refs q).
  { unfold queued_refs. by rewrite Hrr, Hd. }
  assert (Hfd : f ∉ delayed q).
  { intros H. apply Hnf. unfold queued_refs. apply elem_of_app. by right. }
  split.
  - rewrite Hq. by apply NoDup_cons.
  - intros r. rewrite Hq. intros [->|Hr]%elem_of_cons; [done|].
    rewrite Hoth; [by apply W2 | congruence].
  - intros r. rewrite Hq. intros [->|Hr]%elem_of_cons; [done|].
    destruct (W3 r Hr) as (k & -> & Hk). eauto.
  - intros r. rewrite Hd. destruct (decide (r = f)) as [->|Hne].
    + rewrite Hthr. split; done.
    + rewrite Hoth by done. apply W4.
  - intros r. destruct (decide (r = f)) as [->|Hne]; [by rewrite Hdet|].
    rewrite Hoth by done. apply W5.
  - change (fq_flow_is_detached (get_flow q' Internal) = false).
    destruct (decide (Internal = f)) as [<-|Hne]; [done|].
    by rewrite Hoth.
  - rewrite Hd. eapply sorted_by_ext; [|exact W7].
    intros r Hr. unfold flow_tnp. rewrite Hoth; [done|]. congruence.
Qed.

(** A flow that is on no list enters the tree. *)
Lemma sched_wf_enthrottle f :
  f ∉ queued_refs q →
  rr_refs q' = rr_refs q →
  delayed q' = rb_insert (flow_tnp q') f (delayed q) →
  (∀ r, r ≠ f → get_flow q' r = get_flow q r) →
  (∀ k, is_Some (fq_root q !! k) → is_Some (fq_root q' !! k)) →
  fq_flow_is_detached (get_flow q' f) = false →
  fq_flow_is_throttled (get_flow q' f) = true →
  (∃ k, f = Dyn k ∧ is_Some (fq_root q' !! k)) →
  sched_wf q → sched_wf q'.
Proof.
  intros Hnf Hrr Hd Hoth Hdom Hdet Hthr Hlive [W1 W2 W3 W4 W5 W6 W7].
  assert (Hq : queued_refs q' ≡ₚ f :: queued_refs q).
  { unfold queued_refs. rewrite Hrr, Hd, rb_insert_perm.
    symmetry. apply Permutation_middle. }
  assert (Hfd : f ∉ delayed q).
  { intros H. apply Hnf. unfold queued_refs. apply elem_of_app. by right. }
  split.
  - rewrite Hq. by apply NoDup_cons.
  - intros r. rewrite Hq. intros [->|Hr]%elem_of_cons; [done|].
    rewrite Hoth; [by apply W2 | congruence].
  - intros r. rewrite Hq. intros [->|Hr]%elem_of_cons; [done|].
    destruct (W3 r Hr) as (k & -> & Hk). eauto.
  - intros r. rewrite Hd, rb_insert_elem_of.
    destruct (decide (r = f)) as [->|Hne].
    + rewrite Hthr. split; [done | by left].
    + rewrite Hoth by done. rewrite <- W4. split; [by intros [?|?] | by right].
  - intros r. destruct (decide (r = f)) as [->|Hne]; [by rewrite Hdet|].
    rewrite Hoth by done. apply W5.
  - change (fq_flow_is_detached (get_flow q' Internal) = false).
    destruct (decide (Internal = f)) as [<-|Hne]; [done|].
    by rewrite Hoth.
  - rewrite Hd. apply rb_insert_sorted. eapply sorted_by_ext; [|exact W7].
    intros r Hr. unfold flow_tnp. rewrite Hoth; [done|]. congruence.
Qed.

Lemma tndf_lower_bound_enthrottle f :
  f ∉ delayed q →
  delayed q' = rb_insert (flow_tnp q') f (delayed q) →
  (∀ r, r ≠ f → get_flow q' r = get_flow q r) →
  time_next_delayed_flow q' <= time_next_delayed_flow q →
  time_next_delayed_flow q' <= flow_tnp q' f →
  tndf_lower_bound q → tndf_lower_bound q'.
Proof.
  intros Hfd Hd Hoth Hle Hlf Hlb r. rewrite Hd, rb_insert_elem_of.
  intros [->|Hr]; [done|].
  unfold flow_tnp. rewrite Hoth by congruence.
  specialize (Hlb r Hr). unfold flow_tnp in Hlb. lia.
Qed.

(** A flow leaves the tree for a round-robin list. *)
Lemma sched_wf_unthrottle f :
  f ∈ delayed q →
  delayed q' = rb_erase f (delayed q) →
  rr_refs q' ≡ₚ f :: rr_refs q →
  (∀ r, r ≠ f → get_flow q' r = get_flow q r) →
  (∀ k, is_Some (fq_root q !! k) → is_Some (fq_root q' !! k)) →
  fq_flow_is_detached (get_flow q' f) = false →
  fq_flow_is_throttled (get_flow q' f) = false →
  sched_wf q → sched_wf q'.
Proof.
  intros Hf Hd Hrr Hoth Hdom Hdet Hthr [W1 W2 W3 W4 W5 W6 W7].
  assert (Hq : queued_refs q' ≡ₚ queued_refs q).
  { unfold queued_refs. rewrite Hrr, Hd.
    rewrite (rb_erase_perm f (delayed q) Hf) at 2.
    simpl. apply Permutation_middle. }
  assert (Hnd : NoDup (f :: rb_erase f (delayed q))).
  { rewrite <- rb_erase_perm by done. unfold queued_refs in W1.
    by apply NoDup_app in W1 as (_ & _ & ?). }
  apply NoDup_cons in Hnd as [Hnf Hnd].
  split.
  - by rewrite Hq.
  - intros r. rewrite Hq. intros Hr.
    destruct (decide (r = f)) as [->|Hne]; [done|].
    rewrite Hoth by done. by apply W2.
  - intros r. rewrite Hq. intros H. destruct (W3 r H) as (k & -> & Hk). eauto.
  - intros r. rewrite Hd. destruct (decide (r = f)) as [->|Hne].
    + rewrite Hthr. split; done.
    + rewrite Hoth by done. rewrite <- W4. split.
      * apply rb_erase_elem_of.
      * intros Hr. rewrite (rb_erase_perm f (delayed q)) in Hr by done.
        apply elem_of_cons in Hr as [?|?]; done.
  - intros r. destruct (decide (r = f)) as [->|Hne]; [by rewrite Hdet|].
    rewrite Hoth by done. apply W5.
  - change (fq_flow_is_detached (get_flow q' Internal) = false).
    destruct (decide (Internal = f)) as [<-|Hne]; [done|].
    by rewrite Hoth.
  - rewrite Hd. eapply sorted_by_ext; [|by apply rb_erase_sorted].
    intros r Hr. unfold flow_tnp. rewrite Hoth; [done|]. congruence.
Qed.

Lemma tndf_lower_bound_unthrottle f :
  NoDup (delayed q) →
  delayed q' = rb_erase f (delayed q) →
  (∀ r, r ≠ f → get_flow q' r = get_flow q r) →
  time_next_delayed_flow q' = time_next_delayed_flow q →
  tndf_lower_bound q → tndf_lower_bound q'.
Proof.
  intros Hnd Hd Hoth Ht Hlb r. rewrite Hd, Ht. intros Hr.
  assert (r ≠ f).
  { intros ->. destruct (decide (f ∈ delayed q)) as [Hin|Hnin].
    - rewrite (rb_erase_perm f (delayed q)) in Hnd by done.
      by apply NoDup_cons in Hnd as [? _].
    - by apply rb_erase_elem_of in Hr. }
  unfold flow_tnp. rewrite Hoth by done.
  apply rb_erase_elem_of in Hr. by apply Hlb.
Qed.

End Transfer2.

(** ** The primitive steps keep the linkage *)

Lemma throttle_inv_ext q q' :
  new_flows q' = new_flows q → old_flows q' = old_flows q →
  co_flows q' = co_flows q → delayed q' = delayed q →
  time_next_delayed_flow q' = time_next_delayed_flow q →
  fq_root q' = fq_root q → internal q' = internal q →
  throttle_inv q → throttle_inv q'.
Proof.
  intros Hn Ho Hc Hd Ht Hr Hi [Hwf Hlb].
  assert (Hsame : ∀ r, get_flow q' r = get_flow q r)
    by (intros r; by apply get_flow_ext).
  split.
  - apply (sched_wf_touch q q' Internal); rewrite ?Hsame; try done.
    + intros k. by rewrite Hr.
    + apply Hwf.
  - by apply (tndf_lower_bound_touch q q' Internal); rewrite ?Hsame.
Qed.

Lemma new_flows_upd_flow r g q : new_flows (upd_flow r g q) = new_flows q.
Proof. by destruct r. Qed.
Lemma old_flows_upd_flow r g q : old_flows (upd_flow r g q) = old_flows q.
Proof. by destruct r. Qed.
Lemma co_flows_upd_flow r g q : co_flows (upd_flow r g q) = co_flows q.
Proof. by destruct r. Qed.
Lemma delayed_upd_flow r g q : delayed (upd_flow r g q) = delayed q.
Proof. by destruct r. Qed.
Lemma tndf_upd_flow r g q :
  time_next_delayed_flow (upd_flow r g q) = time_next_delayed_flow q.
Proof. by destruct r. Qed.
Lemma rr_refs_upd_flow r g q : rr_refs (upd_flow r g q) = rr_refs q.
Proof. by destruct r. Qed.
Lemma queued_refs_upd_flow r g q : queued_refs (upd_flow r g q) = queued_refs q.
Proof. by destruct r. Qed.

(** A change of a flow that keeps its marks and, if it is in the tree,
    its [time_next_packet]. *)
Lemma throttle_inv_upd_flow f g q :
  fq_flow_is_detached (g (get_flow q f)) = fq_flow_is_detached (get_flow q f) →
  fq_flow_is_throttled (g (get_flow q f)) = fq_flow_is_throttled (get_flow q f) →
  (f ∈ delayed q →
   time_next_packet (g (get_flow q f)) = time_next_packet (get_flow q f)) →
  (fq_flow_is_detached (get_flow q f) = true → head (g (get_flow q f)) = []) →
  throttle_inv q → throttle_inv (upd_flow f g q).
Proof.
  intros Hdet Hthr Htnp Hhead [Hwf Hlb]. split.
  - apply (sched_wf_touch q _ f); rewrite ?get_upd_flow;
      auto using new_flows_upd_flow, old_flows_upd_flow, co_flows_upd_flow,
        delayed_upd_flow, fq_root_upd_flow_mono.
    intros r Hne. by apply get_upd_flow_ne.
  - apply (tndf_lower_bound_touch q _ f); rewrite ?get_upd_flow;
      auto using delayed_upd_flow, tndf_upd_flow.
    intros r Hne. by apply get_upd_flow_ne.
Qed.

(** A change of a flow that is on no list and not in the tree. *)
Lemma throttle_inv_upd_flow_offlist f g q :
  f ∉ queued_refs q →
  fq_flow_is_throttled (g (get_flow q f)) = false →
  (fq_flow_is_detached (g (get_flow q f)) = true → head (g (get_flow q f)) = []) →
  (f = Internal → fq_flow_is_detached (g (get_flow q f)) = false) →
  throttle_inv q → throttle_inv (upd_flow f g q).
Proof.
  intros Hnf Hthr Hhead Hint [Hwf Hlb]. split.
  - apply (sched_wf_offlist q _ f); rewrite ?get_upd_flow;
      auto using new_flows_upd_flow, old_flows_upd_flow, co_flows_upd_flow,
        delayed_upd_flow, fq_root_upd_flow_mono.
    intros r Hne. by apply get_upd_flow_ne.
  - apply (tndf_lower_bound_move q _ f);
      auto using delayed_upd_flow, tndf_upd_flow.
    + intros H. apply Hnf. unfold queued_refs. apply elem_of_app. by right.
    + intros r Hne. by apply get_upd_flow_ne.
Qed.

Lemma rr_refs_pop_head hd q f rest :
  head_list hd q = f :: rest → rr_refs q ≡ₚ f :: rr_refs (pop_head hd q).
Proof.
  intros Hh. unfold rr_refs, pop_head.
  destruct hd; simpl in *; rewrite Hh; simpl.
  - done.
  - symmetry. apply Permutation_middle.
  - symmetry. rewrite !app_assoc. apply Permutation_middle.
Qed.

Lemma get_flow_pop_head hd q r : get_flow (pop_head hd q) r = get_flow q r.
Proof. apply get_flow_ext; by destruct hd. Qed.

Lemma throttle_inv_pop_head hd q f rest :
  head_list hd q = f :: rest →
  throttle_inv q →
  throttle_inv (pop_head hd q) ∧ (f ∉ queued_refs (pop_head hd q))
  ∧ fq_flow_is_detached (get_flow q f) = false
  ∧ fq_flow_is_throttled (get_flow q f) = false
  ∧ ∃ k, f = Dyn k ∧ is_Some (fq_root q !! k).
Proof.
  intros Hh [Hwf Hlb].
  assert (Hin : f ∈ queued_refs q).
  { unfold queued_refs. rewrite (rr_refs_pop_head hd q f rest Hh).
    apply elem_of_app. left. by left. }
  assert (Hnd : f ∉ delayed q).
  { pose proof (wf_nodup q Hwf) as Hn. unfold queued_refs in Hn.
    rewrite (rr_refs_pop_head hd q f rest Hh) in Hn.
    apply NoDup_app in Hn as (_ & Hdisj & _). apply Hdisj. by left. }
  destruct (sched_wf_delist q (pop_head hd q) f) as [Hwf' Hnf]; try done.
  - by apply rr_refs_pop_head with rest.
  - by destruct hd.
  - intros r. apply get_flow_pop_head.
  - intros k. by destruct hd.
  - split; [split|]; [done| |].
    + intros r Hr. assert (delayed (pop_head hd q) = delayed q) as Hd
        by (by destruct hd).
      rewrite Hd in Hr. unfold flow_tnp. rewrite get_flow_pop_head.
      assert (time_next_delayed_flow (pop_head hd q) = time_next_delayed_flow q)
        as -> by (by destruct hd).
      by apply Hlb.
    + split; [done|]. split; [by apply (wf_attached q Hwf)|].
      split; [|by apply (wf_live q Hwf)].
      destruct (fq_flow_is_throttled (get_flow q f)) eqn:E; [|done].
      by apply (wf_throttled q Hwf) in E.
Qed.

Lemma rb_insert_ext {A} (k1 k2 : A → Z) x l :
  (∀ y, k1 y = k2 y) → rb_insert k1 x l = rb_insert k2 x l.
Proof.
  intros H. induction l as [|y l IH]; simpl; [done|].
  by rewrite !H, IH.
Qed.

Lemma rr_refs_set_head_list_snoc hd q f :
  rr_refs (set_head_list hd (head_list hd q ++ [f]) q) ≡ₚ f :: rr_refs q.
Proof.
  unfold rr_refs. destruct hd; simpl.
  - rewrite (Permutation_app_comm (new_flows q) [f]). done.
  - rewrite (Permutation_app_comm (old_flows q) [f]). simpl.
    symmetry. apply Permutation_middle.
  - rewrite (Permutation_app_comm (co_flows q) [f]). simpl.
    rewrite !app_assoc. symmetry. apply Permutation_middle.
Qed.

Lemma get_flow_set_head_list hd v q r :
  get_flow (set_head_list hd v q) r = get_flow q r.
Proof. apply get_flow_ext; by destruct hd. Qed.

Lemma delayed_set_head_list hd v q : delayed (set_head_list hd v q) = delayed q.
Proof. by destruct hd. Qed.
Lemma tndf_set_head_list hd v q :
  time_next_delayed_flow (set_head_list hd v q) = time_next_delayed_flow q.
Proof. by destruct hd. Qed.
Lemma fq_root_set_head_list hd v q : fq_root (set_head_list hd v q) = fq_root q.
Proof. by destruct hd. Qed.

(** [fq_flow_add_tail] of a flow that is on no list, attached and
    allocated. *)
Lemma throttle_inv_fq_flow_add_tail hd q f :
  f ∉ queued_refs q →
  fq_flow_is_detached (get_flow q f) = false →
  (∃ k, f = Dyn k ∧ is_Some (fq_root q !! k)) →
  throttle_inv q → throttle_inv (fq_flow_add_tail hd f q).
Proof.
  intros Hnf Hdet (k & -> & Hk) [Hwf Hlb]. unfold fq_flow_add_tail.
  set (q1 := upd_flow (Dyn k) (set_next_is_throttled false) q).
  assert (Hoth : ∀ r, r ≠ Dyn k →
    get_flow (set_head_list hd (head_list hd q ++ [Dyn k]) q1) r = get_flow q r).
  { intros r Hne. rewrite get_flow_set_head_list. by apply get_upd_flow_ne. }
  assert (Hf : get_flow (set_head_list hd (head_list hd q ++ [Dyn k]) q1) (Dyn k)
               = set_next_is_throttled false (get_flow q (Dyn k))).
  { rewrite get_flow_set_head_list. apply get_upd_flow. }
  assert (Hhl : head_list hd q = head_list hd q1) by (by destruct hd).
  assert (Hd : delayed (set_head_list hd (head_list hd q ++ [Dyn k]) q1)
               = delayed q) by (by rewrite delayed_set_head_list).
  split.
  - apply (sched_wf_enlist q _ (Dyn k)); try done.
    + rewrite Hhl, rr_refs_set_head_list_snoc. done.
    + intros k'. rewrite fq_root_set_head_list.
      apply fq_root_upd_flow_mono.
    + by rewrite Hf.
    + by rewrite Hf.
    + exists k. split; [done|]. rewrite fq_root_set_head_list.
      by apply fq_root_upd_flow_mono.
  - apply (tndf_lower_bound_move q _ (Dyn k)); try done.
    + by rewrite tndf_set_head_list.
    + intros H. apply Hnf. unfold queued_refs. apply elem_of_app. by right.
Qed.

(** [fq_flow_set_throttled] of a flow that is on no list, attached and
    allocated. *)
Lemma throttle_inv_fq_flow_set_throttled q f :
  f ∉ queued_refs q →
  fq_flow_is_detached (get_flow q f) = false →
  (∃ k, f = Dyn k ∧ is_Some (fq_root q !! k)) →
  throttle_inv q → throttle_inv (fq_flow_set_throttled q f).
Proof.
  intros Hnf Hdet (k & -> & Hk) [Hwf Hlb].
  unfold fq_flow_set_throttled. cbv zeta.
  set (q3 := set_st _ (set_throttled_flows _
               (set_delayed (rb_insert (flow_tnp q) (Dyn k) (delayed q)) q))).
  set (q4 := upd_flow (Dyn k) (set_next_is_throttled true) q3).
  assert (Hoth : ∀ r, r ≠ Dyn k → get_flow q4 r = get_flow q r).
  { intros r Hne. unfold q4. rewrite get_upd_flow_ne by done. by destruct r. }
  assert (Hf : get_flow q4 (Dyn k)
               = set_next_is_throttled true (get_flow q (Dyn k))).
  { unfold q4. rewrite get_upd_flow. done. }
  assert (Htnp : ∀ r, flow_tnp q4 r = flow_tnp q r).
  { intros r. unfold flow_tnp. destruct (decide (r = Dyn k)) as [->|Hne].
    - by rewrite Hf.
    - by rewrite Hoth. }
  assert (Hd : delayed q4 = rb_insert (flow_tnp q4) (Dyn k) (delayed q)).
  { unfold q4. rewrite delayed_upd_flow. simpl.
    apply rb_insert_ext. intros r. by rewrite Htnp. }
  assert (Hnd : Dyn k ∉ delayed q).
  { intros H. apply Hnf. unfold queued_refs. apply elem_of_app. by right. }
  assert (Hrr4 : rr_refs q4 = rr_refs q).
  { unfold q4. by rewrite rr_refs_upd_flow. }
  assert (Hdom4 : ∀ k', is_Some (fq_root q !! k') → is_Some (fq_root q4 !! k')).
  { intros k' H. unfold q4. by apply fq_root_upd_flow_mono. }
  assert (Hdet4 : fq_flow_is_detached (get_flow q4 (Dyn k)) = false)
    by (by rewrite Hf).
  assert (Hthr4 : fq_flow_is_throttled (get_flow q4 (Dyn k)) = true)
    by (by rewrite Hf).
  assert (Hlive4 : ∃ k', Dyn k = Dyn k' ∧ is_Some (fq_root q4 !! k')).
  { exists k. split; [done|]. by apply Hdom4. }
  pose proof (sched_wf_enthrottle q q4 (Dyn k) Hnf Hrr4 Hd Hoth Hdom4 Hdet4
                Hthr4 Hlive4 Hwf) as Hwf4.
  assert (Ht4 : time_next_delayed_flow q4 = time_next_delayed_flow q).
  { unfold q4. by rewrite tndf_upd_flow. }
  destruct (Z.gtb_spec (time_next_delayed_flow q4) (flow_tnp q4 (Dyn k))).
  - set (q5 := set_time_next_delayed_flow (flow_tnp q4 (Dyn k)) q4).
    assert (Hsame : ∀ r, get_flow q5 r = get_flow q4 r)
      by (intros r; by apply get_flow_ext).
    assert (Htnp5 : ∀ r, flow_tnp q5 r = flow_tnp q4 r)
      by (intros r; unfold flow_tnp; by rewrite Hsame).
    split.
    + apply (sched_wf_touch q4 q5 Internal); rewrite ?Hsame; try done.
      apply Hwf4.
    + apply (tndf_lower_bound_enthrottle q q5 (Dyn k) Hnd).
      * change (delayed q5) with (delayed q4). rewrite Hd.
        apply rb_insert_ext. intros r. by rewrite Htnp5.
      * intros r Hne. rewrite Hsame. by apply Hoth.
      * change (time_next_delayed_flow q5) with (flow_tnp q4 (Dyn k)). lia.
      * change (time_next_delayed_flow q5) with (flow_tnp q4 (Dyn k)).
        rewrite Htnp5. lia.
      * done.
  - split; [done|].
    apply (tndf_lower_bound_enthrottle q q4 (Dyn k) Hnd Hd Hoth); [lia|lia|done].
Qed.

(** [fq_flow_unset_throttled] of a flow in the tree. *)
Lemma fq_flow_unset_throttled_spec q f :
  let q' := fq_flow_unset_throttled q f in
  (∀ r, r ≠ f → get_flow q' r = get_flow q r)
  ∧ get_flow q' f = set_next_is_throttled false (get_flow q f)
  ∧ delayed q' = rb_erase f (delayed q)
  ∧ rr_refs q' ≡ₚ f :: rr_refs q
  ∧ (∀ k, is_Some (fq_root q !! k) → is_Some (fq_root q' !! k))
  ∧ time_next_delayed_flow q' = time_next_delayed_flow q.
Proof.
  unfold fq_flow_unset_throttled, fq_flow_add_tail. cbv zeta.
  set (q2 := set_throttled_flows _ (set_delayed (rb_erase f (delayed q)) q)).
  set (q3 := upd_flow f (set_next_is_throttled false) q2).
  assert (H2 : ∀ r, get_flow q2 r = get_flow q r) by (intros r; by destruct r).
  split; [|split; [|split; [|split; [|split]]]].
  - intros r Hne. rewrite get_flow_set_head_list. unfold q3.
    rewrite get_upd_flow_ne by done. apply H2.
  - rewrite get_flow_set_head_list. unfold q3.
    rewrite get_upd_flow. by rewrite H2.
  - rewrite delayed_set_head_list. unfold q3. by rewrite delayed_upd_flow.
  - assert (head_list OLD_FLOWS q2 = head_list OLD_FLOWS q3) as ->.
    { unfold q3. simpl. by rewrite old_flows_upd_flow. }
    rewrite rr_refs_set_head_list_snoc. unfold q3.
    by rewrite rr_refs_upd_flow.
  - intros k H. rewrite fq_root_set_head_list. unfold q3.
    by apply fq_root_upd_flow_mono.
  - rewrite tndf_set_head_list. unfold q3. by rewrite tndf_upd_flow.
Qed.

Lemma sched_wf_fq_flow_unset_throttled q f :
  f ∈ delayed q → sched_wf q → sched_wf (fq_flow_unset_throttled q f).
Proof.
  intros Hf Hwf.
  destruct (fq_flow_unset_throttled_spec q f) as (Hoth & Hff & Hd & Hrr & Hdom & _).
  assert (Hin : f ∈ queued_refs q).
  { unfold queued_refs. apply elem_of_app. by right. }
  apply (sched_wf_unthrottle q _ f); try done.
  - rewrite Hff. by apply (wf_attached q Hwf).
  - by rewrite Hff.
Qed.

Lemma throttle_inv_fq_flow_unset_throttled q f :
  f ∈ delayed q →
  throttle_inv q → throttle_inv (fq_flow_unset_throttled q f).
Proof.
  intros Hf [Hwf Hlb]. split; [by apply sched_wf_fq_flow_unset_throttled|].
  destruct (fq_flow_unset_throttled_spec q f) as (Hoth & Hff & Hd & Hrr & Hdom & Ht).
  apply (tndf_lower_bound_unthrottle q _ f); try done.
  pose proof (wf_nodup q Hwf) as Hn. unfold queued_refs in Hn.
  by apply NoDup_app in Hn as (_ & _ & ?).
Qed.

Lemma delayed_fq_flow_unset_throttled q f l :
  delayed q = f :: l → delayed (fq_flow_unset_throttled q f) = l.
Proof.
  intros Hd.
  destruct (fq_flow_unset_throttled_spec q f) as (_ & _ & -> & _).
  rewrite Hd. simpl. by rewrite decide_True.
Qed.

Lemma sorted_by_head_min {A} (key : A → Z) x l y :
  sorted_by key (x :: l) → y ∈ x :: l → key x <= key y.
Proof.
  intros [Hall _]%sorted_by_cons [->|Hy]%elem_of_cons; [done|].
  rewrite Forall_forall in Hall. by apply Hall.
Qed.

(** The loop of [fq_check_throttled], entered with the size of the tree
    as fuel: it ends with the linkage intact; either the tree is empty and
    [time_next_delayed_flow] is as it was on entry, or it is the
    [time_next_packet] of the first flow left, which is not due. *)
Lemma fq_check_throttled_loop_inv n now : ∀ q,
  n = length (delayed q) →
  sched_wf q →
  sched_wf (fq_check_throttled_loop n now q)
  ∧ match delayed (fq_check_throttled_loop n now q) with
    | [] => time_next_delayed_flow (fq_check_throttled_loop n now q)
            = time_next_delayed_flow q
    | f :: _ =>
        time_next_delayed_flow (fq_check_throttled_loop n now q)
        = flow_tnp (fq_check_throttled_loop n now q) f
        ∧ now < flow_tnp (fq_check_throttled_loop n now q) f
    end.
Proof.
  induction n as [|n IH]; intros q Hn Hwf; simpl.
  - destruct (delayed q); [done | simpl in Hn; lia].
  - destruct (delayed q) as [|f l] eqn:Hd; [simpl in Hn; lia|].
    destruct (Z.gtb_spec (flow_tnp q f) now) as [Hgt|Hle].
    + set (q1 := set_time_next_delayed_flow (flow_tnp q f) q).
      assert (Hsame : ∀ r, get_flow q1 r = get_flow q r)
        by (intros r; by apply get_flow_ext).
      split.
      * apply (sched_wf_touch q q1 Internal); rewrite ?Hsame; try done.
        apply Hwf.
      * change (delayed q1) with (delayed q). rewrite Hd.
        unfold flow_tnp. rewrite Hsame. done.
    + assert (Hf : f ∈ delayed q) by (rewrite Hd; by left).
      pose proof (sched_wf_fq_flow_unset_throttled q f Hf Hwf) as Hwf1.
      pose proof (delayed_fq_flow_unset_throttled q f l Hd) as Hd1.
      destruct (IH (fq_flow_unset_throttled q f)) as [Hwf2 Hm]; [|done|].
      { rewrite Hd1. simpl in Hn. lia. }
      split; [done|].
      destruct (delayed (fq_check_throttled_loop n now _)); [|done].
      rewrite Hm.
      by destruct (fq_flow_unset_throttled_spec q f) as (_ & _ & _ & _ & _ & ->).
Qed.

(** [fq_check_throttled] keeps the linkage and the bound; and when it
    removes flows, [time_next_delayed_flow] is afterwards exactly the
    least [time_next_packet] of the tree, all-ones for an empty tree. *)
Lemma throttle_inv_fq_check_throttled q now :
  throttle_inv q →
  throttle_inv (fq_check_throttled q now)
  ∧ (time_next_delayed_flow q <= now → tndf_is_min (fq_check_throttled q now)).
Proof.
  intros [Hwf Hlb]. unfold fq_check_throttled.
  destruct (Z.gtb_spec (time_next_delayed_flow q) now) as [Hgt|Hle].
  { split; [done | lia]. }
  cbv zeta.
  set (q2 := set_time_next_delayed_flow U64_MAX (set_st _ q)).
  assert (Hsame : ∀ r, get_flow q2 r = get_flow q r)
    by (intros r; by apply get_flow_ext).
  assert (Hwf2 : sched_wf q2).
  { apply (sched_wf_touch q q2 Internal); rewrite ?Hsame; try done.
    apply Hwf. }
  destruct (fq_check_throttled_loop_inv (length (delayed q2)) now q2 eq_refl Hwf2)
    as [Hwf3 Hm].
  set (q3 := fq_check_throttled_loop (length (delayed q2)) now q2) in *.
  assert (Hmin : tndf_is_min q3 ∧ tndf_lower_bound q3).
  { unfold tndf_is_min, throttle_min, tndf_lower_bound.
    destruct (delayed q3) as [|f l] eqn:Hd3.
    - split; [by rewrite Hm | by intros r ?%elem_of_nil].
    - destruct Hm as [Hm _]. rewrite Hm.
      pose proof (wf_sorted q3 Hwf3) as Hs. rewrite Hd3 in Hs.
      split.
      + clear -Hs. induction l as [|x l IH]; simpl; [done|].
        assert (sorted_by (flow_tnp q3) (f :: l)) as Hs'.
        { apply sorted_by_cons in Hs as [Hall Hs].
          apply Forall_cons in Hall as [_ Hall].
          apply sorted_by_cons in Hs as [_ Hs].
          apply sorted_by_cons. done. }
        rewrite <- (IH Hs').
        assert (flow_tnp q3 f <= flow_tnp q3 x).
        { eapply sorted_by_head_min; [exact Hs|]. right. by left. }
        lia.
      + intros r Hr. by eapply sorted_by_head_min. }
  split; [split; [done | apply Hmin] | intros _; apply Hmin].
Qed.

(** A change of a flow that leaves the word of its age, its mark and its
    [time_next_packet] alone and does not fill an empty chain. *)
Lemma throttle_inv_upd_simple f g q :
  (∀ fl, age (g fl) = age fl) →
  (∀ fl, next_is_throttled (g fl) = next_is_throttled fl) →
  (∀ fl, time_next_packet (g fl) = time_next_packet fl) →
  (∀ fl, head fl = [] → head (g fl) = []) →
  throttle_inv q → throttle_inv (upd_flow f g q).
Proof.
  intros Ha Ht Hn Hh Hinv. apply throttle_inv_upd_flow.
  - unfold fq_flow_is_detached. by rewrite Ha.
  - apply Ht.
  - intros _. apply Hn.
  - intros Hd. apply Hh. by apply (wf_detached_empty q (proj1 Hinv)).
  - done.
Qed.

Lemma throttle_inv_upd_tnp f v q :
  f ∉ delayed q →
  throttle_inv q → throttle_inv (upd_flow f (set_time_next_packet v) q).
Proof.
  intros Hf Hinv. apply throttle_inv_upd_flow.
  - done.
  - done.
  - done.
  - intros Hd. by apply (wf_detached_empty q (proj1 Hinv)).
  - done.
Qed.

Lemma throttle_inv_set_st v q : throttle_inv q → throttle_inv (set_st v q).
Proof. by apply throttle_inv_ext. Qed.
Lemma throttle_inv_set_co v q : throttle_inv q → throttle_inv (set_co v q).
Proof. by apply throttle_inv_ext. Qed.
Lemma throttle_inv_set_inactive_flows v q :
  throttle_inv q → throttle_inv (set_inactive_flows v q).
Proof. by apply throttle_inv_ext. Qed.
Lemma throttle_inv_set_sch_qlen v q :
  throttle_inv q → throttle_inv (set_sch_qlen v q).
Proof. by apply throttle_inv_ext. Qed.
Lemma throttle_inv_set_ktime_cache v q :
  throttle_inv q → throttle_inv (set_ktime_cache v q).
Proof. by apply throttle_inv_ext. Qed.
Lemma throttle_inv_set_watchdog v q :
  throttle_inv q → throttle_inv (set_watchdog v q).
Proof. by apply throttle_inv_ext. Qed.
Lemma throttle_inv_set_flows v q : throttle_inv q → throttle_inv (set_flows v q).
Proof. by apply throttle_inv_ext. Qed.
Lemma throttle_inv_set_cfg v q : throttle_inv q → throttle_inv (set_cfg v q).
Proof. by apply throttle_inv_ext. Qed.

Lemma age_fq_erase_head fl skb : age (fq_erase_head fl skb) = age fl.
Proof. unfold fq_erase_head. repeat case_match; done. Qed.
Lemma next_is_throttled_fq_erase_head fl skb :
  next_is_throttled (fq_erase_head fl skb) = next_is_throttled fl.
Proof. unfold fq_erase_head. repeat case_match; done. Qed.
Lemma time_next_packet_fq_erase_head fl skb :
  time_next_packet (fq_erase_head fl skb) = time_next_packet fl.
Proof. unfold fq_erase_head. repeat case_match; done. Qed.
Lemma head_fq_erase_head_nil fl skb :
  head fl = [] → head (fq_erase_head fl skb) = [].
Proof. unfold fq_erase_head. intros H. rewrite H. exact H. Qed.

Lemma throttle_inv_fq_dequeue_skb q f skb :
  throttle_inv q → throttle_inv (fq_dequeue_skb q f skb).
Proof.
  intros Hinv. unfold fq_dequeue_skb. cbv zeta.
  apply throttle_inv_set_sch_qlen.
  apply (throttle_inv_upd_simple f
    (λ fl, set_qlen (s32 (qlen fl - 1)) (fq_erase_head fl skb)) q).
  - intros fl. simpl. apply age_fq_erase_head.
  - intros fl. simpl. apply next_is_throttled_fq_erase_head.
  - intros fl. simpl. apply time_next_packet_fq_erase_head.
  - intros fl. simpl. apply head_fq_erase_head_nil.
  - done.
Qed.

Lemma delayed_fq_dequeue_skb q f skb : delayed (fq_dequeue_skb q f skb) = delayed q.
Proof. unfold fq_dequeue_skb. simpl. apply delayed_upd_flow. Qed.

Lemma throttle_inv_fq_dequeue_pace now q f skb :
  f ∉ delayed q →
  throttle_inv q → throttle_inv (fq_dequeue_pace now q f skb).
Proof.
  intros Hf Hinv. unfold fq_dequeue_pace. cbv zeta.
  set (q1 := upd_flow f _ q).
  assert (H1 : throttle_inv q1) by (by apply throttle_inv_upd_simple).
  assert (Hd1 : delayed q1 = delayed q) by apply delayed_upd_flow.
  clearbody q1.
  destruct (rate_enable (cfg q1) =? 0); [done|].
  match goal with
  | |- throttle_inv (match ?step with _ => _ end) => destruct step as [[[rate plen1] q2]|] eqn:Hstep
  end; [|done].
  assert (H2 : throttle_inv q2 ∧ delayed q2 = delayed q).
  { revert Hstep. repeat case_match; intros [= <- <- <-]; split;
      first [done | by apply throttle_inv_upd_simple | by rewrite delayed_upd_flow]. }
  destruct H2 as [H2 Hd2].
  destruct (rate =? U64_MAX); [done|].
  match goal with
  | |- throttle_inv (let '(_, _) := ?p in _) => destruct p as [len2 q3] eqn:Hp
  end.
  assert (H3 : throttle_inv q3 ∧ delayed q3 = delayed q).
  { match type of Hp with (if ?c then _ else _) = _ => destruct c end;
      revert Hp; intros [= <- <-]; split;
      first [done | by apply throttle_inv_set_st]. }
  destruct H3 as [H3 Hd3].
  apply throttle_inv_upd_tnp; [by rewrite Hd3 | done].
Qed.

Lemma head_list_upd_flow hd r g q : head_list hd (upd_flow r g q) = head_list hd q.
Proof. by destruct hd, r. Qed.

Lemma fq_root_pop_head hd q : fq_root (pop_head hd q) = fq_root q.
Proof. by destruct hd. Qed.

Lemma delayed_pop_head hd q : delayed (pop_head hd q) = delayed q.
Proof. by destruct hd. Qed.

(** The flow at the front of a list is moved to the tail of a list. *)
Lemma throttle_inv_rotate hd hd' q f rest :
  head_list hd q = f :: rest →
  throttle_inv q → throttle_inv (fq_flow_add_tail hd' f (pop_head hd q)).
Proof.
  intros Hh Hinv.
  destruct (throttle_inv_pop_head hd q f rest Hh Hinv)
    as (Hp & Hnf & Hdet & _ & k & -> & Hk).
  apply throttle_inv_fq_flow_add_tail;
    [done | by rewrite get_flow_pop_head
    | exists k; by rewrite fq_root_pop_head | done].
Qed.

(** One pass of the loop of [fq_dequeue] keeps the linkage and the bound. *)
Lemma throttle_inv_fq_dequeue_pass h now q :
  throttle_inv q → throttle_inv (pass_state (fq_dequeue_pass h now q)).
Proof.
  intros Hinv. unfold fq_dequeue_pass.
  destruct (fq_select_head q) as [hd|]; cbn [pass_state].
  2:{ destruct (negb _); [by apply throttle_inv_set_watchdog | done]. }
  destruct (head_list hd q) as [|f rest] eqn:Hh; [done|].
  destruct (negb (_ =? -1) && negb (is_co hd)); cbn [pass_state].
  { apply throttle_inv_set_co. unfold Promotecoflows.
    by eapply throttle_inv_rotate. }
  destruct ((ucounter (co q) =? 2) && negb (is_co hd)); cbn [pass_state].
  { by apply throttle_inv_set_co. }
  destruct ((ucounter (co q) =? 0) && is_co hd); cbn [pass_state].
  { by apply throttle_inv_set_co. }
  match goal with
  | |- context [credit (get_flow ?q1' f) <=? 0] => set (q1 := q1')
  end.
  assert (H1 : throttle_inv q1).
  { unfold q1. destruct (negb _ && is_co hd); [by apply throttle_inv_set_co | done]. }
  assert (Hh1 : head_list hd q1 = f :: rest).
  { unfold q1. destruct (negb _ && is_co hd); [|done]. by destruct hd. }
  clearbody q1. clear Hinv Hh.
  destruct (throttle_inv_pop_head hd q1 f rest Hh1 H1)
    as (Hp & Hnf & Hdet & Hthr & k & -> & Hk).
  assert (Hnd : Dyn k ∉ delayed q1).
  { intros Hin. apply (wf_throttled q1 (proj1 H1)) in Hin. congruence. }
  destruct (credit (get_flow q1 (Dyn k)) <=? 0); cbn [pass_state].
  { eapply throttle_inv_rotate.
    - by rewrite head_list_upd_flow.
    - by apply throttle_inv_upd_simple. }
  destruct (fq_peek (get_flow q1 (Dyn k))) as [skb|] eqn:Hpk.
  - destruct (now <? _); cbn [pass_state].
    + apply throttle_inv_fq_flow_set_throttled.
      * by rewrite queued_refs_upd_flow.
      * rewrite get_upd_flow.
        change (fq_flow_is_detached (get_flow (pop_head hd q1) (Dyn k)) = false).
        by rewrite get_flow_pop_head.
      * exists k. split; [done|]. apply fq_root_upd_flow_mono.
        by rewrite fq_root_pop_head.
      * apply throttle_inv_upd_tnp; [|done]. by rewrite delayed_pop_head.
    + apply throttle_inv_fq_dequeue_pace.
      * rewrite delayed_fq_dequeue_skb. by destruct (s64 _ >? 0).
      * apply throttle_inv_fq_dequeue_skb.
        destruct (s64 _ >? 0); [by apply throttle_inv_set_st | done].
  - apply fq_peek_None in Hpk as [Hhd _].
    destruct (_ && _); cbn [pass_state].
    + by eapply throttle_inv_rotate.
    + apply throttle_inv_set_inactive_flows.
      apply throttle_inv_upd_flow_offlist; try done.
      * by rewrite get_flow_pop_head.
      * intros _. by rewrite get_flow_pop_head.
Qed.

Lemma throttle_inv_fq_dequeue_loop h now fuel : ∀ q skb q',
  throttle_inv q → fq_dequeue_loop fuel h now q = Some (skb, q') →
  throttle_inv q'.
Proof.
  induction fuel as [|fuel IH]; intros q skb q' Hinv; simpl; [done|].
  pose proof (throttle_inv_fq_dequeue_pass h now q Hinv) as Hp.
  destruct (fq_dequeue_pass h now q) as [s q1|q1]; simpl in Hp.
  - by intros [= _ <-].
  - by apply IH.
Qed.

Lemma throttle_inv_fq_dequeue fuel h q skb q' :
  throttle_inv q → fq_dequeue fuel h q = Some (skb, q') → throttle_inv q'.
Proof.
  intros Hinv. unfold fq_dequeue.
  destruct (sch_qlen q =? 0); [by intros [= _ <-]|].
  destruct (fq_peek (internal q)) as [s|].
  { intros [= _ <-]. by apply throttle_inv_fq_dequeue_skb. }
  cbv zeta. apply throttle_inv_fq_dequeue_loop.
  apply throttle_inv_fq_check_throttled. by apply throttle_inv_set_ktime_cache.
Qed.

(** Flows that are detached are dropped from the table. *)
Lemma throttle_inv_forget q m' :
  (∀ k, m' !! k = fq_root q !! k
        ∨ (m' !! k = None
           ∧ ∃ f, fq_root q !! k = Some f ∧ fq_flow_is_detached f = true)) →
  throttle_inv q → throttle_inv (set_fq_root m' q).
Proof.
  intros Hm [Hwf Hlb].
  set (q' := set_fq_root m' q).
  assert (Hg : ∀ r, get_flow q' r = get_flow q r
                    ∨ ((r ∉ queued_refs q) ∧ get_flow q' r = zero_flow)).
  { intros [|k]; [by left|]. simpl.
    destruct (Hm k) as [->|[-> (f & Hf & Hd)]]; [by left|].
    right. split; [|done]. intros Hin.
    apply (wf_attached q Hwf) in Hin. simpl in Hin. rewrite Hf in Hin.
    simpl in Hin. congruence. }
  assert (Hq : ∀ r, r ∈ queued_refs q → get_flow q' r = get_flow q r).
  { intros r Hr. by destruct (Hg r) as [?|[? _]]. }
  assert (Hdq : ∀ r, r ∈ delayed q → r ∈ queued_refs q).
  { intros r Hr. unfold queued_refs. apply elem_of_app. by right. }
  split.
  - split.
    + apply (wf_nodup q Hwf).
    + intros r Hr. change (queued_refs q') with (queued_refs q) in Hr.
      rewrite Hq by done. by apply (wf_attached q Hwf).
    + intros r Hr. change (queued_refs q') with (queued_refs q) in Hr.
      destruct (wf_live q Hwf r Hr) as (k & -> & Hk).
      exists k. split; [done|]. simpl.
      destruct (Hm k) as [->|[_ (f & Hf & Hd)]]; [done|].
      apply (wf_attached q Hwf) in Hr. simpl in Hr. rewrite Hf in Hr.
      simpl in Hr. congruence.
    + intros r. change (delayed q') with (delayed q).
      destruct (Hg r) as [->|[Hn ->]]; [apply (wf_throttled q Hwf)|].
      split; [|done]. intros Hr. by apply Hdq in Hr.
    + intros r. destruct (Hg r) as [->|[_ ->]]; [apply (wf_detached_empty q Hwf)|done].
    + apply (wf_internal q Hwf).
    + change (delayed q') with (delayed q).
      apply (sorted_by_ext (flow_tnp q)); [|apply (wf_sorted q Hwf)].
      intros r Hr. unfold flow_tnp. by rewrite Hq by auto.
  - intros r Hr. change (delayed q') with (delayed q) in Hr.
    change (time_next_delayed_flow q') with (time_next_delayed_flow q).
    unfold flow_tnp. rewrite Hq by auto. by apply Hlb.
Qed.

Lemma fq_gc_scan_candidates h tab key path : ∀ tofree k,
  k ∈ fq_gc_scan h tab key path tofree →
  k ∈ tofree ∨ ∃ f, tab !! k = Some f ∧ fq_gc_candidate h f = true.
Proof.
  induction path as [|x path IH]; intros tofree k; simpl; [by left|].
  destruct (tab !! x) as [f|] eqn:Hx; [|by apply IH].
  destruct (x =? key); [by left|].
  destruct (fq_gc_candidate h f) eqn:Hc; [|by apply IH].
  assert (Hsn : k ∈ tofree ++ [x] →
                k ∈ tofree ∨ ∃ f, tab !! k = Some f ∧ fq_gc_candidate h f = true).
  { intros [?|Hk%list_elem_of_singleton]%elem_of_app; [by left|].
    subst k. right. eauto. }
  destruct (_ =? FQ_GC_MAX); [done|].
  intros [?|?]%IH; [by apply Hsn | by right].
Qed.

Lemma lookup_foldr_delete_in {A} (m : gmap Z A) l key :
  key ∈ l → foldr delete m l !! key = None.
Proof.
  induction l as [|k l IH]; intros Hin; simpl; [by apply elem_of_nil in Hin|].
  destruct (decide (key = k)) as [->|Hne]; [by rewrite lookup_delete_eq|].
  rewrite lookup_delete_ne by done. apply IH.
  by apply elem_of_cons in Hin as [?|?].
Qed.

(** Garbage collection keeps the linkage and the bound. *)
Lemma throttle_inv_fq_gc h q key : throttle_inv q → throttle_inv (fq_gc h q key).
Proof.
  intros Hinv. unfold fq_gc. cbv zeta.
  destruct (_ =? 0); [done|].
  apply throttle_inv_set_st, throttle_inv_set_inactive_flows, throttle_inv_set_flows.
  apply throttle_inv_forget; [|done].
  intros k.
  destruct (decide (k ∈ fq_gc_scan h (fq_root q) key (rb_path h) [])) as [Hin|Hn].
  - right. split; [by apply lookup_foldr_delete_in|].
    apply fq_gc_scan_candidates in Hin as [Hin|(f & Hf & Hc)];
      [by apply elem_of_nil in Hin|].
    exists f. split; [done|]. by apply andb_true_iff in Hc as [? _].
  - left. by apply lookup_foldr_delete.
Qed.

(** So does the move of the table to a new array. *)
Lemma throttle_inv_fq_rehash h q : throttle_inv q → throttle_inv (fq_rehash h q).
Proof.
  intros Hinv. unfold fq_rehash. cbv zeta.
  apply throttle_inv_set_st, throttle_inv_set_inactive_flows, throttle_inv_set_flows.
  apply throttle_inv_forget; [|done].
  intros k. destruct (fq_root q !! k) as [f|] eqn:Hf.
  - destruct (fq_gc_candidate h f) eqn:Hc.
    + right. split.
      * apply map_lookup_filter_None. right. intros f' Hf'. simpl.
        rewrite Hf in Hf'. injection Hf' as <-. by rewrite Hc.
      * exists f. split; [done|]. by apply andb_true_iff in Hc as [? _].
    + left. by apply map_lookup_filter_Some.
  - left. apply map_lookup_filter_None. by left.
Qed.

Lemma throttle_inv_fq_resize h q log :
  throttle_inv q → throttle_inv (fq_resize h q log).2.
Proof.
  intros Hinv. unfold fq_resize.
  destruct (negb _ && _); [done|].
  destruct (negb (kvmalloc_ok h)); [done|]. simpl.
  apply (throttle_inv_ext (if fq_root_null q then q else fq_rehash h q));
    try done.
  destruct (fq_root_null q); [done | by apply throttle_inv_fq_rehash].
Qed.

Lemma fq_flow_is_detached_set_detached j fl :
  fq_flow_is_detached (fq_flow_set_detached j fl) = true.
Proof.
  unfold fq_flow_is_detached, fq_flow_set_detached. simpl.
  replace (Z.land (Z.lor (u64 j) 1) 1) with 1; [done|].
  rewrite Z.land_lor_distr_l. change (Z.land 1 1) with 1.
  symmetry. apply Z.bits_inj'. intros n Hn.
  rewrite Z.lor_spec, Z.land_spec.
  destruct (decide (n = 0)) as [->|Hne]; [by rewrite orb_true_r|].
  rewrite (Z.bits_above_log2 1 n) by (simpl; lia).
  by rewrite andb_false_r.
Qed.

(** Classification keeps the linkage and the bound, and yields the
    internal flow or a flow of the table. *)
Lemma throttle_inv_fq_classify_proj h skb q :
  throttle_inv q →
  throttle_inv (fq_classify h skb q).2
  ∧ ((fq_classify h skb q).1.1 = Internal
     ∨ ∃ k, (fq_classify h skb q).1.1 = Dyn k
            ∧ is_Some (fq_root (fq_classify h skb q).2 !! k)).
Proof.
  unfold fq_classify. intros Hinv.
  case_match; [split; [done | by left]|].
  destruct (fq_classify_key skb q) as [key skb1] eqn:Hk.
  match goal with
  | |- context [if ?c then fq_gc h q key else q] =>
      set (q1 := if c then fq_gc h q key else q)
  end.
  assert (H1 : throttle_inv q1).
  { unfold q1. case_match; [by apply throttle_inv_fq_gc | done]. }
  clearbody q1. clear Hinv.
  destruct (fq_root q1 !! key) as [f0|] eqn:Hf0.
  - assert (Hlive : is_Some (fq_root q1 !! key)) by (by rewrite Hf0).
    destruct (keyed_sock skb1 key) as [s|];
      [|split; [done | right; eauto]].
    destruct (negb _); [|split; [done | right; eauto]].
    cbv zeta. cbn [fst snd].
    set (q2 := upd_flow (Dyn key) _ q1).
    assert (H2 : throttle_inv q2) by (by apply throttle_inv_upd_simple).
    assert (Hl2 : is_Some (fq_root q2 !! key))
      by (by apply fq_root_upd_flow_mono).
    clearbody q2.
    match goal with
    | |- context [upd_flow (Dyn key) (set_time_next_packet 0) ?x] => set (q3 := x)
    end.
    assert (H3 : throttle_inv q3 ∧ is_Some (fq_root q3 !! key)
                 ∧ fq_flow_is_throttled (get_flow q3 (Dyn key)) = false).
    { unfold q3. destruct (fq_flow_is_throttled (get_flow q2 (Dyn key))) eqn:Ht;
        [|done].
      assert (Hin : Dyn key ∈ delayed q2)
        by (by apply (wf_throttled q2 (proj1 H2))).
      destruct (fq_flow_unset_throttled_spec q2 (Dyn key))
        as (_ & Hff & _ & _ & Hdom & _).
      split; [by apply throttle_inv_fq_flow_unset_throttled|].
      split; [by apply Hdom | by rewrite Hff]. }
    clearbody q3. destruct H3 as (H3 & Hl3 & Ht3).
    split.
    + apply throttle_inv_upd_tnp; [|done].
      intros Hin. apply (wf_throttled q3 (proj1 H3)) in Hin. congruence.
    + right. exists key. split; [done|]. by apply fq_root_upd_flow_mono.
  - destruct (negb (kmem_cache_zalloc_ok h)).
    { split; [by apply throttle_inv_set_st | by left]. }
    cbv zeta. cbn [fst snd].
    match goal with
    | |- context [<[key := ?x]> (fq_root q1)] => set (f2 := x)
    end.
    split.
    + apply throttle_inv_set_inactive_flows, throttle_inv_set_flows.
      change (set_fq_root (<[key:=f2]> (fq_root q1)) q1)
        with (upd_flow (Dyn key) (λ _, f2) q1).
      assert (Hd : fq_flow_is_detached f2 = true).
      { unfold f2. destruct (keyed_sock skb1 key);
          apply (fq_flow_is_detached_set_detached (jiffies h) zero_flow). }
      apply throttle_inv_upd_flow_offlist; [| | |done|done].
      * intros Hin. apply (wf_live q1 (proj1 H1)) in Hin as (k & [= <-] & Hl).
        rewrite Hf0 in Hl. by destruct Hl.
      * unfold f2. by destruct (keyed_sock skb1 key).
      * intros _. unfold f2. by destruct (keyed_sock skb1 key).
    + right. exists key. split; [done|]. simpl. by rewrite lookup_insert_eq.
Qed.

Lemma throttle_inv_fq_classify h skb q f skb2 q2 :
  fq_classify h skb q = (f, skb2, q2) → throttle_inv q →
  throttle_inv q2
  ∧ (f = Internal ∨ ∃ k, f = Dyn k ∧ is_Some (fq_root q2 !! k)).
Proof.
  intros Hc Hinv.
  pose proof (throttle_inv_fq_classify_proj h skb q Hinv) as Hp.
  by rewrite Hc in Hp.
Qed.

Lemma throttle_inv_fq_enqueue_horizon h skb q :
  throttle_inv q → throttle_inv (fq_enqueue_horizon h skb q).2.
Proof.
  intros Hinv. unfold fq_enqueue_horizon.
  repeat case_match; by apply (throttle_inv_ext q).
Qed.

Lemma fq_enqueue_horizon_addr h skb q skb1 :
  (fq_enqueue_horizon h skb q).1 = Some skb1 → skb_addr skb1 = skb_addr skb.
Proof.
  unfold fq_enqueue_horizon. repeat case_match; intros [= <-]; done.
Qed.

Lemma fq_classify_addr h skb q : skb_addr (fq_classify h skb q).1.2 = skb_addr skb.
Proof.
  destruct (fq_classify h skb q) as [[f skb2] q2] eqn:Hc.
  apply fq_classify_frame in Hc. simpl. tauto.
Qed.

(** What the tail of [fq_enqueue] does to the lists and the flows. *)
Lemma fq_enqueue_tail_spec skb f q :
  let q' := fq_enqueue_tail skb f q in
  new_flows q' = new_flows q ∧ old_flows q' = old_flows q
  ∧ co_flows q' = co_flows q ∧ delayed q' = delayed q
  ∧ time_next_delayed_flow q' = time_next_delayed_flow q
  ∧ (∀ r, r ≠ f → get_flow q' r = get_flow q r)
  ∧ (∀ k, is_Some (fq_root q !! k) → is_Some (fq_root q' !! k))
  ∧ get_flow q' f
    = flow_queue_add
        (set_socket_hash (u32 (Z.land (skb_hash skb) (orphan_mask (cfg q))))
           (get_flow q f)) skb.
Proof.
  cbv zeta.
  destruct (fq_enqueue_tail_frame skb f q) as (_ & Hn & Ho & Hc & Hd & Ht & _).
  do 5 (split; [done|]).
  split; [|split; [|apply fq_enqueue_tail_flow]].
  - intros r Hne. unfold fq_enqueue_tail. cbv zeta.
    rewrite get_flow_set_sch_qlen.
    match goal with
    | |- get_flow (if is_internal f then set_st ?v ?a else ?b) r = _ =>
        transitivity (get_flow b r); [by destruct (is_internal f)|]
    end.
    rewrite get_upd_flow_ne by done.
    repeat case_match; rewrite ?get_flow_set_co; by apply get_upd_flow_ne.
  - intros k Hk. unfold fq_enqueue_tail. cbv zeta.
    assert (H1 : is_Some (fq_root (upd_flow f
      (set_socket_hash (u32 (Z.land (skb_hash skb) (orphan_mask (cfg q))))) q) !! k))
      by (by apply fq_root_upd_flow_mono).
    revert H1.
    generalize (upd_flow f
      (set_socket_hash (u32 (Z.land (skb_hash skb) (orphan_mask (cfg q))))) q).
    intros q1 H1.
    match goal with
    | |- is_Some (fq_root (set_sch_qlen _
           (if is_internal f then set_st ?v ?a else ?b)) !! k) =>
        assert (is_Some (fq_root b !! k)); [|by destruct (is_internal f)]
    end.
    apply fq_root_upd_flow_mono. by repeat case_match.
Qed.

(** What the block for a detached flow does to the lists and the flows. *)
Lemma fq_enqueue_detached_spec h skb f q q' :
  fq_enqueue_detached h skb f q = Some q' →
  rr_refs q' ≡ₚ f :: rr_refs q ∧ delayed q' = delayed q
  ∧ time_next_delayed_flow q' = time_next_delayed_flow q
  ∧ (∀ r, r ≠ f → get_flow q' r = get_flow q r)
  ∧ (∀ k, is_Some (fq_root q !! k) → is_Some (fq_root q' !! k))
  ∧ age (get_flow q' f) = age (get_flow q f)
  ∧ head (get_flow q' f) = head (get_flow q f)
  ∧ next_is_throttled (get_flow q' f) = false.
Proof.
  unfold fq_enqueue_detached. cbv zeta.
  destruct (sk skb) as [s|]; [|done]. intros Hq. apply (inj Some) in Hq.
  subst q'.
  set (q1 := fq_flow_add_tail NEW_FLOWS f q).
  assert (H1 : rr_refs q1 ≡ₚ f :: rr_refs q ∧ delayed q1 = delayed q
    ∧ time_next_delayed_flow q1 = time_next_delayed_flow q
    ∧ (∀ r, r ≠ f → get_flow q1 r = get_flow q r)
    ∧ (∀ k, is_Some (fq_root q !! k) → is_Some (fq_root q1 !! k))
    ∧ get_flow q1 f = set_next_is_throttled false (get_flow q f)).
  { unfold q1, fq_flow_add_tail.
    set (qa := upd_flow f (set_next_is_throttled false) q).
    assert (head_list NEW_FLOWS q = head_list NEW_FLOWS qa) as ->.
    { unfold qa. simpl. by rewrite new_flows_upd_flow. }
    split; [|split; [|split; [|split; [|split]]]].
    - rewrite rr_refs_set_head_list_snoc. unfold qa. by rewrite rr_refs_upd_flow.
    - rewrite delayed_set_head_list. apply delayed_upd_flow.
    - rewrite tndf_set_head_list. apply tndf_upd_flow.
    - intros r Hne. rewrite get_flow_set_head_list. by apply get_upd_flow_ne.
    - intros k Hk. rewrite fq_root_set_head_list. by apply fq_root_upd_flow_mono.
    - rewrite get_flow_set_head_list. apply get_upd_flow. }
  clearbody q1. destruct H1 as (Hrr & Hd & Ht & Hoth & Hdom & Hf).
  set (q2 := set_co _ q1).
  match goal with
  | |- context [set_inactive_flows _ ?x] => set (q3 := x)
  end.
  assert (H3 : rr_refs q3 = rr_refs q1 ∧ delayed q3 = delayed q1
    ∧ time_next_delayed_flow q3 = time_next_delayed_flow q1
    ∧ (∀ r, r ≠ f → get_flow q3 r = get_flow q1 r)
    ∧ (∀ k, is_Some (fq_root q1 !! k) → is_Some (fq_root q3 !! k))
    ∧ age (get_flow q3 f) = age (get_flow q1 f)
    ∧ head (get_flow q3 f) = head (get_flow q1 f)
    ∧ next_is_throttled (get_flow q3 f) = next_is_throttled (get_flow q1 f)).
  { unfold q3. destruct (time_after _ _).
    - rewrite rr_refs_upd_flow, delayed_upd_flow, tndf_upd_flow, get_upd_flow.
      do 3 (split; [done|]). split; [|split; [|done]].
      + intros r Hne. rewrite get_upd_flow_ne by done. by destruct r.
      + intros k Hk. by apply fq_root_upd_flow_mono.
    - do 3 (split; [done|]). split; [|done]. intros r _. by destruct r. }
  clearbody q3. destruct H3 as (Hrr3 & Hd3 & Ht3 & Hoth3 & Hdom3 & Ha3 & Hh3 & Hn3).
  change (rr_refs (set_inactive_flows (u32 (inactive_flows q3 - 1)) q3))
    with (rr_refs q3).
  assert (Hg : ∀ r, get_flow (set_inactive_flows (u32 (inactive_flows q3 - 1)) q3) r
                    = get_flow q3 r) by (intros r; by destruct r).
  rewrite !Hg. simpl.
  rewrite Hrr3, Hd3, Ht3, Ha3, Hh3, Hn3, Hf.
  do 3 (split; [done|]). split; [|split; [|done]].
  - intros r Hne. rewrite Hg, Hoth3 by done. by apply Hoth.
  - intros k Hk. by apply Hdom3, Hdom.
Qed.

Lemma fq_flow_is_detached_flow_queue_add fl skb :
  skb_aligned skb → fq_flow_is_detached fl = false →
  fq_flow_is_detached (flow_queue_add fl skb) = false.
Proof.
  unfold skb_aligned, flow_queue_add, fq_flow_is_detached.
  intros Ha Hd. repeat case_match; simpl; by rewrite ?Ha.
Qed.

Lemma fq_flow_is_detached_flow_queue_add_empty fl skb :
  skb_aligned skb → head fl = [] →
  fq_flow_is_detached (flow_queue_add fl skb) = false.
Proof.
  unfold skb_aligned, flow_queue_add, fq_flow_is_detached.
  intros Ha ->. simpl. by rewrite Ha.
Qed.

Lemma next_is_throttled_flow_queue_add fl skb :
  next_is_throttled (flow_queue_add fl skb) = next_is_throttled fl.
Proof. unfold flow_queue_add. by repeat case_match. Qed.

Lemma time_next_packet_flow_queue_add fl skb :
  time_next_packet (flow_queue_add fl skb) = time_next_packet fl.
Proof. unfold flow_queue_add. by repeat case_match. Qed.

(** [fq_enqueue] of an aligned packet keeps the linkage and the bound. *)
Lemma throttle_inv_fq_enqueue h skb q :
  skb_aligned skb → throttle_inv q → throttle_inv (fq_enqueue h skb q).2.
Proof.
  intros Hal Hinv. unfold fq_enqueue.
  destruct (sch_qlen q >=? limit (cfg q)); [done|].
  pose proof (throttle_inv_fq_enqueue_horizon h skb q Hinv) as H1.
  pose proof (fq_enqueue_horizon_addr h skb q) as Ha1.
  destruct (fq_enqueue_horizon h skb q) as [[skb1|] q1]; [|done].
  simpl in H1. specialize (Ha1 skb1 eq_refl).
  pose proof (throttle_inv_fq_classify_proj h skb1 q1 H1) as [H2 Hf].
  pose proof (fq_classify_addr h skb1 q1) as Ha2.
  destruct (fq_classify h skb1 q1) as [[f skb2] q2].
  cbn [fst snd] in H2, Hf, Ha2.
  assert (Hal2 : skb_aligned skb2).
  { unfold skb_aligned in *. by rewrite Ha2, Ha1. }
  clear Ha1 Ha2 Hinv H1.
  destruct (_ && negb (is_internal f)); cbn [snd].
  { by apply throttle_inv_set_st. }
  cbv zeta.
  set (q3 := upd_flow f (λ fl, set_qlen (s32 (qlen fl + 1)) fl) q2).
  assert (H3 : throttle_inv q3) by (by apply throttle_inv_upd_simple).
  assert (Hf3 : f = Internal ∨ ∃ k, f = Dyn k ∧ is_Some (fq_root q3 !! k)).
  { destruct Hf as [?|(k & ? & ?)]; [by left|]. right. exists k.
    split; [done|]. by apply fq_root_upd_flow_mono. }
  clearbody q3. clear H2 Hf.
  destruct H3 as [Hwf Hlb].
  destruct (fq_flow_is_detached (get_flow q3 f)) eqn:Hd.
  - destruct (fq_enqueue_detached h skb2 f q3) as [q5|] eqn:H5; [|done].
    cbn [snd].
    apply fq_enqueue_detached_spec in H5
      as (Hrr & Hdl & Ht & Hoth & Hdom & Hage & Hhd & Hnt).
    destruct (fq_enqueue_tail_spec skb2 f q5)
      as (Hn' & Ho' & Hc' & Hd' & Ht' & Hoth' & Hdom' & Hf').
    assert (Hnq : f ∉ queued_refs q3).
    { intros Hin. apply (wf_attached q3 Hwf) in Hin. congruence. }
    assert (Hk : ∃ k, f = Dyn k ∧ is_Some (fq_root q3 !! k)).
    { destruct Hf3 as [->|?]; [|done].
      pose proof (wf_internal q3 Hwf) as Hi. simpl in Hd. congruence. }
    split.
    + apply (sched_wf_enlist q3 _ f); try done.
      * unfold rr_refs. rewrite Hn', Ho', Hc'. exact Hrr.
      * by rewrite Hd'.
      * intros r Hne. rewrite Hoth' by done. by apply Hoth.
      * intros k Hk'. by apply Hdom', Hdom.
      * rewrite Hf'. apply fq_flow_is_detached_flow_queue_add_empty; [done|].
        simpl. rewrite Hhd. by apply (wf_detached_empty q3 Hwf).
      * rewrite Hf'. unfold fq_flow_is_throttled.
        by rewrite next_is_throttled_flow_queue_add.
      * destruct Hk as (k & -> & Hk). exists k. split; [done|].
        by apply Hdom', Hdom.
    + apply (tndf_lower_bound_move q3 _ f); try done.
      * by rewrite Hd'.
      * by rewrite Ht'.
      * intros Hin. apply Hnq. unfold queued_refs. apply elem_of_app. by right.
      * intros r Hne. rewrite Hoth' by done. by apply Hoth.
  - cbn [snd].
    destruct (fq_enqueue_tail_spec skb2 f q3)
      as (Hn' & Ho' & Hc' & Hd' & Ht' & Hoth' & Hdom' & Hf').
    split.
    + apply (sched_wf_touch q3 _ f); try done.
      * rewrite Hf', Hd.
        by apply fq_flow_is_detached_flow_queue_add.
      * rewrite Hf'. unfold fq_flow_is_throttled.
        by rewrite next_is_throttled_flow_queue_add.
      * intros _. rewrite Hf'. by rewrite time_next_packet_flow_queue_add.
      * congruence.
    + apply (tndf_lower_bound_touch q3 _ f); try done.
      intros _. rewrite Hf'. by rewrite time_next_packet_flow_queue_add.
Qed.

(** [fq_reset] keeps the linkage and the bound. *)
Lemma throttle_inv_fq_reset q : throttle_inv q → throttle_inv (fq_reset q).
Proof.
  intros [Hwf Hlb]. unfold fq_reset. cbv zeta.
  assert (Hint : Internal ∉ queued_refs q).
  { intros Hin. by apply (wf_live q Hwf) in Hin as (k & ? & _). }
  assert (Hnt : fq_flow_is_throttled (internal q) = false).
  { destruct (fq_flow_is_throttled (internal q)) eqn:Ht; [|done].
    apply (wf_throttled q Hwf Internal) in Ht. exfalso. apply Hint.
    unfold queued_refs. apply elem_of_app. by right. }
  destruct (fq_root_null _).
  - change (set_internal (fq_flow_purge (internal (set_sch_qlen 0 q)))
              (set_sch_qlen 0 q))
      with (upd_flow Internal fq_flow_purge (set_sch_qlen 0 q)).
    apply throttle_inv_upd_simple; try done.
    by apply throttle_inv_set_sch_qlen.
  - split.
    + split; simpl.
      * apply NoDup_nil_2.
      * by intros r ?%elem_of_nil.
      * by intros r ?%elem_of_nil.
      * intros [|k]; simpl.
        -- split; [by intros ?%elem_of_nil|]. unfold fq_flow_is_throttled in *.
           simpl. congruence.
        -- rewrite lookup_empty. simpl. split; [by intros ?%elem_of_nil|done].
      * intros [|k]; simpl; [done|]. by rewrite lookup_empty.
      * apply (wf_internal q Hwf).
      * apply sorted_by_nil.
    + by intros r ?%elem_of_nil.
Qed.

(** The scheduler [fq_init] sets up, before the options are applied. *)
Lemma throttle_inv_fq_init_defaults h g :
  throttle_inv (fq_init_defaults h (qdisc_alloc g)).
Proof.
  split.
  - split; simpl.
    + apply NoDup_nil_2.
    + by intros r ?%elem_of_nil.
    + by intros r ?%elem_of_nil.
    + intros [|k]; simpl; (split; [by intros ?%elem_of_nil|done]).
    + by intros [|k].
    + done.
    + apply sorted_by_nil.
  - by intros r ?%elem_of_nil.
Qed.

Lemma throttle_inv_fq_change_trim n fuel hs : ∀ q q',
  throttle_inv q → fq_change_trim n fuel hs q = Some q' → throttle_inv q'.
Proof.
  induction n as [|n IH]; intros q q' Hinv; simpl.
  - destruct (_ >? _); [done|]. by intros [= <-].
  - destruct (_ >? _); [|by intros [= <-]].
    destruct (fq_dequeue fuel (hs n) q) as [[[s|] q1]|] eqn:Hd; [| |done].
    + apply IH. by eapply throttle_inv_fq_dequeue.
    + intros [= <-]. by eapply throttle_inv_fq_dequeue.
Qed.

Lemma throttle_inv_fq_change n fuel h hs opt q r q' :
  throttle_inv q → fq_change n fuel h hs opt q = Some (r, q') →
  throttle_inv q'.
Proof.
  intros Hinv. unfold fq_change.
  destruct opt as [tb|]; [|by intros [= _ <-]].
  destruct (nla_err tb <? 0); [by intros [= _ <-]|].
  cbv zeta.
  set (q1 := set_cfg _ q).
  assert (H1 : throttle_inv q1) by (by apply throttle_inv_set_cfg).
  clearbody q1.
  pose proof (throttle_inv_fq_resize h q1 (fq_change_log tb q) H1) as H2.
  destruct (fq_change_err tb =? 0).
  - destruct (fq_resize h q1 (fq_change_log tb q)) as [e q2]. cbn [snd] in H2.
    destruct (fq_change_trim n fuel hs q2) as [q3|] eqn:Ht; [|done].
    intros [= _ <-]. exact (throttle_inv_fq_change_trim n fuel hs q2 q3 H2 Ht).
  - destruct (fq_change_trim n fuel hs q1) as [q3|] eqn:Ht; [|done].
    intros [= _ <-]. exact (throttle_inv_fq_change_trim n fuel hs q1 q3 H1 Ht).
Qed.

Lemma throttle_inv_fq_init n fuel h hs opt g r q' :
  fq_init n fuel h hs opt (qdisc_alloc g) = Some (r, q') → throttle_inv q'.
Proof.
  unfold fq_init. cbv zeta.
  pose proof (throttle_inv_fq_init_defaults h g) as H0.
  destruct opt as [tb|].
  - by apply throttle_inv_fq_change.
  - intros Hr. apply (inj Some) in Hr.
    pose proof (throttle_inv_fq_resize h _
      (fq_trees_log (fq_init_defaults h (qdisc_alloc g))) H0) as H1.
    by rewrite Hr in H1.
Qed.

(** ** The least [time_next_packet] of the tree *)

Lemma throttle_min_lower_bound q r :
  r ∈ delayed q → throttle_min q <= flow_tnp q r.
Proof.
  unfold throttle_min. destruct (delayed q) as [|f l]; [by intros ?%elem_of_nil|].
  revert r. induction l as [|x l IH]; intros r.
  - intros ->%list_elem_of_singleton. simpl. lia.
  - simpl. intros [->|[->|Hr]%elem_of_cons]%elem_of_cons.
    + assert (f ∈ f :: l) as Hf%IH by (by left). lia.
    + lia.
    + assert (r ∈ f :: l) as Hf%IH by (by right). lia.
Qed.

Lemma throttle_min_attained q :
  delayed q ≠ [] → ∃ r, r ∈ delayed q ∧ throttle_min q = flow_tnp q r.
Proof.
  unfold throttle_min. destruct (delayed q) as [|f l]; [done|]. intros _.
  induction l as [|x l (r & Hr & IH)]; simpl.
  - exists f. split; [by left|done].
  - rewrite IH.
    destruct (Z.min_spec (flow_tnp q x) (flow_tnp q r)) as [[_ ->]|[_ ->]].
    + exists x. split; [|done]. right. by left.
    + exists r. split; [|done].
      apply elem_of_cons in Hr as [->|?]; [by left|]. right. by right.
Qed.

Lemma throttle_min_empty q : delayed q = [] → throttle_min q = U64_MAX.
Proof. unfold throttle_min. by intros ->. Qed.

(** [time_next_delayed_flow] is the least [time_next_packet] of the tree
    when it bounds the tree from below and is attained by a flow of it. *)
Lemma tndf_is_min_intro q :
  (delayed q = [] → time_next_delayed_flow q = U64_MAX) →
  tndf_lower_bound q →
  (delayed q ≠ [] →
   ∃ r, r ∈ delayed q ∧ time_next_delayed_flow q = flow_tnp q r) →
  tndf_is_min q.
Proof.
  intros He Hlb Hat. unfold tndf_is_min.
  destruct (decide (delayed q = [])) as [Hd|Hd].
  - rewrite throttle_min_empty by done. by apply He.
  - destruct (Hat Hd) as (r & Hr & Hm).
    destruct (throttle_min_attained q Hd) as (r' & Hr' & Hm').
    pose proof (throttle_min_lower_bound q r Hr).
    pose proof (Hlb r' Hr'). lia.
Qed.

Lemma tndf_is_min_lower_bound q : tndf_is_min q → tndf_lower_bound q.
Proof.
  intros Hm r Hr. rewrite Hm. by apply throttle_min_lower_bound.
Qed.

(** What [fq_flow_set_throttled] does to the tree and to
    [time_next_delayed_flow]. *)
Lemma fq_flow_set_throttled_spec q f :
  let q' := fq_flow_set_throttled q f in
  delayed q' = rb_insert (flow_tnp q) f (delayed q)
  ∧ (∀ r, flow_tnp q' r = flow_tnp q r)
  ∧ time_next_delayed_flow q'
    = Z.min (time_next_delayed_flow q) (flow_tnp q f).
Proof.
  cbv zeta. unfold fq_flow_set_throttled. cbv zeta.
  set (q3 := set_st _ (set_throttled_flows _
               (set_delayed (rb_insert (flow_tnp q) f (delayed q)) q))).
  set (q4 := upd_flow f (set_next_is_throttled true) q3).
  assert (Hd : delayed q4 = rb_insert (flow_tnp q) f (delayed q)).
  { unfold q4. by rewrite delayed_upd_flow. }
  assert (Ht : ∀ r, flow_tnp q4 r = flow_tnp q r).
  { intros r. unfold flow_tnp, q4.
    destruct (decide (r = f)) as [->|Hne].
    - rewrite get_upd_flow. simpl. by destruct f.
    - rewrite get_upd_flow_ne by done. by destruct r. }
  assert (Hn : time_next_delayed_flow q4 = time_next_delayed_flow q).
  { unfold q4. by rewrite tndf_upd_flow. }
  clearbody q4. clear q3.
  rewrite Ht, Hn.
  destruct (Z.gtb_spec (time_next_delayed_flow q) (flow_tnp q f)).
  - split; [done|]. split; [done|]. simpl. lia.
  - split; [done|]. split; [done|]. lia.
Qed.

(** Insertion keeps [time_next_delayed_flow] exact. *)
Lemma tndf_is_min_fq_flow_set_throttled q f :
  flow_tnp q f <= U64_MAX →
  tndf_is_min q → tndf_is_min (fq_flow_set_throttled q f).
Proof.
  intros Hu Hm.
  destruct (fq_flow_set_throttled_spec q f) as (Hd & Ht & Hn).
  set (q' := fq_flow_set_throttled q f) in *.
  assert (Hin : ∀ r, r ∈ delayed q' ↔ r = f ∨ r ∈ delayed q).
  { intros r. rewrite Hd, (rb_insert_perm (flow_tnp q) f (delayed q)).
    apply elem_of_cons. }
  pose proof (tndf_is_min_lower_bound q Hm) as Hlb.
  apply tndf_is_min_intro.
  - intros He. exfalso. assert (f ∈ delayed q') as Hf by (apply Hin; by left).
    rewrite He in Hf. by apply elem_of_nil in Hf.
  - intros r [->|Hr]%Hin; rewrite Hn, Ht; [lia|].
    specialize (Hlb r Hr). lia.
  - intros _. rewrite Hn.
    destruct (Z.min_spec (time_next_delayed_flow q) (flow_tnp q f))
      as [[Hlt ->]|[_ ->]].
    + destruct (decide (delayed q = [])) as [He|Hne].
      * rewrite Hm, throttle_min_empty in Hlt by done. lia.
      * destruct (throttle_min_attained q Hne) as (r & Hr & Hr').
        exists r. split; [apply Hin; by right|]. rewrite Ht, Hm. done.
    + exists f. split; [apply Hin; by left|]. by rewrite Ht.
Qed.

(** ** The fixtures satisfy the linkage *)

Lemma throttle_inv_enq h skb q :
  skb_aligned skb → throttle_inv q → throttle_inv (enq h skb q).
Proof. apply throttle_inv_fq_enqueue. Qed.

Lemma throttle_inv_deq fuel h q : throttle_inv q → throttle_inv (deq fuel h q).
Proof.
  intros Hinv. unfold deq.
  destruct (fq_dequeue fuel h q) as [[s q']|] eqn:Hd; [|done].
  by eapply throttle_inv_fq_dequeue.
Qed.

Lemma throttle_inv_sched0 : throttle_inv sched0.
Proof.
  apply (throttle_inv_fq_init 0 0 (host_at 0) (λ _, host_at 0) None
           (Globals 0 0 0 0 0 0) 0).
  vm_compute. reflexivity.
Qed.

Lemma throttle_inv_sched_throttled : throttle_inv sched_throttled.
Proof.
  apply throttle_inv_deq, throttle_inv_enq; [reflexivity|].
  apply throttle_inv_sched0.
Qed.

(** C7 (as amended).  In a scheduler whose lists, tree and flows are linked
    as [sched_wf] says, [time_next_delayed_flow] is not above the
    [time_next_packet] of any flow in the tree, and this is kept by the
    insertion of a flow taken off the front of a list, by the removal of a
    flow, by [fq_check_throttled], by classification, by an enqueue that
    returns, and by a dequeue that returns.  It is exactly the least
    [time_next_packet], all-ones for an empty tree, after an insertion into
    a tree for which it was, and after [fq_check_throttled] has inspected the
    tree.  Removal by [fq_flow_unset_throttled] does not recompute it. *)
Theorem C7_next_delayed_flow_bounds_tree (q : fq_sched_data) :
  throttle_inv q →
  (∀ hd f rest v, head_list hd q = f :: rest →
     throttle_inv
       (fq_flow_set_throttled
          (upd_flow f (set_time_next_packet v) (pop_head hd q)) f))
  ∧ (∀ f, flow_tnp q f <= U64_MAX → tndf_is_min q →
          tndf_is_min (fq_flow_set_throttled q f))
  ∧ (∀ f, f ∈ delayed q → throttle_inv (fq_flow_unset_throttled q f))
  ∧ (∀ now, throttle_inv (fq_check_throttled q now)
            ∧ (time_next_delayed_flow q <= now →
               tndf_is_min (fq_check_throttled q now)))
  ∧ (∀ h skb, throttle_inv (fq_classify h skb q).2)
  ∧ (∀ h skb, skb_aligned skb → (fq_enqueue h skb q).1 ≠ OOPS →
              throttle_inv (fq_enqueue h skb q).2)
  ∧ (∀ fuel h skb q', fq_dequeue fuel h q = Some (skb, q') → throttle_inv q').
Proof.
  intros Hinv. split; [|split; [|split; [|split; [|split; [|split]]]]].
  - intros hd f rest v Hh.
    destruct (throttle_inv_pop_head hd q f rest Hh Hinv)
      as (Hp & Hnf & Hdet & Hthr & k & -> & Hk).
    apply throttle_inv_fq_flow_set_throttled.
    + by rewrite queued_refs_upd_flow.
    + rewrite get_upd_flow.
      change (fq_flow_is_detached (get_flow (pop_head hd q) (Dyn k)) = false).
      by rewrite get_flow_pop_head.
    + exists k. split; [done|]. apply fq_root_upd_flow_mono.
      by rewrite fq_root_pop_head.
    + apply throttle_inv_upd_tnp; [|done].
      rewrite delayed_pop_head. intros Hin.
      apply (wf_throttled q (proj1 Hinv)) in Hin. congruence.
  - intros f. apply tndf_is_min_fq_flow_set_throttled.
  - intros f Hf. by apply throttle_inv_fq_flow_unset_throttled.
  - intros now. by apply throttle_inv_fq_check_throttled.
  - intros h skb. by apply throttle_inv_fq_classify_proj.
  - intros h skb Hal _. by apply throttle_inv_fq_enqueue.
  - intros fuel h skb q'. by apply throttle_inv_fq_dequeue.
Qed.

Lemma C7_next_delayed_flow_bounds_tree_witness :
  let h := host_at 0 in
  let q := enq h (pkt 400 0 33 sock_Y) sched_throttled in
  let skb := pkt 302 100 33 sock_X in
  throttle_inv q
  ∧ throttle_inv
      (fq_flow_set_throttled
         (upd_flow (Dyn 4000) (set_time_next_packet 50) (pop_head NEW_FLOWS q))
         (Dyn 4000))
  ∧ tndf_is_min (fq_flow_set_throttled q (Dyn 4000))
  ∧ throttle_inv (fq_flow_unset_throttled q (Dyn 3000))
  ∧ throttle_inv (fq_check_throttled q 100)
  ∧ tndf_is_min (fq_check_throttled q 100)
  ∧ throttle_inv (fq_classify h skb q).2
  ∧ throttle_inv (fq_enqueue h skb q).2
  ∧ throttle_inv (deq 10 h q).
Proof.
  intros h q skb.
  assert (Hinv : throttle_inv q).
  { apply throttle_inv_enq; [reflexivity | apply throttle_inv_sched_throttled]. }
  destruct (C7_next_delayed_flow_bounds_tree q Hinv)
    as (Hset & Hmin & Hunset & Hchk & Hcls & Henq & Hdeq).
  assert (Hh : head_list NEW_FLOWS q = [Dyn 4000]) by (vm_compute; reflexivity).
  assert (Ht : flow_tnp q (Dyn 4000) = 0) by (vm_compute; reflexivity).
  assert (Hm : tndf_is_min q) by (vm_compute; reflexivity).
  assert (Hd : delayed q = [Dyn 3000]) by (vm_compute; reflexivity).
  assert (Hn : time_next_delayed_flow q = 100) by (vm_compute; reflexivity).
  assert (Hx : (fq_enqueue h skb q).1 = NET_XMIT_SUCCESS)
    by (vm_compute; reflexivity).
  assert (Hq : fq_dequeue 10 h q
               = Some (Some (set_time_to_send 0 (pkt 400 0 33 sock_Y)),
                       deq 10 h q))
    by (vm_compute; reflexivity).
  split; [exact Hinv|].
  split; [exact (Hset NEW_FLOWS (Dyn 4000) [] 50 Hh)|].
  split; [apply Hmin; [rewrite Ht; vm_compute; discriminate | exact Hm]|].
  split; [apply Hunset; rewrite Hd; apply list_elem_of_here|].
  split; [apply Hchk|].
  split; [apply Hchk; rewrite Hn; lia|].
  split; [apply Hcls|].
  split; [apply Henq; [reflexivity | rewrite Hx; discriminate]|].
  exact (Hdeq 10%nat h _ _ Hq).
Defined.

(** C7, as stated, fails: [time_next_delayed_flow] is not always the least
    [time_next_packet] of the tree.  In [sched_throttled] the flow of
    [sock_X] is alone in the tree, until 100, and [time_next_delayed_flow]
    is 100.  A packet of [sock_X] then finds the hash of the flow changed,
    classification takes the flow out of the tree, and the tree is empty
    while [time_next_delayed_flow] is still 100, not all-ones. *)
Lemma C7_counterexample :
  let h := host_at 0 in
  let skb := pkt 302 100 33 sock_X in
  delayed sched_throttled = [Dyn 3000]
  ∧ time_next_delayed_flow sched_throttled = 100
  ∧ tndf_is_min sched_throttled
  ∧ (fq_enqueue h skb sched_throttled).1 = NET_XMIT_SUCCESS
  ∧ delayed (enq h skb sched_throttled) = []
  ∧ time_next_delayed_flow (enq h skb sched_throttled) = 100
  ∧ ¬ tndf_is_min (enq h skb sched_throttled).
Proof.
  vm_compute. repeat split; try reflexivity. discriminate.
Qed.

(** ** [ipow] *)

Lemma s32_mod x : s32 x mod 2 ^ 32 = x mod 2 ^ 32.
Proof.
  unfold s32, signed, wrap. change (32 - 1) with 31.
  destruct (x mod 2 ^ 32 <? 2 ^ 31).
  - by rewrite Z.mod_mod.
  - rewrite <- (Z.mul_1_l (2 ^ 32)) at 2.
    rewrite <- Zminus_mod_idemp_r, Z_mod_mult. rewrite Z.sub_0_r.
    by rewrite Z.mod_mod.
Qed.

Lemma s32_congr x y : x mod 2 ^ 32 = y mod 2 ^ 32 → s32 x = s32 y.
Proof. unfold s32, signed, wrap. by intros ->. Qed.

Lemma s32_mul_l x y : s32 (s32 x * y) = s32 (x * y).
Proof.
  apply s32_congr. rewrite Z.mul_mod by done. rewrite s32_mod.
  by rewrite <- Z.mul_mod by done.
Qed.

Lemma s32_pow x e : 0 <= e → s32 (s32 x ^ e) = s32 (x ^ e).
Proof.
  revert e. apply natlike_ind; [done|].
  intros e He IH. rewrite !Z.pow_succ_r by done.
  rewrite s32_mul_l. apply s32_congr.
  rewrite (Z.mul_mod x (s32 x ^ e)), (Z.mul_mod x (x ^ e)) by done.
  rewrite <- (s32_mod (s32 x ^ e)), IH. by rewrite s32_mod.
Qed.

Lemma ipow_loop_power fuel : ∀ result base exp,
  s32 result = result → 0 <= exp < 2 ^ Z.of_nat fuel → (0 < fuel)%nat →
  ipow_loop fuel result base exp = Some (s32 (result * base ^ exp)).
Proof.
  induction fuel as [|fuel IH]; intros result base exp Hr He Hf; [lia|].
  simpl ipow_loop.
  assert (Hdiv : exp = 2 * (exp / 2) + exp mod 2) by (apply Z.div_mod; lia).
  assert (Hb : 0 <= exp mod 2 < 2) by (apply Z.mod_pos_bound; lia).
  rewrite Z.shiftr_div_pow2 by lia. change (2 ^ 1) with 2.
  assert (Hland : Z.land exp 1 = exp mod 2).
  { change 1 with (Z.ones 1). by rewrite Z.land_ones by lia. }
  rewrite Hland.
  set (e := exp / 2) in *. set (b := exp mod 2) in *.
  assert (He0 : 0 <= e) by (apply Z.div_pos; lia).
  assert (Hres1 : s32 ((if negb (b =? 0) then s32 (result * base) else result))
                  = (if negb (b =? 0) then s32 (result * base) else result)
                  ∧ s32 (if negb (b =? 0) then s32 (result * base) else result)
                    = s32 (result * base ^ b)).
  { destruct (Z.eqb_spec b 0) as [->|Hne]; simpl.
    - rewrite Z.pow_0_r, Z.mul_1_r. by rewrite Hr.
    - assert (b = 1) as -> by lia. rewrite Z.pow_1_r.
      split; apply s32_congr; by rewrite s32_mod. }
  destruct Hres1 as [Hn1 Hv1].
  set (r1 := if negb (b =? 0) then s32 (result * base) else result) in *.
  destruct (Z.eqb_spec e 0) as [E|E].
  - rewrite Hdiv, E, Z.mul_0_r, Z.add_0_l. rewrite <- Hv1. by rewrite Hn1.
  - rewrite IH.
    + f_equal.
      rewrite <- (s32_mul_l r1), Hv1, s32_mul_l.
      apply s32_congr.
      rewrite (Z.mul_mod (result * base ^ b)) by done.
      assert (Hp : s32 (base * base) ^ e mod 2 ^ 32
                   = (base * base) ^ e mod 2 ^ 32).
      { rewrite <- (s32_mod (s32 (base * base) ^ e)), s32_pow by done.
        apply s32_mod. }
      rewrite Hp, <- Z.mul_mod by done. f_equal.
      replace (base ^ exp) with (base ^ (2 * e + b)) by (by rewrite <- Hdiv).
      rewrite Z.pow_add_r, Z.pow_mul_r by lia.
      rewrite Z.pow_2_r. lia.
    + done.
    + split; [done|].
      destruct fuel as [|fuel]; [simpl in He; lia|].
      rewrite Nat2Z.inj_succ, Z.pow_succ_r in He by lia. lia.
    + destruct fuel; [simpl in He; lia | lia].
Qed.

(** X12.  For an exponent that is not negative, [ipow] leaves its loop
    within 31 rounds and returns the power, wrapped to [int]. *)
Theorem ipow_power (fuel : nat) (base exp : Z) :
  0 <= exp < 2 ^ 31 → (31 <= fuel)%nat →
  ipow fuel base exp = Some (s32 (base ^ exp)).
Proof.
  intros He Hf. unfold ipow.
  rewrite ipow_loop_power; [by rewrite Z.mul_1_l|done| |lia].
  split; [lia|]. apply Z.lt_le_trans with (2 ^ 31); [lia|].
  apply Z.pow_le_mono_r; lia.
Qed.

Lemma ipow_power_witness :
  ipow 31 3 5 = Some 243 ∧ ipow 31 2 31 = Some (- 2 ^ 31).
Proof.
  split.
  - rewrite (ipow_power 31 3 5); [reflexivity | lia | lia].
  - rewrite (ipow_power 31 2 31); [reflexivity | lia | lia].
Defined.

Lemma ipow_loop_negative fuel : ∀ result base exp,
  exp < 0 → ipow_loop fuel result base exp = None.
Proof.
  induction fuel as [|fuel IH]; intros result base exp He; [done|].
  simpl ipow_loop.
  assert (Hs : Z.shiftr exp 1 < 0) by (by apply Z.shiftr_neg).
  destruct (Z.eqb_spec (Z.shiftr exp 1) 0) as [E|_]; [lia|].
  by apply IH.
Qed.

(** X13.  For a negative exponent [ipow] never leaves its loop: the
    arithmetic shift keeps the exponent negative. *)
Theorem ipow_negative_spins (fuel : nat) (base exp : Z) :
  exp < 0 → ipow fuel base exp = None.
Proof. apply ipow_loop_negative. Qed.

Lemma ipow_negative_spins_witness : ipow 1000 2 (-1) = None.
Proof. apply ipow_negative_spins. lia. Defined.

(** ** The linkage holds in every state a run reaches *)

Lemma throttle_inv_fq_op_step op q q' :
  op_aligned op → throttle_inv q → fq_op_step op q = Some q' → throttle_inv q'.
Proof.
  intros Ha Hinv. destruct op as [h skb|fuel h| |n fuel h hs opt]; simpl.
  - pose proof (throttle_inv_fq_enqueue h skb q Ha Hinv) as H.
    destruct (fq_enqueue h skb q) as [[|why|] q1]; simpl in H; [| |done];
      by intros [= <-].
  - destruct (fq_dequeue fuel h q) as [[s q1]|] eqn:Hd; [|done].
    intros [= <-]. by eapply throttle_inv_fq_dequeue.
  - intros [= <-]. by apply throttle_inv_fq_reset.
  - destruct (fq_change n fuel h hs opt q) as [[r q1]|] eqn:Hc; [|done].
    intros [= <-]. by eapply throttle_inv_fq_change.
Qed.

Lemma throttle_inv_fq_run ops : ∀ q q',
  Forall op_aligned ops → throttle_inv q → fq_run ops q = Some q' →
  throttle_inv q'.
Proof.
  induction ops as [|op ops IH]; intros q q' Ha Hinv; simpl.
  - by intros [= <-].
  - apply Forall_cons in Ha as [Ha1 Ha].
    destruct (fq_op_step op q) as [q1|] eqn:Hs; [|done].
    apply IH; [done|]. by eapply throttle_inv_fq_op_step.
Qed.

(** X1.  In every state reached from [fq_init] by enqueues of packets
    at even addresses, dequeues, resets and changes of the configuration,
    the lists, the tree of throttled flows and the flow table are linked
    as [sched_wf] says: a flow is on at most one list or in the tree, and
    then it is allocated and not detached; the flows in the tree are
    exactly those marked throttled, in [time_next_packet] order; and
    [time_next_delayed_flow] is not above the [time_next_packet] of any of
    them. *)
Theorem linkage_reachable
    (n fuel : nat) (h : host) (hs : nat → host) (opt : option nlattr)
    (g : coflow_globals) (r : Z) (q0 q : fq_sched_data) (ops : list fq_op) :
  fq_init n fuel h hs opt (qdisc_alloc g) = Some (r, q0) →
  Forall op_aligned ops →
  fq_run ops q0 = Some q →
  sched_wf q ∧ tndf_lower_bound q.
Proof.
  intros Hi Ha Hr. eapply throttle_inv_fq_run; [done| |done].
  by eapply throttle_inv_fq_init.
Qed.

Lemma linkage_reachable_witness :
  let h := host_at 0 in
  let ops := [OpEnqueue h (pkt 300 100 33 sock_X); OpDequeue 10 h;
              OpEnqueue h (pkt 400 0 33 sock_Y); OpDequeue 10 h; OpReset;
              OpEnqueue h (pkt 402 0 33 sock_Y)] in
  ∃ q, fq_run ops sched0 = Some q ∧ sched_wf q ∧ tndf_lower_bound q.
Proof.
  intros h ops.
  assert (Hi : fq_init 0 0 h (λ _, h) None (qdisc_alloc (Globals 0 0 0 0 0 0))
               = Some (0, sched0)) by (vm_compute; reflexivity).
  assert (Ha : Forall op_aligned ops).
  { repeat (apply Forall_cons; split; [exact I || reflexivity|]).
    apply Forall_nil_2. }
  destruct (fq_run ops sched0) as [q|] eqn:Hr.
  - exists q. split; [done|].
    exact (linkage_reachable 0 0 h (λ _, h) None _ 0 sched0 q ops Hi Ha Hr).
  - exfalso. vm_compute in Hr. discriminate.
Defined.

(** ** Garbage collection *)

Lemma fq_gc_scan_length h tab key path : ∀ tofree,
  Z.of_nat (length tofree) < FQ_GC_MAX →
  Z.of_nat (length (fq_gc_scan h tab key path tofree)) <= FQ_GC_MAX.
Proof.
  induction path as [|x path IH]; intros tofree Hl; simpl; [lia|].
  destruct (tab !! x) as [f|]; [|by apply IH].
  destruct (x =? key); [lia|].
  destruct (fq_gc_candidate h f); [|by apply IH].
  destruct (Z.eqb_spec (Z.of_nat (length (tofree ++ [x]))) FQ_GC_MAX) as [E|E];
    [lia|].
  apply IH. rewrite length_app in *. simpl in *. lia.
Qed.

(** X2.  A round of garbage collection frees at most [FQ_GC_MAX] flows,
    each of them detached for more than [FQ_GC_AGE] jiffies, and never the
    flow of the socket being looked up; every other flow stays in the
    table as it is.  When it frees flows, [flows] and [inactive_flows] go
    down and [stat_gc_flows] goes up by their number; the lists, the tree
    of throttled flows and the internal flow are not touched. *)
Theorem fq_gc_frees_idle_flows (h : host) (q : fq_sched_data) (key : Z) :
  let q' := fq_gc h q key in
  ∃ tofree : list Z,
    Z.of_nat (length tofree) <= FQ_GC_MAX
    ∧ (key ∉ tofree)
    ∧ (∀ k, k ∈ tofree →
         ∃ f, fq_root q !! k = Some f
              ∧ fq_flow_is_detached f = true
              ∧ time_after (jiffies h) (u64 (age f + FQ_GC_AGE h)) = true)
    ∧ (∀ k, fq_root q' !! k
            = if decide (k ∈ tofree) then None else fq_root q !! k)
    ∧ (tofree = [] → q' = q)
    ∧ (tofree ≠ [] →
         flows q' = u32 (flows q - Z.of_nat (length tofree))
         ∧ inactive_flows q'
           = u32 (inactive_flows q - Z.of_nat (length tofree))
         ∧ stat_gc_flows (st q')
           = u64 (stat_gc_flows (st q) + Z.of_nat (length tofree)))
    ∧ rr_refs q' = rr_refs q ∧ delayed q' = delayed q
    ∧ internal q' = internal q.
Proof.
  intros q'. subst q'.
  exists (fq_gc_scan h (fq_root q) key (rb_path h) []).
  set (tofree := fq_gc_scan h (fq_root q) key (rb_path h) []).
  assert (Hcand : ∀ k, k ∈ tofree →
    ∃ f, fq_root q !! k = Some f ∧ fq_flow_is_detached f = true
         ∧ time_after (jiffies h) (u64 (age f + FQ_GC_AGE h)) = true).
  { intros k Hk. apply fq_gc_scan_candidates in Hk as [Hk|(f & Hf & Hc)];
      [by apply elem_of_nil in Hk|].
    exists f. split; [done|]. by apply andb_true_iff in Hc. }
  split; [apply fq_gc_scan_length; simpl; unfold FQ_GC_MAX; lia|].
  split; [apply fq_gc_scan_not_key, not_elem_of_nil|].
  split; [exact Hcand|].
  unfold fq_gc. fold tofree. cbv zeta.
  destruct (Z.eqb_spec (Z.of_nat (length tofree)) 0) as [E|E].
  - assert (tofree = []) as Hnil by (destruct tofree; [done | simpl in E; lia]).
    rewrite Hnil. split; [|done].
    intros k. by rewrite decide_False by apply not_elem_of_nil.
  - split; [|split; [|done]].
    + intros k. simpl. destruct (decide (k ∈ tofree)).
      * by apply lookup_foldr_delete_in.
      * by apply lookup_foldr_delete.
    + intros ->. simpl in E. lia.
Qed.

Lemma fq_gc_keeps h q key k f :
  fq_root q !! k = Some f → fq_gc_candidate h f = false →
  fq_root (fq_gc h q key) !! k = Some f.
Proof.
  intros Hf Hc. unfold fq_gc. cbv zeta. case_match; [done|]. simpl.
  rewrite lookup_foldr_delete; [done|].
  intros [Hk|(f' & Hf' & Hc')]%fq_gc_scan_candidates;
    [by apply elem_of_nil in Hk|].
  congruence.
Qed.

Lemma fq_rehash_lookup h q k :
  fq_root (fq_rehash h q) !! k
  = match fq_root q !! k with
    | Some f => if fq_gc_candidate h f then None else Some f
    | None => None
    end.
Proof.
  unfold fq_rehash. cbv zeta. simpl.
  destruct (fq_root q !! k) as [f|] eqn:Hf.
  - destruct (fq_gc_candidate h f) eqn:Hc.
    + apply map_lookup_filter_None. right. intros f' Hf'. simpl.
      rewrite Hf in Hf'. injection Hf' as <-. by rewrite Hc.
    + by apply map_lookup_filter_Some.
  - apply map_lookup_filter_None. by left.
Qed.

Lemma fq_resize_keeps h q log k f :
  fq_root q !! k = Some f → fq_gc_candidate h f = false →
  fq_root (fq_resize h q log).2 !! k = Some f.
Proof.
  intros Hf Hc. unfold fq_resize.
  destruct (negb _ && _); [done|].
  destruct (negb (kvmalloc_ok h)); [done|]. simpl.
  destruct (fq_root_null q); [done|].
  by rewrite fq_rehash_lookup, Hf, Hc.
Qed.

(** X3.  Neither garbage collection nor a resize of the table frees a
    flow that is on a round-robin list or in the tree of throttled
    flows. *)
Theorem queued_flows_survive_gc (h : host) (q : fq_sched_data) (key log k : Z) :
  sched_wf q →
  Dyn k ∈ queued_refs q →
  is_Some (fq_root q !! k)
  ∧ fq_root (fq_gc h q key) !! k = fq_root q !! k
  ∧ fq_root (fq_resize h q log).2 !! k = fq_root q !! k.
Proof.
  intros Hwf Hk.
  pose proof (wf_attached q Hwf _ Hk) as Hatt.
  destruct (wf_live q Hwf _ Hk) as (k' & [= <-] & [f Hf]).
  simpl in Hatt. rewrite Hf in Hatt. simpl in Hatt.
  assert (Hc : fq_gc_candidate h f = false).
  { unfold fq_gc_candidate. by rewrite Hatt. }
  rewrite Hf. split; [done|]. split.
  - by apply fq_gc_keeps.
  - by apply fq_resize_keeps.
Qed.

Lemma queued_flows_survive_gc_witness :
  let h := Host 0 5000 true true 1500 [3000] 1000 in
  is_Some (fq_root sched_throttled !! 3000)
  ∧ fq_root (fq_gc h sched_throttled 1) !! 3000 = fq_root sched_throttled !! 3000
  ∧ fq_root (fq_resize h sched_throttled 12).2 !! 3000
    = fq_root sched_throttled !! 3000.
Proof.
  intros h.
  apply (queued_flows_survive_gc h sched_throttled 1 12 3000).
  - apply throttle_inv_sched_throttled.
  - vm_compute. apply list_elem_of_here.
Defined.

(** ** What the data path leaves alone, and what it counts *)

Lemma sch_qlen_upd_flow r g q : sch_qlen (upd_flow r g q) = sch_qlen q.
Proof. by destruct r. Qed.
Lemma sch_qlen_set_head_list hd v q : sch_qlen (set_head_list hd v q) = sch_qlen q.
Proof. by destruct hd. Qed.
Lemma sch_qlen_pop_head hd q : sch_qlen (pop_head hd q) = sch_qlen q.
Proof. apply sch_qlen_set_head_list. Qed.
Lemma sch_qlen_fq_flow_add_tail hd f q :
  sch_qlen (fq_flow_add_tail hd f q) = sch_qlen q.
Proof.
  unfold fq_flow_add_tail. by rewrite sch_qlen_set_head_list, sch_qlen_upd_flow.
Qed.
Lemma sch_qlen_fq_flow_unset_throttled q f :
  sch_qlen (fq_flow_unset_throttled q f) = sch_qlen q.
Proof. unfold fq_flow_unset_throttled. by rewrite sch_qlen_fq_flow_add_tail. Qed.
Lemma sch_qlen_fq_flow_set_throttled q f :
  sch_qlen (fq_flow_set_throttled q f) = sch_qlen q.
Proof.
  unfold fq_flow_set_throttled. cbv zeta.
  match goal with
  | |- sch_qlen (if _ then set_time_next_delayed_flow _ ?q4 else ?q4) = _ =>
      assert (sch_qlen q4 = sch_qlen q) as <- by (by rewrite sch_qlen_upd_flow)
  end.
  by case_match.
Qed.
Lemma sch_qlen_fq_dequeue_skb q f skb :
  sch_qlen (fq_dequeue_skb q f skb) = u32 (sch_qlen q - 1).
Proof. unfold fq_dequeue_skb. simpl. by rewrite sch_qlen_upd_flow. Qed.
Lemma sch_qlen_fq_dequeue_pace now q f skb :
  sch_qlen (fq_dequeue_pace now q f skb) = sch_qlen q.
Proof.
  unfold fq_dequeue_pace. cbv zeta.
  repeat case_match; simplify_eq; simpl;
    rewrite ?sch_qlen_upd_flow; simpl; rewrite ?sch_qlen_upd_flow; done.
Qed.
Lemma sch_qlen_fq_check_throttled_loop n now : ∀ q,
  sch_qlen (fq_check_throttled_loop n now q) = sch_qlen q.
Proof.
  induction n as [|n IH]; intros q; simpl; [done|].
  destruct (delayed q) as [|f l]; [done|].
  case_match; [done|]. by rewrite IH, sch_qlen_fq_flow_unset_throttled.
Qed.
Lemma sch_qlen_fq_check_throttled q now :
  sch_qlen (fq_check_throttled q now) = sch_qlen q.
Proof.
  unfold fq_check_throttled. case_match; [done|]. cbv zeta.
  by rewrite sch_qlen_fq_check_throttled_loop.
Qed.

Lemma sch_qlen_fq_dequeue_pass h now q :
  sch_qlen (pass_state (fq_dequeue_pass h now q))
  = match fq_dequeue_pass h now q with
    | Done (Some _) _ => u32 (sch_qlen q - 1)
    | _ => sch_qlen q
    end.
Proof.
  unfold fq_dequeue_pass.
  destruct (fq_select_head q) as [hd|]; [|by case_match].
  destruct (head_list hd q) as [|f rest]; [done|].
  destruct (_ && _).
  { cbv zeta. cbn [pass_state].
    change (sch_qlen (Promotecoflows hd f q) = sch_qlen q).
    unfold Promotecoflows.
    by rewrite sch_qlen_fq_flow_add_tail, sch_qlen_pop_head. }
  destruct (_ && _); [done|].
  destruct (_ && _); [done|].
  match goal with |- context [credit (get_flow ?q1 f) <=? 0] => set (q1' := q1) end.
  assert (Hq1 : sch_qlen q1' = sch_qlen q) by (unfold q1'; by case_match).
  clearbody q1'. rewrite <- Hq1. clear Hq1.
  destruct (credit (get_flow q1' f) <=? 0).
  { cbn [pass_state].
    by rewrite sch_qlen_fq_flow_add_tail, sch_qlen_pop_head, sch_qlen_upd_flow. }
  destruct (fq_peek (get_flow q1' f)) as [skb|]; cbv zeta.
  - destruct (now <? _); cbn [pass_state].
    + by rewrite sch_qlen_fq_flow_set_throttled, sch_qlen_upd_flow,
        sch_qlen_pop_head.
    + rewrite sch_qlen_fq_dequeue_pace, sch_qlen_fq_dequeue_skb. by case_match.
  - case_match; cbn [pass_state].
    + by rewrite sch_qlen_fq_flow_add_tail, sch_qlen_pop_head.
    + match goal with
      | |- sch_qlen (set_inactive_flows _ ?q3) = _ =>
          change (sch_qlen q3 = sch_qlen q1')
      end.
      by rewrite sch_qlen_upd_flow, sch_qlen_pop_head.
Qed.

Lemma sch_qlen_fq_dequeue_loop fuel : ∀ h now q r q',
  fq_dequeue_loop fuel h now q = Some (r, q') →
  sch_qlen q' = match r with
                | Some _ => u32 (sch_qlen q - 1)
                | None => sch_qlen q
                end.
Proof.
  induction fuel as [|fuel IH]; intros h now q r q'; simpl; [done|].
  pose proof (sch_qlen_fq_dequeue_pass h now q) as Hp.
  destruct (fq_dequeue_pass h now q) as [r1 q1|q1]; simpl in Hp.
  - intros [= <- <-]. by destruct r1.
  - intros Hl. rewrite <- Hp. by eapply IH.
Qed.

(** X6.  A call of [fq_dequeue] that returns a packet takes one off the
    count of queued packets (as a 32-bit value), and a call that returns
    none leaves the count as it is. *)
Theorem dequeue_counts_one_packet
    (fuel : nat) (h : host) (q q' : fq_sched_data) (r : option sk_buff) :
  fq_dequeue fuel h q = Some (r, q') →
  sch_qlen q' = match r with
                | Some _ => u32 (sch_qlen q - 1)
                | None => sch_qlen q
                end.
Proof.
  unfold fq_dequeue. case_match; [by intros [= <- <-]|].
  destruct (fq_peek (internal q)) as [skb|].
  - intros [= <- <-]. apply sch_qlen_fq_dequeue_skb.
  - intros Hl. apply sch_qlen_fq_dequeue_loop in Hl. rewrite Hl.
    by rewrite sch_qlen_fq_check_throttled.
Qed.

Lemma dequeue_counts_one_packet_witness :
  let h := host_at 0 in
  let q := enq h (pkt 400 0 33 sock_Y) sched_throttled in
  sch_qlen q = 2 ∧ sch_qlen (deq 10 h q) = 1.
Proof.
  intros h q.
  assert (Hq : fq_dequeue 10 h q
               = Some (Some (set_time_to_send 0 (pkt 400 0 33 sock_Y)),
                       deq 10 h q))
    by (vm_compute; reflexivity).
  split; [vm_compute; reflexivity|].
  rewrite (dequeue_counts_one_packet 10 h q _ _ Hq). vm_compute. reflexivity.
Defined.

Lemma static_fq_gc h q key :
  fq_conf (fq_gc h q key) = fq_conf q ∧ sch_qlen (fq_gc h q key) = sch_qlen q.
Proof. unfold fq_gc. cbv zeta. by case_match. Qed.

Lemma static_fq_classify h skb q :
  fq_conf (fq_classify h skb q).2 = fq_conf q
  ∧ sch_qlen (fq_classify h skb q).2 = sch_qlen q.
Proof.
  unfold fq_classify. case_match; [done|].
  destruct (fq_classify_key skb q) as [key skb1].
  match goal with
  | |- context [if ?c then fq_gc h q key else q] =>
      set (q1 := if c then fq_gc h q key else q)
  end.
  assert (H1 : fq_conf q1 = fq_conf q ∧ sch_qlen q1 = sch_qlen q).
  { unfold q1. case_match; [apply static_fq_gc | done]. }
  clearbody q1. destruct H1 as [<- <-].
  destruct (fq_root q1 !! key) as [f0|].
  - destruct (keyed_sock skb1 key) as [s|]; [|done].
    destruct (negb _); [|done]. cbv zeta. cbn [fst snd].
    rewrite fq_conf_upd_flow, sch_qlen_upd_flow.
    destruct (fq_flow_is_throttled _).
    + by rewrite fq_conf_fq_flow_unset_throttled,
        sch_qlen_fq_flow_unset_throttled, fq_conf_upd_flow, sch_qlen_upd_flow.
    + by rewrite fq_conf_upd_flow, sch_qlen_upd_flow.
  - by destruct (negb _).
Qed.

Lemma static_fq_enqueue_horizon h skb q :
  fq_conf (fq_enqueue_horizon h skb q).2 = fq_conf q
  ∧ sch_qlen (fq_enqueue_horizon h skb q).2 = sch_qlen q.
Proof. unfold fq_enqueue_horizon. by repeat case_match. Qed.

Lemma static_fq_enqueue_detached h skb f q q' :
  fq_enqueue_detached h skb f q = Some q' →
  fq_conf q' = fq_conf q ∧ sch_qlen q' = sch_qlen q.
Proof.
  unfold fq_enqueue_detached. cbv zeta.
  destruct (sk skb) as [s|]; [|done]. intros Hq. apply (inj Some) in Hq.
  subst q'.
  match goal with
  | |- fq_conf (set_inactive_flows _ ?q3) = _ ∧ _ =>
      change (fq_conf q3 = fq_conf q ∧ sch_qlen q3 = sch_qlen q)
  end.
  destruct (time_after _ _).
  - rewrite fq_conf_upd_flow, sch_qlen_upd_flow.
    change (fq_conf (fq_flow_add_tail NEW_FLOWS f q) = fq_conf q
            ∧ sch_qlen (fq_flow_add_tail NEW_FLOWS f q) = sch_qlen q).
    by rewrite fq_conf_fq_flow_add_tail, sch_qlen_fq_flow_add_tail.
  - change (fq_conf (fq_flow_add_tail NEW_FLOWS f q) = fq_conf q
            ∧ sch_qlen (fq_flow_add_tail NEW_FLOWS f q) = sch_qlen q).
    by rewrite fq_conf_fq_flow_add_tail, sch_qlen_fq_flow_add_tail.
Qed.

Lemma static_fq_enqueue_tail skb f q :
  fq_conf (fq_enqueue_tail skb f q) = fq_conf q
  ∧ sch_qlen (fq_enqueue_tail skb f q) = u32 (sch_qlen q + 1).
Proof.
  unfold fq_enqueue_tail, upd_flow. destruct f; repeat case_match; done.
Qed.

(** The outcome of [fq_enqueue] and the count of queued packets. *)
Lemma static_fq_enqueue h skb q :
  fq_conf (fq_enqueue h skb q).2 = fq_conf q
  ∧ sch_qlen (fq_enqueue h skb q).2
    = match (fq_enqueue h skb q).1 with
      | NET_XMIT_SUCCESS => u32 (sch_qlen q + 1)
      | _ => sch_qlen q
      end.
Proof.
  unfold fq_enqueue.
  destruct (sch_qlen q >=? limit (cfg q)); [done|].
  pose proof (static_fq_enqueue_horizon h skb q) as H1.
  destruct (fq_enqueue_horizon h skb q) as [[skb1|] q1]; [|done].
  cbn [snd] in H1. destruct H1 as [<- <-].
  pose proof (static_fq_classify h skb1 q1) as H2.
  destruct (fq_classify h skb1 q1) as [[f skb2] q2].
  cbn [snd] in H2. destruct H2 as [<- <-].
  destruct (_ && negb (is_internal f)); [done|].
  cbv zeta.
  set (q3 := upd_flow f (λ fl, set_qlen (s32 (qlen fl + 1)) fl) q2).
  assert (H3 : fq_conf q3 = fq_conf q2 ∧ sch_qlen q3 = sch_qlen q2).
  { unfold q3. by rewrite fq_conf_upd_flow, sch_qlen_upd_flow. }
  clearbody q3. destruct H3 as [<- <-].
  destruct (fq_flow_is_detached (get_flow q3 f)).
  - destruct (fq_enqueue_detached h skb2 f q3) as [q5|] eqn:H5; [|done].
    apply static_fq_enqueue_detached in H5 as [<- <-].
    apply static_fq_enqueue_tail.
  - apply static_fq_enqueue_tail.
Qed.

Lemma fq_conf_fq_reset q : fq_conf (fq_reset q) = fq_conf q.
Proof. unfold fq_reset. cbv zeta. by case_match. Qed.

Lemma fq_conf_deq fuel h q : fq_conf (deq fuel h q) = fq_conf q.
Proof.
  unfold deq. destruct (fq_dequeue fuel h q) as [[r q']|] eqn:Hd; [|done].
  by eapply fq_conf_fq_dequeue.
Qed.

(** X5.  Enqueue, dequeue and reset never change the configured knobs,
    the size of the flow table, or whether the table is allocated. *)
Theorem data_path_keeps_configuration
    (h : host) (skb : sk_buff) (fuel : nat) (q : fq_sched_data) :
  fq_conf (fq_enqueue h skb q).2 = fq_conf q
  ∧ fq_conf (deq fuel h q) = fq_conf q
  ∧ fq_conf (fq_reset q) = fq_conf q.
Proof.
  split; [apply static_fq_enqueue|].
  split; [apply fq_conf_deq | apply fq_conf_fq_reset].
Qed.

(** X7.  [fq_enqueue] adds one to the count of queued packets (as a
    32-bit value) exactly when it returns [NET_XMIT_SUCCESS]; a dropped
    packet leaves the count as it is, and a drop at the global limit leaves
    the whole scheduler as it is. *)
Theorem enqueue_counts_one_packet (h : host) (skb : sk_buff) (q : fq_sched_data) :
  sch_qlen (fq_enqueue h skb q).2
  = (match (fq_enqueue h skb q).1 with
     | NET_XMIT_SUCCESS => u32 (sch_qlen q + 1)
     | _ => sch_qlen q
     end)
  ∧ ((fq_enqueue h skb q).1 = NET_XMIT_DROP TailLimit ↔
     limit (cfg q) <= sch_qlen q)
  ∧ (limit (cfg q) <= sch_qlen q → (fq_enqueue h skb q).2 = q).
Proof.
  split; [apply static_fq_enqueue|].
  unfold fq_enqueue.
  destruct (Z.geb_spec (sch_qlen q) (limit (cfg q))) as [Hge|Hlt].
  - split; [|done]. split; [lia | done].
  - split; [|lia]. split; [|lia].
    destruct (fq_enqueue_horizon h skb q) as [[skb1|] q1]; [|done].
    destruct (fq_classify h skb1 q1) as [[f skb2] q2].
    destruct (_ && negb (is_internal f)); [done|]. cbv zeta.
    destruct (if fq_flow_is_detached _ then _ else _); done.
Qed.

(** ** Packets of the control priority, packets without a socket *)

Lemma fq_enqueue_horizon_stat h skb q :
  stat_internal_packets (st (fq_enqueue_horizon h skb q).2)
  = stat_internal_packets (st q)
  ∧ fq_root (fq_enqueue_horizon h skb q).2 = fq_root q
  ∧ internal (fq_enqueue_horizon h skb q).2 = internal q
  ∧ rr_refs (fq_enqueue_horizon h skb q).2 = rr_refs q
  ∧ delayed (fq_enqueue_horizon h skb q).2 = delayed q
  ∧ cfg (fq_enqueue_horizon h skb q).2 = cfg q.
Proof. unfold fq_enqueue_horizon. by repeat case_match. Qed.

Lemma fq_enqueue_horizon_skb h skb q skb1 :
  (fq_enqueue_horizon h skb q).1 = Some skb1 →
  skb_addr skb1 = skb_addr skb ∧ priority skb1 = priority skb
  ∧ sk skb1 = sk skb.
Proof. unfold fq_enqueue_horizon. repeat case_match; intros [= <-]; done. Qed.

Lemma fq_enqueue_tail_internal skb q :
  let q' := fq_enqueue_tail skb Internal q in
  fq_root q' = fq_root q ∧ rr_refs q' = rr_refs q ∧ delayed q' = delayed q
  ∧ stat_internal_packets (st q') = u64 (stat_internal_packets (st q) + 1)
  ∧ qlen (internal q') = qlen (internal q)
  ∧ skb ∈ flow_packets (internal q').
Proof.
  cbv zeta.
  pose proof (fq_enqueue_tail_flow skb Internal q) as Hf.
  change (get_flow (fq_enqueue_tail skb Internal q) Internal)
    with (internal (fq_enqueue_tail skb Internal q)) in Hf.
  rewrite Hf.
  split; [unfold fq_enqueue_tail; by repeat case_match|].
  split; [unfold fq_enqueue_tail; by repeat case_match|].
  split; [unfold fq_enqueue_tail; by repeat case_match|].
  split; [unfold fq_enqueue_tail; by repeat case_match|].
  split.
  - unfold flow_queue_add. by repeat case_match.
  - apply flow_queue_add_packets. by left.
Qed.

(** X8.  A packet of the control priority that passes the global limit
    is queued on the internal flow, whatever the per-flow limit and
    whatever its socket; it is dropped only beyond the horizon.  The flow
    table, the lists and the tree of throttled flows are not touched. *)
Theorem control_packets_join_internal_flow
    (h : host) (skb : sk_buff) (q : fq_sched_data) :
  Z.land (priority skb) TC_PRIO_MAX = TC_PRIO_CONTROL →
  sch_qlen q < limit (cfg q) →
  fq_flow_is_detached (internal q) = false →
  let r := (fq_enqueue h skb q).1 in
  let q' := (fq_enqueue h skb q).2 in
  (r = NET_XMIT_SUCCESS ∨ r = NET_XMIT_DROP Horizon)
  ∧ fq_root q' = fq_root q ∧ rr_refs q' = rr_refs q ∧ delayed q' = delayed q
  ∧ (r = NET_XMIT_SUCCESS →
     stat_internal_packets (st q') = u64 (stat_internal_packets (st q) + 1)
     ∧ qlen (internal q') = s32 (qlen (internal q) + 1)
     ∧ ∃ skb', skb' ∈ flow_packets (internal q')
               ∧ skb_addr skb' = skb_addr skb).
Proof.
  intros Hp Hl Hd. cbv zeta. unfold fq_enqueue.
  destruct (Z.geb_spec (sch_qlen q) (limit (cfg q))) as [?|_]; [lia|].
  pose proof (fq_enqueue_horizon_stat h skb q) as (Hs1 & Hr1 & Hi1 & Hl1 & Hd1 & _).
  pose proof (fq_enqueue_horizon_skb h skb q) as Hk1.
  destruct (fq_enqueue_horizon h skb q) as [[skb1|] q1]; cbn [fst snd] in *.
  2:{ split; [by right|]. done. }
  destruct (Hk1 skb1 eq_refl) as (Ha & Hpr & _).
  unfold fq_classify. rewrite Hpr, Hp. simpl (TC_PRIO_CONTROL =? TC_PRIO_CONTROL).
  cbv iota. rewrite andb_false_r. cbv zeta.
  set (q3 := upd_flow Internal (λ fl, set_qlen (s32 (qlen fl + 1)) fl) q1).
  assert (Hd3 : fq_flow_is_detached (get_flow q3 Internal) = false).
  { unfold q3. rewrite get_upd_flow. simpl. by rewrite Hi1. }
  rewrite Hd3. cbn [fst snd].
  destruct (fq_enqueue_tail_internal skb1 q3) as (Er & El & Ed & Es & Eq & Ein).
  rewrite Er, El, Ed, Es, Eq.
  split; [by left|]. split; [by rewrite <- Hr1|].
  split; [by rewrite <- Hl1|]. split; [by rewrite <- Hd1|].
  intros _. split; [by rewrite <- Hs1|]. split; [simpl; by rewrite Hi1|].
  by exists skb1.
Qed.

Lemma control_packets_join_internal_flow_witness :
  let h := host_at 0 in
  let skb := Skb 600 0 TC_PRIO_CONTROL None 99 1500 0 in
  (fq_enqueue h skb sched0).1 = NET_XMIT_SUCCESS
  ∧ stat_internal_packets (st (fq_enqueue h skb sched0).2) = 1
  ∧ fq_root (fq_enqueue h skb sched0).2 = fq_root sched0.
Proof.
  intros h skb.
  assert (Hr : (fq_enqueue h skb sched0).1 = NET_XMIT_SUCCESS)
    by (vm_compute; reflexivity).
  destruct (control_packets_join_internal_flow h skb sched0)
    as (_ & Hroot & _ & _ & Hs); [reflexivity | reflexivity | reflexivity |].
  destruct (Hs Hr) as (Hst & _).
  split; [exact Hr|]. split; [|exact Hroot].
  rewrite Hst. reflexivity.
Defined.

(** X9.  A packet that classification leaves without a socket (it had
    none, or that of a listener or of a request) and files under a detached
    flow makes [fq_enqueue] read [skb->sk->sk_num] through a null
    pointer, unless the flow is at its limit. *)
Theorem orphan_packet_into_detached_flow
    (h : host) (skb : sk_buff) (q : fq_sched_data)
    (f : flow_ref) (fl : fq_flow) (skb2 : sk_buff) :
  fq_enqueue_flow h skb q = Some (f, fl, skb2) →
  fq_flow_is_detached fl = true →
  sk skb2 = None →
  u32 (qlen fl) < flow_plimit (cfg q) →
  (fq_enqueue h skb q).1 = OOPS.
Proof.
  unfold fq_enqueue_flow, fq_enqueue. intros Hf Hd Hs Hq.
  destruct (sch_qlen q >=? limit (cfg q)); [done|].
  pose proof (fq_enqueue_horizon_stat h skb q) as (_ & _ & _ & _ & _ & Hc1).
  destruct (fq_enqueue_horizon h skb q) as [[skb1|] q1]; [|done].
  cbn [snd] in Hc1.
  destruct (fq_classify h skb1 q1) as [[f' skb2'] q2] eqn:Hc.
  apply fq_classify_frame in Hc as (Hc2 & _).
  assert (f' = f ∧ get_flow q2 f' = fl ∧ skb2' = skb2) as (-> & Hfl & ->).
  { by injection Hf as -> -> ->. }
  clear Hf. rewrite Hfl, Hc2, Hc1.
  destruct (Z.geb_spec (u32 (qlen fl)) (flow_plimit (cfg q))) as [?|_]; [lia|].
  cbn [andb]. cbv zeta.
  rewrite get_upd_flow, fq_flow_is_detached_set_qlen, Hfl, Hd.
  unfold fq_enqueue_detached. cbv zeta. by rewrite Hs.
Qed.

Lemma orphan_packet_into_detached_flow_witness :
  (fq_enqueue (host_at 0) (Skb 700 0 0 None 99 1500 0) sched0).1 = OOPS.
Proof.
  apply (orphan_packet_into_detached_flow (host_at 0)
           (Skb 700 0 0 None 99 1500 0) sched0 (Dyn 199)
           (Flow [] [] 1 199 0 0 15000 false 0) (Skb 700 0 0 None 99 1500 0)).
  - vm_compute. reflexivity.
  - reflexivity.
  - reflexivity.
  - vm_compute. reflexivity.
Defined.

(** ** [fq_check_throttled] *)

Lemma fq_flow_unset_throttled_lists q f :
  new_flows (fq_flow_unset_throttled q f) = new_flows q
  ∧ old_flows (fq_flow_unset_throttled q f) = old_flows q ++ [f]
  ∧ co_flows (fq_flow_unset_throttled q f) = co_flows q
  ∧ (∀ r, flow_tnp (fq_flow_unset_throttled q f) r = flow_tnp q r).
Proof.
  destruct (fq_flow_unset_throttled_spec q f) as (Hoth & Hff & _).
  split; [|split; [|split]].
  - unfold fq_flow_unset_throttled, fq_flow_add_tail, upd_flow. by destruct f.
  - unfold fq_flow_unset_throttled, fq_flow_add_tail, upd_flow. by destruct f.
  - unfold fq_flow_unset_throttled, fq_flow_add_tail, upd_flow. by destruct f.
  - intros r. unfold flow_tnp. destruct (decide (r = f)) as [->|Hne].
    + by rewrite Hff.
    + by rewrite Hoth.
Qed.

Lemma fq_check_throttled_loop_spec n now : ∀ q,
  (length (delayed q) <= n)%nat →
  let q' := fq_check_throttled_loop n now q in
  ∃ due,
    delayed q = due ++ delayed q'
    ∧ old_flows q' = old_flows q ++ due
    ∧ (∀ r, r ∈ due → flow_tnp q r <= now)
    ∧ new_flows q' = new_flows q ∧ co_flows q' = co_flows q
    ∧ (∀ r, flow_tnp q' r = flow_tnp q r).
Proof.
  induction n as [|n IH]; intros q Hn; cbv zeta; simpl.
  - exists []. destruct (delayed q); [|simpl in Hn; lia].
    rewrite !app_nil_r. repeat split; try done. by intros r ?%elem_of_nil.
  - destruct (delayed q) as [|f l] eqn:Hd.
    { exists []. rewrite Hd, !app_nil_r. repeat split; try done.
      by intros r ?%elem_of_nil. }
    destruct (Z.gtb_spec (flow_tnp q f) now) as [Hgt|Hle].
    { exists []. simpl. rewrite Hd, !app_nil_r. repeat split; try done.
      all: first [ by intros r ?%elem_of_nil
                 | intros r; unfold flow_tnp; f_equal; by destruct r ]. }
    pose proof (delayed_fq_flow_unset_throttled q f l Hd) as Hd1.
    destruct (fq_flow_unset_throttled_lists q f) as (Hn1 & Ho1 & Hc1 & Ht1).
    destruct (IH (fq_flow_unset_throttled q f)) as (due & E1 & E2 & E3 & E4 & E5 & E6).
    { rewrite Hd1. simpl in Hn. lia. }
    exists (f :: due). rewrite Hd1 in E1.
    split; [by rewrite E1 at 1|].
    split; [by rewrite E2, Ho1, <- app_assoc|].
    split.
    { intros r [->|Hr]%elem_of_cons; [done|]. rewrite <- Ht1. by apply E3. }
    split; [by rewrite E4|]. split; [by rewrite E5|].
    intros r. by rewrite E6.
Qed.

(** X10.  When [time_next_delayed_flow] has passed, [fq_check_throttled]
    moves the flows that are due, in the order of the tree, to the tail
    of [old_flows], and leaves in the tree exactly the flows that are not
    due; [time_next_delayed_flow] is then the least [time_next_packet] of
    the tree.  The other lists and the times of the flows stay. *)
Theorem check_throttled_releases_due_flows (q : fq_sched_data) (now : Z) :
  sched_wf q → tndf_lower_bound q →
  time_next_delayed_flow q <= now →
  let q' := fq_check_throttled q now in
  ∃ due,
    delayed q = due ++ delayed q'
    ∧ old_flows q' = old_flows q ++ due
    ∧ (∀ r, r ∈ due → flow_tnp q r <= now)
    ∧ (∀ r, r ∈ delayed q' → now < flow_tnp q r)
    ∧ new_flows q' = new_flows q ∧ co_flows q' = co_flows q
    ∧ (∀ r, flow_tnp q' r = flow_tnp q r)
    ∧ time_next_delayed_flow q' = throttle_min q'.
Proof.
  intros Hwf Hlb Hle q'.
  destruct (throttle_inv_fq_check_throttled q now (conj Hwf Hlb)) as [[Hwf' _] Hmin].
  specialize (Hmin Hle). fold q' in Hwf', Hmin.
  assert (Hq' : q' = fq_check_throttled_loop (length (delayed q)) now
                       (set_time_next_delayed_flow U64_MAX
                          (set_st (set_unthrottle_latency_ns
                             (u64 (u64 (unthrottle_latency_ns (st q)
                                        - Z.shiftr (unthrottle_latency_ns (st q)) 3)
                                   + Z.shiftr (u64 (now - time_next_delayed_flow q)) 3))
                             (st q)) q))).
  { unfold q', fq_check_throttled.
    destruct (Z.gtb_spec (time_next_delayed_flow q) now); [lia|]. done. }
  set (q2 := set_time_next_delayed_flow U64_MAX _) in Hq'.
  destruct (fq_check_throttled_loop_spec (length (delayed q)) now q2
              (le_n (length (delayed q))))
    as (due & E1 & E2 & E3 & E4 & E5 & E6).
  rewrite <- Hq' in *.
  assert (Ht2 : ∀ r, flow_tnp q2 r = flow_tnp q r).
  { intros r. unfold flow_tnp. by destruct r. }
  exists due.
  split; [exact E1|]. split; [exact E2|].
  split; [intros r Hr; rewrite <- Ht2; by apply E3|].
  split.
  { intros r Hr.
    assert (Hsame : ∀ r, get_flow q2 r = get_flow q r)
      by (intros r'; by apply get_flow_ext).
    assert (Hwf2 : sched_wf q2).
    { apply (sched_wf_touch q q2 Internal); rewrite ?Hsame; try done.
      apply Hwf. }
    destruct (fq_check_throttled_loop_inv (length (delayed q2)) now q2 eq_refl
                Hwf2) as [_ Hhd].
    change (length (delayed q2)) with (length (delayed q)) in Hhd.
    rewrite <- Hq' in Hhd.
    pose proof (wf_sorted q' Hwf') as Hs.
    destruct (delayed q') as [|f l] eqn:Hd'; [by apply elem_of_nil in Hr|].
    destruct Hhd as [_ Hf].
    pose proof (sorted_by_head_min (flow_tnp q') f l r Hs Hr) as Hfr.
    rewrite E6, Ht2 in Hf. rewrite !E6, !Ht2 in Hfr. lia. }
  split; [exact E4|]. split; [exact E5|].
  split; [intros r; by rewrite E6, Ht2 | exact Hmin].
Qed.

Lemma check_throttled_releases_due_flows_witness :
  let q := deq 10 (host_at 0) sched_co_future in
  delayed q = [Dyn 1000; Dyn 2000]
  ∧ time_next_delayed_flow q <= 150
  ∧ ∃ due,
      delayed q = due ++ delayed (fq_check_throttled q 150)
      ∧ old_flows (fq_check_throttled q 150) = old_flows q ++ due.
Proof.
  intros q.
  assert (Hinv : throttle_inv q).
  { apply throttle_inv_deq.
    repeat (apply throttle_inv_enq; [reflexivity|]).
    apply throttle_inv_sched0. }
  assert (Hd : delayed q = [Dyn 1000; Dyn 2000]) by (vm_compute; reflexivity).
  assert (Ht : time_next_delayed_flow q <= 150).
  { replace (time_next_delayed_flow q) with 100 by (vm_compute; reflexivity).
    lia. }
  split; [exact Hd|]. split; [exact Ht|].
  destruct (check_throttled_releases_due_flows q 150 (proj1 Hinv) (proj2 Hinv) Ht)
    as (due & E1 & E2 & _).
  exists due. split; [exact E1 | exact E2].
Defined.

(** ** Pacing *)

Lemma u64_nonneg x : 0 <= u64 x.
Proof. unfold u64, wrap. apply Z.mod_pos_bound. lia. Qed.

Lemma pace_delay_bound len2 x now :
  0 <= len2 <= NSEC_PER_SEC → 0 <= x → 0 <= now < 2 ^ 63 →
  let len3 := u64 (len2 - Z.min (len2 / 2) x) in
  now <= u64 (now + len3) <= now + NSEC_PER_SEC.
Proof.
  intros Hl Hx Hn. cbv zeta. unfold NSEC_PER_SEC in *.
  assert (0 <= len2 / 2 <= len2).
  { split; [apply Z.div_pos; lia|]. apply Z.div_le_upper_bound; lia. }
  rewrite (u64_small (len2 - _)) by lia.
  rewrite u64_small by lia. lia.
Qed.

Lemma pace_delay_bound0 len2 now :
  0 <= len2 <= NSEC_PER_SEC → 0 <= now < 2 ^ 63 →
  now <= u64 (now + len2) <= now + NSEC_PER_SEC.
Proof.
  intros Hl Hn. unfold NSEC_PER_SEC in *. rewrite u64_small by lia. lia.
Qed.

Lemma time_next_packet_upd_credit f g q :
  (∀ fl, time_next_packet (g fl) = time_next_packet fl) →
  time_next_packet (get_flow (upd_flow f g q) f)
  = time_next_packet (get_flow q f).
Proof. intros Hg. by rewrite get_upd_flow. Qed.

(** X11.  After a packet is sent, the [time_next_packet] of its flow is
    either left as it was or set from the clock, not before it and at most
    one second after it: the pacing delay is clamped to [NSEC_PER_SEC]. *)
Theorem pacing_delay_at_most_one_second
    (now : Z) (q : fq_sched_data) (f : flow_ref) (skb : sk_buff) :
  0 <= now < 2 ^ 63 →
  0 <= flow_max_rate (cfg q) →
  (∀ s, sk skb = Some s → 0 <= sk_pacing_rate s) →
  let t := time_next_packet (get_flow q f) in
  let t' := time_next_packet (get_flow (fq_dequeue_pace now q f skb) f) in
  t' = t ∨ now <= t' <= now + NSEC_PER_SEC.
Proof.
  intros Hn Hr Hs. cbv zeta. unfold fq_dequeue_pace. cbv zeta.
  set (q1 := upd_flow f _ q).
  assert (Ht1 : time_next_packet (get_flow q1 f) = time_next_packet (get_flow q f)).
  { unfold q1. by rewrite get_upd_flow. }
  assert (Hc1 : cfg q1 = cfg q) by (unfold q1; by destruct f).
  clearbody q1. rewrite <- Ht1, Hc1. clear Ht1.
  destruct (rate_enable (cfg q) =? 0); [by left|].
  match goal with
  | |- context [match ?step with Some _ => _ | None => _ end] =>
      destruct step as [[[rate plen1] q2]|] eqn:Hstep
  end; [|by left].
  assert (H2 : time_next_packet (get_flow q2 f) = time_next_packet (get_flow q1 f)
               ∧ 0 <= rate).
  { revert Hstep. destruct (tstamp skb =? 0).
    - destruct (sk skb) as [s|] eqn:Hsk.
      + specialize (Hs s eq_refl).
        repeat case_match; intros [= <- <- <-]; rewrite ?get_upd_flow;
          (split; [done | lia]).
      + repeat case_match; intros [= <- <- <-]; rewrite ?get_upd_flow;
          (split; [done | lia]).
    - intros [= <- <- <-]. done. }
  destruct H2 as [Ht2 Hrate]. rewrite <- Ht2. clear Hstep.
  destruct (rate =? U64_MAX); [by left|].
  right.
  set (len0 := u64 (plen1 * NSEC_PER_SEC)).
  assert (Hlen0 : 0 <= len0) by apply u64_nonneg.
  set (len1 := if rate =? 0 then len0 else len0 / rate).
  assert (Hlen1 : 0 <= len1).
  { unfold len1. destruct (Z.eqb_spec rate 0); [done|]. apply Z.div_pos; lia. }
  clearbody len1. clear len0 Hlen0.
  destruct (Z.gtb_spec len1 NSEC_PER_SEC) as [Hgt|Hle].
  - rewrite get_flow_set_st, get_upd_flow. simpl.
    destruct (time_next_packet (get_flow q2 f) =? 0).
    + apply pace_delay_bound0; [unfold NSEC_PER_SEC; lia | done].
    + apply pace_delay_bound; [unfold NSEC_PER_SEC; lia | apply u64_nonneg | done].
  - rewrite get_upd_flow. simpl.
    destruct (time_next_packet (get_flow q2 f) =? 0).
    + by apply pace_delay_bound0.
    + apply pace_delay_bound; [done | apply u64_nonneg | done].
Qed.

Lemma pacing_delay_at_most_one_second_witness :
  let s := Sock 8000 1 88 7000 80 50000 in
  let skb := Skb 800 0 0 (Some s) 88 1500 0 in
  let q := enq (host_at 0) skb sched0 in
  let t' := time_next_packet (get_flow (fq_dequeue_pace 5 q (Dyn 8000) skb)
                                (Dyn 8000)) in
  t' = 30000005
  ∧ (t' = time_next_packet (get_flow q (Dyn 8000))
     ∨ 5 <= t' <= 5 + NSEC_PER_SEC).
Proof.
  intros s skb q t'.
  split; [vm_compute; reflexivity|].
  apply (pacing_delay_at_most_one_second 5 q (Dyn 8000) skb).
  - lia.
  - vm_compute. discriminate.
  - intros s' [= <-]. vm_compute. discriminate.
Defined.

(** ** The low bit of keys and of the word shared by [tail] and [age] *)

Lemma land_lor_1 x : Z.land (Z.lor x 1) 1 = 1.
Proof.
  rewrite Z.land_lor_distr_l. change (Z.land 1 1) with 1.
  apply Z.bits_inj'. intros n Hn.
  rewrite Z.lor_spec, Z.land_spec.
  destruct (decide (n = 0)) as [->|Hne]; [by rewrite orb_true_r|].
  rewrite (Z.bits_above_log2 1 n) by (simpl; lia).
  by rewrite andb_false_r.
Qed.

(** X14.  The key of an established socket is its address; packets
    without a socket, of a listener or of a closed socket are filed under
    an odd key made of their masked hash, so they never share a flow with
    a socket at an even address. *)
Theorem orphan_keys_are_odd
    (skb skb' : sk_buff) (q q' : fq_sched_data) (s : sock) :
  sk skb = Some s → sk_listener s = false → sk_state s ≠ TCP_CLOSE →
  Z.land (sk_addr s) 1 = 0 →
  (∀ s', sk skb' = Some s' → sk_listener s' = true ∨ sk_state s' = TCP_CLOSE) →
  (fq_classify_key skb q).1 = sk_addr s
  ∧ (fq_classify_key skb' q').1
    = Z.lor (u64 (Z.shiftl (Z.land (skb_hash skb') (orphan_mask (cfg q'))) 1)) 1
  ∧ Z.land (fq_classify_key skb' q').1 1 = 1
  ∧ (fq_classify_key skb q).1 ≠ (fq_classify_key skb' q').1.
Proof.
  intros Hs Hl Hc Ha Ho.
  assert (H1 : (fq_classify_key skb q).1 = sk_addr s).
  { unfold fq_classify_key. rewrite Hs, Hl.
    destruct (Z.eqb_spec (sk_state s) TCP_CLOSE); done. }
  assert (H2 : (fq_classify_key skb' q').1
    = Z.lor (u64 (Z.shiftl (Z.land (skb_hash skb') (orphan_mask (cfg q'))) 1)) 1).
  { unfold fq_classify_key. destruct (sk skb') as [s'|]; [|done].
    destruct (Ho s' eq_refl) as [->| ->]; [done|].
    destruct (sk_listener s'); [done|]. done. }
  split; [done|]. split; [done|].
  assert (H3 : Z.land (fq_classify_key skb' q').1 1 = 1)
    by (rewrite H2; apply land_lor_1).
  split; [done|]. rewrite H1. intros E. rewrite <- E in H3. lia.
Qed.

Lemma orphan_keys_are_odd_witness :
  let skb := pkt 300 0 33 sock_X in
  let skb' := Skb 700 0 0 None 99 1500 0 in
  (fq_classify_key skb sched0).1 = 3000
  ∧ (fq_classify_key skb' sched0).1 = 199
  ∧ (fq_classify_key skb sched0).1 ≠ (fq_classify_key skb' sched0).1.
Proof.
  intros skb skb'.
  destruct (orphan_keys_are_odd skb skb' sched0 sched0 sock_X)
    as (H1 & H2 & _ & H4); try reflexivity.
  - discriminate.
  - intros s' [=].
  - split; [exact H1|]. split; [|exact H4]. rewrite H2. reflexivity.
Defined.

(** X19.  The word shared by [tail] and [age] tells a detached flow from
    a queued one by its low bit: [fq_flow_set_detached] sets it, keeping
    the jiffies up to that bit, and the first packet queued afterwards,
    at an even address, clears it. *)
Theorem detached_mark_round_trip (j : Z) (f : fq_flow) (skb : sk_buff) :
  skb_aligned skb → head f = [] →
  fq_flow_is_detached (fq_flow_set_detached j f) = true
  ∧ u64 j <= age (fq_flow_set_detached j f) <= u64 j + 1
  ∧ fq_flow_is_detached (flow_queue_add (fq_flow_set_detached j f) skb) = false
  ∧ age (flow_queue_add (fq_flow_set_detached j f) skb) = skb_addr skb.
Proof.
  intros Ha Hh.
  split; [apply fq_flow_is_detached_set_detached|].
  split.
  - unfold fq_flow_set_detached. simpl.
    assert (0 <= u64 j) by (unfold u64, wrap; apply Z.mod_pos_bound; lia).
    destruct (Z.testbit (u64 j) 0) eqn:Hb.
    + replace (Z.lor (u64 j) 1) with (u64 j); [lia|].
      apply Z.bits_inj'. intros n Hn. rewrite Z.lor_spec.
      destruct (decide (n = 0)) as [->|Hne]; [by rewrite Hb|].
      rewrite (Z.bits_above_log2 1 n) by (simpl; lia). by rewrite orb_false_r.
    + replace (Z.lor (u64 j) 1) with (u64 j + 1); [lia|].
      assert (Hl : Z.land (u64 j) 1 = 0).
      { apply Z.bits_inj'. intros n Hn. rewrite Z.land_spec, Z.bits_0.
        destruct (decide (n = 0)) as [->|Hne]; [by rewrite Hb|].
        rewrite (Z.bits_above_log2 1 n) by (simpl; lia).
        by rewrite andb_false_r. }
      by rewrite Z.add_nocarry_lxor, Z.lxor_lor.
  - assert (Hq : flow_queue_add (fq_flow_set_detached j f) skb
                 = set_age (skb_addr skb)
                     (set_head [skb] (fq_flow_set_detached j f))).
    { unfold flow_queue_add. simpl. by rewrite Hh. }
    rewrite Hq. split; [|done].
    unfold fq_flow_is_detached. simpl. by rewrite Ha.
Qed.

Lemma detached_mark_round_trip_witness :
  fq_flow_is_detached (fq_flow_set_detached 5000 zero_flow) = true
  ∧ age (fq_flow_set_detached 5000 zero_flow) = 5001
  ∧ fq_flow_is_detached
      (flow_queue_add (fq_flow_set_detached 5000 zero_flow)
         (pkt 300 0 33 sock_X)) = false.
Proof.
  destruct (detached_mark_round_trip 5000 zero_flow (pkt 300 0 33 sock_X))
    as (H1 & _ & H3 & _); [reflexivity | reflexivity |].
  split; [exact H1|]. split; [reflexivity | exact H3].
Defined.

(** ** Reset, resize and initialisation *)

(** X15.  [fq_reset] of a scheduler whose table is allocated drops every
    packet and every flow: the count of queued packets is 0, the lists,
    the tree and the table are empty, the flow counters are 0, and the
    next dequeue returns no packet at once.  It leaves the co-flow
    variables ([pFlowid], [ucounter], [flipflag]), the configuration and
    [time_next_delayed_flow] as they were. *)
Theorem reset_empties_all_but_coflow_state
    (fuel : nat) (h : host) (q : fq_sched_data) :
  fq_root_null q = false →
  let q' := fq_reset q in
  sch_qlen q' = 0 ∧ rr_refs q' = [] ∧ delayed q' = [] ∧ fq_root q' = ∅
  ∧ flows q' = 0 ∧ inactive_flows q' = 0 ∧ throttled_flows q' = 0
  ∧ (∀ r, flow_packets (get_flow q' r) = [])
  ∧ co q' = co q ∧ cfg q' = cfg q
  ∧ time_next_delayed_flow q' = time_next_delayed_flow q
  ∧ fq_dequeue fuel h q' = Some (None, q').
Proof.
  intros Hn. cbv zeta.
  assert (Hq : fq_reset q
    = set_throttled_flows 0 (set_inactive_flows 0 (set_flows 0
        (set_delayed [] (set_co_flows [] (set_old_flows [] (set_new_flows []
           (set_fq_root ∅
              (set_internal (fq_flow_purge (internal q))
                 (set_sch_qlen 0 q)))))))))).
  { unfold fq_reset. cbv zeta.
    change (fq_root_null (set_internal (fq_flow_purge (internal (set_sch_qlen 0 q)))
                            (set_sch_qlen 0 q))) with (fq_root_null q).
    by rewrite Hn. }
  assert (H0 : sch_qlen (fq_reset q) = 0) by (by rewrite Hq).
  split; [exact H0|].
  split; [by rewrite Hq|]. split; [by rewrite Hq|]. split; [by rewrite Hq|].
  split; [by rewrite Hq|]. split; [by rewrite Hq|]. split; [by rewrite Hq|].
  split; [rewrite Hq; by intros [|k]|].
  split; [by rewrite Hq|]. split; [by rewrite Hq|]. split; [by rewrite Hq|].
  unfold fq_dequeue. by rewrite H0.
Qed.

Lemma reset_empties_all_but_coflow_state_witness :
  let q := deq 10 (host_at 0) sched_three_co in
  ucounter (co q) = 3 ∧ sch_qlen q = 3
  ∧ sch_qlen (fq_reset q) = 0 ∧ ucounter (co (fq_reset q)) = 3
  ∧ fq_dequeue 10 (host_at 0) (fq_reset q) = Some (None, fq_reset q).
Proof.
  intros q.
  destruct (reset_empties_all_but_coflow_state 10 (host_at 0) q)
    as (H1 & _ & _ & _ & _ & _ & _ & _ & H9 & _ & _ & H12);
    [vm_compute; reflexivity|].
  assert (Hu : ucounter (co q) = 3) by (vm_compute; reflexivity).
  split; [exact Hu|]. split; [vm_compute; reflexivity|].
  split; [exact H1|]. split; [by rewrite H9 | exact H12].
Defined.

(** X16.  [fq_resize] returns 0 or [-ENOMEM].  It returns [-ENOMEM]
    only when the allocation fails, and then the scheduler is as before.
    When it returns 0 the table has the requested size and is allocated,
    no flow is invented or altered, and every flow that is not a candidate
    for garbage collection is kept. *)
Theorem resize_keeps_live_flows (h : host) (q : fq_sched_data) (log : Z) :
  let rc := (fq_resize h q log).1 in
  let q' := (fq_resize h q log).2 in
  (rc = 0 ∨ rc = - ENOMEM)
  ∧ (rc = - ENOMEM → kvmalloc_ok h = false ∧ q' = q)
  ∧ (rc = 0 →
     fq_trees_log q' = log ∧ fq_root_null q' = false
     ∧ (∀ k f, fq_root q' !! k = Some f → fq_root q !! k = Some f)
     ∧ (∀ k f, fq_root q !! k = Some f → fq_gc_candidate h f = false →
               fq_root q' !! k = Some f)
     ∧ rr_refs q' = rr_refs q ∧ delayed q' = delayed q
     ∧ sch_qlen q' = sch_qlen q ∧ cfg q' = cfg q).
Proof.
  cbv zeta. unfold fq_resize.
  destruct (fq_root_null q) eqn:Hnull; cbn [negb andb].
  - destruct (kvmalloc_ok h); cbn [negb fst snd].
    + split; [by left|]. split; [unfold ENOMEM; lia|]. done.
    + split; [by right|]. split; [done|]. unfold ENOMEM. lia.
  - destruct (Z.eqb_spec log (fq_trees_log q)) as [->|Hne]; cbn [fst snd].
    { split; [by left|]. split; [unfold ENOMEM; lia|]. done. }
    destruct (kvmalloc_ok h); cbn [negb fst snd].
    + split; [by left|]. split; [unfold ENOMEM; lia|]. intros _.
      split; [done|]. split; [done|].
      change (fq_root (set_fq_trees_log log (set_fq_root_null false (fq_rehash h q))))
        with (fq_root (fq_rehash h q)).
      split.
      { intros k f. rewrite fq_rehash_lookup.
        destruct (fq_root q !! k) as [f'|]; [|done].
        by destruct (fq_gc_candidate h f'). }
      split.
      { intros k f Hf Hc. by rewrite fq_rehash_lookup, Hf, Hc. }
      done.
    + split; [by right|]. split; [done|]. unfold ENOMEM. lia.
Qed.

(** X17.  [fq_init] without options stores the defaults and allocates
    the table of 2^10 buckets: it returns 0, or [-ENOMEM] with the table
    left unallocated when the allocation fails.  The scheduler starts with
    empty lists, an empty tree and [time_next_delayed_flow] at all-ones;
    the quantum is twice and the initial quantum ten times the MTU.  The
    file-scope co-flow variables are not initialised: they keep whatever
    an earlier scheduler left in them. *)
Theorem init_without_options
    (n fuel : nat) (h : host) (hs : nat → host) (g : coflow_globals) :
  ∃ q',
    fq_init n fuel h hs None (qdisc_alloc g)
    = Some (if kvmalloc_ok h then 0 else - ENOMEM, q')
    ∧ fq_root_null q' = negb (kvmalloc_ok h)
    ∧ fq_trees_log q' = 10
    ∧ co q' = g
    ∧ rr_refs q' = [] ∧ delayed q' = [] ∧ fq_root q' = ∅ ∧ sch_qlen q' = 0
    ∧ time_next_delayed_flow q' = U64_MAX ∧ tndf_is_min q'
    ∧ quantum (cfg q') = u32 (2 * psched_mtu h)
    ∧ initial_quantum (cfg q') = u32 (10 * psched_mtu h)
    ∧ limit (cfg q') = 10000 ∧ flow_plimit (cfg q') = 100
    ∧ f1_sourceport (cfg q') = 0 ∧ f2_sourceport (cfg q') = 0.
Proof.
  unfold fq_init. cbv zeta.
  set (q1 := fq_init_defaults h (qdisc_alloc g)).
  exists (fq_resize h q1 (fq_trees_log q1)).2.
  unfold fq_resize.
  change (fq_root_null q1) with true. cbn [negb andb].
  destruct (kvmalloc_ok h); cbn [negb fst snd]; repeat split.
Qed.

(** X18.  With [flipflag] clear and [new_flows] and [old_flows] empty,
    [fq_dequeue] returns no packet although packets are queued, whatever
    [co_flows] holds: promoted flows are served only after a breach.  The
    call arms the watchdog only for a throttled flow, and leaves the lists,
    the flows and the co-flow variables as they are, so the next call finds
    the same. *)
Theorem promoted_flows_wait_for_breach
    (fuel : nat) (h : host) (q : fq_sched_data) :
  sch_qlen q ≠ 0 →
  fq_peek (internal q) = None →
  flipflag (co q) = 0 →
  new_flows q = [] →
  old_flows q = [] →
  ktime_get_ns h < time_next_delayed_flow q →
  let q0 := set_ktime_cache (ktime_get_ns h) q in
  let q' :=
    if negb (time_next_delayed_flow q =? U64_MAX)
    then set_watchdog
           (Some (time_next_delayed_flow q, timer_slack (cfg q))) q0
    else q0 in
  fq_dequeue (S fuel) h q = Some (None, q')
  ∧ co_flows q' = co_flows q ∧ new_flows q' = [] ∧ old_flows q' = []
  ∧ co q' = co q ∧ sch_qlen q' = sch_qlen q
  ∧ fq_root q' = fq_root q ∧ internal q' = internal q.
Proof.
  intros Hq Hi Hf Hn Ho Ht q0 q'.
  assert (Hframe : co_flows q' = co_flows q ∧ new_flows q' = []
    ∧ old_flows q' = [] ∧ co q' = co q ∧ sch_qlen q' = sch_qlen q
    ∧ fq_root q' = fq_root q ∧ internal q' = internal q).
  { unfold q', q0. destruct (negb _); simpl; rewrite Hn, Ho; done. }
  split; [|exact Hframe].
  unfold fq_dequeue.
  destruct (Z.eqb_spec (sch_qlen q) 0) as [?|_]; [done|].
  rewrite Hi. cbv zeta. fold q0.
  assert (Hc : fq_check_throttled q0 (ktime_get_ns h) = q0).
  { unfold fq_check_throttled.
    change (time_next_delayed_flow q0) with (time_next_delayed_flow q).
    destruct (Z.gtb_spec (time_next_delayed_flow q) (ktime_get_ns h)); [done|lia]. }
  rewrite Hc. cbn [fq_dequeue_loop].
  assert (Hs : fq_select_head q0 = None).
  { unfold fq_select_head.
    change (flipflag (co q0)) with (flipflag (co q)). rewrite Hf.
    cbn [Z.eqb head_list].
    change (new_flows q0) with (new_flows q).
    change (old_flows q0) with (old_flows q). by rewrite Hn, Ho. }
  unfold fq_dequeue_pass. rewrite Hs. done.
Qed.

Lemma promoted_flows_wait_for_breach_witness :
  let q := deq 10 (host_at 0) (enq (host_at 0) (pkt 100 0 11 sock_A) sched0) in
  co_flows q = [Dyn 1000] ∧ sch_qlen q = 1
  ∧ qlen (get_flow q (Dyn 1000)) = 1
  ∧ fq_dequeue 10 (host_at 500) q = Some (None, set_ktime_cache 500 q).
Proof.
  intros q.
  destruct (promoted_flows_wait_for_breach 9 (host_at 500) q) as [Hd _];
    try (vm_compute; reflexivity).
  - vm_compute. discriminate.
  - split; [vm_compute; reflexivity|]. split; [vm_compute; reflexivity|].
    split; [vm_compute; reflexivity|].
    rewrite Hd. vm_compute. reflexivity.
Defined.

(** ** [fq_dump] after [fq_change] *)

Lemma tick_rate_divides_range h :
  tick_rate_divides h → 0 < HZ h <= USEC_PER_SEC.
Proof.
  intros [Hz Hm]. split; [done|].
  apply Z.mod_divide in Hm; [|lia]. apply Z.divide_pos_le in Hm; [|done].
  unfold MSEC_PER_SEC, USEC_PER_SEC in *. lia.
Qed.

Lemma fq_resize_ok h q log q1 :
  fq_resize h q log = (0, q1) → fq_trees_log q1 = log ∧ cfg q1 = cfg q.
Proof.
  unfold fq_resize.
  destruct (fq_root_null q); cbn [negb andb].
  - destruct (kvmalloc_ok h); cbn [negb]; [|unfold ENOMEM; intros [=]].
    intros Hq. apply (inj2 pair) in Hq as [_ <-]. done.
  - destruct (Z.eqb_spec log (fq_trees_log q)) as [->|Hne].
    { intros Hq. apply (inj2 pair) in Hq as [_ <-]. done. }
    destruct (kvmalloc_ok h); cbn [negb]; [|unfold ENOMEM; intros [=]].
    intros Hq. apply (inj2 pair) in Hq as [_ <-]. done.
Qed.

Lemma fq_change_ok n fuel h hs tb q q' :
  fq_change n fuel h hs (Some tb) q = Some (0, q') →
  fq_change_err tb = 0
  ∧ cfg q' = fq_change_params h tb (cfg q)
  ∧ fq_trees_log q' = fq_change_log tb q.
Proof.
  unfold fq_change.
  destruct (Z.ltb_spec (nla_err tb) 0) as [Hneg|_].
  { intros [= E _]. lia. }
  cbv zeta.
  destruct (Z.eqb_spec (fq_change_err tb) 0) as [Herr|Herr].
  - destruct (fq_resize h _ (fq_change_log tb q)) as [e q2] eqn:Hr.
    destruct (fq_change_trim n fuel hs q2) as [q3|] eqn:Ht; [|done].
    intros Hq. apply (inj Some) in Hq. apply (inj2 pair) in Hq as [-> ->].
    apply fq_resize_ok in Hr as [Hl Hc].
    apply fq_conf_fq_change_trim in Ht. unfold fq_conf in Ht.
    apply (inj2 pair) in Ht as [Ht _]. apply (inj2 pair) in Ht as [Hc' Hl'].
    split; [done|]. split; [by rewrite Hc', Hc | by rewrite Hl', Hl].
  - destruct (fq_change_trim n fuel hs _) as [q3|] eqn:Ht; [|done].
    intros [= E _]. done.
Qed.

(** What [MAX_JIFFY_OFFSET] converts to: two jiffies short of 2^32
    microseconds. *)
Lemma jiffies_to_usecs_max h :
  0 < HZ h <= USEC_PER_SEC →
  jiffies_to_usecs h MAX_JIFFY_OFFSET = 2 ^ 32 - 2 * (USEC_PER_SEC / HZ h).
Proof.
  intros Hz. set (k := USEC_PER_SEC / HZ h).
  assert (Hk : 1 <= k <= USEC_PER_SEC).
  { unfold k. split.
    - apply Z.div_le_lower_bound; lia.
    - apply Z.div_le_upper_bound; [lia|]. unfold USEC_PER_SEC in *. nia. }
  unfold jiffies_to_usecs. fold k.
  change MAX_JIFFY_OFFSET with (2 ^ 62 - 2).
  replace (k * (2 ^ 62 - 2))
    with (2 ^ 32 - 2 * k + (k * 2 ^ 30 - 1) * 2 ^ 32) by lia.
  unfold u32, wrap. rewrite Z_mod_plus_full.
  apply Z.mod_small. unfold USEC_PER_SEC in Hk. lia.
Qed.

(** A delay goes to jiffies and back: rounded up to a whole jiffy, or, from
    the last two jiffies below 2^32 microseconds on, clamped. *)
Lemma usecs_round_trip h v :
  0 < HZ h <= USEC_PER_SEC → 0 <= v < 2 ^ 32 →
  let k := USEC_PER_SEC / HZ h in
  if v <=? 2 ^ 32 - 2 * k
  then v <= jiffies_to_usecs h (usecs_to_jiffies h v) < v + k
       ∧ jiffies_to_usecs h (usecs_to_jiffies h v) mod k = 0
  else jiffies_to_usecs h (usecs_to_jiffies h v) = 2 ^ 32 - 2 * k.
Proof.
  intros Hz Hv k.
  pose proof (jiffies_to_usecs_max h Hz) as Hmax. fold k in Hmax.
  assert (Hk : 1 <= k <= USEC_PER_SEC).
  { unfold k. split.
    - apply Z.div_le_lower_bound; lia.
    - apply Z.div_le_upper_bound; [lia|]. unfold USEC_PER_SEC in *. nia. }
  unfold usecs_to_jiffies. rewrite Hmax. fold k.
  destruct (Z.leb_spec v (2 ^ 32 - 2 * k)) as [Hle|Hgt].
  - destruct (Z.gtb_spec v (2 ^ 32 - 2 * k)) as [?|_]; [lia|].
    unfold jiffies_to_usecs. fold k.
    pose proof (Z.div_mod (v + k - 1) k ltac:(lia)) as Hd.
    pose proof (Z.mod_pos_bound (v + k - 1) k ltac:(lia)) as Hm.
    rewrite u32_small by lia.
    split; [lia|]. rewrite Z.mul_comm. apply Z.mod_mul. lia.
  - destruct (Z.gtb_spec v (2 ^ 32 - 2 * k)) as [_|?]; [|lia].
    exact Hmax.
Qed.

(** X20.  After a [fq_change] that returns 0, [fq_dump] reports every
    attribute of the table as it was given: the limits, the quanta, the
    rate switch, the maximal rate (all-ones standing for no limit), the
    table size, the thresholds in microseconds, the mask, the slack, the
    horizon and its policy, and the co-flow ports.  The refill delay is
    reported rounded up to a whole jiffy of the kernel's tick rate; a
    delay within the last two jiffies below 2^32 microseconds is reported
    as 2^32 microseconds less two jiffies, which is less than was given.
    The default rate is not reported. *)
Theorem dump_reports_what_change_stored
    (n fuel : nat) (h : host) (hs : nat → host) (tb : nlattr)
    (q q' : fq_sched_data) :
  fq_change n fuel h hs (Some tb) q = Some (0, q') →
  nlattr_widths tb →
  ∃ d, fq_dump h true q' = Some d
    ∧ reported (TCA_FQ_PLIMIT tb) (TCA_FQ_PLIMIT d)
    ∧ reported (TCA_FQ_FLOW_PLIMIT tb) (TCA_FQ_FLOW_PLIMIT d)
    ∧ reported (TCA_FQ_QUANTUM tb) (TCA_FQ_QUANTUM d)
    ∧ reported (TCA_FQ_INITIAL_QUANTUM tb) (TCA_FQ_INITIAL_QUANTUM d)
    ∧ reported (TCA_FQ_RATE_ENABLE tb) (TCA_FQ_RATE_ENABLE d)
    ∧ reported (TCA_FQ_FLOW_MAX_RATE tb) (TCA_FQ_FLOW_MAX_RATE d)
    ∧ reported (TCA_FQ_BUCKETS_LOG tb) (TCA_FQ_BUCKETS_LOG d)
    ∧ reported (TCA_FQ_LOW_RATE_THRESHOLD tb) (TCA_FQ_LOW_RATE_THRESHOLD d)
    ∧ reported (TCA_FQ_CE_THRESHOLD tb) (TCA_FQ_CE_THRESHOLD d)
    ∧ reported (TCA_FQ_ORPHAN_MASK tb) (TCA_FQ_ORPHAN_MASK d)
    ∧ reported (TCA_FQ_TIMER_SLACK tb) (TCA_FQ_TIMER_SLACK d)
    ∧ reported (TCA_FQ_HORIZON tb) (TCA_FQ_HORIZON d)
    ∧ reported (TCA_FQ_HORIZON_DROP tb) (TCA_FQ_HORIZON_DROP d)
    ∧ reported (TCA_FQ_F1_SOURCEPORT tb) (TCA_FQ_F1_SOURCEPORT d)
    ∧ reported (TCA_FQ_F2_SOURCEPORT tb) (TCA_FQ_F2_SOURCEPORT d)
    ∧ reported (TCA_FQ_F1_DESTPORT tb) (TCA_FQ_F1_DESTPORT d)
    ∧ reported (TCA_FQ_F2_DESTPORT tb) (TCA_FQ_F2_DESTPORT d)
    ∧ (∀ v, TCA_FQ_FLOW_REFILL_DELAY tb = Some v → tick_rate_divides h →
         let k := USEC_PER_SEC / HZ h in
         ∃ v', TCA_FQ_FLOW_REFILL_DELAY d = Some v'
               ∧ if v <=? 2 ^ 32 - 2 * k
                 then v <= v' < v + k ∧ v' mod k = 0
                 else v' = 2 ^ 32 - 2 * k)
    ∧ TCA_FQ_FLOW_DEFAULT_RATE d = None.
Proof.
  intros Hc [Hw Hw8].
  apply fq_change_ok in Hc as (Herr & Hcfg & Hlog).
  eexists. split; [reflexivity|].
  rewrite Hcfg, Hlog. unfold fq_change_params, fq_change_log.
  cbn -[usecs_to_jiffies jiffies_to_usecs Z.div Z.mul Z.pow Z.sub].
  repeat (apply Forall_cons in Hw as [? Hw]).
  unfold fq_change_err in Herr. cbv zeta in Herr.
  unfold reported, attr_within, U32_MAX in *.
  change (Z.shiftl 1 20) with (2 ^ 20) in *.
  assert (Hu : ∀ v, 0 <= v <= 2 ^ 32 - 1 → u32 v = v)
    by (intros v Hv; apply u32_small; lia).
  assert (Hdiv : ∀ v, NSEC_PER_USEC * v / NSEC_PER_USEC = v).
  { intros v. rewrite Z.mul_comm. apply Z.div_mul. done. }
  repeat split.
  - intros v E. rewrite E in *. cbn. by rewrite Hu.
  - intros v E. rewrite E in *. cbn. by rewrite Hu.
  - intros v E. rewrite E in *. cbn.
    destruct ((v >? 0) && (v <=? 2 ^ 20)) eqn:Hb; [by rewrite Hu|].
    exfalso. cbn in Herr. rewrite orb_true_r in Herr. cbn in Herr.
    unfold EINVAL in Herr. lia.
  - intros v E. rewrite E in *. cbn. by rewrite Hu.
  - intros v E. rewrite E in *. cbn.
    destruct (v <=? 1) eqn:Hb; [by rewrite Hu|].
    exfalso. cbn in Herr. rewrite !orb_true_r in Herr.
    unfold EINVAL in Herr. lia.
  - intros v E. rewrite E in *. cbn.
    destruct (Z.eqb_spec v (2 ^ 32 - 1)) as [->|Hne].
    + by rewrite Z.min_r by (unfold U64_MAX; lia).
    + rewrite Z.min_l by lia. by rewrite Hu.
  - intros v E. rewrite E in *. cbn.
    destruct ((v >=? 1) && (v <=? ilog2_256K)) eqn:Hb; [by rewrite Hu|].
    exfalso. cbn in Herr. unfold EINVAL in Herr. lia.
  - intros v E. rewrite E in *. cbn. by rewrite Hu.
  - intros v E. rewrite E in *. cbn. by rewrite Hdiv, Hu.
  - intros v E. rewrite E in *. cbn. by rewrite Hu.
  - intros v E. rewrite E in *. cbn. by rewrite Hu.
  - intros v E. rewrite E in *. cbn. by rewrite Hdiv, Hu.
  - intros v E. rewrite E in *. cbn. f_equal.
    unfold u8, wrap. apply Z.mod_small. lia.
  - intros v E. rewrite E in *. cbn. by rewrite Hu.
  - intros v E. rewrite E in *. cbn. by rewrite Hu.
  - intros v E. rewrite E in *. cbn. by rewrite Hu.
  - intros v E. rewrite E in *. cbn. by rewrite Hu.
  - intros v E Htick. rewrite E in *. eexists. split; [reflexivity|].
    apply (usecs_round_trip h v).
    + by apply tick_rate_divides_range.
    + lia.
Qed.

(** A kernel with 250 ticks a second: a delay of 2500 microseconds is
    reported as 4000. *)
Lemma dump_reports_what_change_stored_witness :
  let h := Host 0 0 true true 1500 [] 250 in
  let tb := Nlattr 0 (Some 500) (Some 7) (Some 3000) None (Some 1) None
              (Some U32_MAX) (Some 12) (Some 2500) None (Some 100) None None
              (Some 5) (Some 0) (Some 5000) (Some 5001) None None in
  ∃ q' d,
    fq_change 0 0 h (λ _, h) (Some tb) sched0 = Some (0, q')
    ∧ fq_dump h true q' = Some d
    ∧ TCA_FQ_QUANTUM d = Some 3000
    ∧ TCA_FQ_FLOW_MAX_RATE d = Some U32_MAX
    ∧ TCA_FQ_BUCKETS_LOG d = Some 12
    ∧ TCA_FQ_CE_THRESHOLD d = Some 100
    ∧ ∃ v', TCA_FQ_FLOW_REFILL_DELAY d = Some v'
            ∧ 2500 <= v' < 6500 ∧ v' mod 4000 = 0.
Proof.
  intros h tb.
  assert (Hrc : fst <$> fq_change 0 0 h (λ _, h) (Some tb) sched0 = Some 0)
    by (vm_compute; reflexivity).
  destruct (fq_change 0 0 h (λ _, h) (Some tb) sched0) as [[rc q']|] eqn:Hc;
    [|discriminate].
  injection Hrc as ->.
  assert (Hw : nlattr_widths tb).
  { split; [|cbn; lia].
    repeat (apply Forall_cons; split; [cbn; unfold U32_MAX; try lia; done|]).
    apply Forall_nil_2. }
  assert (Htick : tick_rate_divides h) by (split; [reflexivity | reflexivity]).
  destruct (dump_reports_what_change_stored 0 0 h (λ _, h) tb sched0 q' Hc Hw)
    as (d & Hd & _ & _ & Hq & _ & _ & Hm & Hl & _ & Hce & _ & _ & _ & _ & _ & _
        & _ & _ & Hr & _).
  exists q', d. split; [done|]. split; [exact Hd|].
  split; [by apply Hq|]. split; [by apply Hm|]. split; [by apply Hl|].
  split; [by apply Hce|].
  exact (Hr 2500 eq_refl Htick).
Defined.

(** ** Properties of the packets of every flow *)

Section AllFlows.

Context (P : fq_flow → Prop) (HP : packet_property P).

Lemma all_flows_ext q q' :
  fq_root q' = fq_root q → internal q' = internal q →
  all_flows P q → all_flows P q'.
Proof. intros Hr Hi H r. rewrite (get_flow_ext q q') by done. apply H. Qed.

Lemma all_flows_upd_flow f g q :
  (∀ fl, P fl → P (g fl)) → all_flows P q → all_flows P (upd_flow f g q).
Proof.
  intros Hg H r. destruct (decide (r = f)) as [->|Hne].
  - rewrite get_upd_flow. apply Hg, H.
  - rewrite get_upd_flow_ne by done. apply H.
Qed.

(** A change of a flow that leaves its packets alone. *)
Lemma all_flows_upd_fields f g q :
  (∀ fl, head (g fl) = head fl ∧ t_root (g fl) = t_root fl) →
  all_flows P q → all_flows P (upd_flow f g q).
Proof.
  intros Hg. apply all_flows_upd_flow. intros fl Hfl.
  destruct (Hg fl) as [Hh Ht]. by apply (pp_packets P HP fl).
Qed.

Lemma all_flows_set_head_list hd v q :
  all_flows P q → all_flows P (set_head_list hd v q).
Proof. apply all_flows_ext; by destruct hd. Qed.

Lemma all_flows_fq_flow_add_tail hd f q :
  all_flows P q → all_flows P (fq_flow_add_tail hd f q).
Proof.
  intros H. unfold fq_flow_add_tail. apply all_flows_set_head_list.
  by apply all_flows_upd_fields.
Qed.

Lemma all_flows_pop_head hd q : all_flows P q → all_flows P (pop_head hd q).
Proof. apply all_flows_set_head_list. Qed.

Lemma all_flows_fq_flow_unset_throttled q f :
  all_flows P q → all_flows P (fq_flow_unset_throttled q f).
Proof.
  intros H. unfold fq_flow_unset_throttled. cbv zeta.
  apply all_flows_fq_flow_add_tail. by apply (all_flows_ext q).
Qed.

Lemma all_flows_fq_flow_set_throttled q f :
  all_flows P q → all_flows P (fq_flow_set_throttled q f).
Proof.
  intros H. unfold fq_flow_set_throttled. cbv zeta.
  match goal with
  | |- all_flows P (if _ then set_time_next_delayed_flow _ ?q4 else ?q4) =>
      assert (H4 : all_flows P q4)
  end.
  { apply all_flows_upd_fields; [done|]. by apply (all_flows_ext q). }
  case_match; [|done]. revert H4. by apply all_flows_ext.
Qed.

Lemma all_flows_fq_check_throttled_loop n now : ∀ q,
  all_flows P q → all_flows P (fq_check_throttled_loop n now q).
Proof.
  induction n as [|n IH]; intros q H; simpl; [done|].
  destruct (delayed q) as [|f l]; [done|].
  case_match; [by apply (all_flows_ext q)|].
  by apply IH, all_flows_fq_flow_unset_throttled.
Qed.

Lemma all_flows_fq_check_throttled q now :
  all_flows P q → all_flows P (fq_check_throttled q now).
Proof.
  intros H. unfold fq_check_throttled. case_match; [done|]. cbv zeta.
  apply all_flows_fq_check_throttled_loop. by apply (all_flows_ext q).
Qed.

Lemma all_flows_fq_dequeue_skb q f skb :
  all_flows P q → all_flows P (fq_dequeue_skb q f skb).
Proof.
  intros H. unfold fq_dequeue_skb. cbv zeta.
  match goal with
  | |- all_flows P (set_sch_qlen _ ?q1) =>
      apply (all_flows_ext q1); [done|done|]
  end.
  apply all_flows_upd_flow; [|done]. intros fl Hfl.
  apply (pp_packets P HP (fq_erase_head fl skb)); [done|done|].
  by apply (pp_erase P HP).
Qed.

Lemma all_flows_fq_dequeue_pace now q f skb :
  all_flows P q → all_flows P (fq_dequeue_pace now q f skb).
Proof.
  intros H. unfold fq_dequeue_pace. cbv zeta.
  set (q1 := upd_flow f _ q).
  assert (H1 : all_flows P q1) by (by apply all_flows_upd_fields).
  clearbody q1.
  destruct (rate_enable (cfg q1) =? 0); [done|].
  match goal with
  | |- all_flows P (match ?step with _ => _ end) =>
      destruct step as [[[rate plen1] q2]|] eqn:Hstep
  end; [|done].
  assert (H2 : all_flows P q2).
  { revert Hstep. repeat case_match; intros [= <- <- <-];
      first [done | by apply all_flows_upd_fields]. }
  destruct (rate =? U64_MAX); [done|].
  match goal with
  | |- all_flows P (let '(_, _) := ?p in _) => destruct p as [len2 q3] eqn:Hp
  end.
  assert (H3 : all_flows P q3).
  { match type of Hp with (if ?c then _ else _) = _ => destruct c end;
      revert Hp; intros [= <- <-]; first [done | by apply (all_flows_ext q2)]. }
  by apply all_flows_upd_fields.
Qed.

Lemma all_flows_fq_dequeue_pass h now q :
  all_flows P q → all_flows P (pass_state (fq_dequeue_pass h now q)).
Proof.
  intros H. unfold fq_dequeue_pass.
  destruct (fq_select_head q) as [hd|]; cbn [pass_state].
  2:{ destruct (negb _); [by apply (all_flows_ext q) | done]. }
  destruct (head_list hd q) as [|f rest]; [done|].
  destruct (negb (_ =? -1) && negb (is_co hd)); cbn [pass_state].
  { apply (all_flows_ext (Promotecoflows hd f q)); [done|done|].
    unfold Promotecoflows. by apply all_flows_fq_flow_add_tail, all_flows_pop_head. }
  destruct ((ucounter (co q) =? 2) && negb (is_co hd)); cbn [pass_state].
  { by apply (all_flows_ext q). }
  destruct ((ucounter (co q) =? 0) && is_co hd); cbn [pass_state].
  { by apply (all_flows_ext q). }
  match goal with
  | |- context [credit (get_flow ?q1' f) <=? 0] => set (q1 := q1')
  end.
  assert (H1 : all_flows P q1).
  { unfold q1. destruct (negb _ && is_co hd); [by apply (all_flows_ext q) | done]. }
  clearbody q1. clear H.
  destruct (credit (get_flow q1 f) <=? 0); cbn [pass_state].
  { by apply all_flows_fq_flow_add_tail, all_flows_pop_head,
      all_flows_upd_fields. }
  destruct (fq_peek (get_flow q1 f)) as [skb|].
  - destruct (now <? _); cbn [pass_state].
    + by apply all_flows_fq_flow_set_throttled, all_flows_upd_fields,
        all_flows_pop_head.
    + apply all_flows_fq_dequeue_pace, all_flows_fq_dequeue_skb.
      destruct (s64 _ >? 0); [by apply (all_flows_ext q1) | done].
  - destruct (_ && _); cbn [pass_state].
    + by apply all_flows_fq_flow_add_tail, all_flows_pop_head.
    + match goal with
      | |- all_flows P (set_inactive_flows _ ?q3) =>
          apply (all_flows_ext q3); [done|done|]
      end.
      by apply all_flows_upd_fields, all_flows_pop_head.
Qed.

Lemma all_flows_fq_dequeue_loop h now fuel : ∀ q skb q',
  all_flows P q → fq_dequeue_loop fuel h now q = Some (skb, q') →
  all_flows P q'.
Proof.
  induction fuel as [|fuel IH]; intros q skb q' H; simpl; [done|].
  pose proof (all_flows_fq_dequeue_pass h now q H) as Hp.
  destruct (fq_dequeue_pass h now q) as [s q1|q1]; simpl in Hp.
  - by intros [= _ <-].
  - by apply IH.
Qed.

Lemma all_flows_fq_dequeue fuel h q skb q' :
  all_flows P q → fq_dequeue fuel h q = Some (skb, q') → all_flows P q'.
Proof.
  intros H. unfold fq_dequeue.
  destruct (sch_qlen q =? 0); [by intros [= _ <-]|].
  destruct (fq_peek (internal q)) as [s|].
  { intros [= _ <-]. by apply all_flows_fq_dequeue_skb. }
  cbv zeta. apply all_flows_fq_dequeue_loop.
  apply all_flows_fq_check_throttled. by apply (all_flows_ext q).
Qed.

(** Flows are dropped from the table. *)
Lemma all_flows_forget q m' :
  (∀ k, m' !! k = fq_root q !! k ∨ m' !! k = None) →
  all_flows P q → all_flows P (set_fq_root m' q).
Proof.
  intros Hm H [|k]; [apply (H Internal)|]. simpl.
  destruct (Hm k) as [->| ->]; [apply (H (Dyn k)) | apply (pp_zero P HP)].
Qed.

Lemma all_flows_fq_gc h q key : all_flows P q → all_flows P (fq_gc h q key).
Proof.
  intros H. unfold fq_gc. cbv zeta. destruct (_ =? 0); [done|].
  match goal with
  | |- all_flows P (set_st _ (set_inactive_flows _ (set_flows _ ?q1))) =>
      apply (all_flows_ext q1); [done|done|]
  end.
  apply all_flows_forget; [|done]. intros k.
  destruct (decide (k ∈ fq_gc_scan h (fq_root q) key (rb_path h) [])).
  - right. by apply lookup_foldr_delete_in.
  - left. by apply lookup_foldr_delete.
Qed.

Lemma all_flows_fq_rehash h q : all_flows P q → all_flows P (fq_rehash h q).
Proof.
  intros H. unfold fq_rehash. cbv zeta.
  match goal with
  | |- all_flows P (set_st _ (set_inactive_flows _ (set_flows _ ?q1))) =>
      apply (all_flows_ext q1); [done|done|]
  end.
  apply all_flows_forget; [|done]. intros k.
  destruct (fq_root q !! k) as [f|] eqn:Hf.
  - destruct (fq_gc_candidate h f) eqn:Hc.
    + right. apply map_lookup_filter_None. right. intros f' Hf'. simpl.
      rewrite Hf in Hf'. injection Hf' as <-. by rewrite Hc.
    + left. by apply map_lookup_filter_Some.
  - left. apply map_lookup_filter_None. by left.
Qed.

Lemma all_flows_fq_resize h q log :
  all_flows P q → all_flows P (fq_resize h q log).2.
Proof.
  intros H. unfold fq_resize.
  destruct (negb _ && _); [done|].
  destruct (negb (kvmalloc_ok h)); [done|]. cbn [snd].
  apply (all_flows_ext (if fq_root_null q then q else fq_rehash h q));
    [done|done|].
  destruct (fq_root_null q); [done | by apply all_flows_fq_rehash].
Qed.

Lemma all_flows_fq_classify h skb q :
  all_flows P q → all_flows P (fq_classify h skb q).2.
Proof.
  intros H. unfold fq_classify. case_match; [done|].
  destruct (fq_classify_key skb q) as [key skb1].
  match goal with
  | |- context [if ?c then fq_gc h q key else q] =>
      set (q1 := if c then fq_gc h q key else q)
  end.
  assert (H1 : all_flows P q1).
  { unfold q1. case_match; [by apply all_flows_fq_gc | done]. }
  clearbody q1. clear H.
  destruct (fq_root q1 !! key) as [f0|] eqn:Hf0.
  - destruct (keyed_sock skb1 key) as [s|]; [|done].
    destruct (negb _); [|done]. cbv zeta. cbn [fst snd].
    apply all_flows_upd_fields; [done|].
    match goal with
    | |- all_flows P (if _ then fq_flow_unset_throttled ?q2 _ else _) =>
        assert (H2 : all_flows P q2) by (by apply all_flows_upd_fields)
    end.
    destruct (fq_flow_is_throttled _);
      [by apply all_flows_fq_flow_unset_throttled | done].
  - destruct (negb (kmem_cache_zalloc_ok h)); cbn [snd].
    { by apply (all_flows_ext q1). }
    cbv zeta.
    match goal with
    | |- all_flows P (set_inactive_flows _ (set_flows _ ?q2)) =>
        apply (all_flows_ext q2); [done|done|]
    end.
    match goal with
    | |- context [<[key := ?x]> (fq_root q1)] => set (f2 := x)
    end.
    change (set_fq_root (<[key:=f2]> (fq_root q1)) q1)
      with (upd_flow (Dyn key) (λ _, f2) q1).
    apply all_flows_upd_flow; [|done]. intros _ _.
    apply (pp_packets P HP zero_flow); [| |apply (pp_zero P HP)];
      unfold f2; by destruct (keyed_sock skb1 key).
Qed.

Lemma all_flows_fq_enqueue_horizon h skb q :
  all_flows P q → all_flows P (fq_enqueue_horizon h skb q).2.
Proof.
  intros H. unfold fq_enqueue_horizon.
  repeat case_match; by apply (all_flows_ext q).
Qed.

Lemma all_flows_fq_enqueue_detached h skb f q q' :
  fq_enqueue_detached h skb f q = Some q' → all_flows P q → all_flows P q'.
Proof.
  unfold fq_enqueue_detached. cbv zeta.
  destruct (sk skb) as [s|]; [|done]. intros Hq H. apply (inj Some) in Hq.
  subst q'.
  match goal with
  | |- all_flows P (set_inactive_flows _ ?q3) =>
      apply (all_flows_ext q3); [done|done|]
  end.
  assert (H2 : all_flows P (fq_flow_add_tail NEW_FLOWS f q))
    by (by apply all_flows_fq_flow_add_tail).
  destruct (time_after _ _).
  - apply all_flows_upd_fields; [done|]. revert H2. by apply all_flows_ext.
  - revert H2. by apply all_flows_ext.
Qed.

Lemma all_flows_fq_enqueue_tail skb f q :
  all_flows P q → all_flows P (fq_enqueue_tail skb f q).
Proof.
  intros H. unfold fq_enqueue_tail. cbv zeta.
  set (q1 := upd_flow f _ q).
  assert (H1 : all_flows P q1) by (by apply all_flows_upd_fields).
  clearbody q1.
  match goal with
  | |- context [upd_flow f (λ fl, flow_queue_add fl skb) ?q3'] => set (q3 := q3')
  end.
  assert (H3 : all_flows P q3).
  { unfold q3. repeat case_match;
      repeat (apply (all_flows_ext q1); [done|done|]); done. }
  clearbody q3.
  assert (H4 : all_flows P (upd_flow f (λ fl, flow_queue_add fl skb) q3)).
  { apply all_flows_upd_flow; [|done]. intros fl. apply (pp_add P HP). }
  match goal with
  | |- all_flows P (set_sch_qlen _ ?q5) =>
      apply (all_flows_ext q5); [done|done|]
  end.
  destruct (is_internal f); [|done]. revert H4. by apply all_flows_ext.
Qed.

Lemma all_flows_fq_enqueue h skb q :
  all_flows P q → all_flows P (fq_enqueue h skb q).2.
Proof.
  intros H. unfold fq_enqueue.
  destruct (sch_qlen q >=? limit (cfg q)); [done|].
  pose proof (all_flows_fq_enqueue_horizon h skb q H) as H1.
  destruct (fq_enqueue_horizon h skb q) as [[skb1|] q1]; [|done].
  cbn [snd] in H1.
  pose proof (all_flows_fq_classify h skb1 q1 H1) as H2.
  destruct (fq_classify h skb1 q1) as [[f skb2] q2]. cbn [snd] in H2.
  destruct (_ && negb (is_internal f)); cbn [snd].
  { by apply (all_flows_ext q2). }
  cbv zeta.
  set (q3 := upd_flow f (λ fl, set_qlen (s32 (qlen fl + 1)) fl) q2).
  assert (H3 : all_flows P q3) by (by apply all_flows_upd_fields).
  clearbody q3.
  destruct (fq_flow_is_detached (get_flow q3 f)).
  - destruct (fq_enqueue_detached h skb2 f q3) as [q5|] eqn:H5; [|done].
    cbn [snd]. apply all_flows_fq_enqueue_tail.
    by eapply all_flows_fq_enqueue_detached.
  - cbn [snd]. by apply all_flows_fq_enqueue_tail.
Qed.

Lemma all_flows_fq_reset q : all_flows P q → all_flows P (fq_reset q).
Proof.
  intros H. unfold fq_reset. cbv zeta.
  assert (Hi : P (fq_flow_purge (internal q))).
  { apply (pp_packets P HP zero_flow); [done|done|apply (pp_zero P HP)]. }
  destruct (fq_root_null _).
  - intros [|k]; [exact Hi | apply (H (Dyn k))].
  - intros [|k]; [exact Hi|]. simpl. rewrite lookup_empty.
    apply (pp_zero P HP).
Qed.

Lemma all_flows_fq_change_trim n fuel hs : ∀ q q',
  all_flows P q → fq_change_trim n fuel hs q = Some q' → all_flows P q'.
Proof.
  induction n as [|n IH]; intros q q' H; simpl.
  - destruct (_ >? _); [done|]. by intros [= <-].
  - destruct (_ >? _); [|by intros [= <-]].
    destruct (fq_dequeue fuel (hs n) q) as [[[s|] q1]|] eqn:Hd; [| |done].
    + apply IH. by eapply all_flows_fq_dequeue.
    + intros [= <-]. by eapply all_flows_fq_dequeue.
Qed.

Lemma all_flows_fq_change n fuel h hs opt q r q' :
  all_flows P q → fq_change n fuel h hs opt q = Some (r, q') →
  all_flows P q'.
Proof.
  intros H. unfold fq_change.
  destruct opt as [tb|]; [|by intros [= _ <-]].
  destruct (nla_err tb <? 0); [by intros [= _ <-]|].
  cbv zeta.
  set (q1 := set_cfg _ q).
  assert (H1 : all_flows P q1) by (by apply (all_flows_ext q)).
  clearbody q1.
  pose proof (all_flows_fq_resize h q1 (fq_change_log tb q) H1) as H2.
  destruct (fq_change_err tb =? 0).
  - destruct (fq_resize h q1 (fq_change_log tb q)) as [e q2]. cbn [snd] in H2.
    destruct (fq_change_trim n fuel hs q2) as [q3|] eqn:Ht; [|done].
    intros [= _ <-]. exact (all_flows_fq_change_trim n fuel hs q2 q3 H2 Ht).
  - destruct (fq_change_trim n fuel hs q1) as [q3|] eqn:Ht; [|done].
    intros [= _ <-]. exact (all_flows_fq_change_trim n fuel hs q1 q3 H1 Ht).
Qed.

Lemma all_flows_fq_init n fuel h hs opt g r q' :
  fq_init n fuel h hs opt (qdisc_alloc g) = Some (r, q') → all_flows P q'.
Proof.
  unfold fq_init. cbv zeta.
  assert (H0 : all_flows P (fq_init_defaults h (qdisc_alloc g))).
  { intros [|k]; apply (pp_zero P HP). }
  destruct opt as [tb|].
  - by apply all_flows_fq_change.
  - intros Hr. apply (inj Some) in Hr.
    pose proof (all_flows_fq_resize h _
      (fq_trees_log (fq_init_defaults h (qdisc_alloc g))) H0) as H1.
    by rewrite Hr in H1.
Qed.

End AllFlows.

(** ** The order of the packets of every flow *)

Lemma packet_property_flow_ordered : packet_property flow_ordered.
Proof.
  split.
  - intros fl fl' Hh Ht. unfold flow_ordered. by rewrite Hh, Ht.
  - apply zero_flow_ordered.
  - apply flow_queue_add_ordered.
  - apply fq_erase_head_ordered.
Qed.

Lemma all_flows_fq_op_step P op q q' :
  packet_property P → all_flows P q → fq_op_step op q = Some q' →
  all_flows P q'.
Proof.
  intros HP H. destruct op as [h skb|fuel h| |n fuel h hs opt]; simpl.
  - pose proof (all_flows_fq_enqueue P HP h skb q H) as H1.
    destruct (fq_enqueue h skb q) as [[|why|] q1]; cbn [snd] in H1; [| |done];
      by intros [= <-].
  - destruct (fq_dequeue fuel h q) as [[s q1]|] eqn:Hd; [|done].
    intros [= <-]. by eapply all_flows_fq_dequeue.
  - intros [= <-]. by apply all_flows_fq_reset.
  - destruct (fq_change n fuel h hs opt q) as [[r q1]|] eqn:Hc; [|done].
    intros [= <-]. by eapply all_flows_fq_change.
Qed.

Lemma all_flows_fq_run P ops : ∀ q q',
  packet_property P → all_flows P q → fq_run ops q = Some q' →
  all_flows P q'.
Proof.
  induction ops as [|op ops IH]; intros q q' HP H; simpl.
  - by intros [= <-].
  - destruct (fq_op_step op q) as [q1|] eqn:Hs; [|done].
    apply IH; [done|]. by eapply all_flows_fq_op_step.
Qed.

(** X21.  In every state reached from [fq_init] by enqueues, dequeues,
    resets and changes of the configuration, the chain and the tree of
    every flow are in [time_to_send] order, so [fq_peek] of a flow yields
    a packet of the flow that no packet of the flow precedes. *)
Theorem flows_stay_ordered
    (n fuel : nat) (h : host) (hs : nat → host) (opt : option nlattr)
    (g : coflow_globals) (rc : Z) (q0 q : fq_sched_data) (ops : list fq_op) :
  fq_init n fuel h hs opt (qdisc_alloc g) = Some (rc, q0) →
  fq_run ops q0 = Some q →
  ∀ r,
    sorted_by time_to_send (head (get_flow q r))
    ∧ sorted_by time_to_send (t_root (get_flow q r))
    ∧ ∀ skb x, fq_peek (get_flow q r) = Some skb →
               x ∈ flow_packets (get_flow q r) →
               skb ∈ flow_packets (get_flow q r)
               ∧ time_to_send skb <= time_to_send x.
Proof.
  intros Hi Hr r.
  assert (H : all_flows flow_ordered q).
  { eapply all_flows_fq_run; [apply packet_property_flow_ordered| |done].
    eapply all_flows_fq_init; [apply packet_property_flow_ordered|done]. }
  destruct (H r) as [Hh Ht]. split; [done|]. split; [done|].
  intros skb x Hp Hx. split; [by apply fq_peek_elem_of|].
  by apply (fq_peek_earliest (get_flow q r)).
Qed.

Lemma flows_stay_ordered_witness :
  let h := host_at 0 in
  let ops := [OpEnqueue h (pkt 300 50 33 sock_X);
              OpEnqueue h (pkt 302 20 33 sock_X);
              OpEnqueue h (pkt 304 70 33 sock_X)] in
  ∃ q, fq_run ops sched0 = Some q
       ∧ (skb_addr <$> head (get_flow q (Dyn 3000))) = [300; 304]
       ∧ (skb_addr <$> t_root (get_flow q (Dyn 3000))) = [302]
       ∧ sorted_by time_to_send (head (get_flow q (Dyn 3000))).
Proof.
  intros h ops.
  assert (Hi : fq_init 0 0 h (λ _, h) None (qdisc_alloc (Globals 0 0 0 0 0 0))
               = Some (0, sched0)) by (vm_compute; reflexivity).
  destruct (fq_run ops sched0) as [q|] eqn:Hr.
  - exists q. split; [done|].
    pose proof (flows_stay_ordered 0 0 h (λ _, h) None _ 0 sched0 q ops Hi Hr
                  (Dyn 3000)) as (Hs & _).
    assert (Hq : Some q = fq_run ops sched0) by done.
    split; [|split; [|exact Hs]].
    + assert (E : (λ q, skb_addr <$> head (get_flow q (Dyn 3000)))
                    <$> Some q = Some [300; 304]).
      { rewrite Hq. vm_compute. reflexivity. }
      by injection E.
    + assert (E : (λ q, skb_addr <$> t_root (get_flow q (Dyn 3000)))
                    <$> Some q = Some [302]).
      { rewrite Hq. vm_compute. reflexivity. }
      by injection E.
  - exfalso. vm_compute in Hr. discriminate.
Defined.

(** ** The packets a dequeue takes *)

Lemma same_packets_refl q : same_packets q q.
Proof. by intros r. Qed.

Lemma same_packets_trans q1 q2 q3 :
  same_packets q1 q2 → same_packets q2 q3 → same_packets q1 q3.
Proof.
  intros H1 H2 r. destruct (H1 r) as [<- <-]. apply H2.
Qed.

Lemma same_packets_ext q q' :
  fq_root q' = fq_root q → internal q' = internal q → same_packets q q'.
Proof. intros Hr Hi r. by rewrite (get_flow_ext q q'). Qed.

Lemma same_packets_upd_fields f g q :
  (∀ fl, head (g fl) = head fl ∧ t_root (g fl) = t_root fl) →
  same_packets q (upd_flow f g q).
Proof.
  intros Hg r. destruct (decide (r = f)) as [->|Hne].
  - rewrite get_upd_flow. apply Hg.
  - by rewrite get_upd_flow_ne.
Qed.

Lemma same_packets_set_head_list hd v q : same_packets q (set_head_list hd v q).
Proof. apply same_packets_ext; by destruct hd. Qed.

Lemma same_packets_fq_flow_add_tail hd f q :
  same_packets q (fq_flow_add_tail hd f q).
Proof.
  unfold fq_flow_add_tail.
  eapply same_packets_trans; [|apply same_packets_set_head_list].
  by apply same_packets_upd_fields.
Qed.

Lemma same_packets_fq_flow_unset_throttled q f :
  same_packets q (fq_flow_unset_throttled q f).
Proof.
  unfold fq_flow_unset_throttled. cbv zeta.
  eapply same_packets_trans; [|apply same_packets_fq_flow_add_tail].
  by apply same_packets_ext.
Qed.

Lemma same_packets_fq_flow_set_throttled q f :
  same_packets q (fq_flow_set_throttled q f).
Proof.
  unfold fq_flow_set_throttled. cbv zeta.
  match goal with
  | |- same_packets q (if _ then set_time_next_delayed_flow _ ?q4 else ?q4) =>
      assert (H4 : same_packets q q4)
  end.
  { eapply same_packets_trans; [|by apply same_packets_upd_fields].
    by apply same_packets_ext. }
  case_match; [|done].
  eapply same_packets_trans; [exact H4|]. by apply same_packets_ext.
Qed.

Lemma same_packets_fq_check_throttled_loop n now : ∀ q,
  same_packets q (fq_check_throttled_loop n now q).
Proof.
  induction n as [|n IH]; intros q; simpl; [apply same_packets_refl|].
  destruct (delayed q) as [|f l]; [apply same_packets_refl|].
  case_match; [by apply same_packets_ext|].
  eapply same_packets_trans; [apply same_packets_fq_flow_unset_throttled|].
  apply IH.
Qed.

Lemma same_packets_fq_check_throttled q now :
  same_packets q (fq_check_throttled q now).
Proof.
  unfold fq_check_throttled. case_match; [apply same_packets_refl|]. cbv zeta.
  eapply same_packets_trans; [|apply same_packets_fq_check_throttled_loop].
  by apply same_packets_ext.
Qed.

Lemma same_packets_fq_dequeue_pace now q f skb :
  same_packets q (fq_dequeue_pace now q f skb).
Proof.
  unfold fq_dequeue_pace. cbv zeta.
  set (q1 := upd_flow f _ q).
  assert (H1 : same_packets q q1) by (by apply same_packets_upd_fields).
  clearbody q1.
  destruct (rate_enable (cfg q1) =? 0); [done|].
  match goal with
  | |- same_packets q (match ?step with _ => _ end) =>
      destruct step as [[[rate plen1] q2]|] eqn:Hstep
  end; [|done].
  assert (H2 : same_packets q q2).
  { revert Hstep. repeat case_match; intros [= <- <- <-];
      first [ done
            | eapply same_packets_trans; [exact H1|];
              by apply same_packets_upd_fields ]. }
  destruct (rate =? U64_MAX); [done|].
  match goal with
  | |- same_packets q (let '(_, _) := ?p in _) => destruct p as [len2 q3] eqn:Hp
  end.
  assert (H3 : same_packets q q3).
  { match type of Hp with (if ?c then _ else _) = _ => destruct c end;
      revert Hp; intros [= <- <-];
      first [ done
            | eapply same_packets_trans; [exact H2|];
              by apply same_packets_ext ]. }
  eapply same_packets_trans; [exact H3|]. by apply same_packets_upd_fields.
Qed.

Lemma fq_peek_packets fl fl' :
  head fl' = head fl → t_root fl' = t_root fl → fq_peek fl' = fq_peek fl.
Proof. intros Hh Ht. unfold fq_peek. by rewrite Hh, Ht. Qed.

Lemma fq_erase_head_packets_eq fl fl' skb :
  head fl' = head fl → t_root fl' = t_root fl →
  head (fq_erase_head fl' skb) = head (fq_erase_head fl skb)
  ∧ t_root (fq_erase_head fl' skb) = t_root (fq_erase_head fl skb).
Proof.
  intros Hh Ht. unfold fq_erase_head. rewrite Hh, Ht.
  destruct (head fl) as [|x rest] eqn:E; simpl; [by rewrite Hh, E|].
  destruct (skb_addr skb =? skb_addr x); simpl; by rewrite ?Hh, ?Ht, ?E.
Qed.

Lemma pass_takes_same q q1 p :
  same_packets q q1 → pass_takes q1 p → pass_takes q p.
Proof.
  intros Hs. destruct p as [[skb|] q'|q']; simpl.
  - intros (f & Hp & Hoth & Hh & Ht). exists f.
    destruct (Hs f) as [Hsh Hst].
    split; [by rewrite <- (fq_peek_packets (get_flow q f) (get_flow q1 f))|].
    split.
    { intros r Hne. destruct (Hoth r Hne) as [-> ->]. apply Hs. }
    rewrite Hh, Ht.
    by apply fq_erase_head_packets_eq.
  - by apply same_packets_trans.
  - by apply same_packets_trans.
Qed.

Lemma fq_dequeue_skb_takes q f skb :
  fq_peek (get_flow q f) = Some skb →
  pass_takes q (Done (Some skb) (fq_dequeue_skb q f skb)).
Proof.
  intros Hp. simpl. exists f. split; [done|].
  unfold fq_dequeue_skb. cbv zeta.
  assert (Hg : ∀ r, get_flow
    (set_sch_qlen (u32 (sch_qlen (upd_flow f
        (λ fl, set_qlen (s32 (qlen fl - 1)) (fq_erase_head fl skb)) q) - 1))
       (upd_flow f (λ fl, set_qlen (s32 (qlen fl - 1)) (fq_erase_head fl skb)) q)) r
    = get_flow (upd_flow f
        (λ fl, set_qlen (s32 (qlen fl - 1)) (fq_erase_head fl skb)) q) r)
    by (intros r; by destruct r).
  split.
  - intros r Hne. by rewrite Hg, get_upd_flow_ne.
  - by rewrite Hg, get_upd_flow.
Qed.

Lemma pass_takes_then q skb q1 q2 :
  pass_takes q (Done (Some skb) q1) → same_packets q1 q2 →
  pass_takes q (Done (Some skb) q2).
Proof.
  simpl. intros (f & Hp & Hoth & Hh & Ht) Hs. exists f. split; [done|].
  split.
  - intros r Hne. destruct (Hs r) as [-> ->]. by apply Hoth.
  - destruct (Hs f) as [-> ->]. done.
Qed.

Lemma sp_ext q0 q q' :
  fq_root q' = fq_root q → internal q' = internal q →
  same_packets q0 q → same_packets q0 q'.
Proof.
  intros Hr Hi H. eapply same_packets_trans; [exact H|].
  by apply same_packets_ext.
Qed.

Lemma sp_upd_fields q0 f g q :
  (∀ fl, head (g fl) = head fl ∧ t_root (g fl) = t_root fl) →
  same_packets q0 q → same_packets q0 (upd_flow f g q).
Proof.
  intros Hg H. eapply same_packets_trans; [exact H|].
  by apply same_packets_upd_fields.
Qed.

Lemma sp_pop_head q0 hd q : same_packets q0 q → same_packets q0 (pop_head hd q).
Proof.
  intros H. eapply same_packets_trans; [exact H|].
  apply same_packets_set_head_list.
Qed.

Lemma sp_fq_flow_add_tail q0 hd f q :
  same_packets q0 q → same_packets q0 (fq_flow_add_tail hd f q).
Proof.
  intros H. eapply same_packets_trans; [exact H|].
  apply same_packets_fq_flow_add_tail.
Qed.

Lemma sp_fq_flow_set_throttled q0 q f :
  same_packets q0 q → same_packets q0 (fq_flow_set_throttled q f).
Proof.
  intros H. eapply same_packets_trans; [exact H|].
  apply same_packets_fq_flow_set_throttled.
Qed.

Lemma fq_dequeue_pass_takes h now q : pass_takes q (fq_dequeue_pass h now q).
Proof.
  pose proof (same_packets_refl q) as H0.
  unfold fq_dequeue_pass.
  destruct (fq_select_head q) as [hd|]; cbn [pass_takes].
  2:{ destruct (negb _); [by apply (sp_ext q q) | done]. }
  destruct (head_list hd q) as [|f rest]; [done|].
  destruct (negb (_ =? -1) && negb (is_co hd)); cbn [pass_takes].
  { apply (sp_ext q (Promotecoflows hd f q)); [done|done|].
    unfold Promotecoflows. by apply sp_fq_flow_add_tail, sp_pop_head. }
  destruct ((ucounter (co q) =? 2) && negb (is_co hd)); cbn [pass_takes].
  { by apply (sp_ext q q). }
  destruct ((ucounter (co q) =? 0) && is_co hd); cbn [pass_takes].
  { by apply (sp_ext q q). }
  match goal with
  | |- context [credit (get_flow ?q1' f) <=? 0] => set (q1 := q1')
  end.
  assert (H1 : same_packets q q1).
  { unfold q1. destruct (negb _ && is_co hd); [by apply (sp_ext q q) | done]. }
  clearbody q1. apply (pass_takes_same q q1); [done|]. clear H1 H0.
  pose proof (same_packets_refl q1) as H1.
  destruct (credit (get_flow q1 f) <=? 0); cbn [pass_takes].
  { by apply sp_fq_flow_add_tail, sp_pop_head, sp_upd_fields. }
  destruct (fq_peek (get_flow q1 f)) as [skb|] eqn:Hp.
  - destruct (now <? _); cbn [pass_takes].
    + by apply sp_fq_flow_set_throttled, sp_upd_fields, sp_pop_head.
    + cbv zeta.
      match goal with
      | |- context [fq_dequeue_skb ?q2' f skb] => set (q2 := q2')
      end.
      assert (H2 : same_packets q1 q2).
      { unfold q2. destruct (s64 _ >? 0); [by apply (sp_ext q1 q1) | done]. }
      assert (Hp2 : fq_peek (get_flow q2 f) = Some skb).
      { destruct (H2 f) as [Hh Ht]. by rewrite (fq_peek_packets (get_flow q1 f)). }
      clearbody q2.
      change (pass_takes q1
                (Done (Some skb) (fq_dequeue_pace now (fq_dequeue_skb q2 f skb) f skb))).
      apply (pass_takes_same q1 q2); [done|].
      apply (pass_takes_then q2 skb (fq_dequeue_skb q2 f skb));
        [by apply fq_dequeue_skb_takes|].
      apply same_packets_fq_dequeue_pace.
  - destruct (_ && _); cbn [pass_takes].
    + by apply sp_fq_flow_add_tail, sp_pop_head.
    + match goal with
      | |- same_packets q1 (set_inactive_flows _ ?q3) =>
          apply (sp_ext q1 q3); [done|done|]
      end.
      by apply sp_upd_fields, sp_pop_head.
Qed.

Lemma fq_dequeue_loop_takes h now fuel : ∀ q r q',
  fq_dequeue_loop fuel h now q = Some (r, q') → pass_takes q (Done r q').
Proof.
  induction fuel as [|fuel IH]; intros q r q'; simpl fq_dequeue_loop; [done|].
  pose proof (fq_dequeue_pass_takes h now q) as Hp.
  destruct (fq_dequeue_pass h now q) as [s q1|q1].
  - by intros [= <- <-].
  - intros Hl. apply (pass_takes_same q q1); [exact Hp|]. by apply IH.
Qed.

Lemma fq_dequeue_takes fuel h q r q' :
  fq_dequeue fuel h q = Some (r, q') → pass_takes q (Done r q').
Proof.
  unfold fq_dequeue.
  destruct (sch_qlen q =? 0); [intros [= <- <-]; apply same_packets_refl|].
  destruct (fq_peek (internal q)) as [s|] eqn:Hi.
  { intros [= <- <-]. by apply (fq_dequeue_skb_takes q Internal). }
  cbv zeta. intros Hl. apply fq_dequeue_loop_takes in Hl.
  eapply pass_takes_same; [|exact Hl].
  eapply same_packets_trans; [|apply same_packets_fq_check_throttled].
  by apply same_packets_ext.
Qed.

(** Removing the packet [fq_peek] yields takes one packet out of the flow,
    one at the address of that packet, and leaves the others in place. *)
Lemma fq_erase_head_peek fl skb :
  fq_peek fl = Some skb →
  ∃ l1 l2 x, flow_packets fl = l1 ++ x :: l2
             ∧ flow_packets (fq_erase_head fl skb) = l1 ++ l2
             ∧ skb_addr x = skb_addr skb.
Proof.
  unfold fq_peek, fq_erase_head, flow_packets.
  destruct (t_root fl) as [|t tl] eqn:Et, (head fl) as [|h rest] eqn:Eh.
  - done.
  - intros [= <-]. rewrite Z.eqb_refl. cbn [head t_root set_head].
    exists [], (rest ++ t_root fl), h. by rewrite Et.
  - intros [= <-]. cbn [head t_root set_t_root rb_erase_skb].
    rewrite Z.eqb_refl, Eh. by exists [], tl, t.
  - destruct (time_to_send t <? time_to_send h); intros [= <-].
    + destruct (Z.eqb_spec (skb_addr t) (skb_addr h)) as [Ha|Ha].
      * cbn [head t_root set_head]. rewrite Et.
        by exists [], (rest ++ t :: tl), h.
      * cbn [head t_root set_t_root rb_erase_skb].
        rewrite Z.eqb_refl, Eh.
        exists (h :: rest), tl, t. by rewrite <- app_comm_cons.
    + rewrite Z.eqb_refl. cbn [head t_root set_head]. rewrite Et.
      by exists [], (rest ++ t :: tl), h.
Qed.

Lemma NoDup_fmap_elem_of {A B} (g : A → B) (l : list A) a b :
  NoDup (g <$> l) → a ∈ l → b ∈ l → g a = g b → a = b.
Proof.
  intros Hn [i Hi]%list_elem_of_lookup [j Hj]%list_elem_of_lookup Hg.
  assert (i = j) as ->.
  { apply (NoDup_lookup (g <$> l) i j (g a)); [done| |].
    - by rewrite list_lookup_fmap, Hi.
    - by rewrite list_lookup_fmap, Hj, Hg. }
  congruence.
Qed.

(** X22.  A call of [fq_dequeue] that returns a packet takes it from one
    flow, of which it is the packet [fq_peek] yields, hence one that no
    packet of that flow precedes when the flow is in order.  That flow
    holds one packet less afterwards: the packet that is gone is at the
    address of the one returned, and is the one returned when the
    addresses of the packets of the flow are distinct; the other packets
    of the flow stay, in their order, and every other flow keeps all of
    its packets.  A call that returns none leaves every packet where it
    is. *)
Theorem dequeue_takes_the_first_of_one_flow
    (fuel : nat) (h : host) (q q' : fq_sched_data) (r : option sk_buff) :
  fq_dequeue fuel h q = Some (r, q') →
  match r with
  | Some skb =>
      ∃ f, fq_peek (get_flow q f) = Some skb
           ∧ skb ∈ flow_packets (get_flow q f)
           ∧ (flow_ordered (get_flow q f) →
              ∀ x, x ∈ flow_packets (get_flow q f) →
                   time_to_send skb <= time_to_send x)
           ∧ (∃ l1 l2 x,
                flow_packets (get_flow q f) = l1 ++ x :: l2
                ∧ flow_packets (get_flow q' f) = l1 ++ l2
                ∧ skb_addr x = skb_addr skb
                ∧ (NoDup (skb_addr <$> flow_packets (get_flow q f)) →
                   x = skb
                   ∧ skb_addr skb
                     ∉ skb_addr <$> flow_packets (get_flow q' f)))
           ∧ length (flow_packets (get_flow q f))
             = S (length (flow_packets (get_flow q' f)))
           ∧ (∀ x, x ∈ flow_packets (get_flow q' f) →
                   x ∈ flow_packets (get_flow q f))
           ∧ ∀ r', r' ≠ f →
                   flow_packets (get_flow q' r') = flow_packets (get_flow q r')
  | None => ∀ r', flow_packets (get_flow q' r') = flow_packets (get_flow q r')
  end.
Proof.
  intros Hd. apply fq_dequeue_takes in Hd. destruct r as [skb|]; simpl in Hd.
  - destruct Hd as (f & Hp & Hoth & Hh & Ht). exists f.
    split; [done|]. split; [by apply fq_peek_elem_of|].
    split; [intros Ho x Hx; by apply (fq_peek_earliest (get_flow q f))|].
    assert (Hf : flow_packets (get_flow q' f)
                 = flow_packets (fq_erase_head (get_flow q f) skb)).
    { unfold flow_packets. by rewrite Hh, Ht. }
    destruct (fq_erase_head_peek (get_flow q f) skb Hp)
      as (l1 & l2 & x & E1 & E2 & Ha).
    rewrite <- Hf in E2.
    split; [|split; [|split]].
    + exists l1, l2, x. split; [done|]. split; [done|]. split; [done|].
      intros Hn.
      assert (x = skb) as ->.
      { apply (NoDup_fmap_elem_of skb_addr (flow_packets (get_flow q f)));
          [done| |by apply fq_peek_elem_of|done].
        rewrite E1. apply elem_of_app. right. by left. }
      split; [done|].
      rewrite E1, fmap_app, fmap_cons in Hn. rewrite E2, fmap_app.
      apply NoDup_app in Hn as (_ & Hn1 & Hn2).
      apply NoDup_cons in Hn2 as [Hn2 _].
      intros [Hin|Hin]%elem_of_app; [|done].
      apply (Hn1 _ Hin). by left.
    + rewrite E1, E2, !length_app. simpl. lia.
    + intros y. rewrite Hf. apply fq_erase_head_packets.
    + intros r' Hne. unfold flow_packets. by destruct (Hoth r' Hne) as [-> ->].
  - intros r'. unfold flow_packets. by destruct (Hd r') as [-> ->].
Qed.

Lemma dequeue_takes_the_first_of_one_flow_witness :
  let h := host_at 100 in
  let q := enq h (pkt 304 70 33 sock_X)
             (enq h (pkt 302 20 33 sock_X)
                (enq h (pkt 300 50 33 sock_X) sched0)) in
  (skb_addr <$> flow_packets (get_flow q (Dyn 3000))) = [300; 304; 302]
  ∧ deq_skb 10 h q = Some (Some 302)
  ∧ (skb_addr <$> flow_packets (get_flow (deq 10 h q) (Dyn 3000))) = [300; 304]
  ∧ ∃ skb f, fq_peek (get_flow q f) = Some skb ∧ skb_addr skb = 302
             ∧ length (flow_packets (get_flow q f))
               = S (length (flow_packets (get_flow (deq 10 h q) f))).
Proof.
  intros h q.
  split; [vm_compute; reflexivity|]. split; [vm_compute; reflexivity|].
  split; [vm_compute; reflexivity|].
  assert (Hd : fq_dequeue 10 h q
    = Some (Some (set_time_to_send 20 (pkt 302 20 33 sock_X)), deq 10 h q))
    by (vm_compute; reflexivity).
  destruct (dequeue_takes_the_first_of_one_flow 10 h q _ _ Hd)
    as (f & Hp & _ & _ & _ & Hf & _).
  exists (set_time_to_send 20 (pkt 302 20 33 sock_X)), f.
  split; [exact Hp|]. split; [reflexivity | exact Hf].
Defined.

(** ** The count of throttled flows *)

Lemma throttled_counted_ext q q' :
  throttle_count q' = throttle_count q → throttled_counted q →
  throttled_counted q'.
Proof.
  unfold throttle_count, throttled_counted. intros E H.
  pose proof (f_equal fst E) as E1. pose proof (f_equal snd E) as E2.
  cbn [fst snd] in E1, E2. by rewrite E1, E2.
Qed.

Lemma throttle_count_upd_flow r g q :
  throttle_count (upd_flow r g q) = throttle_count q.
Proof. by destruct r. Qed.
Lemma throttle_count_set_head_list hd v q :
  throttle_count (set_head_list hd v q) = throttle_count q.
Proof. by destruct hd. Qed.
Lemma throttle_count_pop_head hd q :
  throttle_count (pop_head hd q) = throttle_count q.
Proof. apply throttle_count_set_head_list. Qed.
Lemma throttle_count_fq_flow_add_tail hd f q :
  throttle_count (fq_flow_add_tail hd f q) = throttle_count q.
Proof.
  unfold fq_flow_add_tail.
  by rewrite throttle_count_set_head_list, throttle_count_upd_flow.
Qed.
Lemma throttle_count_fq_dequeue_skb q f skb :
  throttle_count (fq_dequeue_skb q f skb) = throttle_count q.
Proof.
  unfold fq_dequeue_skb. cbv zeta.
  match goal with
  | |- throttle_count (set_sch_qlen _ ?q1) = _ =>
      change (throttle_count q1 = throttle_count q)
  end.
  apply throttle_count_upd_flow.
Qed.
Lemma throttle_count_fq_dequeue_pace now q f skb :
  throttle_count (fq_dequeue_pace now q f skb) = throttle_count q.
Proof.
  unfold fq_dequeue_pace. cbv zeta.
  repeat case_match; simplify_eq;
    repeat first [ rewrite throttle_count_upd_flow
                 | match goal with
                   | |- throttle_count (set_st _ ?x) = _ =>
                       change (throttle_count x = throttle_count q)
                   end ]; done.
Qed.

Lemma u32_add_l a b : u32 (u32 a + b) = u32 (a + b).
Proof. unfold u32, wrap. by rewrite Zplus_mod_idemp_l. Qed.

Lemma length_rb_insert {A} (key : A → Z) x l :
  length (rb_insert key x l) = S (length l).
Proof. induction l as [|y l IH]; simpl; [done|]. case_match; simpl; lia. Qed.

Lemma length_rb_erase f l :
  f ∈ l → S (length (rb_erase f l)) = length l.
Proof.
  induction l as [|x l IH]; [by intros ?%elem_of_nil|]. simpl.
  destruct (decide (x = f)) as [->|Hne]; [done|].
  intros [?|Hin]%elem_of_cons; [congruence|]. simpl. by rewrite IH.
Qed.

Lemma throttled_counted_fq_flow_set_throttled q f :
  throttled_counted q → throttled_counted (fq_flow_set_throttled q f).
Proof.
  unfold throttled_counted. intros H.
  assert (E : throttle_count (fq_flow_set_throttled q f)
    = (rb_insert (flow_tnp q) f (delayed q), u32 (throttled_flows q + 1))).
  { unfold fq_flow_set_throttled. cbv zeta.
    match goal with
    | |- throttle_count (if _ then set_time_next_delayed_flow _ ?q4 else ?q4) = _ =>
        assert (E4 : throttle_count q4
          = (rb_insert (flow_tnp q) f (delayed q), u32 (throttled_flows q + 1)))
          by (by rewrite throttle_count_upd_flow)
    end.
    by case_match. }
  pose proof (f_equal fst E) as E1. pose proof (f_equal snd E) as E2.
  unfold throttle_count in E1, E2. cbn [fst snd] in E1, E2.
  rewrite E1, E2, length_rb_insert, H, u32_add_l. f_equal. lia.
Qed.

Lemma throttled_counted_fq_flow_unset_throttled q f :
  f ∈ delayed q →
  throttled_counted q → throttled_counted (fq_flow_unset_throttled q f).
Proof.
  unfold throttled_counted. intros Hf H.
  assert (E : throttle_count (fq_flow_unset_throttled q f)
    = (rb_erase f (delayed q), u32 (throttled_flows q - 1))).
  { unfold fq_flow_unset_throttled. cbv zeta.
    by rewrite throttle_count_fq_flow_add_tail. }
  pose proof (f_equal fst E) as E1. pose proof (f_equal snd E) as E2.
  unfold throttle_count in E1, E2. cbn [fst snd] in E1, E2.
  rewrite E1, E2.
  rewrite H. rewrite <- (length_rb_erase f (delayed q) Hf).
  replace (u32 (Z.of_nat (S (length (rb_erase f (delayed q))))) - 1)
    with (u32 (Z.of_nat (S (length (rb_erase f (delayed q))))) + (-1)) by lia.
  rewrite u32_add_l. f_equal. lia.
Qed.

Lemma throttled_counted_fq_check_throttled_loop n now : ∀ q,
  throttled_counted q → throttled_counted (fq_check_throttled_loop n now q).
Proof.
  induction n as [|n IH]; intros q H; simpl; [done|].
  destruct (delayed q) as [|f l] eqn:Hd; [done|].
  case_match; [by apply (throttled_counted_ext q)|].
  apply IH, throttled_counted_fq_flow_unset_throttled; [|done].
  rewrite Hd. by left.
Qed.

Lemma throttled_counted_fq_check_throttled q now :
  throttled_counted q → throttled_counted (fq_check_throttled q now).
Proof.
  intros H. unfold fq_check_throttled. case_match; [done|]. cbv zeta.
  apply throttled_counted_fq_check_throttled_loop.
  by apply (throttled_counted_ext q).
Qed.

Lemma throttled_counted_fq_dequeue_pass h now q :
  throttled_counted q →
  throttled_counted (pass_state (fq_dequeue_pass h now q)).
Proof.
  intros H. unfold fq_dequeue_pass.
  destruct (fq_select_head q) as [hd|]; cbn [pass_state].
  2:{ destruct (negb _); [by apply (throttled_counted_ext q) | done]. }
  destruct (head_list hd q) as [|f rest]; [done|].
  destruct (negb (_ =? -1) && negb (is_co hd)); cbn [pass_state].
  { apply (throttled_counted_ext q); [|done].
    change (throttle_count (Promotecoflows hd f q) = throttle_count q).
    unfold Promotecoflows.
    by rewrite throttle_count_fq_flow_add_tail, throttle_count_pop_head. }
  destruct ((ucounter (co q) =? 2) && negb (is_co hd)); cbn [pass_state].
  { by apply (throttled_counted_ext q). }
  destruct ((ucounter (co q) =? 0) && is_co hd); cbn [pass_state].
  { by apply (throttled_counted_ext q). }
  match goal with
  | |- context [credit (get_flow ?q1' f) <=? 0] => set (q1 := q1')
  end.
  assert (H1 : throttled_counted q1).
  { unfold q1. destruct (negb _ && is_co hd);
      [by apply (throttled_counted_ext q) | done]. }
  clearbody q1. clear H.
  destruct (credit (get_flow q1 f) <=? 0); cbn [pass_state].
  { apply (throttled_counted_ext q1); [|done].
    by rewrite throttle_count_fq_flow_add_tail, throttle_count_pop_head,
      throttle_count_upd_flow. }
  destruct (fq_peek (get_flow q1 f)) as [skb|].
  - destruct (now <? _); cbn [pass_state].
    + apply throttled_counted_fq_flow_set_throttled.
      apply (throttled_counted_ext q1); [|done].
      by rewrite throttle_count_upd_flow, throttle_count_pop_head.
    + apply (throttled_counted_ext q1); [|done].
      rewrite throttle_count_fq_dequeue_pace, throttle_count_fq_dequeue_skb.
      by destruct (s64 _ >? 0).
  - destruct (_ && _); cbn [pass_state].
    + apply (throttled_counted_ext q1); [|done].
      by rewrite throttle_count_fq_flow_add_tail, throttle_count_pop_head.
    + apply (throttled_counted_ext q1); [|done].
      match goal with
      | |- throttle_count (set_inactive_flows _ ?q3) = _ =>
          change (throttle_count q3 = throttle_count q1)
      end.
      by rewrite throttle_count_upd_flow, throttle_count_pop_head.
Qed.

Lemma throttled_counted_fq_dequeue_loop h now fuel : ∀ q skb q',
  throttled_counted q → fq_dequeue_loop fuel h now q = Some (skb, q') →
  throttled_counted q'.
Proof.
  induction fuel as [|fuel IH]; intros q skb q' H; simpl; [done|].
  pose proof (throttled_counted_fq_dequeue_pass h now q H) as Hp.
  destruct (fq_dequeue_pass h now q) as [s q1|q1]; simpl in Hp.
  - by intros [= _ <-].
  - by apply IH.
Qed.

Lemma throttled_counted_fq_dequeue fuel h q skb q' :
  throttled_counted q → fq_dequeue fuel h q = Some (skb, q') →
  throttled_counted q'.
Proof.
  intros H. unfold fq_dequeue.
  destruct (sch_qlen q =? 0); [by intros [= _ <-]|].
  destruct (fq_peek (internal q)) as [s|].
  { intros [= _ <-]. apply (throttled_counted_ext q); [|done].
    apply throttle_count_fq_dequeue_skb. }
  cbv zeta. apply throttled_counted_fq_dequeue_loop.
  apply throttled_counted_fq_check_throttled.
  by apply (throttled_counted_ext q).
Qed.

Lemma throttle_count_fq_gc h q key :
  throttle_count (fq_gc h q key) = throttle_count q.
Proof. unfold fq_gc. cbv zeta. by case_match. Qed.

Lemma throttle_count_fq_rehash h q :
  throttle_count (fq_rehash h q) = throttle_count q.
Proof. done. Qed.

Lemma throttle_count_fq_resize h q log :
  throttle_count (fq_resize h q log).2 = throttle_count q.
Proof.
  unfold fq_resize. destruct (negb _ && _); [done|].
  destruct (negb (kvmalloc_ok h)); [done|]. cbn [snd].
  by destruct (fq_root_null q).
Qed.

Lemma throttled_counted_fq_classify h skb q :
  throttle_inv q → throttled_counted q →
  throttled_counted (fq_classify h skb q).2.
Proof.
  intros Hinv H. unfold fq_classify. case_match; [done|].
  destruct (fq_classify_key skb q) as [key skb1].
  match goal with
  | |- context [if ?c then fq_gc h q key else q] =>
      set (q1 := if c then fq_gc h q key else q)
  end.
  assert (H1 : throttle_inv q1 ∧ throttled_counted q1).
  { unfold q1. case_match; [|done].
    split; [by apply throttle_inv_fq_gc|].
    apply (throttled_counted_ext q); [apply throttle_count_fq_gc | done]. }
  clearbody q1. clear H Hinv. destruct H1 as [Hinv H].
  destruct (fq_root q1 !! key) as [f0|] eqn:Hf0.
  - destruct (keyed_sock skb1 key) as [s|]; [|done].
    destruct (negb _); [|done]. cbv zeta. cbn [fst snd].
    set (q2 := upd_flow (Dyn key) _ q1).
    assert (H2 : throttle_inv q2) by (by apply throttle_inv_upd_simple).
    assert (C2 : throttled_counted q2).
    { apply (throttled_counted_ext q1); [apply throttle_count_upd_flow | done]. }
    clearbody q2.
    apply (throttled_counted_ext
             (if fq_flow_is_throttled (get_flow q2 (Dyn key))
              then fq_flow_unset_throttled q2 (Dyn key) else q2));
      [apply throttle_count_upd_flow|].
    destruct (fq_flow_is_throttled (get_flow q2 (Dyn key))) eqn:Ht; [|done].
    apply throttled_counted_fq_flow_unset_throttled; [|done].
    by apply (wf_throttled q2 (proj1 H2)).
  - destruct (negb (kmem_cache_zalloc_ok h)); cbn [snd].
    { by apply (throttled_counted_ext q1). }
    by apply (throttled_counted_ext q1).
Qed.

Lemma throttle_count_fq_enqueue_horizon h skb q :
  throttle_count (fq_enqueue_horizon h skb q).2 = throttle_count q.
Proof. unfold fq_enqueue_horizon. by repeat case_match. Qed.

Lemma throttle_count_fq_enqueue_detached h skb f q q' :
  fq_enqueue_detached h skb f q = Some q' →
  throttle_count q' = throttle_count q.
Proof.
  unfold fq_enqueue_detached. cbv zeta.
  destruct (sk skb) as [s|]; [|done]. intros Hq. apply (inj Some) in Hq.
  subst q'.
  match goal with
  | |- throttle_count (set_inactive_flows _ ?q3) = _ =>
      change (throttle_count q3 = throttle_count q)
  end.
  destruct (time_after _ _); rewrite ?throttle_count_upd_flow;
    change (throttle_count (fq_flow_add_tail NEW_FLOWS f q) = throttle_count q);
    apply throttle_count_fq_flow_add_tail.
Qed.

Lemma throttle_count_fq_enqueue_tail skb f q :
  throttle_count (fq_enqueue_tail skb f q) = throttle_count q.
Proof.
  unfold fq_enqueue_tail, upd_flow. destruct f; repeat case_match; done.
Qed.

Lemma throttled_counted_fq_enqueue h skb q :
  throttle_inv q → throttled_counted q →
  throttled_counted (fq_enqueue h skb q).2.
Proof.
  intros Hinv H. unfold fq_enqueue.
  destruct (sch_qlen q >=? limit (cfg q)); [done|].
  pose proof (throttle_inv_fq_enqueue_horizon h skb q Hinv) as Hi1.
  pose proof (throttle_count_fq_enqueue_horizon h skb q) as Hc1.
  destruct (fq_enqueue_horizon h skb q) as [[skb1|] q1]; cbn [snd] in *.
  2:{ by apply (throttled_counted_ext q). }
  assert (H1 : throttled_counted q1) by (by apply (throttled_counted_ext q)).
  pose proof (throttled_counted_fq_classify h skb1 q1 Hi1 H1) as H2.
  destruct (fq_classify h skb1 q1) as [[f skb2] q2]. cbn [snd] in H2.
  destruct (_ && negb (is_internal f)); cbn [snd].
  { by apply (throttled_counted_ext q2). }
  cbv zeta.
  set (q3 := upd_flow f (λ fl, set_qlen (s32 (qlen fl + 1)) fl) q2).
  assert (H3 : throttled_counted q3).
  { apply (throttled_counted_ext q2); [apply throttle_count_upd_flow | done]. }
  clearbody q3.
  destruct (fq_flow_is_detached (get_flow q3 f)).
  - destruct (fq_enqueue_detached h skb2 f q3) as [q5|] eqn:H5; [|done].
    cbn [snd]. apply (throttled_counted_ext q3); [|done].
    rewrite throttle_count_fq_enqueue_tail.
    by apply throttle_count_fq_enqueue_detached in H5.
  - cbn [snd]. apply (throttled_counted_ext q3); [|done].
    apply throttle_count_fq_enqueue_tail.
Qed.

Lemma throttled_counted_fq_reset q :
  throttled_counted q → throttled_counted (fq_reset q).
Proof.
  intros H. unfold fq_reset. cbv zeta.
  destruct (fq_root_null _); [by apply (throttled_counted_ext q) | done].
Qed.

Lemma throttled_counted_fq_change_trim n fuel hs : ∀ q q',
  throttled_counted q → fq_change_trim n fuel hs q = Some q' →
  throttled_counted q'.
Proof.
  induction n as [|n IH]; intros q q' H; simpl.
  - destruct (_ >? _); [done|]. by intros [= <-].
  - destruct (_ >? _); [|by intros [= <-]].
    destruct (fq_dequeue fuel (hs n) q) as [[[s|] q1]|] eqn:Hd; [| |done].
    + apply IH. by eapply throttled_counted_fq_dequeue.
    + intros [= <-]. by eapply throttled_counted_fq_dequeue.
Qed.

Lemma throttled_counted_fq_change n fuel h hs opt q r q' :
  throttled_counted q → fq_change n fuel h hs opt q = Some (r, q') →
  throttled_counted q'.
Proof.
  intros H. unfold fq_change.
  destruct opt as [tb|]; [|by intros [= _ <-]].
  destruct (nla_err tb <? 0); [by intros [= _ <-]|].
  cbv zeta.
  set (q1 := set_cfg _ q).
  assert (H1 : throttled_counted q1) by (by apply (throttled_counted_ext q)).
  clearbody q1.
  pose proof (throttle_count_fq_resize h q1 (fq_change_log tb q)) as H2.
  destruct (fq_change_err tb =? 0).
  - destruct (fq_resize h q1 (fq_change_log tb q)) as [e q2]. cbn [snd] in H2.
    destruct (fq_change_trim n fuel hs q2) as [q3|] eqn:Ht; [|done].
    intros [= _ <-].
    apply (throttled_counted_fq_change_trim n fuel hs q2 q3); [|done].
    by apply (throttled_counted_ext q1).
  - destruct (fq_change_trim n fuel hs q1) as [q3|] eqn:Ht; [|done].
    intros [= _ <-].
    exact (throttled_counted_fq_change_trim n fuel hs q1 q3 H1 Ht).
Qed.

Lemma throttled_counted_fq_init n fuel h hs opt g r q' :
  fq_init n fuel h hs opt (qdisc_alloc g) = Some (r, q') →
  throttled_counted q'.
Proof.
  unfold fq_init. cbv zeta.
  assert (H0 : throttled_counted (fq_init_defaults h (qdisc_alloc g))) by done.
  destruct opt as [tb|].
  - by apply throttled_counted_fq_change.
  - intros Hr. apply (inj Some) in Hr.
    pose proof (throttle_count_fq_resize h (fq_init_defaults h (qdisc_alloc g))
      (fq_trees_log (fq_init_defaults h (qdisc_alloc g)))) as H1.
    rewrite Hr in H1. by apply (throttled_counted_ext _ _ H1).
Qed.

Lemma counted_fq_op_step op q q' :
  op_aligned op → throttle_inv q → throttled_counted q →
  fq_op_step op q = Some q' → throttled_counted q'.
Proof.
  intros Ha Hinv H. destruct op as [h skb|fuel h| |n fuel h hs opt]; simpl.
  - pose proof (throttled_counted_fq_enqueue h skb q Hinv H) as H1.
    destruct (fq_enqueue h skb q) as [[|why|] q1]; cbn [snd] in H1; [| |done];
      by intros [= <-].
  - destruct (fq_dequeue fuel h q) as [[s q1]|] eqn:Hd; [|done].
    intros [= <-]. by eapply throttled_counted_fq_dequeue.
  - intros [= <-]. by apply throttled_counted_fq_reset.
  - destruct (fq_change n fuel h hs opt q) as [[r q1]|] eqn:Hc; [|done].
    intros [= <-]. by eapply throttled_counted_fq_change.
Qed.

Lemma counted_fq_run ops : ∀ q q',
  Forall op_aligned ops → throttle_inv q → throttled_counted q →
  fq_run ops q = Some q' → throttled_counted q'.
Proof.
  induction ops as [|op ops IH]; intros q q' Ha Hinv H; simpl.
  - by intros [= <-].
  - apply Forall_cons in Ha as [Ha1 Ha].
    destruct (fq_op_step op q) as [q1|] eqn:Hs; [|done].
    apply IH; [done| |].
    + by eapply throttle_inv_fq_op_step.
    + by eapply counted_fq_op_step.
Qed.

(** X23.  In every state reached from [fq_init] by enqueues of packets
    at even addresses, dequeues, resets and changes of the configuration,
    the counter [throttled_flows] is the number of flows in the tree of
    throttled flows, as a 32-bit value. *)
Theorem throttled_flows_counts_the_tree
    (n fuel : nat) (h : host) (hs : nat → host) (opt : option nlattr)
    (g : coflow_globals) (rc : Z) (q0 q : fq_sched_data) (ops : list fq_op) :
  fq_init n fuel h hs opt (qdisc_alloc g) = Some (rc, q0) →
  Forall op_aligned ops →
  fq_run ops q0 = Some q →
  throttled_flows q = u32 (Z.of_nat (length (delayed q))).
Proof.
  intros Hi Ha Hr.
  eapply (counted_fq_run ops q0 q); [done| | |done].
  - by eapply throttle_inv_fq_init.
  - by eapply throttled_counted_fq_init.
Qed.

Lemma throttled_flows_counts_the_tree_witness :
  let h := host_at 0 in
  let ops := [OpEnqueue h (pkt 100 100 11 sock_A);
              OpEnqueue h (pkt 200 100 22 sock_B);
              OpEnqueue h (pkt 400 0 33 sock_Y); OpDequeue 10 h] in
  ∃ q, fq_run ops sched0 = Some q
       ∧ throttled_flows q = u32 (Z.of_nat (length (delayed q))).
Proof.
  intros h ops.
  assert (Hi : fq_init 0 0 h (λ _, h) None (qdisc_alloc (Globals 0 0 0 0 0 0))
               = Some (0, sched0)) by (vm_compute; reflexivity).
  assert (Ha : Forall op_aligned ops).
  { repeat (apply Forall_cons; split; [exact I || reflexivity|]).
    apply Forall_nil_2. }
  destruct (fq_run ops sched0) as [q|] eqn:Hr.
  - exists q. split; [done|].
    exact (throttled_flows_counts_the_tree 0 0 h (λ _, h) None _ 0 sched0 q ops
             Hi Ha Hr).
  - exfalso. vm_compute in Hr. discriminate.
Defined.

(** ** The account of the co-class *)

(** What a pass does to the co-flow variables, by the list it starts from
    and the first flow of that list. *)
Lemma fq_dequeue_pass_co h now q hd f rest :
  fq_select_head q = Some hd →
  head_list hd q = f :: rest →
  (is_co hd = false → head_is_coflow q f = true →
   fq_dequeue_pass h now q
   = Again (set_co (set_ucounter (ucounter (co q) + 1) (co q))
              (Promotecoflows hd f q)))
  ∧ (is_co hd = false → head_is_coflow q f = false → ucounter (co q) = 2 →
     fq_dequeue_pass h now q = Again (set_co (set_flipflag 1 (co q)) q))
  ∧ (is_co hd = true → ucounter (co q) = 0 →
     fq_dequeue_pass h now q = Again (set_co (set_flipflag 0 (co q)) q))
  ∧ (is_co hd = true → ucounter (co q) ≠ 0 →
     ucounter (co (pass_state (fq_dequeue_pass h now q)))
     = ucounter (co q) - 1
     ∧ flipflag (co (pass_state (fq_dequeue_pass h now q))) = flipflag (co q))
  ∧ (is_co hd = false → head_is_coflow q f = false → ucounter (co q) ≠ 2 →
     co (pass_state (fq_dequeue_pass h now q)) = co q).
Proof.
  intros Hsel Hhd. unfold fq_dequeue_pass, head_is_coflow. rewrite Hsel, Hhd.
  split; [|split; [|split; [|split]]].
  - intros -> ->. cbn [andb negb]. cbv zeta. by rewrite co_Promotecoflows.
  - intros -> -> ->. simpl. done.
  - intros Hc ->. rewrite Hc. simpl. rewrite andb_false_r. done.
  - intros Hc Hu. rewrite Hc. rewrite !andb_false_r, !andb_true_r.
    destruct (Z.eqb_spec (ucounter (co q)) 0) as [|_]; [done|].
    assert (hd = CO_FLOWS) as -> by (by destruct hd).
    apply fq_select_head_co in Hsel as [Hff _].
    destruct (Z.eqb_spec (flipflag (co q)) 0) as [|_]; [done|]. simpl negb.
    cbv iota.
    set (q1 := set_co (set_ucounter (ucounter (co q) - 1) (co q)) q).
    assert (Hq1 : ucounter (co q1) = ucounter (co q) - 1
                  ∧ flipflag (co q1) = flipflag (co q)) by done.
    clearbody q1. destruct Hq1 as [<- <-].
    destruct (credit (get_flow q1 f) <=? 0).
    { cbn [pass_state]. by rewrite co_fq_flow_add_tail, co_pop_head, co_upd_flow. }
    destruct (fq_peek (get_flow q1 f)) as [skb|].
    + cbv zeta. destruct (now <? _).
      * cbn [pass_state]. by rewrite co_fq_flow_set_throttled, co_upd_flow, co_pop_head.
      * cbn [pass_state]. rewrite co_fq_dequeue_pace, co_fq_dequeue_skb.
        by case_match.
    + cbv zeta. case_match; cbn [pass_state].
      * by rewrite co_fq_flow_add_tail, co_pop_head.
      * cbn [co set_inactive_flows]. by rewrite co_upd_flow, co_pop_head.
  - intros Hc Hf Hu. rewrite Hc, Hf. cbn [andb negb].
    destruct (Z.eqb_spec (ucounter (co q)) 2) as [|_]; [done|]. cbn [andb negb].
    rewrite !andb_false_r.
    destruct (credit (get_flow q f) <=? 0).
    { cbn [pass_state]. by rewrite co_fq_flow_add_tail, co_pop_head, co_upd_flow. }
    destruct (fq_peek (get_flow q f)) as [skb|].
    + cbv zeta. destruct (now <? _).
      * cbn [pass_state]. by rewrite co_fq_flow_set_throttled, co_upd_flow, co_pop_head.
      * cbn [pass_state]. rewrite co_fq_dequeue_pace, co_fq_dequeue_skb.
        by case_match.
    + cbv zeta. case_match; cbn [pass_state].
      * by rewrite co_fq_flow_add_tail, co_pop_head.
      * cbn [co set_inactive_flows]. by rewrite co_upd_flow, co_pop_head.
Qed.

Lemma tally_app e l1 l2 : tally e (l1 ++ l2) = tally e l1 + tally e l2.
Proof. induction l1 as [|x l1 IH]; simpl; lia. Qed.

Lemma tally_nonneg e l : 0 <= tally e l.
Proof. induction l as [|x l IH]; simpl; [done|]. case_match; lia. Qed.

Lemma co_balance_cons e l : co_balance (e :: l) = co_balance [e] + co_balance l.
Proof. unfold co_balance. simpl. lia. Qed.

Lemma co_balance_app l1 l2 :
  co_balance (l1 ++ l2) = co_balance l1 + co_balance l2.
Proof. unfold co_balance. rewrite !tally_app. lia. Qed.

(** One pass: [ucounter] moves by the balance of the event of the pass,
    and does not go below 0. *)
Lemma ucounter_fq_dequeue_pass h now q :
  0 <= ucounter (co q) →
  ucounter (co (pass_state (fq_dequeue_pass h now q)))
  = ucounter (co q) + co_balance [pass_event h now q]
  ∧ 0 <= ucounter (co (pass_state (fq_dequeue_pass h now q))).
Proof.
  intros Hu. unfold pass_event.
  destruct (fq_select_head q) as [hd|] eqn:Hsel.
  2:{ unfold fq_dequeue_pass. rewrite Hsel. cbn [pass_state].
      assert (∀ b w, co (if b : bool then set_watchdog w q else q) = co q)
        as -> by (by intros []).
      unfold co_balance. simpl. lia. }
  destruct (head_list hd q) as [|f rest] eqn:Hhd.
  { unfold fq_dequeue_pass. rewrite Hsel, Hhd. cbn [pass_state].
    unfold co_balance. simpl. lia. }
  destruct (fq_dequeue_pass_co h now q hd f rest Hsel Hhd)
    as (P1 & P2 & P3 & P4 & P5).
  destruct (is_co hd) eqn:Hco.
  - destruct (Z.eqb_spec (ucounter (co q)) 0) as [Hz|Hnz].
    + rewrite (P3 eq_refl Hz). cbn [pass_state co set_co ucounter set_flipflag].
      unfold co_balance. simpl. lia.
    + destruct (P4 eq_refl Hnz) as [-> _].
      split; [|lia].
      destruct (fq_dequeue_pass h now q) as [[skb|] q'|q'];
        unfold co_balance; simpl; lia.
  - destruct (head_is_coflow q f) eqn:Hf.
    + rewrite (P1 eq_refl eq_refl).
      cbn [pass_state co set_co ucounter set_ucounter].
      unfold co_balance. simpl. lia.
    + destruct (Z.eq_dec (ucounter (co q)) 2) as [H2|H2].
      * rewrite (P2 eq_refl eq_refl H2).
        cbn [pass_state co set_co ucounter set_flipflag].
        unfold co_balance. simpl. lia.
      * rewrite (P5 eq_refl eq_refl H2). unfold co_balance. simpl. lia.
Qed.

(** A pass that goes back to [begin], or returns no packet, is no
    co-class serving. *)
Lemma pass_event_CoServe h now q :
  pass_event h now q = CoServe →
  fq_select_head q = Some CO_FLOWS
  ∧ ∃ skb q', fq_dequeue_pass h now q = Done (Some skb) q'.
Proof.
  unfold pass_event.
  destruct (fq_select_head q) as [hd|]; [|done].
  destruct (head_list hd q) as [|f rest]; [done|].
  destruct (is_co hd) eqn:Hco.
  - assert (hd = CO_FLOWS) as -> by (by destruct hd).
    destruct (fq_dequeue_pass h now q) as [[skb|] q'|q'].
    + intros _. split; [done|]. by exists skb, q'.
    + by case_match.
    + by case_match.
  - by case_match.
Qed.

Lemma ucounter_fq_dequeue_loop h now fuel : ∀ q r q',
  0 <= ucounter (co q) →
  fq_dequeue_loop fuel h now q = Some (r, q') →
  (ucounter (co q')
   = ucounter (co q) + co_balance (fq_dequeue_loop_events fuel h now q)
   ∧ 0 <= ucounter (co q'))
  ∧ tally CoServe (fq_dequeue_loop_events fuel h now q) <= 1
  ∧ (tally CoServe (fq_dequeue_loop_events fuel h now q) = 1 → is_Some r).
Proof.
  induction fuel as [|fuel IH]; intros q r q' Hu; [done|].
  cbn [fq_dequeue_loop fq_dequeue_loop_events].
  destruct (ucounter_fq_dequeue_pass h now q Hu) as [Hb Hpos].
  pose proof (pass_event_CoServe h now q) as Hserve.
  destruct (fq_dequeue_pass h now q) as [r1 q1|q1] eqn:Hp;
    cbn [pass_state] in Hb, Hpos.
  - intros [= <- <-]. split; [done|].
    cbn [tally]. destruct (pass_event h now q) eqn:He; cbn [co_event_eqb];
      try (split; [lia | intros; lia]).
    destruct (Hserve eq_refl) as (_ & skb & q2 & [= -> _]).
    split; [lia | by eexists].
  - intros Hl. destruct (IH q1 r q' Hpos Hl) as ([Hb' Hpos'] & Hle & Hone).
    split.
    + split; [|done]. rewrite co_balance_cons. lia.
    + cbn [tally]. destruct (pass_event h now q) eqn:He; cbn [co_event_eqb];
        try (split; [lia | intros; apply Hone; lia]).
      by destruct (Hserve eq_refl) as (_ & skb & q2 & [=]).
Qed.

Lemma co_fq_flow_unset_throttled q f : co (fq_flow_unset_throttled q f) = co q.
Proof.
  unfold fq_flow_unset_throttled. cbv zeta.
  rewrite co_fq_flow_add_tail. by destruct f.
Qed.

Lemma co_fq_check_throttled_loop n now : ∀ q,
  co (fq_check_throttled_loop n now q) = co q.
Proof.
  induction n as [|n IH]; intros q; simpl; [done|].
  destruct (delayed q) as [|f l]; [done|]. case_match; [done|].
  by rewrite IH, co_fq_flow_unset_throttled.
Qed.

Lemma co_fq_check_throttled q now : co (fq_check_throttled q now) = co q.
Proof.
  unfold fq_check_throttled. case_match; [done|]. cbv zeta.
  by rewrite co_fq_check_throttled_loop.
Qed.

(** One call of [fq_dequeue]. *)
Lemma ucounter_fq_dequeue fuel h q r q' :
  0 <= ucounter (co q) →
  fq_dequeue fuel h q = Some (r, q') →
  (ucounter (co q')
   = ucounter (co q) + co_balance (fq_dequeue_events fuel h q)
   ∧ 0 <= ucounter (co q'))
  ∧ tally CoServe (fq_dequeue_events fuel h q) <= 1
  ∧ (tally CoServe (fq_dequeue_events fuel h q) = 1 → is_Some r).
Proof.
  intros Hu. unfold fq_dequeue, fq_dequeue_events.
  destruct (sch_qlen q =? 0).
  { intros [= <- <-]. unfold co_balance. simpl. repeat split; lia. }
  destruct (fq_peek (internal q)) as [s|].
  { intros [= <- <-]. rewrite co_fq_dequeue_skb. unfold co_balance. simpl.
    repeat split; lia. }
  cbv zeta. intros Hl.
  apply ucounter_fq_dequeue_loop in Hl;
    rewrite co_fq_check_throttled in *; done.
Qed.

Lemma ucounter_fq_change_trim n fuel hs : ∀ q q',
  0 <= ucounter (co q) →
  fq_change_trim n fuel hs q = Some q' →
  ucounter (co q')
  = ucounter (co q) + co_balance (fq_change_trim_events n fuel hs q)
  ∧ 0 <= ucounter (co q').
Proof.
  induction n as [|n IH]; intros q q' Hu;
    cbn [fq_change_trim fq_change_trim_events].
  - destruct (_ >? _); [done|]. intros [= <-]. unfold co_balance. simpl. lia.
  - destruct (_ >? _); [|intros [= <-]; unfold co_balance; simpl; lia].
    destruct (fq_dequeue fuel (hs n) q) as [[[s|] q1]|] eqn:Hd; [| |done].
    + destruct (ucounter_fq_dequeue _ _ _ _ _ Hu Hd) as ([Hb Hpos] & _).
      intros Ht. destruct (IH q1 q' Hpos Ht) as [Hb' Hpos'].
      split; [|done]. rewrite co_balance_app. lia.
    + destruct (ucounter_fq_dequeue _ _ _ _ _ Hu Hd) as ([Hb Hpos] & _).
      intros [= <-]. rewrite app_nil_r. done.
Qed.

Lemma co_fq_resize h q log : co (fq_resize h q log).2 = co q.
Proof.
  unfold fq_resize. destruct (negb _ && _); [done|].
  destruct (negb (kvmalloc_ok h)); [done|]. cbn [snd].
  by destruct (fq_root_null q).
Qed.

Lemma ucounter_fq_change n fuel h hs opt q r q' :
  0 <= ucounter (co q) →
  fq_change n fuel h hs opt q = Some (r, q') →
  ucounter (co q')
  = ucounter (co q) + co_balance (fq_change_events n fuel h hs opt q)
  ∧ 0 <= ucounter (co q').
Proof.
  intros Hu. unfold fq_change, fq_change_events.
  destruct opt as [tb|].
  2:{ intros [= _ <-]. unfold co_balance. simpl. lia. }
  destruct (nla_err tb <? 0).
  { intros [= _ <-]. unfold co_balance. simpl. lia. }
  cbv zeta.
  set (q1 := set_cfg _ q).
  pose proof (co_fq_resize h q1 (fq_change_log tb q)) as Hr.
  change (co q1) with (co q) in Hr.
  destruct (fq_change_err tb =? 0).
  - destruct (fq_resize h q1 (fq_change_log tb q)) as [e q2]. cbn [snd] in *.
    destruct (fq_change_trim n fuel hs q2) as [q3|] eqn:Ht; [|done].
    intros [= _ <-]. rewrite <- Hr in Hu |- *.
    by apply ucounter_fq_change_trim.
  - destruct (fq_change_trim n fuel hs q1) as [q3|] eqn:Ht; [|done].
    intros [= _ <-].
    change (ucounter (co q)) with (ucounter (co q1)).
    by apply ucounter_fq_change_trim.
Qed.

Lemma ucounter_fq_enqueue h skb q :
  ucounter (co (fq_enqueue h skb q).2) = ucounter (co q).
Proof.
  unfold fq_enqueue. destruct (_ >=? _); [done|].
  assert (H1 : co (fq_enqueue_horizon h skb q).2 = co q).
  { unfold fq_enqueue_horizon. by repeat case_match. }
  destruct (fq_enqueue_horizon h skb q) as [[skb1|] q1]; cbn [snd] in *;
    [|by rewrite H1].
  rewrite <- H1.
  destruct (fq_classify h skb1 q1) as [[f skb2] q2] eqn:Hcl.
  apply fq_classify_frame in Hcl as (_ & <- & _).
  destruct (_ && _); [done|]. cbv zeta.
  set (q3 := upd_flow f _ q2).
  assert (H3 : co q3 = co q2) by apply co_upd_flow.
  clearbody q3. rewrite <- H3.
  destruct (fq_flow_is_detached (get_flow q3 f)).
  - destruct (fq_enqueue_detached h skb2 f q3) as [q5|] eqn:H5; [|done].
    cbn [snd].
    apply fq_enqueue_detached_frame in H5 as (_ & _ & _ & _ & _ & _ & _ & <- & _).
    by destruct (fq_enqueue_tail_co skb2 f q5) as (_ & _ & _ & -> & _).
  - cbn [snd].
    by destruct (fq_enqueue_tail_co skb2 f q3) as (_ & _ & _ & -> & _).
Qed.

Lemma co_fq_reset q : co (fq_reset q) = co q.
Proof. unfold fq_reset. cbv zeta. by destruct (fq_root_null _). Qed.

Lemma ucounter_fq_op_step op q q' :
  0 <= ucounter (co q) →
  fq_op_step op q = Some q' →
  ucounter (co q') = ucounter (co q) + co_balance (fq_op_events op q)
  ∧ 0 <= ucounter (co q').
Proof.
  intros Hu. destruct op as [h skb|fuel h| |n fuel h hs opt]; simpl.
  - pose proof (ucounter_fq_enqueue h skb q) as He.
    destruct (fq_enqueue h skb q) as [[|why|] q1]; cbn [snd] in He; [| |done];
      intros [= <-]; unfold co_balance; simpl; lia.
  - destruct (fq_dequeue fuel h q) as [[r q1]|] eqn:Hd; [|done].
    intros [= <-]. by destruct (ucounter_fq_dequeue _ _ _ _ _ Hu Hd).
  - intros [= <-]. rewrite co_fq_reset. unfold co_balance. simpl. lia.
  - destruct (fq_change n fuel h hs opt q) as [[r q1]|] eqn:Hc; [|done].
    intros [= <-]. by eapply ucounter_fq_change.
Qed.

Lemma ucounter_fq_run ops : ∀ q q',
  0 <= ucounter (co q) →
  fq_run ops q = Some q' →
  ucounter (co q') = ucounter (co q) + co_balance (fq_run_events ops q)
  ∧ 0 <= ucounter (co q').
Proof.
  induction ops as [|op ops IH]; intros q q' Hu; simpl.
  - intros [= <-]. unfold co_balance. simpl. lia.
  - destruct (fq_op_step op q) as [q1|] eqn:Hs; [|done].
    destruct (ucounter_fq_op_step op q q1 Hu Hs) as [Hb Hpos].
    intros Hr. destruct (IH q1 q' Hpos Hr) as [Hb' Hpos'].
    split; [|done]. rewrite co_balance_app. lia.
Qed.

Lemma pass_event_CoPromote h now q :
  pass_event h now q = CoPromote ↔
  ∃ hd f rest, fq_select_head q = Some hd ∧ head_list hd q = f :: rest
               ∧ is_co hd = false ∧ head_is_coflow q f = true.
Proof.
  unfold pass_event. split.
  - destruct (fq_select_head q) as [hd|]; [|done].
    destruct (head_list hd q) as [|f rest] eqn:Hhd; [done|].
    destruct (is_co hd) eqn:Hco.
    + destruct (fq_dequeue_pass h now q) as [[skb|] q'|q']; [done| |];
        by case_match.
    + destruct (head_is_coflow q f) eqn:Hf; [|done].
      intros _. by exists hd, f, rest.
  - intros (hd & f & rest & -> & -> & -> & ->). done.
Qed.

(** C3 (as amended).  One pass of the dequeue loop, with [f] the first
    flow of the selected list: a co-flow on a list other than [co_flows]
    is promoted and [ucounter] incremented, before any other test; else,
    when [ucounter] is 2 and the list is not [co_flows], [flipflag] is set
    to 1 and the pass ends; when the list is [co_flows] and [ucounter] is
    0, [flipflag] is cleared and the pass ends; every other pass that
    starts from [co_flows] decrements [ucounter] by one and keeps
    [flipflag], whether it then serves a packet, refills the credit,
    throttles the flow or retires it; a pass from another list that does
    not promote and does not breach leaves the co-flow variables alone.

    Over the passes of a call, and over the calls of any run of enqueues,
    dequeues, resets and changes that return, started with [ucounter] not
    below 0: [ucounter] never goes below 0 and ends at its first value
    plus the promotions less the visits of [co_flows] that took a unit,
    of which the co-class servings are some.  A call grants one co-class
    serving at most, and none unless it returns a packet.  So the
    co-class servings of a run number at most the first value of
    [ucounter] plus the promotions: after two promotions from 0, two at
    most, and fewer when a visit throttles or retires a co-flow. *)
Theorem C3_breach_relief_and_decrement :
  (∀ (h : host) (now : Z) (q : fq_sched_data)
     (hd : fq_flow_head) (f : flow_ref) (rest : list flow_ref),
     fq_select_head q = Some hd →
     head_list hd q = f :: rest →
     (* promotion comes first *)
     (is_co hd = false → head_is_coflow q f = true →
      fq_dequeue_pass h now q
      = Again (set_co (set_ucounter (ucounter (co q) + 1) (co q))
                 (Promotecoflows hd f q)))
     (* breach *)
     ∧ (is_co hd = false → head_is_coflow q f = false → ucounter (co q) = 2 →
        fq_dequeue_pass h now q = Again (set_co (set_flipflag 1 (co q)) q))
     (* relief *)
     ∧ (is_co hd = true → ucounter (co q) = 0 →
        fq_dequeue_pass h now q = Again (set_co (set_flipflag 0 (co q)) q))
     (* every other pass that starts from [co_flows] costs one *)
     ∧ (is_co hd = true → ucounter (co q) ≠ 0 →
        ucounter (co (pass_state (fq_dequeue_pass h now q)))
        = ucounter (co q) - 1
        ∧ flipflag (co (pass_state (fq_dequeue_pass h now q)))
          = flipflag (co q))
     (* passes that start from the other lists leave the count alone *)
     ∧ (is_co hd = false → head_is_coflow q f = false → ucounter (co q) ≠ 2 →
        co (pass_state (fq_dequeue_pass h now q)) = co q))
  (* what is counted *)
  ∧ (∀ h now q,
       (pass_event h now q = CoPromote ↔
        ∃ hd f rest, fq_select_head q = Some hd ∧ head_list hd q = f :: rest
                     ∧ is_co hd = false ∧ head_is_coflow q f = true)
       ∧ (pass_event h now q = CoServe →
          fq_select_head q = Some CO_FLOWS ∧ flipflag (co q) ≠ 0
          ∧ ∃ skb q', fq_dequeue_pass h now q = Done (Some skb) q'))
  (* one call *)
  ∧ (∀ fuel h q r q',
       0 <= ucounter (co q) →
       fq_dequeue fuel h q = Some (r, q') →
       let ev := fq_dequeue_events fuel h q in
       ucounter (co q')
       = ucounter (co q) + tally CoPromote ev
         - tally CoServe ev - tally CoSpend ev
       ∧ 0 <= ucounter (co q')
       ∧ tally CoServe ev <= 1
       ∧ (tally CoServe ev = 1 → is_Some r))
  (* every run *)
  ∧ (∀ ops q q',
       0 <= ucounter (co q) →
       fq_run ops q = Some q' →
       let ev := fq_run_events ops q in
       ucounter (co q')
       = ucounter (co q) + tally CoPromote ev
         - tally CoServe ev - tally CoSpend ev
       ∧ 0 <= ucounter (co q')
       ∧ tally CoServe ev <= ucounter (co q) + tally CoPromote ev
       ∧ (ucounter (co q) = 0 → tally CoPromote ev = 2 →
          tally CoServe ev <= 2)).
Proof.
  split; [|split; [|split]].
  - intros h now q hd f rest. apply fq_dequeue_pass_co.
  - intros h now q. split; [apply pass_event_CoPromote|].
    intros He. destruct (pass_event_CoServe h now q He) as [Hsel Hd].
    split; [done|]. split; [|done].
    by apply fq_select_head_co in Hsel as [? _].
  - intros fuel h q r q' Hu Hd ev.
    destruct (ucounter_fq_dequeue fuel h q r q' Hu Hd)
      as ([Hb Hpos] & Hle & Hone).
    unfold co_balance in Hb. fold ev in Hb, Hle, Hone.
    split; [lia|]. done.
  - intros ops q q' Hu Hr ev.
    destruct (ucounter_fq_run ops q q' Hu Hr) as [Hb Hpos].
    unfold co_balance in Hb. fold ev in Hb.
    pose proof (tally_nonneg CoSpend ev).
    split; [lia|]. split; [done|]. split; lia.
Qed.

(** Three dequeues at time 0 from [sched_two_coflows]: the first promotes
    both co-flows, sets [flipflag] and returns the first packet of the
    first co-flow, the second returns its second packet, and the third
    clears [flipflag] and returns the packet of the ordinary flow: two
    promotions, two co-class servings, and [ucounter] back at 0.  And the
    first pass over [sched_co_future], which promotes the flow of the
    first co-flow socket. *)
Lemma C3_breach_relief_and_decrement_witness :
  let h := host_at 0 in
  let ops := [OpDequeue 10 h; OpDequeue 10 h; OpDequeue 10 h] in
  let ev := fq_run_events ops sched_two_coflows in
  (ucounter (co sched_two_coflows) = 0
   ∧ ev = [CoPromote; CoPromote; CoOther; CoServe; CoServe; CoOther; CoOther]
   ∧ deq_skb 10 h sched_two_coflows = Some (Some 100)
   ∧ deq_skb 10 h (deq 10 h sched_two_coflows) = Some (Some 102)
   ∧ ∃ q', fq_run ops sched_two_coflows = Some q'
           ∧ ucounter (co q') = 0 + 2 - 2 - 0
           ∧ tally CoServe ev <= 2)
  ∧ (fq_select_head sched_co_future = Some NEW_FLOWS
     ∧ head_list NEW_FLOWS sched_co_future = Dyn 1000 :: [Dyn 2000; Dyn 4000]
     ∧ is_co NEW_FLOWS = false
     ∧ head_is_coflow sched_co_future (Dyn 1000) = true
     ∧ ucounter (co (pass_state (fq_dequeue_pass h 0 sched_co_future))) = 1).
Proof.
  intros h ops ev. split; cycle 1.
  { assert (H1 : fq_select_head sched_co_future = Some NEW_FLOWS)
      by (vm_compute; reflexivity).
    assert (H2 : head_list NEW_FLOWS sched_co_future
                 = Dyn 1000 :: [Dyn 2000; Dyn 4000])
      by (vm_compute; reflexivity).
    assert (H3 : head_is_coflow sched_co_future (Dyn 1000) = true)
      by (vm_compute; reflexivity).
    split; [exact H1|]. split; [exact H2|]. split; [reflexivity|].
    split; [exact H3|].
    destruct (proj1 C3_breach_relief_and_decrement h 0 sched_co_future
                NEW_FLOWS (Dyn 1000) [Dyn 2000; Dyn 4000] H1 H2) as (Hp & _).
    rewrite (Hp eq_refl H3). vm_compute. reflexivity. }
  assert (Hu : ucounter (co sched_two_coflows) = 0) by (vm_compute; reflexivity).
  assert (Hev : ev = [CoPromote; CoPromote; CoOther; CoServe; CoServe;
                      CoOther; CoOther]) by (vm_compute; reflexivity).
  split; [exact Hu|]. split; [exact Hev|].
  split; [vm_compute; reflexivity|]. split; [vm_compute; reflexivity|].
  destruct (fq_run ops sched_two_coflows) as [q'|] eqn:Hr;
    [|exfalso; vm_compute in Hr; discriminate].
  exists q'. split; [reflexivity|].
  destruct C3_breach_relief_and_decrement as (_ & _ & _ & Hrun).
  assert (Hu0 : 0 <= ucounter (co sched_two_coflows)) by (rewrite Hu; lia).
  destruct (Hrun ops sched_two_coflows q' Hu0 Hr) as (Hb & _ & _ & H2).
  fold ev in Hb, H2. split.
  - rewrite Hb, Hu, Hev. reflexivity.
  - apply H2; [exact Hu|]. rewrite Hev. reflexivity.
Defined.

(** ** A breach with nothing on [co_flows] *)

Lemma fq_select_head_no_co q f rest :
  co_flows q = [] →
  (new_flows q = f :: rest ∨ (new_flows q = [] ∧ old_flows q = f :: rest)) →
  ∃ hd, fq_select_head q = Some hd ∧ is_co hd = false
        ∧ head_list hd q = f :: rest.
Proof.
  intros Hco Hl. unfold fq_select_head.
  destruct Hl as [Hn|[Hn Ho]].
  - exists NEW_FLOWS. destruct (flipflag (co q) =? 0); cbn [head_list];
      rewrite ?Hco, Hn; done.
  - exists OLD_FLOWS. destruct (flipflag (co q) =? 0); cbn [head_list];
      rewrite ?Hco, Hn, Ho; done.
Qed.

(** X4.  With [ucounter] at 2, nothing on [co_flows], no packet in the
    internal flow and no throttled flow due, a call of [fq_dequeue] that
    finds a flow that is no co-flow at the front of [new_flows], or of
    [old_flows] when [new_flows] is empty, never returns: the breach sets
    [flipflag] and goes back to [begin], where the empty [co_flows] makes
    the loop fall back to the same list, flow and breach. *)
Theorem breach_with_empty_co_flows_never_returns
    (fuel : nat) (h : host) (q : fq_sched_data)
    (f : flow_ref) (rest : list flow_ref) :
  sch_qlen q ≠ 0 →
  fq_peek (internal q) = None →
  ktime_get_ns h < time_next_delayed_flow q →
  ucounter (co q) = 2 →
  co_flows q = [] →
  (new_flows q = f :: rest ∨ (new_flows q = [] ∧ old_flows q = f :: rest)) →
  head_is_coflow q f = false →
  fq_dequeue fuel h q = None.
Proof.
  intros Hq Hi Hnow Hu Hco Hl Hf.
  set (now := ktime_get_ns h).
  set (q0 := set_ktime_cache now q).
  assert (Hck : fq_check_throttled q0 now = q0).
  { unfold fq_check_throttled.
    change (time_next_delayed_flow q0) with (time_next_delayed_flow q).
    destruct (Z.gtb_spec (time_next_delayed_flow q) now); [done | lia]. }
  set (q1 := set_co (set_flipflag 1 (co q0)) q0).
  assert (Hpass : ∀ q2,
    co_flows q2 = [] → new_flows q2 = new_flows q → old_flows q2 = old_flows q →
    ucounter (co q2) = 2 → head_is_coflow q2 f = false →
    fq_dequeue_pass h now q2 = Again (set_co (set_flipflag 1 (co q2)) q2)).
  { intros q2 Hco2 Hn2 Ho2 Hu2 Hf2.
    destruct (fq_select_head_no_co q2 f rest Hco2) as (hd & Hsel & Hnc & Hhd).
    { by rewrite Hn2, Ho2. }
    destruct (fq_dequeue_pass_co h now q2 hd f rest Hsel Hhd) as (_ & P2 & _).
    by apply P2. }
  apply (fq_dequeue_spins 1 0 h q q1).
  - by apply Z.eqb_neq.
  - done.
  - fold now. fold q0. rewrite Hck. cbn [fq_dequeue_passes].
    by rewrite (Hpass q0).
  - fold now. cbn [fq_dequeue_passes].
    by rewrite (Hpass q1).
Qed.

Lemma breach_with_empty_co_flows_never_returns_witness :
  let h := host_at 0 in
  let q := sched_after_reset in
  (sch_qlen q = 1 ∧ ucounter (co q) = 2 ∧ co_flows q = []
   ∧ new_flows q = [Dyn 4000] ∧ head_is_coflow q (Dyn 4000) = false)
  ∧ fq_dequeue 1000 h q = None.
Proof.
  intros h q.
  assert (H1 : sch_qlen q ≠ 0) by (vm_compute; discriminate).
  assert (H2 : fq_peek (internal q) = None) by (vm_compute; reflexivity).
  assert (H3 : ktime_get_ns h < time_next_delayed_flow q)
    by (vm_compute; reflexivity).
  assert (H4 : ucounter (co q) = 2) by (vm_compute; reflexivity).
  assert (H5 : co_flows q = []) by (vm_compute; reflexivity).
  assert (H6 : new_flows q = [Dyn 4000]) by (vm_compute; reflexivity).
  assert (H7 : head_is_coflow q (Dyn 4000) = false) by (vm_compute; reflexivity).
  split.
  - split; [vm_compute; reflexivity|]. by repeat split.
  - exact (breach_with_empty_co_flows_never_returns 1000 h q (Dyn 4000) []
             H1 H2 H3 H4 H5 (or_introl H6) H7).
Defined.

(** ** The horizon and the per-flow limit *)

(** Classification queues no packet: a flow holds afterwards what it held
    before, or nothing when it was freed or is new. *)
Lemma fq_gc_packets h q key r x :
  x ∈ flow_packets (get_flow (fq_gc h q key) r) →
  x ∈ flow_packets (get_flow q r).
Proof.
  unfold fq_gc. cbv zeta. destruct (_ =? 0); [done|].
  destruct r as [|k]; [done|]. cbn [get_flow fq_root set_st set_inactive_flows
    set_flows set_fq_root].
  destruct (decide (k ∈ fq_gc_scan h (fq_root q) key (rb_path h) [])).
  - rewrite lookup_foldr_delete_in by done. by intros ?%elem_of_nil.
  - by rewrite lookup_foldr_delete.
Qed.

Lemma same_packets_elem_of q q' r x :
  same_packets q q' →
  x ∈ flow_packets (get_flow q' r) → x ∈ flow_packets (get_flow q r).
Proof. intros H. unfold flow_packets. by destruct (H r) as [-> ->]. Qed.

Lemma fq_classify_packets h skb q r x :
  x ∈ flow_packets (get_flow (fq_classify h skb q).2 r) →
  x ∈ flow_packets (get_flow q r).
Proof.
  unfold fq_classify. case_match; [done|].
  destruct (fq_classify_key skb q) as [key skb1].
  match goal with
  | |- context [if ?c then fq_gc h q key else q] =>
      set (q1 := if c then fq_gc h q key else q)
  end.
  assert (H1 : ∀ y, y ∈ flow_packets (get_flow q1 r) →
                    y ∈ flow_packets (get_flow q r)).
  { unfold q1. case_match; [|done]. intros y. apply fq_gc_packets. }
  intros Hx. apply H1. revert Hx. clearbody q1. clear H1.
  apply same_packets_elem_of.
  destruct (fq_root q1 !! key) as [f0|] eqn:Hf0.
  - destruct (keyed_sock skb1 key) as [s|]; [|apply same_packets_refl].
    destruct (negb _); [|apply same_packets_refl]. cbv zeta. cbn [fst snd].
    eapply same_packets_trans; [|by apply same_packets_upd_fields].
    match goal with
    | |- same_packets q1 (if _ then fq_flow_unset_throttled ?q2 _ else _) =>
        assert (H2 : same_packets q1 q2) by (by apply same_packets_upd_fields)
    end.
    destruct (fq_flow_is_throttled _); [|done].
    eapply same_packets_trans; [exact H2|].
    apply same_packets_fq_flow_unset_throttled.
  - destruct (negb (kmem_cache_zalloc_ok h)); cbn [snd].
    { by apply same_packets_ext. }
    cbv zeta. intros [|k]; [done|]. cbn [get_flow fq_root set_inactive_flows
      set_flows set_fq_root].
    destruct (decide (k = key)) as [->|Hne].
    + rewrite lookup_insert_eq, Hf0. cbn [default].
      by destruct (keyed_sock skb1 key).
    + by rewrite lookup_insert_ne.
Qed.

(** C8 (as amended).  A packet that passes the global limit and carries a
    nonzero timestamp beyond the refreshed clock plus the horizon (all
    times within the positive range of a signed 64-bit value, the cached
    clock not ahead of the clock) is policed.  With [horizon_drop] set the
    call returns a drop at the horizon site, [stat_horizon_drops] grows by
    one, and nothing else changes but the cached clock: the packet is not
    queued.  Otherwise [stat_horizon_caps] grows by one, the timestamp is
    capped to the clock plus the horizon, and the capped packet is
    classified and meets the per-flow limit.  When its flow is not the
    internal one and holds [flow_plimit] packets, the call returns a drop
    at that site and the state is the one classification left, with the
    drop counted: the queue is as long as before and no flow holds a
    packet it did not hold.  When not, the call does not drop: it meets
    a null [skb->sk] in the block for detached flows exactly when the
    flow is detached and the packet, after classification, has no socket;
    in every other case it succeeds, the queue is one longer and the
    packet is in its flow with [tstamp] and [time_to_send] equal to the
    capped timestamp. *)
Theorem C8_horizon_policing (h : host) (skb : sk_buff) (q : fq_sched_data) :
  let now := ktime_get_ns h in
  sch_qlen q < limit (cfg q) →
  tstamp skb ≠ 0 →
  0 <= ktime_cache q <= now →
  0 <= horizon (cfg q) →
  now + horizon (cfg q) < tstamp skb < 2 ^ 63 →
  let r := (fq_enqueue h skb q).1 in
  let q' := (fq_enqueue h skb q).2 in
  if horizon_drop (cfg q) =? 0 then
    let capped :=
      set_time_to_send (now + horizon (cfg q))
        (set_tstamp (now + horizon (cfg q)) skb) in
    let c :=
      fq_classify h capped
        (set_st (set_stat_horizon_caps
                   (u64 (stat_horizon_caps (st q) + 1)) (st q))
           (set_ktime_cache now q)) in
    let f := c.1.1 in
    stat_horizon_caps (st q') = u64 (stat_horizon_caps (st q) + 1)
    ∧ stat_horizon_drops (st q') = stat_horizon_drops (st q)
    ∧ if (u32 (qlen (get_flow c.2 f)) >=? flow_plimit (cfg q))
         && negb (is_internal f)
      then
        r = NET_XMIT_DROP FlowLimit
        ∧ q' = set_st (set_stat_flows_plimit
                         (u64 (stat_flows_plimit (st c.2) + 1)) (st c.2)) c.2
        ∧ sch_qlen q' = sch_qlen q
        ∧ (∀ g x, x ∈ flow_packets (get_flow q' g) →
                  x ∈ flow_packets (get_flow q g))
      else
        (r = OOPS ↔
         fq_flow_is_detached (get_flow c.2 f) = true ∧ sk c.1.2 = None)
        ∧ (r ≠ OOPS →
           r = NET_XMIT_SUCCESS
           ∧ sch_qlen q' = u32 (sch_qlen q + 1)
           ∧ ∃ skb', skb' ∈ flow_packets (get_flow q' f)
                     ∧ skb_addr skb' = skb_addr skb
                     ∧ tstamp skb' = now + horizon (cfg q)
                     ∧ time_to_send skb' = now + horizon (cfg q))
  else
    r = NET_XMIT_DROP Horizon
    ∧ q' = set_st (set_stat_horizon_drops
                     (u64 (stat_horizon_drops (st q) + 1)) (st q))
             (set_ktime_cache now q)
    ∧ stat_horizon_drops (st q') = u64 (stat_horizon_drops (st q) + 1)
    ∧ stat_horizon_caps (st q') = stat_horizon_caps (st q)
    ∧ sch_qlen q' = sch_qlen q ∧ fq_root q' = fq_root q
    ∧ internal q' = internal q.
Proof.
  intros now Hlim Hts Hc Hh Hfar r q'.
  pose proof (fq_enqueue_horizon_far h skb q Hts Hc Hh Hfar) as Hhor.
  subst now. cbv zeta in Hhor.
  assert (He : fq_enqueue h skb q = (r, q')) by (subst r q'; by destruct (fq_enqueue h skb q)).
  clearbody r q'. revert He. unfold fq_enqueue.
  destruct (Z.geb_spec (sch_qlen q) (limit (cfg q))); [lia|].
  rewrite Hhor. clear Hhor.
  destruct (horizon_drop (cfg q) =? 0) eqn:Hd.
  2:{ intros [= <- <-]. done. }
  cbv zeta.
  set (capped := set_time_to_send _ (set_tstamp _ skb)).
  set (q1 := set_st _ (set_ktime_cache _ q)).
  pose proof (fq_classify_packets h capped q1) as Hpk.
  destruct (fq_classify h capped q1) as [[f skb2] q2] eqn:Hcl.
  cbn [fst snd] in *.
  apply fq_classify_frame in Hcl
    as (Hcfg & _ & Hql & _ & _ & _ & _ & Hcaps & Hdrops & Ha & Ht & Htts & _).
  change (cfg q1) with (cfg q) in Hcfg. rewrite Hcfg.
  change (sch_qlen q1) with (sch_qlen q) in Hql.
  cbn [stat_horizon_caps stat_horizon_drops st q1 set_st set_stat_horizon_caps]
    in Hcaps, Hdrops.
  destruct ((u32 (qlen (get_flow q2 f)) >=? flow_plimit (cfg q))
            && negb (is_internal f)).
  - intros [= <- <-].
    split; [by rewrite <- Hcaps|]. split; [by rewrite <- Hdrops|].
    split; [done|]. split; [done|]. split; [done|].
    intros g x. rewrite get_flow_set_st. intros Hx%Hpk.
    by rewrite (get_flow_ext q q1) in Hx.
  - set (q3 := upd_flow f (λ fl, set_qlen (s32 (qlen fl + 1)) fl) q2).
    assert (Hd3 : fq_flow_is_detached (get_flow q3 f)
                  = fq_flow_is_detached (get_flow q2 f)).
    { unfold q3. by rewrite get_upd_flow. }
    assert (H3 : st q3 = st q2 ∧ sch_qlen q3 = sch_qlen q2).
    { unfold q3. by rewrite st_upd_flow, sch_qlen_upd_flow. }
    clearbody q3. destruct H3 as [Hst3 Hql3].
    destruct (fq_flow_is_detached (get_flow q3 f)) eqn:Hdet.
    + destruct (fq_enqueue_detached h skb2 f q3) as [q5|] eqn:H5.
      * intros [= <- <-].
        pose proof (fq_enqueue_detached_frame _ _ _ _ _ H5)
          as (_ & Hst5 & Hql5 & _).
        destruct (fq_enqueue_tail_frame skb2 f q5)
          as (_ & _ & _ & _ & _ & _ & -> & ->).
        rewrite Hst5, Hst3.
        split; [done|]. split; [done|].
        split; [split; [done|]; intros [_ Hsk];
                unfold fq_enqueue_detached in H5; cbv zeta in H5;
                by rewrite Hsk in H5|].
        intros _. split; [done|]. split.
        { unfold fq_enqueue_tail. cbv zeta.
          cbn [sch_qlen set_sch_qlen].
          f_equal. f_equal. rewrite <- Hql, <- Hql3, <- Hql5.
          case_match; cbn [sch_qlen set_st]; rewrite sch_qlen_upd_flow;
            repeat case_match; cbn [sch_qlen set_co];
            by rewrite ?sch_qlen_upd_flow. }
        exists skb2. rewrite fq_enqueue_tail_flow.
        split; [apply flow_queue_add_elem | done].
      * intros [= <- <-]. rewrite Hst3.
        split; [done|]. split; [done|]. split; [|done].
        split; [|done]. intros _. split; [by rewrite <- Hd3|].
        unfold fq_enqueue_detached in H5. cbv zeta in H5.
        by destruct (sk skb2).
    + intros [= <- <-].
      destruct (fq_enqueue_tail_frame skb2 f q3)
        as (_ & _ & _ & _ & _ & _ & -> & ->).
      rewrite Hst3.
      split; [done|]. split; [done|].
      split; [split; [done|]; intros [Hdd _]; congruence|].
      intros _. split; [done|]. split.
      { unfold fq_enqueue_tail. cbv zeta.
        cbn [sch_qlen set_sch_qlen].
        f_equal. f_equal. rewrite <- Hql, <- Hql3.
        case_match; cbn [sch_qlen set_st]; rewrite sch_qlen_upd_flow;
          repeat case_match; cbn [sch_qlen set_co];
          by rewrite ?sch_qlen_upd_flow. }
      exists skb2. rewrite fq_enqueue_tail_flow.
      split; [apply flow_queue_add_elem | done].
Qed.

(** At time 5 with a horizon of 10 s, packets stamped 20 s ahead.  Under
    the default policy the packet is dropped.  After [horizon_drop] is
    cleared the packet is capped: it is queued with [time_to_send] 10 s
    and 5 ns when its flow is empty. *)
Lemma C8_horizon_policing_witness :
  let h := host_at 5 in
  let skb := pkt 100 20000000000 11 sock_A in
  let skb2 := pkt 302 20000000000 33 sock_X in
  ((sch_qlen sched0 < limit (cfg sched0)
    ∧ tstamp skb ≠ 0
    ∧ 0 <= ktime_cache sched0 <= ktime_get_ns h
    ∧ 0 <= horizon (cfg sched0)
    ∧ ktime_get_ns h + horizon (cfg sched0) < tstamp skb < 2 ^ 63)
   ∧ (fq_enqueue h skb sched0).1 = NET_XMIT_DROP Horizon
   ∧ stat_horizon_drops (st (fq_enqueue h skb sched0).2) = 1)
  ∧ ((sch_qlen sched_cap < limit (cfg sched_cap)
      ∧ tstamp skb2 ≠ 0
      ∧ 0 <= ktime_cache sched_cap <= ktime_get_ns h
      ∧ 0 <= horizon (cfg sched_cap)
      ∧ ktime_get_ns h + horizon (cfg sched_cap) < tstamp skb2 < 2 ^ 63)
     ∧ horizon_drop (cfg sched_cap) = 0
     ∧ (fq_enqueue h skb2 sched_cap).1 = NET_XMIT_SUCCESS
     ∧ stat_horizon_caps (st (fq_enqueue h skb2 sched_cap).2) = 1
     ∧ sch_qlen (fq_enqueue h skb2 sched_cap).2 = 1
     ∧ ∃ skb', skb' ∈ flow_packets
                        (get_flow (fq_enqueue h skb2 sched_cap).2 (Dyn 3000))
               ∧ skb_addr skb' = 302
               ∧ tstamp skb' = 10000000005
               ∧ time_to_send skb' = 10000000005).
Proof.
  intros h skb skb2. split.
  - assert (H1 : sch_qlen sched0 < limit (cfg sched0))
      by (vm_compute; reflexivity).
    assert (H2 : tstamp skb ≠ 0) by (vm_compute; discriminate).
    assert (H3 : 0 <= ktime_cache sched0 <= ktime_get_ns h)
      by (vm_compute; split; discriminate).
    assert (H4 : 0 <= horizon (cfg sched0)) by (vm_compute; discriminate).
    assert (H5 : ktime_get_ns h + horizon (cfg sched0) < tstamp skb < 2 ^ 63)
      by (vm_compute; split; reflexivity).
    split; [by repeat split|].
    pose proof (C8_horizon_policing h skb sched0 H1 H2 H3 H4 H5) as H.
    cbv zeta in H.
    change (horizon_drop (cfg sched0) =? 0) with false in H. cbv iota in H.
    destruct H as (Hr & _ & Hd & _). split; [exact Hr|]. rewrite Hd.
    reflexivity.
  - assert (H1 : sch_qlen sched_cap < limit (cfg sched_cap))
      by (vm_compute; reflexivity).
    assert (H2 : tstamp skb2 ≠ 0) by (vm_compute; discriminate).
    assert (H3 : 0 <= ktime_cache sched_cap <= ktime_get_ns h)
      by (vm_compute; split; discriminate).
    assert (H4 : 0 <= horizon (cfg sched_cap)) by (vm_compute; discriminate).
    assert (H5 : ktime_get_ns h + horizon (cfg sched_cap) < tstamp skb2 < 2 ^ 63)
      by (vm_compute; split; reflexivity).
    assert (Hr : (fq_enqueue h skb2 sched_cap).1 = NET_XMIT_SUCCESS)
      by (vm_compute; reflexivity).
    split; [by repeat split|]. split; [vm_compute; reflexivity|].
    split; [exact Hr|].
    pose proof (C8_horizon_policing h skb2 sched_cap H1 H2 H3 H4 H5) as H.
    cbv zeta in H.
    change (horizon_drop (cfg sched_cap) =? 0) with true in H. cbv iota in H.
    destruct H as (Hcaps & _ & H).
    match type of H with
    | if ?c then _ else _ =>
        assert (Hc : c = false) by (vm_compute; reflexivity);
        rewrite Hc in H
    end.
    destruct H as (_ & Hs).
    destruct Hs as (_ & Hq & Hex); [rewrite Hr; discriminate|].
    split; [rewrite Hcaps; vm_compute; reflexivity|].
    split; [rewrite Hq; vm_compute; reflexivity|].
    assert (Hf : (fq_classify h
              (set_time_to_send (ktime_get_ns h + horizon (cfg sched_cap))
                 (set_tstamp (ktime_get_ns h + horizon (cfg sched_cap)) skb2))
              (set_st
                 (set_stat_horizon_caps
                    (u64 (stat_horizon_caps (st sched_cap) + 1))
                    (st sched_cap))
                 (set_ktime_cache (ktime_get_ns h) sched_cap))).1.1 = Dyn 3000)
      by (vm_compute; reflexivity).
    rewrite Hf in Hex. exact Hex.
Defined.

(** C8, as stated, fails: with [horizon_drop] clear and the flow of the
    packet at the per-flow limit, the packet stamped beyond the horizon is
    capped and counted in [stat_horizon_caps], and then dropped at the
    per-flow limit: it is not queued. *)
Lemma C8_counterexample :
  let h := host_at 5 in
  let skb := pkt 302 20000000000 33 sock_X in
  let q := sched_cap_full in
  let r := (fq_enqueue h skb q).1 in
  let q' := (fq_enqueue h skb q).2 in
  horizon_drop (cfg q) = 0
  ∧ tstamp skb ≠ 0
  ∧ ktime_get_ns h + horizon (cfg q) < tstamp skb
  ∧ stat_horizon_caps (st q') = stat_horizon_caps (st q) + 1
  ∧ r = NET_XMIT_DROP FlowLimit
  ∧ sch_qlen q' = sch_qlen q
  ∧ (skb_addr <$> flow_packets (get_flow q' (Dyn 3000))) = [300]
  ∧ ¬ (r = NET_XMIT_SUCCESS
       ∧ ∃ g skb', skb' ∈ flow_packets (get_flow q' g)
                   ∧ skb_addr skb' = skb_addr skb).
Proof.
  intros h skb q r q'.
  assert (Hr : r = NET_XMIT_DROP FlowLimit) by (vm_compute; reflexivity).
  split; [vm_compute; reflexivity|]. split; [vm_compute; discriminate|].
  split; [vm_compute; reflexivity|]. split; [vm_compute; reflexivity|].
  split; [exact Hr|]. split; [vm_compute; reflexivity|].
  split; [vm_compute; reflexivity|].
  intros [Hs _]. rewrite Hr in Hs. discriminate.
Qed.

(** ** How flows reach [co_flows] *)

Lemma co_flows_set_head_list hd v q :
  co_flows (set_head_list hd v q) = if is_co hd then v else co_flows q.
Proof. by destruct hd. Qed.

Lemma co_flows_pop_head hd q :
  co_flows (pop_head hd q)
  = if is_co hd then tail (co_flows q) else co_flows q.
Proof. unfold pop_head. rewrite co_flows_set_head_list. by destruct hd. Qed.

Lemma co_flows_fq_flow_add_tail hd f q :
  co_flows (fq_flow_add_tail hd f q)
  = if is_co hd then co_flows q ++ [f] else co_flows q.
Proof.
  unfold fq_flow_add_tail. rewrite co_flows_set_head_list, co_flows_upd_flow.
  destruct hd; cbn [is_co head_list]; by rewrite ?co_flows_upd_flow.
Qed.

Lemma co_flows_fq_flow_set_throttled q f :
  co_flows (fq_flow_set_throttled q f) = co_flows q.
Proof.
  unfold fq_flow_set_throttled. cbv zeta.
  case_match; cbn [co_flows set_time_next_delayed_flow];
    by rewrite co_flows_upd_flow.
Qed.

Lemma co_flows_fq_dequeue_skb q f skb :
  co_flows (fq_dequeue_skb q f skb) = co_flows q.
Proof. unfold fq_dequeue_skb. cbv zeta. cbn [co_flows set_sch_qlen].
  by rewrite co_flows_upd_flow. Qed.

Lemma co_flows_fq_dequeue_pace now q f skb :
  co_flows (fq_dequeue_pace now q f skb) = co_flows q.
Proof.
  unfold fq_dequeue_pace. cbv zeta.
  repeat case_match; simplify_eq; cbn [co_flows set_st];
    rewrite ?co_flows_upd_flow; cbn [co_flows set_st];
    rewrite ?co_flows_upd_flow; done.
Qed.

Lemma co_flows_fq_flow_unset_throttled q f :
  co_flows (fq_flow_unset_throttled q f) = co_flows q.
Proof.
  unfold fq_flow_unset_throttled. cbv zeta.
  rewrite co_flows_fq_flow_add_tail. cbn [is_co]. by destruct f.
Qed.

Lemma co_flows_fq_check_throttled_loop n now : ∀ q,
  co_flows (fq_check_throttled_loop n now q) = co_flows q.
Proof.
  induction n as [|n IH]; intros q; simpl; [done|].
  destruct (delayed q) as [|f l]; [done|]. case_match; [done|].
  by rewrite IH, co_flows_fq_flow_unset_throttled.
Qed.

Lemma co_flows_fq_check_throttled q now :
  co_flows (fq_check_throttled q now) = co_flows q.
Proof.
  unfold fq_check_throttled. case_match; [done|]. cbv zeta.
  by rewrite co_flows_fq_check_throttled_loop.
Qed.

Lemma co_flows_fq_enqueue h skb q :
  co_flows (fq_enqueue h skb q).2 = co_flows q.
Proof.
  unfold fq_enqueue. destruct (_ >=? _); [done|].
  assert (H1 : co_flows (fq_enqueue_horizon h skb q).2 = co_flows q).
  { unfold fq_enqueue_horizon. by repeat case_match. }
  destruct (fq_enqueue_horizon h skb q) as [[skb1|] q1]; cbn [snd] in *;
    [|done].
  rewrite <- H1.
  destruct (fq_classify h skb1 q1) as [[f skb2] q2] eqn:Hcl.
  apply fq_classify_frame in Hcl as (_ & _ & _ & _ & <- & _).
  destruct (_ && _); [done|]. cbv zeta.
  set (q3 := upd_flow f _ q2).
  assert (H3 : co_flows q3 = co_flows q2) by apply co_flows_upd_flow.
  clearbody q3. rewrite <- H3.
  destruct (fq_flow_is_detached (get_flow q3 f)).
  - destruct (fq_enqueue_detached h skb2 f q3) as [q5|] eqn:H5; [|done].
    cbn [snd].
    apply fq_enqueue_detached_frame in H5 as (_ & _ & _ & _ & <- & _).
    by destruct (fq_enqueue_tail_frame skb2 f q5) as (_ & _ & _ & -> & _).
  - cbn [snd].
    by destruct (fq_enqueue_tail_frame skb2 f q3) as (_ & _ & _ & -> & _).
Qed.

(** One pass: [co_flows] gets the first flow of the list the pass starts
    from when that flow is promoted, and otherwise stays or loses its
    first flow. *)
Lemma co_flows_fq_dequeue_pass h now q :
  let q' := pass_state (fq_dequeue_pass h now q) in
  (∃ hd f rest, fq_select_head q = Some hd ∧ head_list hd q = f :: rest
                ∧ is_co hd = false ∧ head_is_coflow q f = true
                ∧ co_flows q' = co_flows q ++ [f])
  ∨ co_flows q' = co_flows q
  ∨ (fq_select_head q = Some CO_FLOWS ∧ co_flows q' = tail (co_flows q)).
Proof.
  intros q'. subst q'. unfold fq_dequeue_pass.
  destruct (fq_select_head q) as [hd|] eqn:Hsel; cbn [pass_state].
  2:{ right. left. by destruct (negb _). }
  destruct (head_list hd q) as [|f rest] eqn:Hhd; [by right; left|].
  fold (head_is_coflow q f).
  destruct (head_is_coflow q f && negb (is_co hd)) eqn:Hprom;
    cbn [pass_state].
  { left. apply andb_prop in Hprom as [Hf Hc]. apply negb_true_iff in Hc.
    exists hd, f, rest. repeat (split; [done|]).
    cbn [co_flows set_co]. unfold Promotecoflows.
    rewrite co_flows_fq_flow_add_tail, co_flows_pop_head, Hc. done. }
  right.
  destruct ((ucounter (co q) =? 2) && negb (is_co hd)); cbn [pass_state];
    [by left|].
  destruct ((ucounter (co q) =? 0) && is_co hd); cbn [pass_state];
    [by left|].
  match goal with
  | |- context [credit (get_flow ?q1' f) <=? 0] => set (q1 := q1')
  end.
  assert (H1 : co_flows q1 = co_flows q).
  { unfold q1. by destruct (negb _ && is_co hd). }
  clearbody q1.
  assert (Hpop : ∀ q2, co_flows q2 = co_flows q →
    co_flows (pop_head hd q2) = co_flows q
    ∨ (Some hd = Some CO_FLOWS
       ∧ co_flows (pop_head hd q2) = tail (co_flows q))).
  { intros q2 H2. rewrite co_flows_pop_head, H2.
    destruct hd; cbn [is_co]; [by left|by left|by right]. }
  destruct (credit (get_flow q1 f) <=? 0); cbn [pass_state].
  { rewrite co_flows_fq_flow_add_tail. cbn [is_co]. apply Hpop.
    by rewrite co_flows_upd_flow. }
  destruct (fq_peek (get_flow q1 f)) as [skb|].
  - cbv zeta. destruct (now <? _); cbn [pass_state].
    + rewrite co_flows_fq_flow_set_throttled, co_flows_upd_flow.
      by apply Hpop.
    + left. rewrite co_flows_fq_dequeue_pace, co_flows_fq_dequeue_skb.
      by destruct (s64 _ >? 0).
  - cbv zeta.
    destruct ((bool_decide (hd = NEW_FLOWS) || is_co hd) && _);
      cbn [pass_state].
    + rewrite co_flows_fq_flow_add_tail. cbn [is_co]. by apply Hpop.
    + cbn [co_flows set_inactive_flows]. rewrite co_flows_upd_flow.
      by apply Hpop.
Qed.

Lemma co_flows_fq_resize h q log :
  co_flows (fq_resize h q log).2 = co_flows q.
Proof.
  unfold fq_resize. destruct (negb _ && _); [done|].
  destruct (negb (kvmalloc_ok h)); [done|]. cbn [snd].
  by destruct (fq_root_null q).
Qed.

(** X24.  Flows reach [co_flows] by promotion only.  [fq_enqueue] leaves
    [co_flows] as it is, and so do [fq_check_throttled] and [fq_resize];
    [fq_reset] leaves it as it is or empties it; a pass of the loop of
    [fq_dequeue]
    appends to it the first flow of the list it starts from when that list
    is another one and the flow is a co-flow, and otherwise leaves it as
    it is or takes its first flow off. *)
Theorem co_flows_grow_by_promotion_only :
  (∀ h skb q, co_flows (fq_enqueue h skb q).2 = co_flows q)
  ∧ (∀ q now, co_flows (fq_check_throttled q now) = co_flows q)
  ∧ (∀ h q log, co_flows (fq_resize h q log).2 = co_flows q)
  ∧ (∀ q, co_flows (fq_reset q) = co_flows q ∨ co_flows (fq_reset q) = [])
  ∧ (∀ h now q,
       let q' := pass_state (fq_dequeue_pass h now q) in
       (∃ hd f rest, fq_select_head q = Some hd ∧ head_list hd q = f :: rest
                     ∧ is_co hd = false ∧ head_is_coflow q f = true
                     ∧ co_flows q' = co_flows q ++ [f])
       ∨ co_flows q' = co_flows q
       ∨ (fq_select_head q = Some CO_FLOWS
          ∧ co_flows q' = tail (co_flows q))).
Proof.
  split; [apply co_flows_fq_enqueue|].
  split; [apply co_flows_fq_check_throttled|].
  split; [apply co_flows_fq_resize|]. split.
  - intros q. unfold fq_reset. cbv zeta.
    destruct (fq_root_null _); [by left | by right].
  - apply co_flows_fq_dequeue_pass.
Qed.
